(* ===== verification/_CoqProject ===== *)
-Q . S2P
Prelude.v
LockManager.v
LockManagerInv.v
LockManagerThms.v
LockManagerSeq.v
Json.v
JsonThms.v
Libs.v
Fencing.v
SaferTypes.v
Effects.v
Client.v
Sharing.v
Protocol.v
LocalEnv.v
Pool.v
Strategies.v
FileModel.v
FileThms.v
CreateThms.v
AccountThms.v
ShareThms.v
RevokeThms.v
ClientRuns.v
LockedOps.v
ConcurrentThms.v
ShareRuns.v
ConcurrentRuns.v
FenceStore.v
MongoFence.v
Coordinator.v
CoordinatorThms.v
CoordinatorRpc.v
CoordinatorRuns.v
MongoStore.v
MongoThms.v
MongoRuns.v
RemoteGuard.v
RemoteThms.v
RemoteEnv.v
RemoteRefines.v
RemoteRuns.v
Worker.v
Startup.v
Loadgen.v
LoadgenThms.v
Processes.v
ProcessThms.v
Barrier.v
SaferWorker.v
SaferWorkerThms.v
SaferWorkerRemote.v
CrossRuns.v
ToolRuns.v
