(* ===== verification/Prelude.v ===== *)
(** * SAFER Distributed: a verification development

    SAFER is an end-to-end encrypted file store with sharing and revocation
    (src/client/client.go). Its distributed version runs the same client in
    several worker processes that share one MongoDB deployment and one lock
    coordinator. The program's parts, and how they meet:

    - a client operation (StoreFile, AppendToFile, LoadFile, CreateInvitation,
      AcceptInvitation, RevokeAccess, ...) opens a guard, takes a namespace lock
      and a file lock, reads and decrypts objects, and commits its writes in one
      storage transaction carrying the guard's fencing grants;
    - the guard comes from the process-local lock manager
      (src/client/lockmanager, src/client/coordination) or from the gRPC
      coordinator (src/client/coordination/grpccoord), which runs that same lock
      manager, hands out durable fencing tokens for exclusive locks, and takes
      locks back when a lease lapses;
    - storage is userlib's in-memory maps (src/client/storage) or MongoDB
      (src/client/storage/mongostore), where a commit proves the fencing grants
      against the documents the coordinator's fence store
      (src/client/fencing/mongofence) maintains;
    - a worker (src/cmd/worker) serves those operations over gRPC, admitting a
      bounded number of authentications at once; the load generator
      (src/cmd/loadgen) drives workers and checks what they stored;
    - every process sets up telemetry (src/internal/telemetry), opens its
      connections and gives them back; a harness (src/integration/crossprocess)
      runs single-operation workers (src/cmd/saferworker) that meet at a barrier.

    ** How code becomes definitions

    Pure Go functions are Rocq functions with the same name; [(T, error)] is
    [result T]; every error message the code builds is built. Every section of
    code between two points where a mutex is released is one function on an
    explicit state, and goroutines are step relations over those functions
    ([lm_step], [srv_step], [g_step], [WithTransaction], [pool_step],
    [service_step], [Loadgen.step], [Barrier.step]). A process is a tree of calls
    to its libraries and its operating system ([Processes.Sys.proc]). Objects shared through
    Go pointers are addresses in a heap. A client operation is a tree of
    interactions with its environment ([prog]), run against a handler. 64-bit
    integers are N or Z with their wrap-around written out where the code can
    reach it. JSON is modelled on byte strings, as encoding/json of Go 1.20.

    ** The files

    - Prelude: errors, results, integers, slices, tactics, shared lemmas.
    - LockManager (lockmanager.go), LockManagerInv, LockManagerThms: the lock
      manager, its invariant, and its theorems over every interleaving: mutual
      exclusion, fairness, no lost wake-up, no stranded waiter, deadlock freedom
      for callers that lock a namespace before a file, exact effects, no leak.
      LockManagerSeq: its use by one transaction.
    - Json, JsonThms: encoding/json and its round trips. Libs: google/uuid,
      userlib, encoding/hex, strconv.Quote; the first two are parameters.
    - Fencing (fencing.go), FenceStore (the interface the coordinator uses):
      tokens only grow and a stale grant stays stale. MongoFence
      (mongofence/store.go): the filters and updates the store sends to a
      collection of BSON documents satisfy the interface's laws even when a
      statement that failed took effect.
    - SaferTypes (the structs), Effects (interactions), Client (client.go up to
      line 2690), Sharing (client.go from 2690, diagnostics.go).
    - Protocol: whatever the environment answers, an operation follows strict
      two-phase locking and commits at most once, under its locks, with its
      grants; it always releases.
    - LocalEnv (storage.go, userlib_store.go, coordination.go): the in-memory
      environment. FileModel, FileThms, CreateThms, AccountThms, ShareThms,
      RevokeThms: what the operations compute there, and the abstract state of a
      shared file they refine. ClientRuns, ShareRuns: concrete runs.
    - Pool: operations of several goroutines interleaved step by step over any
      locks that satisfy the class [LockingLaws], and the linearization argument.
      Strategies (client.go, lines 949-1074): the lock manager and the
      benchmark's global mutex as instances of the class, and the strategy
      without coordination. LockedOps: the operations as programs for the pool.
      A commit is one step of the pool: the in-memory store applies its writes
      one by one, but other operations read what a commit writes only under the
      lock the committing operation holds.
      ConcurrentThms: every interleaving of loads, metadata reads, appends,
      overwrites and revocations on a shared file is explained by one order of the
      calls that took effect, which respects real time; a revocation is final; the
      version counts the writes. ConcurrentRuns: an interleaving over the lock
      manager, and one without coordination that loses an append.
    - Coordinator (server.go, transactions.go); CoordinatorThms: invariants over
      every interleaving of calls, teardowns, retries and sweeps; CoordinatorRpc:
      each RPC on each branch; CoordinatorRuns: concrete runs, and the
      interleaving in which an Acquire is granted after its transaction ended.
    - MongoStore (store.go, atomic.go, config.go), MongoThms: a transaction is
      all or nothing, at a moment when all its grants are current, and refines
      the in-memory store; a stale writer writes nothing. MongoRuns: a map-backed
      MongoDB that satisfies the laws.
    - RemoteGuard (grpccoord/client.go), RemoteThms: the guard and its heartbeat.
      RemoteEnv, RemoteRefines: each call of the client package over guard,
      coordinator and MongoDB returns the value, and leaves the objects, of the
      same call over the local lock manager and the in-memory store, so the
      theorems on files hold of the deployment, when it is up and otherwise idle.
      RemoteRuns: a concrete deployment.
    - Worker (src/cmd/worker): the handlers, the admission limiter under every
      interleaving of requests, readiness and configuration. Startup
      (src/cmd/coordinator): configuration, and which processes start. Loadgen,
      LoadgenThms (src/cmd/loadgen): the concurrent run, its termination and
      counters, what the oracle reports of lost, repeated and unanswered appends,
      and the percentiles. ToolRuns: concrete runs.
    - Processes (telemetry.go, the [run] functions of src/cmd/worker,
      src/cmd/coordinator and src/cmd/loadgen, dial.go, Open, Close and Dial of the
      stores and of the coordination client), ProcessThms: on every path a process
      serves only from what has answered, closes nothing that handlers it has not
      stopped use, and gives everything back, its listener included; handlers may
      outlive what they use only after a failed Serve or a stop by force.
      Telemetry is installed completely or not at all.
    - Barrier (harness.go, [waitAtBarrier]): the rendezvous of worker processes
      under every interleaving, with and without faults. SaferWorker,
      SaferWorkerThms (src/cmd/saferworker, harness.go): a worker from its command
      line to its result line and back to the harness. SaferWorkerRemote: the same
      worker with its client on the coordinator and MongoDB. CrossRuns: concrete
      runs.

    ** Parameters and their laws

    google/uuid ([UuidLib], [UuidLaws]), userlib's cryptography ([Userlib],
    [UserlibLaws]), crypto/x509 ([X509], [X509Laws]), MongoDB and its driver
    ([Statements], [Transactions], [MongoLaws]; [Up] for a deployment in which
    statements succeed; [Collection], [CollectionLaws] for single-document updates
    of the fence collection), time.ParseDuration and os.Getenv.
    [MongoLaws] counts a delete of an absent document as a write that conflicts
    with a concurrent insert, which MongoDB need not notice; what the client
    deletes was written under a UUID drawn for it, and is written again, if ever,
    only under the file lock the deleting operation holds. The laws are functional (decryption inverts
    encryption, a signature verifies, a conflicting commit fails): secrecy and
    unforgeability are not modelled. Toy, MapFences, MapCollection
    and MapMongo instantiate them.

    ** Bounds and fuel

    [newBaseChunkUUID] has fuel one more than the number of old chunks, enough
    whenever the drawn UUIDs are distinct; Go's loop has no bound. The JSON parser
    has the length of its input as fuel, and encoding/json's own nesting limit;
    strings.TrimSpace has the length of its argument, since each round removes a
    byte. Percentile ranks are compared for up to 1000 samples.
    Every other recursion is structural.

    ** Not modelled

    Log lines, metrics and spans; the test hooks inside client operations; the
    goroutine shutdown channel of the coordinator server; the transport of the
    gRPC stubs and the inside of the gRPC server; flag parsing of the services (the parsed values
    are arguments; the test worker's is modelled); generated protobuf code; the
    benchmark command, which measures the modelled strategies; building, spawning
    and killing processes in the harness; Kubernetes and Docker files. Concurrent
    invitations and acceptances are covered by the locking protocol only, not by
    file ConcurrentThms. *)

From stdpp Require Export base gmap strings list fin_maps pretty.

(** ** Errors and results

    A Go function that returns [(T, error)] is modelled by [result T]; the Go
    error value is abstracted to the shape the code inspects: a message, the
    two context errors, the fencing sentinel, a gRPC status, or a wrapped
    error ([fmt.Errorf("...: %w", err)]). *)
Inductive error :=
  | EMsg (msg : string)
  | ECanceled
  | EDeadlineExceeded
  | EStaleFence
  | EStatus (code : string) (msg : string)
  | EWrap (prefix : string) (e : error).

#[export] Instance error_eq_dec : EqDecision error.
Proof. solve_decision. Defined.

(** [errors.Is] for the sentinels the program compares against. *)
Fixpoint errors_Is (e target : error) : bool :=
  bool_decide (e = target) ||
  match e with EWrap _ e' => errors_Is e' target | _ => false end.

(** [err.Error()] *)
Fixpoint error_Error (e : error) : string :=
  match e with
  | EMsg msg => msg
  | ECanceled => "context canceled"
  | EDeadlineExceeded => "context deadline exceeded"
  | EStaleFence =>
      "fencing: stale fencing token; this transaction no longer holds the lock"
  | EStatus code msg => "rpc error: code = " +:+ code +:+ " desc = " +:+ msg
  | EWrap prefix e => prefix +:+ ": " +:+ error_Error e
  end.

Inductive result (A : Type) :=
  | Ok (a : A)
  | Err (e : error).
Arguments Ok {A} _.
Arguments Err {A} _.

#[export] Instance result_eq_dec {A} `{EqDecision A} : EqDecision (result A).
Proof. solve_decision. Defined.

#[export] Instance result_ret : MRet result := @Ok.
#[export] Instance result_bind : MBind result := λ A B f r,
  match r with Ok a => f a | Err e => Err e end.
#[export] Instance result_fmap : FMap result := λ A B f r,
  match r with Ok a => Ok (f a) | Err e => Err e end.

Definition is_ok {A} (r : result A) : bool :=
  match r with Ok _ => true | Err _ => false end.

(** [check b msg] is the early return [if b { return errors.New(msg) }]. *)
Definition fail_if (b : bool) (msg : string) : result unit :=
  if b then Err (EMsg msg) else Ok ().

Definition of_option {A} (msg : string) (o : option A) : result A :=
  match o with Some a => Ok a | None => Err (EMsg msg) end.

(** ** Machine integers

    [uint64] values are [N]; [max_uint64] is Go's [^uint64(0)], and [u64_add]
    is the wrapping addition of the language. *)
Definition max_uint64 : N := 18446744073709551615.
Definition u64_add (a b : N) : N := ((a + b) mod 18446744073709551616)%N.

Lemma u64_add_small a b :
  (a + b ≤ max_uint64)%N → u64_add a b = (a + b)%N.
Proof. unfold u64_add, max_uint64. intros. apply N.mod_small. lia. Qed.

(** ** Slices

    A Go [[]byte] is [option string]: [None] is the nil slice, which
    [encoding/json] writes as [null]; [Some s] holds the bytes. *)
Definition slice : Type := option string.
Definition bytes_of (b : slice) : string := default "" b.
Definition slen (b : slice) : nat := String.length (bytes_of b).

(** ** Automation shared by the components *)
Create HintDb safer discriminated.
#[export] Hint Constants Opaque : safer.

(** Case analysis on every [if]/[match] scrutinee of the goal, keeping the
    equations, followed by constructor simplification. *)
Ltac crush_match :=
  repeat (case_match; simplify_eq/=; try done).

(** Split hypotheses that are conjunctions or existentials. *)
Ltac split_hyps :=
  repeat match goal with
  | H : _ ∧ _ |- _ => destruct H
  | H : ∃ _, _ |- _ => destruct H
  end.

(** Inversion of a successful monadic step of [result]. *)
Lemma bind_Ok {A B} (r : result A) (f : A → result B) b :
  (r ≫= f) = Ok b ↔ ∃ a, r = Ok a ∧ f a = Ok b.
Proof. destruct r; simpl; naive_solver. Qed.

Lemma fail_if_Ok b msg u : fail_if b msg = Ok u ↔ b = false.
Proof. destruct b, u; simpl; naive_solver. Qed.

Ltac invert_result :=
  repeat match goal with
  | H : (_ ≫= _) = Ok _ |- _ =>
      apply bind_Ok in H as (? & ? & H)
  | H : fail_if _ _ = Ok _ |- _ => apply fail_if_Ok in H
  | H : mret ?a = Ok ?b |- _ => change (Ok a = Ok b) in H
  | H : Ok _ = Ok _ |- _ => injection H as H
  | H : Err _ = Ok _ |- _ => discriminate H
  end.

(** The next step of a computation that succeeds. *)
Ltac ok_step := apply bind_Ok; eexists; split.
Ltac ok_guard := apply bind_Ok; exists (); split; [apply fail_if_Ok|].

(** ** Lists *)

Lemma elem_of_split_first {A} `{EqDecision A} (x : A) l :
  x ∈ l → ∃ l1 l2, l = l1 ++ x :: l2 ∧ x ∉ l1.
Proof.
  induction l as [|y l IH]; [set_solver|].
  intros Hx. destruct (decide (y = x)) as [->|Hne].
  - exists [], l. set_solver.
  - assert (x ∈ l) as (l1 & l2 & -> & ?)%IH by set_solver.
    exists (y :: l1), l2. set_solver.
Qed.

Lemma filter_none {A} (P : A → Prop) `{∀ x, Decision (P x)} l :
  (∀ x, x ∈ l → ¬ P x) → filter P l = [].
Proof.
  induction l as [|x l IH]; intros Hl; [done|].
  rewrite filter_cons, decide_False by (apply Hl; by left).
  apply IH. intros y Hy. apply Hl. by right.
Qed.

(** An element is found exactly once by a key that is unique in the list. *)
Lemma filter_unique {A B} `{EqDecision B} (f : A → B) l x :
  NoDup (f <$> l) → x ∈ l → filter (λ y, f y = f x) l = [x].
Proof.
  induction l as [|y l IH]; [set_solver|].
  rewrite fmap_cons. intros [Hy Hnd]%NoDup_cons Hin.
  rewrite filter_cons. apply elem_of_cons in Hin as [->|Hin].
  - rewrite decide_True by done. f_equal. apply filter_none.
    intros z Hz Heq. apply Hy. rewrite <-Heq. by apply list_elem_of_fmap_2.
  - rewrite decide_False; [by apply IH|].
    intros Heq. apply Hy. rewrite Heq. by apply list_elem_of_fmap_2.
Qed.

(** ** Sums *)

Lemma sum_replicate {A} (f : A → nat) n x : (sum_list_with f (replicate n x) = n * f x)%nat.
Proof. induction n as [|n IH]; cbn; [done|]. lia. Qed.

Lemma sum_zero {A} (f : A → nat) l : Forall (λ x, f x = 0%nat) l → sum_list_with f l = 0%nat.
Proof. induction 1 as [|x l Hx _ IH]; cbn; [done|lia]. Qed.

(** A sum over a list in which one element changes. *)
Lemma sum_insert {A} (f : A → nat) l i x y :
  l !! i = Some x → (sum_list_with f (<[i := y]> l) + f x = sum_list_with f l + f y)%nat.
Proof.
  revert i. induction l as [|z l IH]; intros [|i] Hi; [done|done| |].
  - injection Hi as ->. cbn. lia.
  - specialize (IH i Hi). change (<[S i := y]> (z :: l)) with (z :: <[i := y]> l).
    cbn [sum_list_with]. lia.
Qed.

(** ** Reachability *)

(** An invariant of the initial state preserved by every step holds in every
    reachable state. *)
Lemma rtc_invariant {A} (R : relation A) (P : A → Prop) :
  (∀ x y, P x → R x y → P y) → ∀ x y, rtc R x y → P x → P y.
Proof. intros Hstep x y. induction 1; eauto. Qed.
