(* ===== verification/LockManager.v ===== *)
(** * The lock manager (src/client/lockmanager/lockmanager.go)

    The shared/exclusive lock manager underneath strict two-phase locking.
    Every critical section of the Go code (the code between two points where
    [lm.mu] is released, [sync.Cond.Wait] included) is one executable
    function on [LMState]; goroutines interleave only between them, which is
    the relation [lm_step].

    Shared mutable objects keep their identity: a [*lockState] and a
    [*lockRequest] are pointers ([ptr]); a parked goroutine remembers the
    [*lockState] it waits on, exactly as the closure of [AcquireContext]
    does, so a record reclaimed too early would strand it. *)

From S2P Require Import Prelude.
Open Scope N_scope.

Module LM.

(** ** Data *)

Abbreviation ResourceType := N (only parsing).
Definition NamespaceResource : ResourceType := 0.
Definition FileResource : ResourceType := 1.

Record ResourceID := mkResourceID { Type_ : ResourceType; Key : string }.

(** [%v] and [%+v] of a [ResourceID] *)
Definition fmt_v (r : ResourceID) : string :=
  "{" +:+ pretty (Type_ r) +:+ " " +:+ Key r +:+ "}".
Definition fmt_plus_v (r : ResourceID) : string :=
  "{Type:" +:+ pretty (Type_ r) +:+ " Key:" +:+ Key r +:+ "}".

#[export] Instance ResourceID_eq_dec : EqDecision ResourceID.
Proof. solve_decision. Defined.
#[export] Program Instance ResourceID_countable : Countable ResourceID :=
  inj_countable' (λ r, (Type_ r, Key r)) (λ p, mkResourceID p.1 p.2) _.
Next Obligation. by intros []. Qed.

Abbreviation LockMode := N (only parsing).
Definition SharedLock : LockMode := 0.
Definition ExclusiveLock : LockMode := 1.

Definition LockMode_String (m : LockMode) : string :=
  if decide (m = SharedLock) then "S"
  else if decide (m = ExclusiveLock) then "X" else "?".

Abbreviation TxnID := N (only parsing).

Abbreviation ptr := N (only parsing).

(** [lockRequest]: [req_id] is the pointer identity of the request; its
    mutable [cancelled] field is membership of [req_id] in [cancelled]. *)
Record lockRequest := mkReq { req_id : ptr; req_txn : TxnID; req_mode : LockMode }.

#[export] Instance lockRequest_eq_dec : EqDecision lockRequest.
Proof. solve_decision. Defined.

Record lockState := mkLS {
  sharedHolders : gset TxnID;
  hasExclusive : bool;
  exclusiveHolder : TxnID;
  queue : list lockRequest }.

Definition newLockState : lockState := mkLS ∅ false 0 [].

(** A goroutine inside the [for] loop of [AcquireContext]: its local
    variables, and whether it is parked in [ls.cond.Wait()]. *)
Record waiter := mkWaiter {
  w_req : lockRequest; w_ls : ptr; w_resource : ResourceID; w_awake : bool }.

(** The manager's maps, the heap of [*lockState] records, the goroutines
    blocked in [AcquireContext], and the watcher goroutines of cancellable
    contexts (request to the lock state it will broadcast on). *)
Record LMState := mkLM {
  resources : gmap ResourceID ptr;
  held : gmap TxnID (gmap ResourceID LockMode);
  states : gmap ptr lockState;
  waiters : gmap ptr waiter;
  cancelled : gset ptr;
  watchers : gmap ptr ptr;
  next_ptr : ptr }.

Definition NewLockManager : LMState := mkLM ∅ ∅ ∅ ∅ ∅ ∅ 1.

(** A [context.Context] as this package sees it: [ctx.Err()] at the call, and
    whether [ctx.Done()] is non-nil. *)
Record Ctx := mkCtx { ctx_Err : option error; ctx_cancellable : bool }.
#[export] Instance Ctx_eq_dec : EqDecision Ctx.
Proof. solve_decision. Defined.
Definition Background : Ctx := mkCtx None false.

Inductive outcome :=
  | Returned (err : option error)
  | Parked.

#[export] Instance outcome_eq_dec : EqDecision outcome.
Proof. solve_decision. Defined.

(** ** Operations *)

Definition deref (st : LMState) (p : ptr) : lockState :=
  default newLockState (states st !! p).

Definition set_ls (p : ptr) (ls : lockState) (st : LMState) : LMState :=
  mkLM (resources st) (held st) (<[p := ls]> (states st)) (waiters st)
    (cancelled st) (watchers st) (next_ptr st).

Definition set_waiters (ws : gmap ptr waiter) (st : LMState) : LMState :=
  mkLM (resources st) (held st) (states st) ws (cancelled st) (watchers st)
    (next_ptr st).

Definition set_held (h : gmap TxnID (gmap ResourceID LockMode)) (st : LMState) : LMState :=
  mkLM (resources st) h (states st) (waiters st) (cancelled st) (watchers st)
    (next_ptr st).

Definition set_resources (rs : gmap ResourceID ptr) (st : LMState) : LMState :=
  mkLM rs (held st) (states st) (waiters st) (cancelled st) (watchers st)
    (next_ptr st).

(** [ls.cond.Broadcast()]: every goroutine parked on this lock state becomes
    runnable. *)
Definition wake (p : ptr) (w : waiter) : waiter :=
  if decide (w_ls w = p)
  then mkWaiter (w_req w) (w_ls w) (w_resource w) true else w.

Definition Broadcast (p : ptr) (st : LMState) : LMState :=
  set_waiters (wake p <$> waiters st) st.

(** The fairness loop of [canGrant]: scan the queue up to [req]. *)
Fixpoint aheadShared (q : list lockRequest) (req : lockRequest) : bool :=
  match q with
  | [] => true
  | other :: q' =>
      if decide (req_id other = req_id req) then true
      else if decide (req_mode other = SharedLock ∧ req_mode req = SharedLock)
      then aheadShared q' req else false
  end.

Definition canGrant (ls : lockState) (req : lockRequest) : bool :=
  if decide (req_mode req = ExclusiveLock) then
    if hasExclusive ls || bool_decide (sharedHolders ls ≠ ∅) then false
    else aheadShared (queue ls) req
  else
    if hasExclusive ls then false else aheadShared (queue ls) req.

Fixpoint removeFromQueue (q : list lockRequest) (req : lockRequest) : list lockRequest :=
  match q with
  | [] => []
  | other :: q' =>
      if decide (req_id other = req_id req) then q'
      else other :: removeFromQueue q' req
  end.

Definition set_queue (q : list lockRequest) (ls : lockState) : lockState :=
  mkLS (sharedHolders ls) (hasExclusive ls) (exclusiveHolder ls) q.

Definition isIdle (ls : lockState) : bool :=
  negb (hasExclusive ls) && bool_decide (sharedHolders ls = ∅)
    && bool_decide (queue ls = []).

Definition sweepIfIdle (resource : ResourceID) (p : ptr) (st : LMState) : LMState :=
  if isIdle (deref st p)
  then set_resources (delete resource (resources st)) st else st.

(** The holder bookkeeping of a grant. *)
Definition addHolder (req : lockRequest) (ls : lockState) : lockState :=
  if decide (req_mode req = ExclusiveLock)
  then mkLS (sharedHolders ls) true (req_txn req) (queue ls)
  else mkLS ({[req_txn req]} ∪ sharedHolders ls) (hasExclusive ls)
         (exclusiveHolder ls) (queue ls).

Definition txnLocks (st : LMState) (txn : TxnID) : gmap ResourceID LockMode :=
  default ∅ (held st !! txn).

(** One iteration of the [for] loop of [AcquireContext], run with [lm.mu]
    held, up to the return or to [cond.Wait]; [ctxErr] is [ctx.Err()]. *)
Definition acquire_iteration (w : waiter) (ctxErr : option error) (st : LMState)
    : LMState * outcome :=
  let req := w_req w in
  let p := w_ls w in
  let ls := deref st p in
  if decide (req_id req ∈ cancelled st) then
    let st := set_ls p (set_queue (removeFromQueue (queue ls) req) ls) st in
    let st := set_waiters (delete (req_id req) (waiters st)) st in
    let st := Broadcast p st in
    let st := sweepIfIdle (w_resource w) p st in
    (st, Returned (Some (default ECanceled ctxErr)))
  else if canGrant ls req then
    let ls := set_queue (removeFromQueue (queue ls) req) ls in
    let st := set_ls p (addHolder req ls) st in
    let st := set_held (<[req_txn req :=
        <[w_resource w := req_mode req]> (txnLocks st (req_txn req))]> (held st)) st in
    let st := set_waiters (delete (req_id req) (waiters st)) st in
    (Broadcast p st, Returned None)
  else
    (set_waiters (<[req_id req :=
        mkWaiter req p (w_resource w) false]> (waiters st)) st, Parked).

(** [lm.resources[resource]], allocating the record on first use. *)
Definition getLockState (resource : ResourceID) (st : LMState) : LMState * ptr :=
  match resources st !! resource with
  | Some p => (st, p)
  | None =>
      let p := next_ptr st in
      (mkLM (<[resource := p]> (resources st)) (held st)
         (<[p := newLockState]> (states st)) (waiters st) (cancelled st)
         (watchers st) (p + 1), p)
  end.

(** [ls.queue = append(ls.queue, req)] for a fresh request, and the watcher
    goroutine when the context can be cancelled. *)
Definition enqueue (ctx : Ctx) (txn : TxnID) (resource : ResourceID) (mode : LockMode)
    (p : ptr) (st : LMState) : LMState * waiter :=
  let req := mkReq (next_ptr st) txn mode in
  let ls := deref st p in
  let w := mkWaiter req p resource true in
  (mkLM (resources st) (held st)
     (<[p := set_queue (queue ls ++ [req]) ls]> (states st))
     (<[req_id req := w]> (waiters st)) (cancelled st)
     (if ctx_cancellable ctx then <[req_id req := p]> (watchers st) else watchers st)
     (next_ptr st + 1), w).

(** [AcquireContext] up to its first return or its first [cond.Wait]. *)
Definition AcquireContext (ctx : option Ctx) (txn : TxnID) (resource : ResourceID)
    (mode : LockMode) (st : LMState) : LMState * outcome :=
  match ctx with
  | None => (st, Returned (Some (EMsg "lockmanager: nil context")))
  | Some ctx =>
    if decide (mode ≠ SharedLock ∧ mode ≠ ExclusiveLock) then
      (st, Returned (Some (EMsg "lockmanager: invalid lock mode")))
    else match ctx_Err ctx with
    | Some e => (st, Returned (Some e))
    | None =>
      match txnLocks st txn !! resource with
      | Some heldMode => (st, Returned (Some (EMsg ("lockmanager: txn " +:+ pretty txn
          +:+ " already holds " +:+ LockMode_String heldMode +:+ " on resource "
          +:+ fmt_plus_v resource
          +:+ "; lock upgrades and reentrant acquisition are not supported in V1"))))
      | None =>
        let '(st, p) := getLockState resource st in
        let '(st, w) := enqueue ctx txn resource mode p st in
        acquire_iteration w (ctx_Err ctx) st
      end
    end
  end.

Definition Acquire (txn : TxnID) (resource : ResourceID) (mode : LockMode) (st : LMState)
    : LMState * outcome :=
  AcquireContext (Some Background) txn resource mode st.

(** The watcher goroutine observing [<-done]. *)
Definition watcherFires (req : ptr) (p : ptr) (st : LMState) : LMState :=
  let st := mkLM (resources st) (held st) (states st) (waiters st)
    ({[req]} ∪ cancelled st) (delete req (watchers st)) (next_ptr st) in
  Broadcast p st.

(** The watcher goroutine observing [<-stopWatching]. *)
Definition watcherStops (req : ptr) (st : LMState) : LMState :=
  mkLM (resources st) (held st) (states st) (waiters st) (cancelled st)
    (delete req (watchers st)) (next_ptr st).

Definition dropTxnLock (txn : TxnID) (resource : ResourceID) (st : LMState)
    : gmap TxnID (gmap ResourceID LockMode) :=
  let locks := delete resource (txnLocks st txn) in
  if decide (locks = ∅) then delete txn (held st) else <[txn := locks]> (held st).

Definition dropHolder (txn : TxnID) (resource : ResourceID) (mode : LockMode) (ls : lockState)
    : result lockState :=
  if decide (mode = ExclusiveLock) then
    if negb (hasExclusive ls) || bool_decide (exclusiveHolder ls ≠ txn)
    then Err (EMsg ("lockmanager: internal inconsistency releasing exclusive lock on "
           +:+ fmt_plus_v resource))
    else Ok (mkLS (sharedHolders ls) false 0 (queue ls))
  else if decide (mode = SharedLock) then
    if decide (txn ∈ sharedHolders ls)
    then Ok (mkLS (sharedHolders ls ∖ {[txn]}) (hasExclusive ls) (exclusiveHolder ls) (queue ls))
    else Err (EMsg ("lockmanager: internal inconsistency releasing shared lock on "
           +:+ fmt_plus_v resource))
  else Ok ls.

Definition releaseLocked (txn : TxnID) (resource : ResourceID) (st : LMState)
    : LMState * option error :=
  match held st !! txn with
  | None => (st, Some (EMsg ("lockmanager: txn " +:+ pretty txn +:+ " holds no locks")))
  | Some locks =>
    match locks !! resource with
    | None => (st, Some (EMsg ("lockmanager: txn " +:+ pretty txn +:+ " does not hold a lock on resource "
                      +:+ fmt_plus_v resource)))
    | Some mode =>
      match resources st !! resource with
      | None => (st, Some (EMsg ("lockmanager: internal inconsistency: no lock state for resource "
                        +:+ fmt_plus_v resource)))
      | Some p =>
        match dropHolder txn resource mode (deref st p) with
        | Err e => (st, Some e)
        | Ok ls =>
          let st := set_ls p ls st in
          let st := set_held (dropTxnLock txn resource st) st in
          let st := Broadcast p st in
          (sweepIfIdle resource p st, None)
        end
      end
    end
  end.

Definition Release (txn : TxnID) (resource : ResourceID) (st : LMState) : LMState * option error :=
  releaseLocked txn resource st.

(** The second loop of [ReleaseAll]: keep going, remember the first error. *)
Fixpoint releaseEach (txn : TxnID) (rs : list ResourceID) (firstErr : option error)
    (st : LMState) : LMState * option error :=
  match rs with
  | [] => (st, firstErr)
  | r :: rs =>
      let '(st, err) := releaseLocked txn r st in
      releaseEach txn rs (match firstErr with Some _ => firstErr | None => err end) st
  end.

(** [order] is the order in which Go ranges over the transaction's map; Go
    leaves it unspecified, so [ReleaseAll] takes it as an argument and is run
    on some permutation of the keys. *)
Definition ReleaseAll_in (order : list ResourceID) (txn : TxnID) (st : LMState)
    : LMState * option error :=
  releaseEach txn order None st.

Definition heldKeys (txn : TxnID) (st : LMState) : list ResourceID :=
  (map_to_list (txnLocks st txn)).*1.

Definition ReleaseAll (txn : TxnID) (st : LMState) : LMState * option error :=
  ReleaseAll_in (heldKeys txn st) txn st.

Definition HeldCount (txn : TxnID) (st : LMState) : nat := size (txnLocks st txn).

Definition QueueLen (resource : ResourceID) (st : LMState) : nat :=
  match resources st !! resource with
  | None => 0
  | Some p => length (queue (deref st p))
  end.

Definition TotalHeldCount (st : LMState) : nat :=
  map_fold (λ _ locks total, (total + size locks)%nat) 0%nat (held st).

(** [LockGuard]: the transaction and the state of its [sync.Once]. *)
Record LockGuard := mkGuard { g_txn : TxnID; g_once : bool }.

Definition NewLockGuard (txn : TxnID) : LockGuard := mkGuard txn false.

Definition Guard_AcquireContext (g : LockGuard) (ctx : option Ctx) (resource : ResourceID)
    (mode : LockMode) (st : LMState) : LMState * outcome :=
  AcquireContext ctx (g_txn g) resource mode st.

Definition Guard_Acquire (g : LockGuard) (resource : ResourceID) (mode : LockMode) (st : LMState)
    : LMState * outcome :=
  Acquire (g_txn g) resource mode st.

Definition Guard_ReleaseAll (g : LockGuard) (st : LMState) : LockGuard * LMState :=
  if g_once g then (g, st) else (mkGuard (g_txn g) true, (ReleaseAll (g_txn g) st).1).

(** ** The interleavings of critical sections *)

Inductive lm_step : LMState → LMState → Prop :=
  | step_acquire ctx txn resource mode st :
      lm_step st (AcquireContext ctx txn resource mode st).1
  | step_wake i w ctxErr st :
      waiters st !! i = Some w → w_awake w = true →
      lm_step st (acquire_iteration w ctxErr st).1
  | step_watch_fires i p st :
      watchers st !! i = Some p → lm_step st (watcherFires i p st)
  | step_watch_stops i st :
      waiters st !! i = None → lm_step st (watcherStops i st)
  | step_release txn resource st :
      lm_step st (Release txn resource st).1
  | step_release_all order txn st :
      order ≡ₚ heldKeys txn st →
      lm_step st (ReleaseAll_in order txn st).1.

Definition reachable (st : LMState) : Prop := rtc lm_step NewLockManager st.

(** The mode [txn] holds on [resource], if any. *)
Definition holds (st : LMState) (txn : TxnID) (resource : ResourceID) : option LockMode :=
  txnLocks st txn !! resource.

End LM.
