(* ===== verification/LockManagerInv.v ===== *)
(** * Invariants of the lock manager

    The bookkeeping invariant [Inv] of the states of [LockManager.LM] and its
    preservation by every critical section: mutual exclusion, agreement of
    the two maps, no idle record left behind, no waiter stranded on a
    reclaimed record, and no lost wake-up. *)

From S2P Require Import Prelude LockManager.
Import LM.
Open Scope N_scope.

Module LMInv.

(** ** The invariant *)

Definition ls_holds (ls : lockState) (t : TxnID) (m : LockMode) : Prop :=
  (m = ExclusiveLock ∧ hasExclusive ls = true ∧ exclusiveHolder ls = t) ∨
  (m = SharedLock ∧ t ∈ sharedHolders ls).

Definition valid_mode (m : LockMode) : Prop := m = SharedLock ∨ m = ExclusiveLock.

Record ls_ok (st : LMState) (r : ResourceID) (p : ptr) (ls : lockState) : Prop := {
  lo_excl : hasExclusive ls = true → sharedHolders ls = ∅;
  lo_held : ∀ t m, holds st t r = Some m ↔ ls_holds ls t m;
  lo_busy : isIdle ls = false;
  lo_nodup : NoDup (req_id <$> queue ls);
  lo_queue : ∀ q, q ∈ queue ls → valid_mode (req_mode q) ∧
    (∃ a, waiters st !! req_id q = Some (mkWaiter q p r a));
  lo_sleep : ∀ q w, q ∈ queue ls → waiters st !! req_id q = Some w →
    w_awake w = false → (req_id q ∉ cancelled st) ∧ canGrant ls q = false }.

Record Inv (st : LMState) : Prop := {
  inv_ls : ∀ r p, resources st !! r = Some p →
    p < next_ptr st ∧ (∃ ls, states st !! p = Some ls ∧ ls_ok st r p ls);
  inv_inj : ∀ r1 r2 p, resources st !! r1 = Some p → resources st !! r2 = Some p → r1 = r2;
  inv_free : ∀ r t, resources st !! r = None → holds st t r = None;
  inv_nonempty : ∀ t, held st !! t ≠ Some ∅;
  inv_waiter : ∀ i w, waiters st !! i = Some w →
    req_id (w_req w) = i ∧ i < next_ptr st ∧
    resources st !! w_resource w = Some (w_ls w) ∧
    w_req w ∈ queue (deref st (w_ls w));
  inv_cancelled : ∀ i, i ∈ cancelled st → i < next_ptr st;
  inv_watch : ∀ i p w, watchers st !! i = Some p → waiters st !! i = Some w → w_ls w = p;
  inv_watch_fresh : ∀ i p, watchers st !! i = Some p → i < next_ptr st }.

(** ** Lemmas on the queue *)

Lemma removeFromQueue_sublist q req : removeFromQueue q req `sublist_of` q.
Proof. induction q as [|x q IH]; simpl; [done|]. case_decide; by constructor. Qed.

Lemma elem_of_removeFromQueue q req x :
  NoDup (req_id <$> q) → x ∈ removeFromQueue q req ↔ x ∈ q ∧ req_id x ≠ req_id req.
Proof.
  induction q as [|y q IH]; simpl; [set_solver|].
  intros [Hy Hnd]%NoDup_cons. case_decide as Heq.
  - rewrite elem_of_cons. split; [|naive_solver].
    intros Hx. split; [by right|]. intros Hid. apply Hy. rewrite Heq, <-Hid.
    by apply list_elem_of_fmap_2.
  - rewrite !elem_of_cons, IH by done. naive_solver.
Qed.

Lemma aheadShared_snoc q req new :
  req_id req ∈ req_id <$> q → aheadShared (q ++ [new]) req = aheadShared q req.
Proof.
  induction q as [|x q IH]; simpl; [set_solver|].
  intros [?|?]%elem_of_cons; repeat case_decide; naive_solver.
Qed.

Lemma canGrant_enqueue ls q new :
  q ∈ queue ls → canGrant (set_queue (queue ls ++ [new]) ls) q = canGrant ls q.
Proof.
  intros Hq. unfold canGrant; simpl.
  rewrite aheadShared_snoc by (by apply list_elem_of_fmap_2). done.
Qed.

(** ** Small facts about the primitive state updates *)

Lemma lookup_wake (ws : gmap ptr waiter) p i w :
  (wake p <$> ws) !! i = Some w ↔
  ∃ a, ws !! i = Some (mkWaiter (w_req w) (w_ls w) (w_resource w) a) ∧
       w_awake w = (if decide (w_ls w = p) then true else a).
Proof.
  rewrite lookup_fmap, fmap_Some. unfold wake. split.
  - intros ([q l r a] & Hi & ->). exists a. simpl.
    destruct (decide (l = p)); simpl; [by rewrite decide_True|by rewrite decide_False].
  - intros (a & Hi & Ha). eexists; split; [exact Hi|]. simpl.
    destruct w as [q l r a']; simpl in *. subst. by case_decide.
Qed.

Lemma deref_Some st p ls : states st !! p = Some ls → deref st p = ls.
Proof. unfold deref. by intros ->. Qed.

Lemma isIdle_true ls :
  isIdle ls = true ↔ hasExclusive ls = false ∧ sharedHolders ls = ∅ ∧ queue ls = [].
Proof.
  unfold isIdle. rewrite !andb_true_iff.
  rewrite !bool_decide_eq_true, negb_true_iff. naive_solver.
Qed.

Lemma ls_ok_set_resources rs st r p ls :
  ls_ok st r p ls → ls_ok (set_resources rs st) r p ls.
Proof. by intros []. Qed.

Lemma not_idle_holds ls t m : ls_holds ls t m → isIdle ls = false.
Proof.
  intros H. destruct (isIdle ls) eqn:Hi; [|done].
  apply isIdle_true in Hi as (?&?&?). destruct H as [(?&?&?)|(?&H)]; [congruence|].
  set_solver.
Qed.

(** ** The local-update lemma

    Every critical section that changes holders or removes a request does so
    on one resource, then broadcasts on its condition variable, then sweeps.
    This lemma reduces preservation of [Inv] to facts about that resource. *)
Section update.
Context (st : LMState) (r : ResourceID) (p : ptr) (ls ls' : lockState).
Context (h' : gmap TxnID (gmap ResourceID LockMode)) (ws' : gmap ptr waiter).
Context (HI : Inv st) (Hr : resources st !! r = Some p) (Hp : states st !! p = Some ls).

Definition updated : LMState :=
  Broadcast p (mkLM (resources st) h' (<[p := ls']> (states st)) ws'
    (cancelled st) (watchers st) (next_ptr st)).

Definition holds_in (h : gmap TxnID (gmap ResourceID LockMode)) (t : TxnID) (r' : ResourceID) :=
  default ∅ (h !! t) !! r'.

Context (Hexcl : hasExclusive ls' = true → sharedHolders ls' = ∅).
Context (Hheld : ∀ t m, holds_in h' t r = Some m ↔ ls_holds ls' t m).
Context (Hother : ∀ t r', r' ≠ r → holds_in h' t r' = holds st t r').
Context (Hne : ∀ t, h' !! t ≠ Some ∅).
Context (Hsub : queue ls' `sublist_of` queue ls).
Context (Hws : ∀ i w, ws' !! i = Some w ↔
  waiters st !! i = Some w ∧ (w_resource w = r → w_req w ∈ queue ls')).

Lemma updated_waiter i w :
  waiters updated !! i = Some w →
  ∃ a, waiters st !! i = Some (mkWaiter (w_req w) (w_ls w) (w_resource w) a) ∧
       (w_resource w = r → w_req w ∈ queue ls') ∧
       w_awake w = (if decide (w_ls w = p) then true else a).
Proof.
  simpl. rewrite lookup_wake. intros (a & Hi & Ha). apply Hws in Hi as [Hi ?]. eauto.
Qed.

Lemma updated_other r' p' :
  r' ≠ r → resources st !! r' = Some p' → p' ≠ p.
Proof. intros Hne' Hr' ->. apply Hne'. by eapply inv_inj. Qed.

Lemma updated_ls_other r' p' :
  r' ≠ r → resources st !! r' = Some p' →
  ∃ ls0, states updated !! p' = Some ls0 ∧ ls_ok updated r' p' ls0.
Proof.
  intros Hr' Hp'. pose proof (updated_other _ _ Hr' Hp') as Hpp.
  destruct (inv_ls _ HI _ _ Hp') as (_ & ls0 & Hls0 & Hok).
  exists ls0. split; [by simpl; rewrite lookup_insert_ne|].
  destruct Hok as [He Hh Hb Hnd Hq Hs]. split; try done.
  - intros t m. rewrite <-Hh, <-(Hother t r') by done. done.
  - intros q [? (a & Ha)]%Hq. split; [done|]. exists a. simpl. rewrite lookup_wake.
    exists a. simpl. rewrite decide_False by done. split; [|done].
    apply Hws. split; [done|]. simpl. congruence.
  - intros q w Hqin Hw Hsl. apply updated_waiter in Hw as (a & Hw & _ & Hawake).
    destruct (Hq _ Hqin) as [_ (a' & Ha')].
    assert (w_ls w = p') as Hlsw by congruence.
    eapply Hs; [done|exact Hw|]. simpl.
    rewrite Hawake, decide_False in Hsl; congruence.
Qed.

Lemma updated_ls_self : isIdle ls' = false → ls_ok updated r p ls'.
Proof.
  intros Hidle. destruct (inv_ls _ HI _ _ Hr) as (_ & ls0 & Hls0 & Hok).
  rewrite Hp in Hls0. injection Hls0 as <-.
  destruct Hok as [He Hh Hb Hnd Hq Hs]. split; try done.
  - eapply sublist_NoDup; [done|by apply fmap_sublist].
  - intros q Hqin. destruct (Hq q) as [? (a & Ha)]; [by eapply elem_of_sublist|].
    split; [done|]. exists true. simpl. rewrite lookup_wake. exists a. simpl.
    rewrite decide_True by done. split; [|done]. apply Hws. done.
  - intros q w Hqin Hw Hsl. apply updated_waiter in Hw as (a & Hw & _ & Hawake).
    destruct (Hq q) as [_ (a' & Ha')]; [by eapply elem_of_sublist|].
    rewrite Hawake, decide_True in Hsl; congruence.
Qed.

Lemma updated_waiters_ok i w :
  waiters updated !! i = Some w →
  req_id (w_req w) = i ∧ i < next_ptr st ∧
  resources st !! w_resource w = Some (w_ls w) ∧
  w_req w ∈ queue (deref updated (w_ls w)).
Proof.
  intros (a & Hw & Hin & _)%updated_waiter.
  destruct (inv_waiter _ HI _ _ Hw) as (? & ? & Hres & Hq). simpl in *.
  repeat split; try done. unfold deref in *; simpl.
  destruct (decide (w_ls w = p)) as [Heq|Hneq].
  - rewrite Heq, lookup_insert_eq. simpl. apply Hin. eapply inv_inj; [done..|congruence].
  - by rewrite lookup_insert_ne.
Qed.

Lemma updated_Inv : Inv (sweepIfIdle r p updated).
Proof.
  unfold sweepIfIdle.
  assert (deref updated p = ls') as -> by (unfold deref; simpl; by rewrite lookup_insert_eq).
  destruct (isIdle ls') eqn:Hidle.
  - apply isIdle_true in Hidle as (Hx & Hs & Hqe).
    assert (∀ i w, waiters updated !! i = Some w → w_resource w ≠ r) as Hnone.
    { intros i w (a & _ & Hin & _)%updated_waiter Heq. specialize (Hin Heq).
      rewrite Hqe in Hin. by apply elem_of_nil in Hin. }
    split; simpl.
    + intros r' p' [Hr' Hp']%lookup_delete_Some. split; [by eapply inv_ls|].
      destruct (updated_ls_other r' p') as (ls0 & ? & ?); [done..|].
      exists ls0. split; [done|by apply ls_ok_set_resources].
    + intros r1 r2 p' [_ ?]%lookup_delete_Some [_ ?]%lookup_delete_Some. by eapply inv_inj.
    + intros r' t Hr'. fold (holds_in h' t r'). destruct (decide (r' = r)) as [->|Hne'].
      * destruct (holds_in h' t r) as [m|] eqn:E; [|done].
        apply Hheld in E as [(_&?&_)|(_&E)]; [congruence|].
        rewrite Hs in E. by apply elem_of_empty in E.
      * rewrite lookup_delete_ne in Hr' by done.
        change (holds_in h' t r' = None). rewrite Hother by done. by apply inv_free.
    + done.
    + intros i w Hw. pose proof (updated_waiters_ok _ _ Hw) as (?&?&?&?).
      pose proof (Hnone _ _ Hw). rewrite lookup_delete_ne by done. done.
    + by apply inv_cancelled.
    + intros i p' w Hwt (a & Hw & _)%updated_waiter. by apply (inv_watch _ HI _ _ _ Hwt Hw).
    + by apply inv_watch_fresh.
  - split; simpl.
    + intros r' p' Hp'. split; [by eapply inv_ls|].
      destruct (decide (r' = r)) as [->|]; [|by apply updated_ls_other].
      assert (p' = p) as -> by congruence. exists ls'.
      split; [by rewrite lookup_insert_eq|by apply updated_ls_self].
    + by eapply inv_inj.
    + intros r' t Hr'. assert (r' ≠ r) by congruence.
      change (holds_in h' t r' = None). rewrite Hother by done. by apply inv_free.
    + done.
    + apply updated_waiters_ok.
    + by apply inv_cancelled.
    + intros i p' w Hwt (a & Hw & _)%updated_waiter. by apply (inv_watch _ HI _ _ _ Hwt Hw).
    + by apply inv_watch_fresh.
Qed.
End update.

(** ** Preservation by each critical section *)

Lemma NewLockManager_Inv : Inv NewLockManager.
Proof. split; simpl; try set_solver. all: intros; unfold holds, txnLocks; simpl; set_solver. Qed.

Lemma holds_in_insert h t m r t' r' :
  holds_in (<[t := <[r := m]> (default ∅ (h !! t))]> h) t' r' =
  if decide (t' = t ∧ r' = r) then Some m else holds_in h t' r'.
Proof.
  unfold holds_in. destruct (decide (t' = t)) as [->|?].
  - rewrite lookup_insert_eq. simpl. destruct (decide (r' = r)) as [->|?].
    + by rewrite lookup_insert_eq, decide_True.
    + rewrite lookup_insert_ne, decide_False by naive_solver. done.
  - rewrite lookup_insert_ne, decide_False by naive_solver. done.
Qed.

Lemma holds_in_dropTxnLock t r st t' r' :
  holds_in (dropTxnLock t r st) t' r' =
  if decide (t' = t ∧ r' = r) then None else holds st t' r'.
Proof.
  unfold holds_in, dropTxnLock, holds, txnLocks.
  destruct (decide (t' = t)) as [->|?].
  - case_decide as He.
    + rewrite lookup_delete_eq. simpl. rewrite lookup_empty. case_decide as Hd; [done|].
      rewrite <-(lookup_delete_ne _ r r'), He by naive_solver. done.
    + rewrite lookup_insert_eq. simpl. case_decide as Hd.
      * destruct Hd as [_ ->]. apply lookup_delete_eq.
      * rewrite lookup_delete_ne by naive_solver. done.
  - rewrite (decide_False (P := t' = t ∧ r' = r)) by naive_solver.
    case_decide; [rewrite lookup_delete_ne|rewrite lookup_insert_ne]; done.
Qed.

Lemma removed_waiters st r p ls w (req := w_req w) :
  Inv st → resources st !! r = Some p → states st !! p = Some ls →
  waiters st !! req_id req = Some w → w_resource w = r →
  ∀ i w', delete (req_id req) (waiters st) !! i = Some w' ↔
    waiters st !! i = Some w' ∧
    (w_resource w' = r → w_req w' ∈ removeFromQueue (queue ls) req).
Proof.
  intros HI Hr Hp Hw Hwr i w'.
  destruct (inv_ls _ HI _ _ Hr) as (_ & ls0 & Hls0 & Hok).
  rewrite Hp in Hls0; injection Hls0 as <-.
  rewrite lookup_delete_Some. setoid_rewrite elem_of_removeFromQueue; [|apply Hok].
  split.
  - intros [Hne Hi]. split; [done|]. intros Hwr'.
    destruct (inv_waiter _ HI _ _ Hi) as (Hid & _ & Hres & Hin).
    rewrite Hwr', Hr in Hres. injection Hres as Hpw. rewrite <-Hpw in Hin.
    rewrite (deref_Some _ _ _ Hp) in Hin. split; [done|]. congruence.
  - intros [Hi Hin]. split; [|done]. intros <-.
    assert (w' = w) as -> by congruence. by destruct (Hin Hwr).
Qed.

Lemma canGrant_compatible ls req :
  canGrant ls req = true →
  hasExclusive ls = false ∧
  (req_mode req = ExclusiveLock → sharedHolders ls = ∅) ∧
  aheadShared (queue ls) req = true.
Proof.
  unfold canGrant. destruct (hasExclusive ls); repeat case_decide; simpl; try done.
Qed.

Lemma grant_holders st r p ls req q :
  ls_ok st r p ls → canGrant ls req = true → valid_mode (req_mode req) →
  let ls' := addHolder req (set_queue q ls) in
  (hasExclusive ls' = true → sharedHolders ls' = ∅) ∧
  (∀ t m, (if decide (t = req_txn req ∧ r = r) then Some (req_mode req)
           else holds st t r) = Some m ↔ ls_holds ls' t m).
Proof.
  intros Hok (Hx & Hs & _)%canGrant_compatible Hvm.
  pose proof (lo_held _ _ _ _ Hok) as Hh. unfold addHolder, ls_holds in *.
  destruct (decide (req_mode req = ExclusiveLock)) as [Hm|Hm]; simpl.
  - specialize (Hs Hm). split; [done|]. intros t m. rewrite Hm. case_decide as Ht.
    + destruct Ht as [-> _]. split; [intros [= <-]; by left|].
      intros [(->&_)|(_&?)]; [done|set_solver].
    + rewrite Hh, Hx. split; intros [(?&?&?)|(_&?)]; try done; [set_solver|subst|set_solver].
      by destruct Ht.
  - destruct Hvm as [Hm'|?]; [|done]. rewrite Hx, Hm'. split; [done|]. intros t m.
    case_decide as Ht.
    + destruct Ht as [-> _]. split; [intros [= <-]; right; set_solver|].
      by intros [(?&?&?)|(->&_)].
    + rewrite Hh, Hx. split; intros [(?&?&?)|(->&?)]; try done; right; set_solver.
Qed.

Lemma park_Inv st w :
  Inv st → waiters st !! req_id (w_req w) = Some w →
  req_id (w_req w) ∉ cancelled st → canGrant (deref st (w_ls w)) (w_req w) = false →
  Inv (set_waiters (<[req_id (w_req w) :=
        mkWaiter (w_req w) (w_ls w) (w_resource w) false]> (waiters st)) st).
Proof.
  intros HI Hw Hc Hg. destruct w as [req p r a]; simpl in *.
  assert (∀ i w, <[req_id req := mkWaiter req p r false]> (waiters st) !! i = Some w →
    waiters st !! i = Some w ∨
    i = req_id req ∧ w = mkWaiter req p r false) as Hcases.
  { intros i w'. rewrite lookup_insert_Some. naive_solver. }
  destruct HI as [Hls Hinj Hfree Hne Hwt Hcan Hwa Hwf]. split; simpl; try done.
  - intros r' p' Hr'. destruct (Hls _ _ Hr') as (? & ls & Hp & Hok).
    split; [done|]. exists ls. split; [done|].
    destruct Hok as [He Hh Hb Hnd Hq Hs]. split; try done.
    + intros q Hqin. destruct (Hq q Hqin) as [? (b & Hb')]. split; [done|]. simpl.
      destruct (decide (req_id q = req_id req)) as [Heq|].
      * rewrite Heq in *. rewrite Hw in Hb'. simplify_eq. exists false.
        by rewrite lookup_insert_eq.
      * exists b. by rewrite lookup_insert_ne.
    + intros q w' Hqin Hw' Hsl. apply Hcases in Hw' as [Hw'|[Heq ->]]; [by eapply Hs|].
      destruct (Hq q Hqin) as [_ (b & Hb')]. rewrite Heq, Hw in Hb'. simplify_eq.
      simpl. rewrite (deref_Some _ _ _ Hp) in Hg. done.
  - intros i w' [Hw'|[-> ->]]%Hcases; [by apply Hwt|]. apply (Hwt _ _ Hw).
  - intros i p' w' Hi [Hw'|[-> ->]]%Hcases; [by eapply Hwa|]. by apply (Hwa _ _ _ Hi Hw).
Qed.

Lemma grant_Inv st w ls :
  Inv st → waiters st !! req_id (w_req w) = Some w →
  states st !! w_ls w = Some ls → ls_ok st (w_resource w) (w_ls w) ls →
  w_req w ∈ queue ls → canGrant ls (w_req w) = true →
  Inv (updated st (w_ls w) (addHolder (w_req w)
         (set_queue (removeFromQueue (queue ls) (w_req w)) ls))
       (<[req_txn (w_req w) := <[w_resource w := req_mode (w_req w)]>
         (default ∅ (held st !! req_txn (w_req w)))]> (held st))
       (delete (req_id (w_req w)) (waiters st))).
Proof.
  intros HI Hw Hp Hok Hin Hg.
  destruct (inv_waiter _ HI _ _ Hw) as (_ & _ & Hr & _).
  pose proof (lo_queue _ _ _ _ Hok _ Hin) as [Hvm _].
  destruct (grant_holders _ _ _ _ _ (removeFromQueue (queue ls) (w_req w)) Hok Hg Hvm)
    as [Hx Hh].
  set (ls' := addHolder _ _) in *.
  assert (queue ls' = removeFromQueue (queue ls) (w_req w)) as Hq.
  { unfold ls', addHolder. by destruct (decide _). }
  assert (isIdle ls' = false) as Hni.
  { apply (not_idle_holds _ (req_txn (w_req w)) (req_mode (w_req w))), Hh.
    by rewrite decide_True. }
  pose proof (updated_Inv st (w_resource w) (w_ls w) ls ls'
      (<[req_txn (w_req w) := <[w_resource w := req_mode (w_req w)]>
         (default ∅ (held st !! req_txn (w_req w)))]> (held st))
      (delete (req_id (w_req w)) (waiters st)) HI Hr Hp) as Hupd.
  unfold sweepIfIdle in Hupd.
  replace (deref _ (w_ls w)) with ls' in Hupd
    by (unfold deref; simpl; by rewrite lookup_insert_eq).
  rewrite Hni in Hupd. apply Hupd; clear Hupd; try done.
  - intros t m. rewrite holds_in_insert. apply Hh.
  - intros t r' Hne. rewrite holds_in_insert, decide_False by naive_solver. done.
  - intros t [[_ Hemp]|[_ Hemp]]%lookup_insert_Some.
    + by apply insert_non_empty in Hemp.
    + by apply (inv_nonempty _ HI t).
  - rewrite Hq. apply removeFromQueue_sublist.
  - rewrite Hq. by eapply removed_waiters.
Qed.

Lemma acquire_iteration_Inv st w e :
  Inv st → waiters st !! req_id (w_req w) = Some w →
  Inv (acquire_iteration w e st).1.
Proof.
  intros HI Hw. destruct (inv_waiter _ HI _ _ Hw) as (_ & _ & Hr & Hin).
  destruct (inv_ls _ HI _ _ Hr) as (_ & ls & Hp & Hok).
  rewrite (deref_Some _ _ _ Hp) in Hin.
  unfold acquire_iteration. rewrite (deref_Some _ _ _ Hp).
  case_decide as Hc; [|destruct (canGrant ls (w_req w)) eqn:Hg]; simpl.
  - apply (updated_Inv st _ _ ls (set_queue (removeFromQueue (queue ls) (w_req w)) ls)
      (held st) (delete (req_id (w_req w)) (waiters st))); try done; simpl;
      [apply Hok..|apply HI| |].
    + apply removeFromQueue_sublist.
    + by eapply removed_waiters.
  - by apply (grant_Inv st w ls).
  - apply park_Inv; try done. by rewrite (deref_Some _ _ _ Hp).
Qed.

Lemma watcherFires_Inv st i p :
  Inv st → watchers st !! i = Some p → Inv (watcherFires i p st).
Proof.
  intros HI Hwi. destruct HI as [Hls Hinj Hfree Hne Hwt Hcan Hwa Hwf].
  split; simpl; try done.
  - intros r' p' Hr'. destruct (Hls _ _ Hr') as (? & ls & Hp & Hok).
    split; [done|]. exists ls. split; [done|].
    destruct Hok as [He Hh Hb Hnd Hq Hs]. split; try done; simpl.
    + intros q [? (a & Ha)]%Hq. split; [done|].
      exists (if decide (p' = p) then true else a). rewrite lookup_wake. simpl. eauto.
    + intros q w Hqin (a & Hw & Ha)%lookup_wake Hsl.
      destruct (decide (w_ls w = p)) as [|Hpw]; [congruence|].
      rewrite Ha in Hsl. destruct (Hs q _ Hqin Hw Hsl) as [Hnc ?]. split; [|done].
      rewrite elem_of_union, elem_of_singleton. intros [Heq|?]; [|done].
      rewrite Heq in Hw. by apply Hpw, (Hwa _ _ _ Hwi Hw).
  - intros j w (a & Hw & _)%lookup_wake. apply (Hwt _ _ Hw).
  - intros j. rewrite elem_of_union, elem_of_singleton. intros [->|?]; eauto.
  - intros j p' w [_ Hj]%lookup_delete_Some (a & Hw & _)%lookup_wake.
    by apply (Hwa _ _ _ Hj Hw).
  - intros j p' [_ Hj]%lookup_delete_Some. eauto.
Qed.

Lemma watcherStops_Inv st i : Inv st → Inv (watcherStops i st).
Proof.
  intros [Hls Hinj Hfree Hne Hwt Hcan Hwa Hwf]. split; simpl; try done.
  - intros r' p' Hr'. destruct (Hls _ _ Hr') as (? & ls & Hp & []). eauto 10 using Build_ls_ok.
  - intros j p w [_ Hj]%lookup_delete_Some. eauto.
  - intros j p [_ Hj]%lookup_delete_Some. eauto.
Qed.

(** Enqueueing a fresh request on the (possibly just allocated) record [p] of
    resource [r]. *)
Section enqueue.
Context (st : LMState) (HI : Inv st) (r : ResourceID) (p id : ptr) (ls : lockState).
Context (txn : TxnID) (mode : LockMode) (wts : gmap ptr ptr).
Context (Hcase : resources st !! r = Some p ∧ states st !! p = Some ls ∧ id = next_ptr st ∨
                 resources st !! r = None ∧ ls = newLockState ∧ p = next_ptr st ∧
                 id = next_ptr st + 1).
Context (Hvalid : valid_mode mode).
Context (Hwts : ∀ i p', wts !! i = Some p' → i = id ∧ p' = p ∨ watchers st !! i = Some p').

Definition enq_req : lockRequest := mkReq id txn mode.
Definition enq_ls : lockState := set_queue (queue ls ++ [enq_req]) ls.
Definition enq_st : LMState :=
  mkLM (<[r := p]> (resources st)) (held st) (<[p := enq_ls]> (states st))
    (<[id := mkWaiter enq_req p r true]> (waiters st)) (cancelled st) wts (id + 1).

Lemma enq_bounds : next_ptr st ≤ id ∧ p < id.
Proof. destruct Hcase as [(?&?&->)|(?&?&->&->)]; [|lia]. by destruct (inv_ls _ HI r p). Qed.

Lemma enq_other r' p' : r' ≠ r → resources st !! r' = Some p' → p' ≠ p.
Proof.
  intros Hne Hr' ->. destruct Hcase as [(Hr&_)|(_&_&->&_)].
  - apply Hne. by eapply inv_inj.
  - destruct (inv_ls _ HI _ _ Hr') as [? _]. lia.
Qed.

Lemma enq_fresh i w : waiters st !! i = Some w → i ≠ id.
Proof. intros (_&?&_)%(inv_waiter _ HI). pose proof enq_bounds. lia. Qed.

Lemma enq_waiters i w :
  waiters enq_st !! i = Some w →
  i = id ∧ w = mkWaiter enq_req p r true ∨ waiters st !! i = Some w.
Proof. simpl. rewrite lookup_insert_Some. naive_solver. Qed.

Lemma enq_keeps i w : waiters st !! i = Some w → waiters enq_st !! i = Some w.
Proof. intros Hi. simpl. rewrite lookup_insert_ne; [done|]. by apply not_eq_sym, (enq_fresh _ w). Qed.

(** What holds of the record before the request is appended. *)
Lemma enq_old :
  (hasExclusive ls = true → sharedHolders ls = ∅) ∧
  (∀ t m, holds st t r = Some m ↔ ls_holds ls t m) ∧
  NoDup (req_id <$> queue ls) ∧
  (∀ q, q ∈ queue ls → valid_mode (req_mode q) ∧
    (∃ a, waiters st !! req_id q = Some (mkWaiter q p r a))) ∧
  (∀ q w, q ∈ queue ls → waiters st !! req_id q = Some w →
    w_awake w = false → (req_id q ∉ cancelled st) ∧ canGrant ls q = false).
Proof.
  destruct Hcase as [(Hr&Hp&_)|(Hr&->&_)].
  - destruct (inv_ls _ HI _ _ Hr) as (_ & ls0 & Hls0 & []).
    rewrite Hp in Hls0. by injection Hls0 as <-.
  - repeat split; try set_solver.
    + by rewrite (inv_free _ HI).
    + intros [(_&?&_)|(_&?)]; [done|]. set_solver.
    + constructor.
Qed.

Lemma enq_ls_ok : ls_ok enq_st r p enq_ls.
Proof.
  destruct enq_old as (He & Hh & Hnd & Hq & Hs).
  split; unfold enq_ls in *; simpl in *; try done.
  - unfold isIdle. simpl. rewrite (bool_decide_eq_false_2 (_ ++ _ = [])).
    + by rewrite andb_false_r.
    + by intros [_ ?]%app_nil.
  - rewrite fmap_app. apply NoDup_app. split; [done|]. split; [|apply NoDup_singleton].
    intros i (q & -> & (_ & a & Hw)%Hq)%list_elem_of_fmap [Hi|Hi]%elem_of_cons;
      [by apply enq_fresh in Hw|by apply elem_of_nil in Hi].
  - intros q [Hqin|Heq%list_elem_of_singleton]%elem_of_app; [|subst q].
    + destruct (Hq q Hqin) as [? (a & Ha)]. split; [done|]. exists a. by apply enq_keeps.
    + split; [done|]. exists true. simpl. by rewrite lookup_insert_eq.
  - intros q w [Hqin|Heq%list_elem_of_singleton]%elem_of_app Hw Hsl; [|subst q].
    + apply enq_waiters in Hw as [[_ ->]|Hw]; [done|].
      destruct (Hs q w Hqin Hw Hsl) as [? Hg]. split; [done|].
      by rewrite canGrant_enqueue.
    + rewrite lookup_insert_eq in Hw. by injection Hw as <-.
Qed.

Lemma enq_ls_other r' p' :
  r' ≠ r → resources st !! r' = Some p' →
  ∃ ls0, states enq_st !! p' = Some ls0 ∧ ls_ok enq_st r' p' ls0.
Proof.
  intros Hr' Hp'. pose proof (enq_other _ _ Hr' Hp').
  destruct (inv_ls _ HI _ _ Hp') as (_ & ls0 & Hls0 & []).
  exists ls0. split; [by simpl; rewrite lookup_insert_ne|]. split; try done.
  - intros q Hqin. destruct (lo_queue0 q Hqin) as [? (a & Ha)]. split; [done|].
    exists a. by apply enq_keeps.
  - intros q w Hqin [[_ ->]|Hw]%enq_waiters Hsl; [done|]. by apply (lo_sleep0 q w).
Qed.

Lemma enq_Inv : Inv enq_st.
Proof.
  pose proof enq_bounds as [Hb1 Hb2]. split; simpl.
  - intros r' p' [[<- <-]|[Hne Hr']]%lookup_insert_Some.
    + split; [lia|]. exists enq_ls. split; [by rewrite lookup_insert_eq|apply enq_ls_ok].
    + split; [|by apply enq_ls_other]. destruct (inv_ls _ HI _ _ Hr') as [? _]. lia.
  - intros r1 r2 p' [[<- <-]|[? H1]]%lookup_insert_Some
      [[<- Hp2]|[? H2]]%lookup_insert_Some; try done.
    + by destruct (enq_other r2 p).
    + rewrite <-Hp2 in H1. by destruct (enq_other r1 p).
    + by eapply inv_inj.
  - intros r' t [? ?]%lookup_insert_None. by apply (inv_free _ HI).
  - apply HI.
  - intros i w [[-> ->]|Hw]%enq_waiters; simpl.
    + rewrite lookup_insert_eq. unfold deref. simpl. rewrite lookup_insert_eq. simpl.
      repeat split; [lia|set_solver].
    + destruct (inv_waiter _ HI _ _ Hw) as (? & ? & Hres & Hin).
      unfold deref in *; simpl. destruct (decide (w_resource w = r)) as [Heq|Hne'].
      * destruct Hcase as [(Hr&Hp&_)|(Hr&_)]; [|congruence].
        assert (w_ls w = p) as Hlsp by congruence. rewrite Hlsp, Hp in Hin. rewrite Heq, Hlsp.
        rewrite !lookup_insert_eq. repeat split; [done|lia|]. simpl in *. set_solver.
      * pose proof (enq_other _ _ Hne' Hres). rewrite !lookup_insert_ne by done.
        repeat split; try done. lia.
  - intros i ?%(inv_cancelled _ HI). lia.
  - intros i p' w [[-> ->]|Hi]%Hwts [[Hi' ->]|Hw]%enq_waiters; try done.
    + by apply enq_fresh in Hw.
    + subst i. apply (inv_watch_fresh _ HI) in Hi. lia.
    + by apply (inv_watch _ HI i p' w).
  - intros i p' [[-> ->]|Hi%(inv_watch_fresh _ HI)]%Hwts; lia.
Qed.
End enqueue.

Lemma AcquireContext_Inv st ctx txn r mode :
  Inv st → Inv (AcquireContext ctx txn r mode st).1.
Proof.
  intros HI. unfold AcquireContext. destruct ctx as [[e c]|]; [|done]; simpl.
  case_decide as Hm; [done|]. destruct e; [done|].
  assert (valid_mode mode) as Hv by (unfold valid_mode; destruct (decide (mode = SharedLock)),
    (decide (mode = ExclusiveLock)); tauto).
  destruct (txnLocks st txn !! r); [done|].
  unfold getLockState. destruct (resources st !! r) as [p|] eqn:Hr; simpl.
  - destruct (inv_ls _ HI _ _ Hr) as (_ & ls & Hp & _). rewrite (deref_Some _ _ _ Hp).
    assert (resources st = <[r := p]> (resources st)) as Hres by (by rewrite insert_id).
    apply acquire_iteration_Inv; simpl; [|by rewrite lookup_insert_eq].
    rewrite Hres at 1. apply enq_Inv; [done|by left|done|].
    intros i p' Hi. destruct c; [|by right].
    apply lookup_insert_Some in Hi as [[<- <-]|[_ ?]]; auto.
  - apply acquire_iteration_Inv; simpl; [|by rewrite lookup_insert_eq].
    unfold deref; simpl. rewrite lookup_insert_eq, insert_insert_eq. simpl.
    apply (enq_Inv st HI r _ (next_ptr st + 1) newLockState); [by right|done|].
    intros i p' Hi. destruct c; [|by right].
    apply lookup_insert_Some in Hi as [[<- <-]|[_ ?]]; auto.
Qed.

(** ** Release *)

Lemma dropHolder_spec st r p ls t m :
  ls_ok st r p ls → holds st t r = Some m →
  ∃ ls', dropHolder t r m ls = Ok ls' ∧ queue ls' = queue ls ∧
    (hasExclusive ls' = true → sharedHolders ls' = ∅) ∧
    (∀ t' m', ls_holds ls' t' m' ↔ ls_holds ls t' m' ∧ t' ≠ t).
Proof.
  intros Hok Hh%(lo_held _ _ _ _ Hok). pose proof (lo_excl _ _ _ _ Hok) as Hx.
  unfold dropHolder. destruct Hh as [(->&He&<-)|(->&Hin)].
  - specialize (Hx He). rewrite decide_True, He, bool_decide_eq_false_2 by naive_solver. simpl.
    eexists; repeat split_and!; [done..|]. unfold ls_holds; simpl. rewrite Hx, He.
    intros t' m'. split; [set_solver|]. intros [[(?&?&?)|(_&?)] ?]; [naive_solver|set_solver].
  - rewrite decide_False, decide_True, decide_True by done.
    assert (hasExclusive ls = false) as He
      by (destruct (hasExclusive ls); [|done]; set_solver).
    eexists; repeat split_and!; [done..| |]; simpl; [congruence|].
    unfold ls_holds; simpl. rewrite He. set_solver.
Qed.

Lemma dropTxnLock_nonempty st t r t' : Inv st → dropTxnLock t r st !! t' ≠ Some ∅.
Proof.
  intros HI. unfold dropTxnLock. case_decide as Hd.
  - intros [_ H]%lookup_delete_Some. by apply (inv_nonempty _ HI t').
  - intros [[_ H]|[_ H]]%lookup_insert_Some; [done|]. by apply (inv_nonempty _ HI t').
Qed.

Lemma held_lookup st t r m :
  holds st t r = Some m → ∃ locks, held st !! t = Some locks ∧ locks !! r = Some m.
Proof.
  unfold holds, txnLocks. destruct (held st !! t) as [locks|]; simpl; [eauto|].
  by rewrite lookup_empty.
Qed.

(** Releasing a held lock succeeds, keeps the invariant and gives back
    exactly that lock. *)
Lemma releaseLocked_held st t r m :
  Inv st → holds st t r = Some m →
  ∃ st', releaseLocked t r st = (st', None) ∧ Inv st' ∧
    (∀ t' r', holds st' t' r' =
       if decide (t' = t ∧ r' = r) then None else holds st t' r').
Proof.
  intros HI Hh. destruct (held_lookup _ _ _ _ Hh) as (locks & Hlocks & Hm).
  destruct (resources st !! r) as [p|] eqn:Hr; [|by rewrite (inv_free _ HI) in Hh].
  destruct (inv_ls _ HI _ _ Hr) as (_ & ls & Hp & Hok).
  destruct (dropHolder_spec _ _ _ _ _ _ Hok Hh) as (ls' & Hd & Hq & Hx & Hh').
  unfold releaseLocked. rewrite Hlocks, Hm, Hr, (deref_Some _ _ _ Hp), Hd.
  eexists; split; [done|]. split.
  - apply (updated_Inv st r p ls ls' (dropTxnLock t r st) (waiters st)); try done.
    + intros t' m'. rewrite holds_in_dropTxnLock, Hh', <-(lo_held _ _ _ _ Hok).
      case_decide; naive_solver.
    + intros t' r' Hne. rewrite holds_in_dropTxnLock, decide_False by naive_solver. done.
    + intros t'. by apply dropTxnLock_nonempty.
    + by rewrite Hq.
    + intros i w. split; [|by intros [? _]]. intros Hw. split; [done|]. intros Hwr.
      destruct (inv_waiter _ HI _ _ Hw) as (_ & _ & Hres & Hin).
      rewrite Hwr, Hr in Hres. injection Hres as Hpw.
      by rewrite <-Hpw, (deref_Some _ _ _ Hp), <-Hq in Hin.
  - intros t' r'. rewrite <-(holds_in_dropTxnLock t r st t' r').
    unfold sweepIfIdle. by case_match.
Qed.

Lemma releaseLocked_not_held st t r :
  holds st t r = None → ∃ e, releaseLocked t r st = (st, Some e).
Proof.
  unfold holds, txnLocks, releaseLocked. destruct (held st !! t) as [locks|]; simpl; [|eauto].
  intros ->. eauto.
Qed.

Lemma releaseLocked_Inv st t r : Inv st → Inv (releaseLocked t r st).1.
Proof.
  intros HI. destruct (holds st t r) as [m|] eqn:Hh.
  - by destruct (releaseLocked_held _ _ _ _ HI Hh) as (st' & -> & ? & _).
  - by destruct (releaseLocked_not_held _ _ _ Hh) as (e & ->).
Qed.

Lemma releaseEach_Inv t rs : ∀ e st, Inv st → Inv (releaseEach t rs e st).1.
Proof.
  induction rs as [|r rs IH]; intros e st HI; simpl; [done|].
  pose proof (releaseLocked_Inv st t r HI) as HI'.
  destruct (releaseLocked t r st) as [st' err]. by apply IH.
Qed.

Lemma releaseEach_spec t rs : ∀ st,
  Inv st → NoDup rs → (∀ r, r ∈ rs → is_Some (holds st t r)) →
  ∃ st', releaseEach t rs None st = (st', None) ∧ Inv st' ∧
    (∀ t' r', holds st' t' r' =
       if decide (t' = t ∧ r' ∈ rs) then None else holds st t' r').
Proof.
  induction rs as [|r rs IH]; intros st HI Hnd Hall; simpl.
  { exists st. split; [done|]. split; [done|]. intros t' r'.
    rewrite decide_False; [done|]. intros [_ H]. by apply elem_of_nil in H. }
  apply NoDup_cons in Hnd as [Hr Hnd].
  destruct (Hall r) as [m Hm]; [by left|].
  destruct (releaseLocked_held _ _ _ _ HI Hm) as (st1 & -> & HI1 & Hh1).
  destruct (IH st1) as (st2 & -> & HI2 & Hh2); [done..| |].
  { intros r' Hr'. rewrite Hh1, decide_False by naive_solver. apply Hall. by right. }
  exists st2. split; [done|]. split; [done|]. intros t' r'. rewrite Hh2, Hh1.
  repeat case_decide; try done; exfalso; set_solver.
Qed.

Lemma elem_of_heldKeys st t r : r ∈ heldKeys t st ↔ is_Some (holds st t r).
Proof.
  unfold heldKeys, holds. rewrite list_elem_of_fmap. split.
  - intros ([r' m] & -> & H). exists m. by apply elem_of_map_to_list.
  - intros [m H]. exists (r, m). split; [done|]. by apply elem_of_map_to_list.
Qed.

(** ** Every reachable state satisfies the invariant *)

Lemma lm_step_Inv st st' : Inv st → lm_step st st' → Inv st'.
Proof.
  intros HI Hstep. destruct Hstep.
  - by apply AcquireContext_Inv.
  - apply acquire_iteration_Inv; [done|].
    by destruct (inv_waiter _ HI _ _ H) as (-> & _).
  - by apply watcherFires_Inv.
  - by apply watcherStops_Inv.
  - by apply releaseLocked_Inv.
  - by apply releaseEach_Inv.
Qed.

Lemma reachable_Inv st : reachable st → Inv st.
Proof.
  intros H. eapply rtc_invariant; [apply lm_step_Inv|exact H|apply NewLockManager_Inv].
Qed.

End LMInv.
