(* ===== verification/LockManagerThms.v ===== *)
(** * Correctness of the lock manager

    What the lock manager promises to its callers, proved of every reachable
    interleaving of its critical sections: mutual exclusion, fairness to
    queued writers, absence of lost wake-ups and of stranded waiters, the
    effect of grants, cancellations and releases, and freedom from deadlock
    for callers that lock a namespace before a file. *)

From S2P Require Import Prelude LockManager LockManagerInv.
Import LM LMInv.
Open Scope N_scope.

Module LMThms.

(** ** Facts about one loop iteration *)

Lemma iteration_parked_or st w e :
  let '(st', out) := acquire_iteration w e st in
  (out = Parked ∧ (req_id (w_req w) ∉ cancelled st) ∧
     canGrant (deref st (w_ls w)) (w_req w) = false) ∨
  (out = Returned None ∧ (req_id (w_req w) ∉ cancelled st) ∧
     canGrant (deref st (w_ls w)) (w_req w) = true) ∨
  (out = Returned (Some (default ECanceled e)) ∧ req_id (w_req w) ∈ cancelled st).
Proof. unfold acquire_iteration. repeat case_match; naive_solver. Qed.

Lemma aheadShared_split q req q1 q2 :
  aheadShared q req = true → q = q1 ++ req :: q2 → NoDup (req_id <$> q) →
  Forall (λ o, req_mode o = SharedLock ∧ req_mode req = SharedLock) q1.
Proof.
  revert q. induction q1 as [|x q1 IH]; intros q Hq -> Hnd; [constructor|].
  simpl in *. apply NoDup_cons in Hnd as [Hx Hnd].
  rewrite decide_False in Hq.
  - case_decide; [|done]. constructor; [done|]. by eapply IH.
  - intros Heq. apply Hx. rewrite Heq. apply list_elem_of_fmap_2. set_solver.
Qed.

Lemma canGrant_head ls req q :
  queue ls = req :: q → hasExclusive ls = false → sharedHolders ls = ∅ →
  canGrant ls req = true.
Proof.
  intros Hq Hx Hs. unfold canGrant. rewrite Hq, Hx, Hs. simpl.
  rewrite (decide_True (P := req_id req = req_id req)) by done.
  case_decide; [|done]. by rewrite bool_decide_eq_false_2 by naive_solver.
Qed.

Lemma free_holders st r p ls :
  ls_ok st r p ls → (∀ t, holds st t r = None) →
  hasExclusive ls = false ∧ sharedHolders ls = ∅.
Proof.
  intros Hok Hfree. pose proof (lo_held _ _ _ _ Hok) as Hh. split.
  - destruct (hasExclusive ls) eqn:Hx; [|done].
    assert (holds st (exclusiveHolder ls) r = Some ExclusiveLock) as Hc
      by (apply Hh; by left). by rewrite Hfree in Hc.
  - apply leibniz_equiv, elem_of_equiv_empty. intros t Ht.
    assert (holds st t r = Some SharedLock) as Hc by (apply Hh; by right).
    by rewrite Hfree in Hc.
Qed.

Lemma grant_holds_eq st w e st' t r :
  acquire_iteration w e st = (st', Returned None) →
  holds st' t r = if decide (t = req_txn (w_req w) ∧ r = w_resource w)
                  then Some (req_mode (w_req w)) else holds st t r.
Proof.
  intros Hit. unfold acquire_iteration in Hit.
  destruct (decide (req_id (w_req w) ∈ cancelled st)); [done|].
  destruct (canGrant _ _); [|done]. injection Hit as <-.
  by rewrite <-(holds_in_insert (held st)).
Qed.

Lemma cancel_holds_eq st w e st' err t r :
  acquire_iteration w e st = (st', Returned (Some err)) → holds st' t r = holds st t r.
Proof.
  unfold acquire_iteration. repeat case_match; try done. intros [= <- <-].
  unfold sweepIfIdle. by case_match.
Qed.

Lemma asleep_not_runnable st i w :
  Inv st → waiters st !! i = Some w → w_awake w = false →
  (i ∉ cancelled st) ∧ canGrant (deref st (w_ls w)) (w_req w) = false.
Proof.
  intros HI Hw Hs.
  destruct (inv_waiter _ HI _ _ Hw) as (Hid & _ & Hr & Hin).
  destruct (inv_ls _ HI _ _ Hr) as (_ & ls & Hp & Hok).
  rewrite (deref_Some _ _ _ Hp) in *. subst i.
  by apply (lo_sleep _ _ _ _ Hok (w_req w) w).
Qed.

Lemma head_runnable st r p e :
  Inv st → resources st !! r = Some p → (∀ t, holds st t r = None) →
  ∃ w q, queue (deref st p) = w_req w :: q ∧
    waiters st !! req_id (w_req w) = Some w ∧ w_awake w = true ∧
    (acquire_iteration w e st).2 =
      Returned (if decide (req_id (w_req w) ∈ cancelled st)
                then Some (default ECanceled e) else None).
Proof.
  intros HI Hr Hfree.
  destruct (inv_ls _ HI _ _ Hr) as (_ & ls & Hp & Hok).
  destruct (free_holders _ _ _ _ Hok Hfree) as [Hx Hs].
  destruct (queue ls) as [|req q] eqn:Hq.
  { pose proof (lo_busy _ _ _ _ Hok) as Hb.
    rewrite (proj2 (isIdle_true ls)) in Hb; naive_solver. }
  destruct (lo_queue _ _ _ _ Hok req) as [_ (a & Hw)]; [rewrite Hq; by left|].
  pose proof (canGrant_head _ _ _ Hq Hx Hs) as Hg.
  exists (mkWaiter req p r a), q. rewrite (deref_Some _ _ _ Hp). simpl.
  split; [done|]. split; [done|]. split.
  - destruct a; [done|].
    destruct (asleep_not_runnable st _ _ HI Hw eq_refl) as [_ Hng]. simpl in Hng.
    rewrite (deref_Some _ _ _ Hp) in Hng. congruence.
  - unfold acquire_iteration. simpl. rewrite (deref_Some _ _ _ Hp), Hg. by case_decide.
Qed.

(** ** The theorems *)

Lemma exclusive_alone st t1 t2 r m :
  reachable st → holds st t1 r = Some ExclusiveLock → holds st t2 r = Some m →
  t2 = t1 ∧ m = ExclusiveLock.
Proof.
  intros HI%reachable_Inv H1 H2.
  destruct (resources st !! r) as [p|] eqn:Hr; [|by rewrite (inv_free _ HI) in H1].
  destruct (inv_ls _ HI _ _ Hr) as (_ & ls & _ & [He Hh _ _ _ _]).
  apply Hh in H1 as [(_&Hx&Ht)|[? _]]; [|done].
  apply Hh in H2 as [(->&_&Ht')|[_ Hin]]; [by subst|].
  rewrite (He Hx) in Hin. by apply elem_of_empty in Hin.
Qed.

(** C1. Mutual exclusion: in every reachable state, a transaction that holds a
    resource exclusively is its only holder. *)
Theorem mutual_exclusion st t1 t2 r m :
  reachable st → holds st t1 r = Some ExclusiveLock → holds st t2 r = Some m →
  t2 = t1 ∧ m = ExclusiveLock.
Proof. apply exclusive_alone. Qed.

(** C15. No lost wake-up: a goroutine parked in [cond.Wait] is neither cancelled
    nor grantable, so whatever made it runnable has already woken it. *)
Theorem no_lost_wakeup st i w :
  reachable st → waiters st !! i = Some w → w_awake w = false →
  (i ∉ cancelled st) ∧ canGrant (deref st (w_ls w)) (w_req w) = false.
Proof. intros HI%reachable_Inv. by apply asleep_not_runnable. Qed.

(** No stranded waiter: the record a blocked goroutine waits on is the one
    registered for its resource, and its request is queued there exactly
    once, so a later broadcast on the resource reaches it. *)
Theorem no_stranded_waiter st i w :
  reachable st → waiters st !! i = Some w →
  resources st !! w_resource w = Some (w_ls w) ∧
  length (filter (λ q, req_id q = i) (queue (deref st (w_ls w)))) = 1%nat.
Proof.
  intros HI%reachable_Inv Hw.
  destruct (inv_waiter _ HI _ _ Hw) as (Hid & _ & Hr & Hin). split; [done|].
  destruct (inv_ls _ HI _ _ Hr) as (_ & ls & Hp & Hok).
  rewrite (deref_Some _ _ _ Hp) in *. pose proof (lo_nodup _ _ _ _ Hok) as Hnd.
  subst i. by rewrite filter_unique.
Qed.

(** Fairness: a request is granted only when every request queued before
    it is shared and it is shared itself, so no request ever overtakes a
    queued exclusive one. *)
Theorem grant_respects_queue st i w e st' q1 q2 :
  reachable st → waiters st !! i = Some w →
  acquire_iteration w e st = (st', Returned None) →
  queue (deref st (w_ls w)) = q1 ++ w_req w :: q2 →
  Forall (λ o, req_mode o = SharedLock ∧ req_mode (w_req w) = SharedLock) q1.
Proof.
  intros HI%reachable_Inv Hw Hit Hq.
  destruct (inv_waiter _ HI _ _ Hw) as (_ & _ & Hr & _).
  destruct (inv_ls _ HI _ _ Hr) as (_ & ls & Hp & Hok).
  rewrite (deref_Some _ _ _ Hp) in Hq.
  pose proof (iteration_parked_or st w e) as Hc. rewrite Hit in Hc.
  destruct Hc as [(?&_)|[(_&_&Hg)|(?&_)]]; try done.
  rewrite (deref_Some _ _ _ Hp) in Hg. apply canGrant_compatible in Hg as (_&_&Ha).
  eapply aheadShared_split; [exact Ha|exact Hq|apply Hok].
Qed.

(** Progress: when a registered resource has no holder, its queue is not
    empty and the goroutine at its head is awake; running it returns (with the
    lock, or with its context's error when it was cancelled). *)
Theorem free_resource_progress st r p e :
  reachable st → resources st !! r = Some p → (∀ t, holds st t r = None) →
  ∃ w q, queue (deref st p) = w_req w :: q ∧
    waiters st !! req_id (w_req w) = Some w ∧ w_awake w = true ∧
    (acquire_iteration w e st).2 =
      Returned (if decide (req_id (w_req w) ∈ cancelled st)
                then Some (default ECanceled e) else None).
Proof. intros HI%reachable_Inv. by apply head_runnable. Qed.

(** A cancelled request is never granted: its next iteration returns the
    context's error, changes no lock anyone holds, and takes the request out
    of the queue and out of the set of waiters. *)
Theorem cancelled_never_granted st i w e :
  reachable st → waiters st !! i = Some w → i ∈ cancelled st →
  let '(st', out) := acquire_iteration w e st in
  out = Returned (Some (default ECanceled e)) ∧
  (∀ t r, holds st' t r = holds st t r) ∧
  waiters st' !! i = None ∧ (w_req w ∉ queue (deref st' (w_ls w))).
Proof.
  intros HI%reachable_Inv Hw Hc.
  destruct (inv_waiter _ HI _ _ Hw) as (Hid & _ & Hr & _). subst i.
  destruct (inv_ls _ HI _ _ Hr) as (_ & ls & Hp & Hok).
  destruct (acquire_iteration w e st) as [st' out] eqn:Hit.
  pose proof (iteration_parked_or st w e) as Hcase. rewrite Hit in Hcase.
  destruct Hcase as [(_&?&_)|[(_&?&_)|(->&_)]]; try done.
  split; [done|]. split; [intros; by eapply cancel_holds_eq|].
  unfold acquire_iteration in Hit. rewrite decide_True in Hit by done.
  rewrite (deref_Some _ _ _ Hp) in Hit. injection Hit as <-.
  unfold sweepIfIdle. case_match; unfold deref; simpl;
    rewrite lookup_insert_eq, lookup_fmap, lookup_delete_eq; simpl;
    (split; [done|]); rewrite elem_of_removeFromQueue by apply Hok; naive_solver.
Qed.

(** A grant gives the transaction exactly the requested mode on the
    requested resource and changes no other lock. *)
Theorem grant_exact st i w e st' :
  reachable st → waiters st !! i = Some w →
  acquire_iteration w e st = (st', Returned None) →
  Inv st' ∧ ∀ t r, holds st' t r =
    if decide (t = req_txn (w_req w) ∧ r = w_resource w)
    then Some (req_mode (w_req w)) else holds st t r.
Proof.
  intros HI%reachable_Inv Hw Hit. split.
  - destruct (inv_waiter _ HI _ _ Hw) as (Hid & _). subst i.
    pose proof (acquire_iteration_Inv _ _ e HI Hw) as HI'. by rewrite Hit in HI'.
  - intros. by eapply grant_holds_eq.
Qed.

Lemma release_all_holds st order txn :
  reachable st → order ≡ₚ heldKeys txn st →
  ∃ st', ReleaseAll_in order txn st = (st', None) ∧ reachable st' ∧
    ∀ t r, holds st' t r = if decide (t = txn) then None else holds st t r.
Proof.
  intros Hreach Ho. pose proof (reachable_Inv _ Hreach) as HI.
  destruct (releaseEach_spec txn order st HI) as (st' & Heq & _ & Hh).
  - rewrite Ho. apply NoDup_fst_map_to_list.
  - intros r. rewrite Ho. apply elem_of_heldKeys.
  - exists st'. split; [done|]. split.
    + eapply rtc_r; [exact Hreach|].
      pose proof (step_release_all order txn st Ho) as Hs. unfold ReleaseAll_in in Hs.
      by rewrite Heq in Hs.
    + intros t r. rewrite Hh. destruct (decide (t = txn)) as [->|].
      * destruct (decide (txn = txn ∧ r ∈ order)) as [|Hn]; [done|].
        destruct (holds st txn r) eqn:E; [|done]. exfalso. apply Hn. split; [done|].
        rewrite Ho. apply elem_of_heldKeys. by rewrite E.
      * rewrite decide_False by naive_solver. done.
Qed.

(** [ReleaseAll] succeeds whatever order Go ranges over the transaction's
    map in: afterwards the transaction holds nothing and every lock of every
    other transaction is untouched. *)
Theorem release_all_exact st order txn :
  reachable st → order ≡ₚ heldKeys txn st →
  ∃ st', ReleaseAll_in order txn st = (st', None) ∧ reachable st' ∧
    ∀ t r, holds st' t r = if decide (t = txn) then None else holds st t r.
Proof. apply release_all_holds. Qed.

(** Ownership is checked first: a second request for a resource the
    transaction already holds, and a release of a lock it does not hold, are
    refused with an error and change nothing. *)
Theorem ownership_checked st txn r mode ctx m :
  (holds st txn r = Some m →
     ∃ e, AcquireContext ctx txn r mode st = (st, Returned (Some e))) ∧
  (holds st txn r = None → ∃ e, Release txn r st = (st, Some e)).
Proof.
  split.
  - unfold holds, AcquireContext. intros Hm. rewrite Hm.
    destruct ctx as [[[e|] c]|]; simpl; repeat case_decide; eauto.
  - apply releaseLocked_not_held.
Qed.

(** No leaked record: a reachable manager in which nobody holds or awaits a
    lock keeps no per-resource state at all. *)
Theorem quiescent_table_empty st :
  reachable st → waiters st = ∅ → (∀ t r, holds st t r = None) → resources st = ∅ ∧ held st = ∅.
Proof.
  intros HI%reachable_Inv Hw Hh. split; apply map_eq; intros k; rewrite lookup_empty.
  - destruct (resources st !! k) as [p|] eqn:Hr; [|done].
    destruct (inv_ls _ HI _ _ Hr) as (_ & ls & Hp & Hok).
    destruct (free_holders _ _ _ _ Hok (λ t, Hh t k)) as [Hx Hs].
    pose proof (lo_busy _ _ _ _ Hok) as Hb.
    destruct (queue ls) as [|q ?] eqn:Hq.
    + rewrite (proj2 (isIdle_true ls)) in Hb; naive_solver.
    + destruct (lo_queue _ _ _ _ Hok q) as [_ (a & Ha)]; [rewrite Hq; by left|].
      by rewrite Hw, lookup_empty in Ha.
  - destruct (held st !! k) as [locks|] eqn:Hk; [|done].
    exfalso. apply (inv_nonempty _ HI k). rewrite Hk. f_equal. apply map_eq. intros r.
    rewrite lookup_empty. specialize (Hh k r). unfold holds, txnLocks in Hh. by rewrite Hk in Hh.
Qed.

(** ** Deadlock freedom under the namespace-before-file discipline *)

(** The discipline of SAFER's operations at the point where they wait: a
    transaction asking for a namespace holds nothing, a transaction asking for
    a file holds at most namespaces, and a transaction waits at most once. *)
Record ordered_waits (st : LMState) : Prop := {
  ow_types : ∀ i w, waiters st !! i = Some w →
    Type_ (w_resource w) = NamespaceResource ∨ Type_ (w_resource w) = FileResource;
  ow_namespace : ∀ i w r, waiters st !! i = Some w →
    Type_ (w_resource w) = NamespaceResource → holds st (req_txn (w_req w)) r = None;
  ow_file : ∀ i w r m, waiters st !! i = Some w →
    Type_ (w_resource w) = FileResource → holds st (req_txn (w_req w)) r = Some m →
    Type_ r = NamespaceResource }.

Definition waiting (st : LMState) (t : TxnID) : Prop :=
  ∃ i w, waiters st !! i = Some w ∧ req_txn (w_req w) = t.

(** Some goroutine can run: an awake waiter whose iteration returns, or the
    driver of a transaction that holds a lock and is not waiting. *)
Definition can_progress (st : LMState) : Prop :=
  (∃ i w e, waiters st !! i = Some w ∧ w_awake w = true ∧
     (acquire_iteration w e st).2 ≠ Parked) ∨
  (∃ t r m, holds st t r = Some m ∧ ¬ waiting st t).

Lemma resource_progress st i w :
  Inv st → waiters st !! i = Some w →
  (∃ t m, holds st t (w_resource w) = Some m ∧ waiting st t) ∨ can_progress st.
Proof.
  intros HI Hw.
  destruct (inv_waiter _ HI _ _ Hw) as (_ & _ & Hr & _).
  destruct (inv_ls _ HI _ _ Hr) as (_ & ls & Hp & Hok).
  destruct (decide (isIdle (set_queue [] ls))) as [Hidle|Hbusy].
  - apply Is_true_true, isIdle_true in Hidle as (Hx & Hs & _). simpl in *.
    right. left. destruct (head_runnable st _ _ None HI Hr) as (w' & q & ? & ? & ? & Ho).
    { intros t. destruct (holds st t _) eqn:Hh; [|done].
      apply (lo_held _ _ _ _ Hok) in Hh as [(_&?&_)|(_&?)]; [congruence|].
      rewrite Hs in *. by apply elem_of_empty in H. }
    exists (req_id (w_req w')), w', None. rewrite Ho. done.
  - assert (∃ t m, ls_holds ls t m) as (t & m & Hh).
    { unfold isIdle in Hbusy; simpl in Hbusy.
      destruct (hasExclusive ls) eqn:Hx; [by exists (exclusiveHolder ls), ExclusiveLock; left|].
      destruct (set_choose_or_empty (sharedHolders ls)) as [[t Ht]|Hs].
      - by exists t, SharedLock; right.
      - exfalso. apply Hbusy. apply leibniz_equiv in Hs. simpl.
        by rewrite (bool_decide_eq_true_2 _ Hs). }
    apply (lo_held _ _ _ _ Hok) in Hh.
    destruct (decide (Exists (λ kw, req_txn (w_req kw.2) = t) (map_to_list (waiters st))))
      as [He|Hn].
    + left. exists t, m. split; [done|].
      apply Exists_exists in He as ([j w'] & Hj%elem_of_map_to_list & ?). by exists j, w'.
    + right. right. exists t, (w_resource w), m. split; [done|].
      intros (j & w' & Hj & ?). apply Hn, Exists_exists. exists (j, w').
      split; [by apply elem_of_map_to_list|done].
Qed.

(** C16. Deadlock freedom: if every waiting transaction follows the discipline,
    whenever someone waits somebody can run. *)
Theorem deadlock_free st i w :
  reachable st → ordered_waits st → waiters st !! i = Some w → can_progress st.
Proof.
  intros HI%reachable_Inv Hord Hw.
  assert (∀ j w', waiters st !! j = Some w' → Type_ (w_resource w') = FileResource →
    can_progress st) as Hfile.
  { intros j w' Hj Ht.
    destruct (resource_progress st j w' HI Hj) as [(t & m & Hh & k & wk & Hk & <-)|?]; [|done].
    destruct (ow_types _ Hord k wk Hk) as [Hn|Hf].
    - by rewrite (ow_namespace _ Hord k wk _ Hk Hn) in Hh.
    - by rewrite (ow_file _ Hord k wk _ _ Hk Hf Hh) in Ht. }
  destruct (ow_types _ Hord i w Hw) as [Hn|Hf]; [|by eapply Hfile].
  destruct (resource_progress st i w HI Hw) as [(t & m & Hh & k & wk & Hk & <-)|?]; [|done].
  destruct (ow_types _ Hord k wk Hk) as [Hn'|Hf]; [|by eapply Hfile].
  by rewrite (ow_namespace _ Hord k wk _ Hk Hn') in Hh.
Qed.

Lemma acquire_holds st ctx txn r mode :
  let '(st', out) := AcquireContext ctx txn r mode st in
  ∀ t r', holds st' t r' =
    if decide (out = Returned None ∧ t = txn ∧ r' = r) then Some mode else holds st t r'.
Proof.
  assert (∀ (e : option error) st1 w, (∀ t r', holds st1 t r' = holds st t r') →
    req_txn (w_req w) = txn → req_mode (w_req w) = mode → w_resource w = r →
    let '(st', out) := acquire_iteration w e st1 in
    ∀ t r', holds st' t r' =
      if decide (out = Returned None ∧ t = txn ∧ r' = r) then Some mode else holds st t r') as Haux.
  { intros e st1 w Hst1 Ht Hm Hr. destruct (acquire_iteration w e st1) as [st' [[err|]|]] eqn:Hit;
      intros t r'.
    - rewrite decide_False by naive_solver. by erewrite cancel_holds_eq, Hst1.
    - erewrite grant_holds_eq, Hst1, Hm, Hr, Ht by done.
      repeat case_decide; naive_solver.
    - rewrite decide_False by naive_solver. unfold acquire_iteration in Hit.
      repeat case_match; simplify_eq. apply Hst1. }
  assert (∀ e, let '(st', out) := (st, Returned (Some e)) in
    ∀ t r', holds st' t r' =
      if decide (out = Returned None ∧ t = txn ∧ r' = r) then Some mode else holds st t r') as Herr
    by (intros e t r'; by rewrite decide_False by naive_solver).
  unfold AcquireContext. destruct ctx as [[[e|] c]|]; simpl; try apply Herr.
  - destruct (decide (mode ≠ SharedLock ∧ mode ≠ ExclusiveLock)); apply Herr.
  - destruct (decide (mode ≠ SharedLock ∧ mode ≠ ExclusiveLock)); [apply Herr|].
    destruct (txnLocks st txn !! r); [apply Herr|].
    unfold getLockState, enqueue. destruct (resources st !! r); by apply Haux.
  - exact (Herr (EMsg "lockmanager: nil context")).
Qed.

(** [AcquireContext] up to its return or its first wait: when it returns
    without error the transaction holds exactly the requested lock in addition
    to what was held before; when it fails or parks, no lock changed hands. *)
Theorem AcquireContext_exact st ctx txn r mode :
  let '(st', out) := AcquireContext ctx txn r mode st in
  ∀ t r', holds st' t r' =
    if decide (out = Returned None ∧ t = txn ∧ r' = r) then Some mode else holds st t r'.
Proof. apply acquire_holds. Qed.

(** ** Concrete runs *)

Lemma reachable_acquire st ctx txn r mode :
  reachable st → reachable (AcquireContext ctx txn r mode st).1.
Proof. intros. eapply rtc_r; [done|constructor]. Qed.

Definition ns_a : ResourceID := mkResourceID NamespaceResource "a".
Definition file_f : ResourceID := mkResourceID FileResource "f".
Definition cancellable : option Ctx := Some (mkCtx None true).

(** Transaction 1 holds the file exclusively; 2 (cancellable) and 3 wait. *)
Definition contended : LMState :=
  (AcquireContext cancellable 3 file_f SharedLock
    (AcquireContext cancellable 2 file_f ExclusiveLock
      (AcquireContext (Some Background) 1 file_f ExclusiveLock NewLockManager).1).1).1.

Lemma contended_reachable : reachable contended.
Proof. repeat apply reachable_acquire. apply rtc_refl. Qed.

(** The same after the first holder has released. *)
Definition released : LMState := (ReleaseAll 1 contended).1.

Lemma released_reachable : reachable released.
Proof. eapply rtc_r; [apply contended_reachable|]. by apply step_release_all. Qed.

(** The same after the context of transaction 2 is done. *)
Definition cancelled_2 : LMState := watcherFires 3 1 contended.

Lemma cancelled_2_reachable : reachable cancelled_2.
Proof. eapply rtc_r; [apply contended_reachable|]. by apply step_watch_fires. Qed.

Definition req_2 : lockRequest := mkReq 3 2 ExclusiveLock.
Definition waiter_2 (awake : bool) : waiter := mkWaiter req_2 1 file_f awake.

Lemma mutual_exclusion_witness :
  holds contended 1 file_f = Some ExclusiveLock ∧ (1 = 1 ∧ ExclusiveLock = ExclusiveLock).
Proof.
  split; [vm_compute; reflexivity|].
  apply (mutual_exclusion contended 1 1 file_f ExclusiveLock contended_reachable);
    vm_compute; reflexivity.
Defined.

Lemma no_lost_wakeup_witness :
  (3 ∉ cancelled contended) ∧ canGrant (deref contended 1) req_2 = false.
Proof.
  apply (no_lost_wakeup contended 3 (waiter_2 false) contended_reachable);
    vm_compute; reflexivity.
Defined.

Lemma no_stranded_waiter_witness :
  resources contended !! file_f = Some 1 ∧
  length (filter (λ q, req_id q = 3) (queue (deref contended 1))) = 1%nat.
Proof.
  apply (no_stranded_waiter contended 3 (waiter_2 false) contended_reachable);
    vm_compute; reflexivity.
Defined.

Lemma grant_respects_queue_witness :
  Forall (λ o, req_mode o = SharedLock ∧ req_mode req_2 = SharedLock) [].
Proof.
  apply (grant_respects_queue released 3 (waiter_2 true) None
    (acquire_iteration (waiter_2 true) None released).1 [] [mkReq 4 3 SharedLock]
    released_reachable); vm_compute; reflexivity.
Defined.

Lemma free_resource_progress_witness :
  ∃ w q, queue (deref released 1) = w_req w :: q ∧
    waiters released !! req_id (w_req w) = Some w ∧ w_awake w = true ∧
    (acquire_iteration w None released).2 =
      Returned (if decide (req_id (w_req w) ∈ cancelled released)
                then Some (default ECanceled None) else None).
Proof.
  apply (free_resource_progress released file_f 1 None released_reachable).
  - vm_compute; reflexivity.
  - intros t. unfold holds, txnLocks.
    replace (held released) with (∅ : gmap TxnID (gmap ResourceID LockMode))
      by (vm_compute; reflexivity).
    by rewrite lookup_empty.
Defined.

Lemma cancelled_never_granted_witness :
  let '(st', out) := acquire_iteration (waiter_2 true) (Some EDeadlineExceeded) cancelled_2 in
  out = Returned (Some EDeadlineExceeded) ∧
  (∀ t r, holds st' t r = holds cancelled_2 t r) ∧
  waiters st' !! 3 = None ∧ (req_2 ∉ queue (deref st' 1)).
Proof.
  apply (cancelled_never_granted cancelled_2 3 (waiter_2 true) (Some EDeadlineExceeded)
    cancelled_2_reachable); vm_compute; reflexivity.
Defined.

Lemma grant_exact_witness :
  Inv (acquire_iteration (waiter_2 true) None released).1 ∧
  ∀ t r, holds (acquire_iteration (waiter_2 true) None released).1 t r =
    if decide (t = 2 ∧ r = file_f) then Some ExclusiveLock else holds released t r.
Proof.
  apply (grant_exact released 3 (waiter_2 true) None _ released_reachable);
    vm_compute; reflexivity.
Defined.

Lemma release_all_exact_witness :
  ∃ st', ReleaseAll_in [file_f] 1 contended = (st', None) ∧ reachable st' ∧
    ∀ t r, holds st' t r = if decide (t = 1) then None else holds contended t r.
Proof.
  apply (release_all_exact contended [file_f] 1 contended_reachable).
  vm_compute. reflexivity.
Defined.

Lemma quiescent_table_empty_witness :
  resources NewLockManager = ∅ ∧ held NewLockManager = ∅.
Proof.
  apply (quiescent_table_empty NewLockManager); [apply rtc_refl|reflexivity|].
  intros t r. vm_compute. reflexivity.
Defined.

Lemma contended_ordered : ordered_waits contended.
Proof.
  assert (∀ i w, waiters contended !! i = Some w →
    w_resource w = file_f ∧ (req_txn (w_req w) = 2 ∨ req_txn (w_req w) = 3)) as H.
  { intros i w Hw. apply elem_of_map_to_list in Hw. vm_compute in Hw.
    repeat (apply elem_of_cons in Hw as [[= -> ->]|Hw]; [simpl; auto|]).
    by apply elem_of_nil in Hw. }
  split.
  - intros i w [-> _]%H. by right.
  - intros i w r [-> _]%H. done.
  - intros i w r m [_ [->| ->]]%H _; vm_compute; done.
Qed.

Lemma deadlock_free_witness : can_progress contended.
Proof.
  apply (deadlock_free contended 3 (waiter_2 false) contended_reachable contended_ordered).
  vm_compute. reflexivity.
Defined.

End LMThms.
