(* ===== verification/LockManagerSeq.v ===== *)
(** * Uncontended use of the lock manager

    What a client relies on when nobody else is using the manager: its
    requests are granted at once, and releasing leaves nothing behind. *)

From S2P Require Import Prelude LockManager LockManagerInv LockManagerThms.
Import LM LMInv LMThms.
Open Scope N_scope.

Module LMSeq.

(** Only [txn] uses the manager, and it holds locks on some of [L]. *)
Record alone (st : LMState) (txn : TxnID) (L : list ResourceID) : Prop := {
  al_reach : reachable st;
  al_nowait : waiters st = ∅;
  al_only : ∀ t r m, holds st t r = Some m → t = txn ∧ r ∈ L }.

Lemma alone_unregistered st txn L r : alone st txn L → (r ∉ L) → resources st !! r = None.
Proof.
  intros [Hre Hw Ho] Hr. pose proof (reachable_Inv _ Hre) as HI.
  destruct (resources st !! r) as [p|] eqn:Hp; [|done]. exfalso.
  destruct (inv_ls _ HI _ _ Hp) as (_ & ls & Hls & Hok).
  assert (∀ t, holds st t r = None) as Hfree.
  { intros t. destruct (holds st t r) as [m|] eqn:Hh; [|done].
    by apply Ho in Hh as [_ ?]. }
  destruct (free_holders _ _ _ _ Hok Hfree) as [Hx Hs].
  pose proof (lo_busy _ _ _ _ Hok) as Hb.
  destruct (queue ls) as [|q q'] eqn:Hq.
  - rewrite (proj2 (isIdle_true ls)) in Hb; naive_solver.
  - destruct (lo_queue _ _ _ _ Hok q) as [_ (a & Ha)]; [rewrite Hq; by left|].
    by rewrite Hw, lookup_empty in Ha.
Qed.

Lemma acquire_alone st txn L r m ctx :
  alone st txn L → (r ∉ L) → valid_mode m → ctx_Err ctx = None →
  ∃ st', AcquireContext (Some ctx) txn r m st = (st', Returned None) ∧ alone st' txn (r :: L).
Proof.
  intros Ha Hr Hm Hc. pose proof (alone_unregistered _ _ _ _ Ha Hr) as Hu.
  destruct Ha as [Hre Hw Ho]. pose proof (reachable_Inv _ Hre) as HI.
  assert (∃ st', AcquireContext (Some ctx) txn r m st = (st', Returned None) ∧ waiters st' = ∅)
    as (st' & Heq & Hw').
  { unfold AcquireContext. rewrite decide_False by (destruct Hm; naive_solver). rewrite Hc.
    assert (txnLocks st txn !! r = None) as ->.
    { destruct (txnLocks st txn !! r) as [m'|] eqn:E; [|done].
      by apply Ho in E as [_ ?]. }
    unfold getLockState. rewrite Hu. unfold enqueue. cbn -[N.add]. unfold acquire_iteration.
    cbn -[N.add canGrant Broadcast]. rewrite decide_False
      by (intros Hin%(inv_cancelled _ HI); cbn in Hin; lia).
    unfold deref at 1. cbn -[N.add canGrant Broadcast]. rewrite !lookup_insert_eq. cbn -[N.add canGrant Broadcast].
    rewrite (canGrant_head _ _ []); [|unfold deref; cbn; by rewrite lookup_insert_eq|
      unfold deref; cbn; by rewrite lookup_insert_eq|unfold deref; cbn; by rewrite lookup_insert_eq].
    eexists. split; [done|]. cbn. rewrite Hw. apply map_eq. intros i.
    rewrite lookup_fmap, lookup_delete, lookup_empty. case_decide; [done|].
    by rewrite lookup_insert_ne. }
  exists st'. split; [done|]. split; [|done|].
  - pose proof (reachable_acquire st (Some ctx) txn r m Hre) as Hr'. by rewrite Heq in Hr'.
  - pose proof (acquire_holds st (Some ctx) txn r m) as Hh. rewrite Heq in Hh.
    intros t r' m' Hh'. rewrite Hh in Hh'. case_decide as Hd.
    + destruct Hd as (_ & -> & ->). split; [done|]. by left.
    + apply Ho in Hh' as [? ?]. split; [done|]. by right.
Qed.

Lemma releaseLocked_nowait st txn r : waiters st = ∅ → waiters (releaseLocked txn r st).1 = ∅.
Proof.
  intros Hw. unfold releaseLocked. repeat case_match; try done.
  cbn. unfold sweepIfIdle. case_match; cbn; by rewrite Hw, fmap_empty.
Qed.

Lemma releaseEach_nowait txn rs st e : waiters st = ∅ → waiters (releaseEach txn rs e st).1 = ∅.
Proof.
  revert st e. induction rs as [|r rs IH]; intros st e Hw; [done|]. cbn.
  destruct (releaseLocked txn r st) as [st' err] eqn:E. apply IH.
  pose proof (releaseLocked_nowait st txn r Hw) as H. by rewrite E in H.
Qed.

Lemma release_alone st txn L txn' :
  alone st txn L → alone (ReleaseAll txn st).1 txn' [].
Proof.
  intros [Hre Hw Ho].
  destruct (release_all_holds st (heldKeys txn st) txn Hre ltac:(done)) as (st' & Heq & Hre' & Hh).
  unfold ReleaseAll. rewrite Heq. split; [done| |].
  - pose proof (releaseEach_nowait txn (heldKeys txn st) st None Hw) as H.
    unfold ReleaseAll_in in Heq. by rewrite Heq in H.
  - intros t r m Hm. cbn in Hm. rewrite Hh in Hm. case_decide; [done|].
    by apply Ho in Hm as [? _].
Qed.

Lemma alone_new txn : alone NewLockManager txn [].
Proof. split; [apply rtc_refl|done|]. intros t r m. by unfold holds, txnLocks. Qed.

Lemma alone_any st txn txn' : alone st txn [] → alone st txn' [].
Proof. intros [? ? Ho]. split; [done..|]. intros t r m H. by apply Ho in H as [_ ?%elem_of_nil]. Qed.

End LMSeq.
