(* ===== verification/Json.v ===== *)
(** * The part of [encoding/json] the program uses

    SAFER serializes every object with [json.Marshal] and [json.Unmarshal].
    This file models the Go encoder and decoder on byte strings: string
    quoting with HTML escaping and UTF-8 repair, [\u] escapes with surrogate
    pairs, base64 for [[]byte], decimal [uint64], objects, arrays, and the
    destination-passing decoding of structs, maps and slices. *)

From S2P Require Import Prelude.
Open Scope string_scope.

Module Json.

(** ** Characters *)

Abbreviation char := Ascii.ascii (only parsing).
Definition code (c : char) : N := Ascii.N_of_ascii c.
Definition chr (n : N) : char := Ascii.ascii_of_N n.
Definition in_range (lo hi : N) (c : char) : bool := (lo <=? code c)%N && (code c <=? hi)%N.

Definition hex_digit (n : N) : char :=
  if (n <? 10)%N then chr (48 + n) else chr (87 + n).

Definition hex_value (c : char) : option N :=
  if in_range 48 57 c then Some (code c - 48)%N
  else if in_range 97 102 c then Some (code c - 87)%N
  else if in_range 65 70 c then Some (code c - 55)%N
  else None.

(** ** UTF-8 ([unicode/utf8])

    [utf8_width s] is the width of the valid multi-byte rune at the head of
    [s], and 0 when [utf8.DecodeRune] would return [RuneError, 1]. *)
Definition utf8_width (s : string) : nat :=
  match s with
  | String c1 (String c2 r) =>
    if in_range 194 223 c1 && in_range 128 191 c2 then 2
    else match r with
    | String c3 r =>
      if (in_range 224 224 c1 && in_range 160 191 c2
          || in_range 225 236 c1 && in_range 128 191 c2
          || in_range 237 237 c1 && in_range 128 159 c2
          || in_range 238 239 c1 && in_range 128 191 c2) && in_range 128 191 c3 then 3
      else match r with
      | String c4 _ =>
        if (in_range 240 240 c1 && in_range 144 191 c2
            || in_range 241 243 c1 && in_range 128 191 c2
            || in_range 244 244 c1 && in_range 128 143 c2)
           && in_range 128 191 c3 && in_range 128 191 c4 then 4 else 0
      | "" => 0
      end
    | "" => 0
    end
  | _ => 0
  end%nat.

(** [utf8.AppendRune] *)
Definition utf8_encode (r : N) : string :=
  let cont n := chr (128 + n mod 64) in
  (if r <? 128 then String (chr r) ""
   else if r <? 2048 then String (chr (192 + r / 64)) (String (cont r) "")
   else if r <? 65536 then
     String (chr (224 + r / 4096)) (String (cont (r / 64)) (String (cont r) ""))
   else String (chr (240 + r / 262144)) (String (cont (r / 4096))
          (String (cont (r / 64)) (String (cont r) ""))))%N.

Definition replacement : string := utf8_encode 65533.

(** U+2028 and U+2029 are escaped by the encoder. *)
Definition is_line_sep (s : string) : bool :=
  match s with
  | String c1 (String c2 (String c3 _)) =>
      in_range 226 226 c1 && in_range 128 128 c2 && in_range 168 169 c3
  | _ => false
  end.

(** Valid UTF-8: what survives a round trip through the encoder. *)
Fixpoint valid_utf8 (s : string) : bool :=
  match s with
  | "" => true
  | String c r =>
    if (code c <? 128)%N then valid_utf8 r
    else match utf8_width s, r with
    | 2%nat, String _ r2 => valid_utf8 r2
    | 3%nat, String _ (String _ r3) => valid_utf8 r3
    | 4%nat, String _ (String _ (String _ r4)) => valid_utf8 r4
    | _, _ => false
    end
  end.

(** ** Strings *)

Definition dquote : char := chr 34.
Definition backslash : char := chr 92.

(** The escape of one ASCII byte ([encodeState.string], HTML escaping on). *)
Definition quote_ascii (c : char) : string :=
  if (code c =? 34)%N || (code c =? 92)%N then String backslash (String c "")
  else if (code c =? 10)%N then "\n"
  else if (code c =? 13)%N then "\r"
  else if (code c =? 9)%N then "\t"
  else if (code c <? 32)%N || (code c =? 60)%N || (code c =? 62)%N || (code c =? 38)%N
  then "\u00" +:+ String (hex_digit (code c / 16)) (String (hex_digit (code c mod 16)) "")
  else String c "".

Fixpoint quote_body (s : string) : string :=
  match s with
  | "" => ""
  | String c r =>
    if (code c <? 128)%N then quote_ascii c +:+ quote_body r
    else match utf8_width s, r with
    | 2%nat, String c2 r2 => String c (String c2 (quote_body r2))
    | 3%nat, String c2 (String c3 r3) =>
        if is_line_sep s
        then "\u202" +:+ String (hex_digit (code c3 mod 16)) (quote_body r3)
        else String c (String c2 (String c3 (quote_body r3)))
    | 4%nat, String c2 (String c3 (String c4 r4)) =>
        String c (String c2 (String c3 (String c4 (quote_body r4))))
    | _, _ => "\ufffd" +:+ quote_body r
    end
  end.

Definition quote (s : string) : string := String dquote (quote_body s +:+ String dquote "").

Definition hex4 (a b c d : char) : option N :=
  x ← hex_value a; y ← hex_value b; z ← hex_value c; w ← hex_value d;
  Some (((x * 16 + y) * 16 + z) * 16 + w)%N.

Definition is_surrogate (r : N) : bool := (55296 <=? r)%N && (r <? 57344)%N.

(** [utf16.DecodeRune] *)
Definition utf16_pair (r1 r2 : N) : option N :=
  if (55296 <=? r1)%N && (r1 <? 56320)%N && (56320 <=? r2)%N && (r2 <? 57344)%N
  then Some ((r1 - 55296) * 1024 + (r2 - 56320) + 65536)%N else None.

Definition simple_escape (c : char) : option char :=
  match Ascii.N_of_ascii c with
  | 34 | 92 | 47 => Some c                       (* quote backslash slash *)
  | 98 => Some (chr 8) | 102 => Some (chr 12)    (* b f *)
  | 110 => Some (chr 10) | 114 => Some (chr 13) | 116 => Some (chr 9) (* n r t *)
  | _ => None
  end%N.

Definition prepend (p : string) (o : option (string * string)) : option (string * string) :=
  match o with Some (s, rest) => Some (p +:+ s, rest) | None => None end.

(** A string literal after its opening quote: the decoded string and the
    input that follows the closing quote. *)
Fixpoint unquote (s : string) : option (string * string) :=
  match s with
  | "" => None
  | String c r =>
    if (code c =? 34)%N then Some ("", r)
    else if (code c =? 92)%N then
      match r with
      | "" => None
      | String e r2 =>
        if (code e =? 117)%N then
          match r2 with
          | String h1 (String h2 (String h3 (String h4 r6))) =>
            match hex4 h1 h2 h3 h4 with
            | None => None
            | Some rr =>
              if is_surrogate rr then
                match r6 with
                | String b1 (String b2 (String g1 (String g2 (String g3 (String g4 r12))))) =>
                  match (if (code b1 =? 92)%N && (code b2 =? 117)%N
                         then hex4 g1 g2 g3 g4 ≫= utf16_pair rr else None) with
                  | Some rune => prepend (utf8_encode rune) (unquote r12)
                  | None => prepend replacement (unquote r6)
                  end
                | _ => prepend replacement (unquote r6)
                end
              else prepend (utf8_encode rr) (unquote r6)
            end
          | _ => None
          end
        else match simple_escape e with
             | Some d => prepend (String d "") (unquote r2)
             | None => None
             end
      end
    else if (code c <? 32)%N then None
    else if (code c <? 128)%N then prepend (String c "") (unquote r)
    else match utf8_width s, r with
    | 2%nat, String c2 r2 => prepend (String c (String c2 "")) (unquote r2)
    | 3%nat, String c2 (String c3 r3) =>
        prepend (String c (String c2 (String c3 ""))) (unquote r3)
    | 4%nat, String c2 (String c3 (String c4 r4)) =>
        prepend (String c (String c2 (String c3 (String c4 "")))) (unquote r4)
    | _, _ => prepend replacement (unquote r)
    end
  end.

(** ** Values *)

(** Numbers keep their literal, as the decoder does. *)
Unset Elimination Schemes.
Inductive json :=
  | JNull
  | JBool (b : bool)
  | JNum (lit : string)
  | JStr (s : string)
  | JArr (vs : list json)
  | JObj (kvs : list (string * json)).
Set Elimination Schemes.

Fixpoint concat_sep (sep : string) (l : list string) : string :=
  match l with
  | [] => ""
  | [s] => s
  | s :: l => s +:+ sep +:+ concat_sep sep l
  end.

Fixpoint print (v : json) : string :=
  match v with
  | JNull => "null"
  | JBool b => if b then "true" else "false"
  | JNum lit => lit
  | JStr s => quote s
  | JArr vs => "[" +:+ concat_sep "," (map print vs) +:+ "]"
  | JObj kvs =>
      "{" +:+ concat_sep "," (map (λ kv, quote kv.1 +:+ ":" +:+ print kv.2) kvs) +:+ "}"
  end.

(** [json.Marshal]: none of the modelled types can fail to encode. *)
Definition Marshal (v : json) : result string := Ok (print v).

(** ** The parser *)

Definition is_space (c : char) : bool :=
  (code c =? 32)%N || (code c =? 9)%N || (code c =? 10)%N || (code c =? 13)%N.

Fixpoint skip_ws (s : string) : string :=
  match s with
  | String c r => if is_space c then skip_ws r else s
  | "" => ""
  end.

Definition is_digit (c : char) : bool := in_range 48 57 c.

(** The longest prefix of digits. *)
Fixpoint digits (s : string) : string * string :=
  match s with
  | String c r =>
      if is_digit c then let '(d, rest) := digits r in (String c d, rest) else ("", s)
  | "" => ("", "")
  end.

Definition parse_int (s : string) : option (string * string) :=
  match s with
  | String c r =>
      if (code c =? 48)%N then Some ("0", r)
      else if in_range 49 57 c then
        let '(d, rest) := digits r in Some (String c d, rest)
      else None
  | "" => None
  end.

(** At least one digit. *)
Definition digits1 (s : string) : option (string * string) :=
  let '(d, rest) := digits s in
  match d with "" => None | _ => Some (d, rest) end.

Definition parse_frac (s : string) : option (string * string) :=
  match s with
  | String c r => if (code c =? 46)%N then prepend "." (digits1 r) else Some ("", s)
  | "" => Some ("", s)
  end.

Definition parse_exp (s : string) : option (string * string) :=
  match s with
  | String c r =>
      if (code c =? 101)%N || (code c =? 69)%N then
        prepend (String c "")
          match r with
          | String d r' =>
              if (code d =? 43)%N || (code d =? 45)%N
              then prepend (String d "") (digits1 r') else digits1 r
          | "" => None
          end
      else Some ("", s)
  | "" => Some ("", s)
  end.

Definition parse_number (s : string) : option (string * string) :=
  '(sign, s) ← match s with
    | String c r => if (code c =? 45)%N then Some ("-", r) else Some ("", s)
    | "" => None
    end;
  '(i, s) ← parse_int s;
  '(f, s) ← parse_frac s;
  '(e, s) ← parse_exp s;
  Some (sign +:+ i +:+ f +:+ e, s).

Fixpoint strip (p s : string) : option string :=
  match p, s with
  | "", _ => Some s
  | String a p', String b s' => if (code a =? code b)%N then strip p' s' else None
  | _, _ => None
  end.

Definition maxNestingDepth : N := 10000.

(** [fuel] bounds the number of values and members; [depth] is the nesting
    depth, which the decoder limits. *)
Fixpoint parse_value (fuel : nat) (depth : N) (s : string) : option (json * string) :=
  match fuel with
  | O => None
  | S fuel =>
    let s := skip_ws s in
    match s with
    | "" => None
    | String c r =>
      if (code c =? 34)%N then
        match unquote r with Some (d, rest) => Some (JStr d, rest) | None => None end
      else if (code c =? 123)%N then
        if (maxNestingDepth <? depth + 1)%N then None else
        match strip "}" (skip_ws r) with
        | Some rest => Some (JObj [], rest)
        | None =>
          match parse_members fuel (depth + 1) r with
          | Some (kvs, rest) => Some (JObj kvs, rest)
          | None => None
          end
        end
      else if (code c =? 91)%N then
        if (maxNestingDepth <? depth + 1)%N then None else
        match strip "]" (skip_ws r) with
        | Some rest => Some (JArr [], rest)
        | None =>
          match parse_elements fuel (depth + 1) r with
          | Some (vs, rest) => Some (JArr vs, rest)
          | None => None
          end
        end
      else if (code c =? 116)%N then
        match strip "true" s with Some rest => Some (JBool true, rest) | None => None end
      else if (code c =? 102)%N then
        match strip "false" s with Some rest => Some (JBool false, rest) | None => None end
      else if (code c =? 110)%N then
        match strip "null" s with Some rest => Some (JNull, rest) | None => None end
      else
        match parse_number s with Some (lit, rest) => Some (JNum lit, rest) | None => None end
    end
  end
with parse_members (fuel : nat) (depth : N) (s : string)
    : option (list (string * json) * string) :=
  match fuel with
  | O => None
  | S fuel =>
    match strip (String dquote "") (skip_ws s) with
    | None => None
    | Some r =>
      match unquote r with
      | None => None
      | Some (k, r) =>
        match strip ":" (skip_ws r) with
        | None => None
        | Some r =>
          match parse_value fuel depth r with
          | None => None
          | Some (v, r) =>
            match strip "," (skip_ws r) with
            | Some r =>
                match parse_members fuel depth r with
                | Some (kvs, r) => Some ((k, v) :: kvs, r)
                | None => None
                end
            | None =>
                match strip "}" (skip_ws r) with
                | Some r => Some ([(k, v)], r)
                | None => None
                end
            end
          end
        end
      end
    end
  end
with parse_elements (fuel : nat) (depth : N) (s : string)
    : option (list json * string) :=
  match fuel with
  | O => None
  | S fuel =>
    match parse_value fuel depth s with
    | None => None
    | Some (v, r) =>
      match strip "," (skip_ws r) with
      | Some r =>
          match parse_elements fuel depth r with
          | Some (vs, r) => Some (v :: vs, r)
          | None => None
          end
      | None =>
          match strip "]" (skip_ws r) with
          | Some r => Some ([v], r)
          | None => None
          end
      end
    end
  end.

(** The syntax check of [json.Unmarshal]: one value and nothing after it but
    white space. A value, member or element consumes at least one byte. *)
Definition parse (s : string) : option json :=
  match parse_value (S (S (String.length s))) 0 s with
  | Some (v, rest) => match skip_ws rest with "" => Some v | _ => None end
  | None => None
  end.

(** ** Base64 ([encoding/base64], the standard padded alphabet) *)

Definition b64_char (d : N) : char :=
  (if d <? 26 then chr (65 + d)
   else if d <? 52 then chr (71 + d)
   else if d <? 62 then chr (d - 4)
   else if d =? 62 then chr 43 else chr 47)%N.

Definition b64_value (c : char) : option N :=
  (if in_range 65 90 c then Some (code c - 65)
   else if in_range 97 122 c then Some (code c - 71)
   else if in_range 48 57 c then Some (code c + 4)
   else if code c =? 43 then Some 62
   else if code c =? 47 then Some 63 else None)%N.

Definition pad : char := chr 61.

Fixpoint b64_encode (s : string) : string :=
  match s with
  | "" => ""
  | String a "" =>
      let n := (code a * 16)%N in
      String (b64_char (n / 64)) (String (b64_char (n mod 64)) (String pad (String pad "")))
  | String a (String b "") =>
      let n := ((code a * 256 + code b) * 4)%N in
      String (b64_char (n / 4096)) (String (b64_char ((n / 64) mod 64))
        (String (b64_char (n mod 64)) (String pad "")))
  | String a (String b (String c r)) =>
      let n := ((code a * 256 + code b) * 256 + code c)%N in
      String (b64_char (n / 262144)) (String (b64_char ((n / 4096) mod 64))
        (String (b64_char ((n / 64) mod 64)) (String (b64_char (n mod 64)) (b64_encode r))))
  end.

(** The decoder skips line breaks anywhere. *)
Fixpoint b64_strip (s : string) : string :=
  match s with
  | "" => ""
  | String c r =>
      if (code c =? 10)%N || (code c =? 13)%N then b64_strip r else String c (b64_strip r)
  end.

Fixpoint b64_quanta (s : string) : option string :=
  match s with
  | "" => Some ""
  | String a (String b (String c (String d r))) =>
      x ← b64_value a; y ← b64_value b;
      if (code c =? 61)%N then
        if (code d =? 61)%N then
          match r with
          | "" => Some (String (chr ((x * 64 + y) / 16)) "")
          | _ => None
          end
        else None
      else
        z ← b64_value c;
        if (code d =? 61)%N then
          match r with
          | "" =>
              let n := (((x * 64 + y) * 64 + z) / 4)%N in
              Some (String (chr (n / 256)) (String (chr (n mod 256)) ""))
          | _ => None
          end
        else
          w ← b64_value d;
          let n := (((x * 64 + y) * 64 + z) * 64 + w)%N in
          t ← b64_quanta r;
          Some (String (chr (n / 65536)) (String (chr ((n / 256) mod 256))
                  (String (chr (n mod 256)) t)))
  | _ => None
  end.

Definition b64_decode (s : string) : option string := b64_quanta (b64_strip s).

(** ** Unsigned integers *)

Fixpoint digits_value (acc : N) (s : string) : option N :=
  match s with
  | "" => Some acc
  | String c r => if is_digit c then digits_value (acc * 10 + (code c - 48)) r else None
  end.

(** [strconv.ParseUint(s, 10, bits)] with the bound of the type. *)
Definition ParseUint (bound : N) (s : string) : option N :=
  match s with
  | "" => None
  | _ => n ← digits_value 0 s; if (n <=? bound)%N then Some n else None
  end.

(** ** Encoding and decoding Go values

    [decode] takes the destination's previous value: [null] leaves it alone
    (or resets a slice or map), an object updates the fields it names. *)

Definition enc_bool (b : bool) : json := JBool b.
Definition enc_uint (n : N) : json := JNum (pretty n).
Definition enc_string (s : string) : json := JStr s.
Definition enc_bytes (b : slice) : json :=
  match b with Some s => JStr (b64_encode s) | None => JNull end.

Definition dec_bool (j : json) (dst : bool) : option bool :=
  match j with JNull => Some dst | JBool b => Some b | _ => None end.
Definition dec_uint64 (j : json) (dst : N) : option N :=
  match j with JNull => Some dst | JNum l => ParseUint max_uint64 l | _ => None end.
Definition dec_string (j : json) (dst : string) : option string :=
  match j with JNull => Some dst | JStr s => Some s | _ => None end.

Definition dec_byte (j : json) : option char :=
  match j with JNull => Some (chr 0) | JNum l => chr <$> ParseUint 255 l | _ => None end.

Fixpoint of_chars (l : list char) : string :=
  match l with [] => "" | c :: l => String c (of_chars l) end.

Definition dec_bytes (j : json) (dst : slice) : option slice :=
  match j with
  | JNull => Some None
  | JStr s => Some <$> b64_decode s
  | JArr vs => (λ l, Some (of_chars l)) <$> mapM dec_byte vs
  | _ => None
  end.

(** Field names match exactly, or else under the decoder's case folding:
    ASCII letters, the Kelvin sign for k and the long s for s. *)
Definition lower (c : char) : char := if in_range 65 90 c then chr (code c + 32) else c.

Fixpoint fold_key (s : string) : string :=
  match s with
  | String c1 r =>
      match r with
      | String c2 r2 =>
          if (code c1 =? 197)%N && (code c2 =? 191)%N then String (chr 115) (fold_key r2)
          else match r2 with
          | String c3 r3 =>
              if (code c1 =? 226)%N && (code c2 =? 132)%N && (code c3 =? 170)%N
              then String (chr 107) (fold_key r3) else String (lower c1) (fold_key r)
          | "" => String (lower c1) (fold_key r)
          end
      | "" => String (lower c1) ""
      end
  | "" => ""
  end.

Section structs.
Context {T : Type}.

Definition field : Type := string * (json → T → option T).

Fixpoint find_field (eqb : string → string → bool) (fs : list field) (k : string)
    : option (json → T → option T) :=
  match fs with
  | [] => None
  | (n, f) :: fs => if eqb n k then Some f else find_field eqb fs k
  end.

Definition lookup_field (fs : list field) (k : string) : option (json → T → option T) :=
  match find_field String.eqb fs k with
  | Some f => Some f
  | None => find_field (λ n k, String.eqb (fold_key n) (fold_key k)) fs k
  end.

Fixpoint dec_fields (fs : list field) (kvs : list (string * json)) (dst : T) : option T :=
  match kvs with
  | [] => Some dst
  | (k, v) :: kvs =>
      dst ← match lookup_field fs k with Some f => f v dst | None => Some dst end;
      dec_fields fs kvs dst
  end.

Definition dec_struct (fs : list field) (j : json) (dst : T) : option T :=
  match j with
  | JNull => Some dst
  | JObj kvs => dec_fields fs kvs dst
  | _ => None
  end.

(** [map[string]T]: keys are written sorted, and an object is merged into the
    existing map, each element decoded into a zero value. *)
Fixpoint insert_sorted (kv : string * T) (l : list (string * T)) : list (string * T) :=
  match l with
  | [] => [kv]
  | kv' :: l' => if String.leb kv.1 kv'.1 then kv :: l else kv' :: insert_sorted kv l'
  end.

Definition sort_keys (l : list (string * T)) : list (string * T) :=
  foldr insert_sorted [] l.

Definition enc_map (enc : T → json) (m : option (gmap string T)) : json :=
  match m with
  | None => JNull
  | Some m => JObj ((λ kv, (kv.1, enc kv.2)) <$> sort_keys (map_to_list m))
  end.

Fixpoint dec_entries (zero : T) (dec : json → T → option T) (kvs : list (string * json))
    (m : gmap string T) : option (gmap string T) :=
  match kvs with
  | [] => Some m
  | (k, v) :: kvs => x ← dec v zero; dec_entries zero dec kvs (<[k := x]> m)
  end.

Definition dec_map (zero : T) (dec : json → T → option T) (j : json)
    (dst : option (gmap string T)) : option (option (gmap string T)) :=
  match j with
  | JNull => Some None
  | JObj kvs => Some <$> dec_entries zero dec kvs (default ∅ dst)
  | _ => None
  end.
End structs.

(** [json.Unmarshal] into a zero value. *)
Definition Unmarshal {T} (dec : json → T → option T) (zero : T) (s : string) : option T :=
  v ← parse s; dec v zero.

End Json.
