(* ===== verification/JsonThms.v ===== *)
(** * Round trips of the JSON encoding

    Decoding what the encoder wrote gives the value back: string literals over
    valid UTF-8, base64, decimal integers, whole documents, and the decoding
    of maps. *)

From S2P Require Import Prelude Json.
Import Json.
Open Scope string_scope.

Module JsonThms.

#[local] Arguments String.append !_ _ /.

(** ** Strings as byte sequences *)

Lemma app_assoc_s (a b c : string) : (a +:+ b) +:+ c = a +:+ b +:+ c.
Proof. induction a as [|x a IH]; [done|]. cbn [String.append]. by rewrite IH. Qed.

Lemma app_nil_r_s (a : string) : a +:+ "" = a.
Proof. induction a as [|x a IH]; [done|]. cbn [String.append String.length Nat.add]. by rewrite IH. Qed.

Lemma length_app_s (a b : string) :
  String.length (a +:+ b) = (String.length a + String.length b)%nat.
Proof. induction a as [|x a IH]; [done|]. cbn [String.append String.length Nat.add]. by rewrite IH. Qed.

Lemma code_chr n : (n < 256)%N → code (chr n) = n.
Proof. apply Ascii.N_ascii_embedding. Qed.

Lemma chr_code c : chr (code c) = c.
Proof. apply Ascii.ascii_N_embedding. Qed.

Lemma code_bound c : (code c < 256)%N.
Proof. apply Ascii.N_ascii_bounded. Qed.

(** ** Quoting *)

Lemma unquote_quote_ascii c rest :
  (code c <? 128)%N = true →
  unquote (quote_ascii c +:+ rest) = prepend (String c "") (unquote rest).
Proof. destruct c as [[] [] [] [] [] [] [] []]; intros H; try discriminate H; reflexivity. Qed.

(** A byte of a multi-byte rune takes the last branch of [unquote]. *)
Lemma unquote_high c r :
  (code c <? 128)%N = false →
  unquote (String c r) =
    match utf8_width (String c r), r with
    | 2%nat, String c2 r2 => prepend (String c (String c2 "")) (unquote r2)
    | 3%nat, String c2 (String c3 r3) =>
        prepend (String c (String c2 (String c3 ""))) (unquote r3)
    | 4%nat, String c2 (String c3 (String c4 r4)) =>
        prepend (String c (String c2 (String c3 (String c4 "")))) (unquote r4)
    | _, _ => prepend replacement (unquote r)
    end.
Proof.
  intros Hc. apply N.ltb_ge in Hc. cbn [unquote].
  rewrite (proj2 (N.eqb_neq (code c) 34)), (proj2 (N.eqb_neq (code c) 92)) by lia.
  rewrite (proj2 (N.ltb_ge (code c) 32)), (proj2 (N.ltb_ge (code c) 128)) by lia. done.
Qed.

Lemma utf8_width_2 c c2 r r' :
  utf8_width (String c (String c2 r)) = 2%nat → utf8_width (String c (String c2 r')) = 2%nat.
Proof. cbn. destruct (_ && _); [done|]. repeat case_match; done. Qed.

Lemma utf8_width_3 c c2 c3 r r' :
  utf8_width (String c (String c2 (String c3 r))) = 3%nat →
  utf8_width (String c (String c2 (String c3 r'))) = 3%nat.
Proof.
  cbn. destruct (in_range 194 223 c && in_range 128 191 c2); [done|].
  destruct (_ && in_range 128 191 c3); [done|]. repeat case_match; done.
Qed.

Lemma utf8_width_4 c c2 c3 c4 r r' :
  utf8_width (String c (String c2 (String c3 (String c4 r)))) = 4%nat →
  utf8_width (String c (String c2 (String c3 (String c4 r')))) = 4%nat.
Proof. done. Qed.

Lemma code_inj c n : code c = n → c = chr n.
Proof. intros <-. by rewrite chr_code. Qed.

Lemma unquote_line_sep c c2 c3 r :
  is_line_sep (String c (String c2 (String c3 r))) = true →
  ∀ rest, unquote ("\u202" +:+ String (hex_digit (code c3 mod 16)) rest) =
    prepend (String c (String c2 (String c3 ""))) (unquote rest).
Proof.
  unfold is_line_sep, in_range. rewrite !andb_true_iff, !N.leb_le.
  intros [[[??][??]][??]] rest.
  assert (c = chr 226) as -> by (apply code_inj; lia).
  assert (c2 = chr 128) as -> by (apply code_inj; lia).
  assert (c3 = chr 168 ∨ c3 = chr 169) as [-> | ->].
  { destruct (decide (code c3 = 168%N)); [left|right]; apply code_inj; lia. }
  all: reflexivity.
Qed.

Lemma unquote_quote_body n : ∀ s rest,
  (String.length s ≤ n)%nat → valid_utf8 s = true →
  unquote (quote_body s +:+ String dquote rest) = Some (s, rest).
Proof.
  induction n as [|n IH]; intros [|c r] rest Hlen Hv; cbn in Hlen; try lia; try reflexivity.
  cbn [quote_body]. cbn [valid_utf8] in Hv. destruct (code c <? 128)%N eqn:Hc.
  - rewrite app_assoc_s, unquote_quote_ascii, IH by (done || lia). done.
  - destruct (utf8_width (String c r)) as [|[|[|[|[|]]]]] eqn:Hw; try done;
      destruct r as [|c2 r]; try done.
    + cbn [String.append]. rewrite unquote_high by done.
      rewrite (utf8_width_2 _ _ _ _ Hw), IH by (done || (cbn in Hlen; lia)). done.
    + destruct r as [|c3 r]; [done|]. destruct (is_line_sep _) eqn:Hsep.
      * change (unquote ("\u202" +:+ String (hex_digit (code c3 mod 16))
          (quote_body r +:+ String dquote rest)) = Some (String c (String c2 (String c3 r)), rest)).
        rewrite (unquote_line_sep _ _ _ _ Hsep), IH by (done || (cbn in Hlen; lia)). done.
      * cbn [String.append]. rewrite unquote_high by done.
        rewrite (utf8_width_3 _ _ _ _ _ Hw), IH by (done || (cbn in Hlen; lia)). done.
    + destruct r as [|c3 [|c4 r]]; [done..|]. cbn [String.append].
      rewrite unquote_high by done.
      rewrite (utf8_width_4 _ _ _ _ _ _ Hw), IH by (done || (cbn in Hlen; lia)). done.
Qed.

Lemma unquote_quote s rest :
  valid_utf8 s = true → unquote (quote_body s +:+ String dquote rest) = Some (s, rest).
Proof. by apply (unquote_quote_body (String.length s)). Qed.

(** ** Decimal integers *)

Fixpoint all_digits (s : string) : bool :=
  match s with "" => true | String c r => is_digit c && all_digits r end.

Lemma pretty_N_char_code x : (x < 10)%N → code (pretty_N_char x) = (48 + x)%N.
Proof.
  intros. assert (x = 0 ∨ x = 1 ∨ x = 2 ∨ x = 3 ∨ x = 4 ∨ x = 5 ∨ x = 6 ∨ x = 7 ∨ x = 8
    ∨ x = 9)%N by lia.
  naive_solver.
Qed.

Lemma pretty_N_char_digit x : (x < 10)%N → is_digit (pretty_N_char x) = true.
Proof.
  intros Hx. unfold is_digit, in_range.
  rewrite pretty_N_char_code, andb_true_iff, !N.leb_le by done. lia.
Qed.

Lemma all_digits_snoc d c :
  all_digits d = true → is_digit c = true → all_digits (d +:+ String c "") = true.
Proof.
  intros Hd Hc. induction d as [|c' d IH]; cbn in *; [by rewrite Hc|].
  apply andb_true_iff in Hd as [-> Hd]. by apply IH.
Qed.

(** [pretty_N_go] writes a non-zero leading digit, digits, and then [s]; read
    back, the digits have the value that was printed. *)
Lemma pretty_go_decimal x : (0 < x)%N → ∀ s,
  ∃ c d, pretty_N_go x s = String c (d +:+ s) ∧ in_range 49 57 c = true ∧
    all_digits d = true ∧
    ∀ t, digits_value 0 (String c (d +:+ t)) = digits_value x t.
Proof.
  induction (N.lt_wf_0 x) as [x _ IH]; intros Hx s.
  rewrite pretty_N_go_step by done.
  assert (x mod 10 < 10)%N as Hm by (by apply N.mod_lt).
  pose proof (N.div_mod x 10 ltac:(done)) as Hdm.
  specialize (IH (x / 10)%N (N.div_lt x 10 Hx ltac:(done))).
  generalize dependent (x mod 10)%N. generalize dependent (x / 10)%N. intros q IH m Hm ->.
  pose proof (pretty_N_char_code _ Hm) as Hc. pose proof (pretty_N_char_digit _ Hm) as Hdig.
  assert (∀ a t, digits_value a (String (pretty_N_char m) t) = digits_value (a * 10 + m) t)
    as Hstep by (intros; cbn [digits_value]; rewrite Hdig, Hc; f_equal; lia).
  destruct (decide (q = 0)%N) as [-> | Hz].
  - rewrite pretty_N_go_0. exists (pretty_N_char m), "". split_and!; try done.
    unfold in_range. rewrite Hc, andb_true_iff, !N.leb_le. lia.
  - destruct (IH ltac:(lia) (String (pretty_N_char m) s)) as (c & d & -> & Hr & Hd & Hv).
    exists c, (d +:+ String (pretty_N_char m) ""). rewrite !app_assoc_s.
    split_and!; try done.
    + by apply all_digits_snoc.
    + intros t. rewrite app_assoc_s, Hv. cbn [String.append]. rewrite Hstep. f_equal. lia.
Qed.

Lemma ParseUint_pretty bound n : (n ≤ bound)%N → ParseUint bound (pretty n) = Some n.
Proof.
  intros Hn. assert (digits_value 0 (pretty n) = Some n ∧ pretty n ≠ "") as [Hv Hne].
  { unfold pretty, pretty_N. case_decide as Hz; [by subst|].
    destruct (pretty_go_decimal n) with (s := "") as (c & d & -> & _ & _ & Hv); [lia|].
    split; [apply Hv|done]. }
  unfold ParseUint. rewrite Hv. destruct (pretty n); [done|]. cbn.
  by rewrite (proj2 (N.leb_le _ _)).
Qed.

Lemma pretty_all_digits (n : N) : all_digits (pretty n) = true.
Proof.
  unfold pretty, pretty_N. case_decide; [done|].
  destruct (pretty_go_decimal n) with (s := "") as (c & d & -> & Hc & Hd & _); [lia|].
  rewrite app_nil_r_s. cbn [all_digits]. rewrite Hd, andb_true_r.
  unfold is_digit, in_range in *. rewrite andb_true_iff, !N.leb_le in *. lia.
Qed.

(** A decimal field ended by a separator is read back unambiguously. *)
Lemma decimal_sep_inj sep d1 d2 r1 r2 :
  is_digit sep = false → all_digits d1 = true → all_digits d2 = true →
  d1 +:+ String sep r1 = d2 +:+ String sep r2 → d1 = d2 ∧ r1 = r2.
Proof.
  intros Hs. revert d2. induction d1 as [|c1 d1 IH]; intros [|c2 d2] H1 H2 Heq; cbn in *.
  - by simplify_eq.
  - exfalso. injection Heq as <- _. by rewrite Hs in H2.
  - exfalso. injection Heq as -> _. by rewrite Hs in H1.
  - apply andb_true_iff in H1 as [_ H1]. apply andb_true_iff in H2 as [_ H2].
    injection Heq as -> Heq. destruct (IH d2 H1 H2 Heq) as [-> ->]. done.
Qed.

Lemma decimal_field_inj d1 d2 r1 r2 :
  all_digits d1 = true → all_digits d2 = true →
  d1 +:+ ":" +:+ r1 = d2 +:+ ":" +:+ r2 → d1 = d2 ∧ r1 = r2.
Proof. by apply decimal_sep_inj. Qed.

(** Concatenations whose first parts have the same length agree part by part. *)
Lemma append_inj_length a1 a2 b1 b2 :
  String.length a1 = String.length a2 → a1 +:+ b1 = a2 +:+ b2 → a1 = a2 ∧ b1 = b2.
Proof.
  revert a2. induction a1 as [|c1 a1 IH]; intros [|c2 a2] Hl Heq; cbn in *; try done.
  injection Heq as -> Heq. injection Hl as Hl. by destruct (IH a2 Hl Heq) as [-> ->].
Qed.

(** What may follow a value in a document. *)
Definition delimits (s : string) : bool :=
  match s with
  | "" => true
  | String c _ => (code c =? 44)%N || (code c =? 93)%N || (code c =? 125)%N
  end.

Lemma digits_app d rest :
  all_digits d = true → delimits rest = true → digits (d +:+ rest) = (d, rest).
Proof.
  intros Hd Hr. induction d as [|c d IH].
  - destruct rest as [|c r]; [done|]. cbn. cbn in Hr.
    destruct c as [[] [] [] [] [] [] [] []]; done.
  - cbn in *. apply andb_true_iff in Hd as [-> Hd]. by rewrite IH.
Qed.

Lemma parse_number_unsigned c s i rest :
  (code c =? 45)%N = false → parse_int (String c s) = Some (i, rest) →
  delimits rest = true → parse_number (String c s) = Some (i, rest).
Proof.
  intros Hc Hi Hr. assert (parse_frac rest = Some ("", rest) ∧ parse_exp rest = Some ("", rest))
    as [Hf He].
  { destruct rest as [|c' r]; [done|]. cbn in Hr.
    destruct c' as [[] [] [] [] [] [] [] []]; done. }
  unfold parse_number. rewrite Hc. cbn [mbind option_bind]. rewrite Hi. cbn [mbind option_bind].
  rewrite Hf. cbn [mbind option_bind]. rewrite He. cbn. by rewrite app_nil_r_s.
Qed.

Lemma parse_number_pretty (n : N) rest :
  delimits rest = true → parse_number (pretty n +:+ rest) = Some (pretty n, rest).
Proof.
  intros Hr. unfold pretty, pretty_N. case_decide as Hz.
  - by apply parse_number_unsigned.
  - destruct (pretty_go_decimal n) with (s := "") as (c & d & -> & Hc & Hd & _); [lia|].
    rewrite app_nil_r_s. cbn [String.append].
    apply andb_true_iff in Hc as Hc'. rewrite !N.leb_le in Hc'.
    apply parse_number_unsigned; [apply N.eqb_neq; lia| |done]. cbn [parse_int].
    by rewrite (proj2 (N.eqb_neq (code c) 48)), Hc, digits_app by (done || lia).
Qed.

(** ** Documents *)

(** Induction on values with the hypothesis for every element and member. *)
Lemma json_ind_strong (P : json → Prop) :
  P JNull → (∀ b, P (JBool b)) → (∀ l, P (JNum l)) → (∀ s, P (JStr s)) →
  (∀ vs, Forall P vs → P (JArr vs)) →
  (∀ kvs, Forall (λ kv, P kv.2) kvs → P (JObj kvs)) → ∀ v, P v.
Proof.
  intros Hn Hb Hl Hs Ha Ho. fix IH 1. intros [| | | |vs|kvs].
  - done.
  - apply Hb.
  - apply Hl.
  - apply Hs.
  - apply Ha. induction vs; constructor; auto.
  - apply Ho. induction kvs; constructor; auto.
Qed.

(** The values the program encodes: canonical numbers, valid UTF-8. *)
Fixpoint wf (v : json) : Prop :=
  match v with
  | JNull | JBool _ => True
  | JNum lit => ∃ n : N, lit = pretty n
  | JStr s => valid_utf8 s = true
  | JArr vs => foldr (λ v P, wf v ∧ P) True vs
  | JObj kvs => foldr (λ kv P, (valid_utf8 kv.1 = true ∧ wf kv.2) ∧ P) True kvs
  end.

Fixpoint height (v : json) : N :=
  match v with
  | JArr vs => 1 + foldr (λ v m, N.max (height v) m) 0 vs
  | JObj kvs => 1 + foldr (λ kv m, N.max (height kv.2) m) 0 kvs
  | _ => 0
  end%N.

(** A string that starts like a printed value. *)
Definition starts_value (s : string) : bool :=
  match s with
  | "" => false
  | String c _ => negb (is_space c) && negb (code c =? 93)%N && negb (code c =? 125)%N
  end.

Lemma pretty_head (n : N) :
  ∃ c d, pretty n = String c d ∧ in_range 48 57 c = true.
Proof.
  unfold pretty, pretty_N. case_decide; [by eexists _, ""|].
  destruct (pretty_go_decimal n) with (s := "") as (c & d & -> & Hc & _); [lia|].
  eexists c, _. split; [done|]. unfold in_range in *.
  rewrite andb_true_iff, !N.leb_le in *. lia.
Qed.

Lemma print_starts v rest : wf v → starts_value (print v +:+ rest) = true.
Proof.
  destruct v as [|[]|l| | |]; intros Hwf; try done.
  destruct Hwf as [n ->]. destruct (pretty_head n) as (c & d & Hp & Hc).
  cbn [print]. rewrite Hp. cbn. destruct c as [[] [] [] [] [] [] [] []]; done.
Qed.

Lemma skip_ws_value s : starts_value s = true → skip_ws s = s.
Proof. destruct s as [|c r]; [done|]. cbn. by destruct (is_space c). Qed.

Lemma strip_close_value s :
  starts_value s = true → strip "]" (skip_ws s) = None ∧ strip "}" (skip_ws s) = None.
Proof.
  intros Hs. rewrite skip_ws_value by done. destruct s as [|c r]; [done|].
  cbn in *. destruct c as [[] [] [] [] [] [] [] []]; done.
Qed.

(** What [parse_value] owes for [v] at nesting depth [depth]. *)
Definition parses (v : json) (depth : N) : Prop := ∀ rest fuel,
  delimits rest = true → (String.length (print v) < fuel)%nat →
  parse_value fuel depth (print v +:+ rest) = Some (v, rest).

Definition print_member (kv : string * json) : string := quote kv.1 +:+ ":" +:+ print kv.2.

Lemma concat_sep_cons sep a b l :
  concat_sep sep (a :: b :: l) = a +:+ sep +:+ concat_sep sep (b :: l).
Proof. done. Qed.

Lemma strip_comma s : strip "," (skip_ws ("," +:+ s)) = Some s.
Proof. done. Qed.

Lemma parse_elements_print depth vs v rest fuel :
  Forall (λ v, wf v ∧ parses v depth) (v :: vs) →
  (S (String.length (concat_sep "," (map print (v :: vs)))) < fuel)%nat →
  parse_elements fuel depth (concat_sep "," (map print (v :: vs)) +:+ "]" +:+ rest)
    = Some (v :: vs, rest).
Proof.
  revert v fuel. induction vs as [|v' vs IH]; intros v fuel [[Hwf Hv] Hvs]%Forall_cons Hf;
    (destruct fuel as [|fuel]; [lia|]); cbn [parse_elements].
  - cbn [map concat_sep] in *. rewrite Hv by (done || lia). done.
  - cbn [map] in *. rewrite concat_sep_cons in *. rewrite !length_app_s in Hf.
    change (String.length ",") with 1%nat in Hf.
    rewrite !app_assoc_s. rewrite Hv, strip_comma by (done || lia).
    rewrite IH by (done || (cbn [map]; lia)). done.
Qed.

Lemma parse_members_print depth kvs kv rest fuel :
  Forall (λ kv, valid_utf8 kv.1 = true ∧ wf kv.2 ∧ parses kv.2 depth) (kv :: kvs) →
  (S (String.length (concat_sep "," (map print_member (kv :: kvs)))) < fuel)%nat →
  parse_members fuel depth (concat_sep "," (map print_member (kv :: kvs)) +:+ "}" +:+ rest)
    = Some (kv :: kvs, rest).
Proof.
  assert (∀ kv rest fuel, valid_utf8 kv.1 = true → parses kv.2 depth →
    delimits rest = true → (String.length (print_member kv) < fuel)%nat →
    ∃ r, strip (String dquote "") (skip_ws (print_member kv +:+ rest)) = Some r ∧
    ∃ r', unquote r = Some (kv.1, r') ∧ ∃ r'', strip ":" (skip_ws r') = Some r'' ∧
      parse_value fuel depth r'' = Some (kv.2, rest)) as Hone.
  { intros [k v] rest' fuel' Hk Hv Hr Hf. unfold print_member, quote in *. cbn [fst snd] in *.
    cbn [String.append]. eexists; split; [done|]. rewrite !app_assoc_s. cbn [String.append].
    eexists; split; [by apply unquote_quote|]. eexists; split; [done|].
    apply Hv; [done|]. cbn in Hf. rewrite !length_app_s in Hf. cbn in Hf. lia. }
  revert kv fuel. induction kvs as [|kv' kvs IH];
    intros [k v] fuel [(Hk & Hwf & Hv) Hvs]%Forall_cons Hf;
    (destruct fuel as [|fuel]; [lia|]); cbn [parse_members].
  - cbn [map concat_sep] in *.
    destruct (Hone (k, v) ("}" +:+ rest) fuel) as (r & -> & r' & -> & r'' & -> & ->);
      [done..|lia|]. done.
  - cbn [map] in *. rewrite concat_sep_cons in *. rewrite !length_app_s in Hf.
    change (String.length ",") with 1%nat in Hf.
    rewrite !app_assoc_s.
    destruct (Hone (k, v) ("," +:+ (concat_sep "," (print_member kv' :: map print_member kvs)
      +:+ "}" +:+ rest)) fuel) as (r & -> & r' & -> & r'' & -> & ->); [done..|lia|].
    rewrite strip_comma, IH by (done || (cbn [map]; lia)). done.
Qed.

Lemma foldr_and_Forall {A} (P : A → Prop) l : foldr (λ x Q, P x ∧ Q) True l ↔ Forall P l.
Proof. induction l; cbn; rewrite ?Forall_cons; naive_solver. Qed.

Lemma foldr_max_le {A} (f : A → N) l b :
  (foldr (λ x m, N.max (f x) m) 0 l ≤ b)%N → Forall (λ x, (f x ≤ b)%N) l.
Proof. induction l; cbn; constructor; [lia|apply IHl; lia]. Qed.

Lemma parse_value_digit c r fuel depth :
  in_range 48 57 c = true →
  parse_value (S fuel) depth (String c r) =
    match parse_number (String c r) with Some (lit, rest) => Some (JNum lit, rest) | None => None end.
Proof. destruct c as [[] [] [] [] [] [] [] []]; intros H; try discriminate H; reflexivity. Qed.

Lemma parse_value_open_arr r fuel depth :
  (1 + depth ≤ maxNestingDepth)%N →
  parse_value (S fuel) depth ("[" +:+ r) =
    match strip "]" (skip_ws r) with
    | Some rest => Some (JArr [], rest)
    | None => match parse_elements fuel (depth + 1) r with
              | Some (vs, rest) => Some (JArr vs, rest) | None => None end
    end.
Proof.
  intros Hd. unfold parse_value; fold parse_value parse_members parse_elements. cbn.
  by rewrite (proj2 (N.ltb_ge _ _)) by lia.
Qed.

Lemma parse_value_open_obj r fuel depth :
  (1 + depth ≤ maxNestingDepth)%N →
  parse_value (S fuel) depth ("{" +:+ r) =
    match strip "}" (skip_ws r) with
    | Some rest => Some (JObj [], rest)
    | None => match parse_members fuel (depth + 1) r with
              | Some (kvs, rest) => Some (JObj kvs, rest) | None => None end
    end.
Proof.
  intros Hd. unfold parse_value; fold parse_value parse_members parse_elements. cbn.
  by rewrite (proj2 (N.ltb_ge _ _)) by lia.
Qed.

Lemma parse_value_print v : ∀ depth,
  wf v → (depth + height v ≤ maxNestingDepth)%N → parses v depth.
Proof.
  induction v as [|b|l|s|vs IH|kvs IH] using json_ind_strong;
    intros depth Hwf Hh rest fuel Hr Hf; (destruct fuel as [|fuel]; [lia|]).
  - done.
  - by destruct b.
  - destruct Hwf as [n ->]. cbn [print]. destruct (pretty_head n) as (c & d & Hp & Hc).
    pose proof (parse_number_pretty n rest Hr) as Hn. rewrite Hp in *.
    cbn [String.append] in *. by rewrite parse_value_digit, Hn.
  - cbn [print]. unfold quote.
    cbn [String.append]. rewrite app_assoc_s. cbn [String.append].
    change (match unquote (quote_body s +:+ String dquote rest) with
      Some (d, r) => Some (JStr d, r) | None => None end = Some (JStr s, rest)).
    by rewrite unquote_quote.
  - cbn [wf] in Hwf. apply foldr_and_Forall in Hwf. cbn [height] in Hh.
    assert (1 + depth ≤ maxNestingDepth)%N as Hd by lia.
    assert (Forall (λ v, wf v ∧ parses v (depth + 1)) vs) as Hall.
    { eapply Forall_impl; [apply Forall_and; split; [exact Hwf|]|].
      - apply Forall_and; split; [exact IH|].
        apply (foldr_max_le height vs (maxNestingDepth - (depth + 1))). lia.
      - intros v (Hw & Hp & Hm). split; [done|]. apply Hp; [done|]. cbn in Hm. lia. }
    cbn [print] in *. rewrite !app_assoc_s. rewrite parse_value_open_arr by lia.
    destruct vs as [|v vs]; [done|].
    rewrite !length_app_s in Hf. cbn [map] in *.
    change (String.length "[") with 1%nat in Hf. change (String.length "]") with 1%nat in Hf.
    destruct (strip_close_value (concat_sep "," (print v :: map print vs) +:+ "]" +:+ rest))
      as [-> _].
    { inversion_clear Hwf. destruct vs; cbn [map concat_sep]; rewrite ?app_assoc_s;
        by apply print_starts. }
    rewrite (parse_elements_print _ vs v) by (done || (cbn [map]; lia)). done.
  - cbn [wf] in Hwf. apply (foldr_and_Forall (λ kv, valid_utf8 kv.1 = true ∧ wf kv.2)) in Hwf.
    cbn [height] in Hh. assert (1 + depth ≤ maxNestingDepth)%N as Hd by lia.
    assert (Forall (λ kv, valid_utf8 kv.1 = true ∧ wf kv.2 ∧ parses kv.2 (depth + 1)) kvs) as Hall.
    { eapply Forall_impl; [apply Forall_and; split; [exact Hwf|]|].
      - apply Forall_and; split; [exact IH|].
        apply (foldr_max_le (λ kv, height kv.2) kvs (maxNestingDepth - (depth + 1))). lia.
      - intros kv ([? Hw] & Hp & Hm). split_and!; [done..|]. apply Hp; [done|]. cbn in Hm. lia. }
    cbn [print] in *. change (λ kv, quote kv.1 +:+ ":" +:+ print kv.2) with print_member in *.
    rewrite !app_assoc_s. rewrite parse_value_open_obj by lia.
    destruct kvs as [|kv kvs]; [done|].
    rewrite !length_app_s in Hf. cbn [map] in *.
    change (String.length "{") with 1%nat in Hf. change (String.length "}") with 1%nat in Hf.
    destruct (strip_close_value
      (concat_sep "," (print_member kv :: map print_member kvs) +:+ "}" +:+ rest)) as [_ ->].
    { by destruct kvs. }
    rewrite (parse_members_print _ kvs kv) by (done || (cbn [map]; lia)). done.
Qed.

Lemma parse_print v :
  wf v → (height v ≤ maxNestingDepth)%N → parse (print v) = Some v.
Proof.
  intros Hwf Hh. unfold parse.
  pose proof (parse_value_print v 0 Hwf ltac:(lia) "" (S (S (String.length (print v))))) as Hp.
  rewrite app_nil_r_s in Hp. by rewrite Hp by (done || lia).
Qed.

(** ** Base64 *)

Definition b64_char_ok (d : N) : bool :=
  bool_decide (b64_value (b64_char d) = Some d) &&
  negb (code (b64_char d) =? 61)%N && negb (code (b64_char d) =? 10)%N &&
  negb (code (b64_char d) =? 13)%N && (code (b64_char d) <? 128)%N.

Lemma b64_value_char d : (d < 64)%N → b64_value (b64_char d) = Some d ∧
  (code (b64_char d) =? 61)%N = false ∧ (code (b64_char d) =? 10)%N = false ∧
  (code (b64_char d) =? 13)%N = false ∧ (code (b64_char d) <? 128)%N = true.
Proof.
  intros Hd. assert (forallb b64_char_ok (N.of_nat <$> seq 0 64) = true) as Hall by reflexivity.
  rewrite List.forallb_forall in Hall. specialize (Hall d). unfold b64_char_ok in Hall.
  rewrite !andb_true_iff, !negb_true_iff, bool_decide_eq_true in Hall.
  destruct Hall as [[[[??]?]?]?]; [|done].
  apply list_elem_of_In, list_elem_of_fmap. exists (N.to_nat d).
  split; [lia|]. apply elem_of_seq. lia.
Qed.

(** The base-64 digits of a number add up to it. *)
Lemma b64_digits n :
  ((((n / 262144 * 64 + (n / 4096) mod 64) * 64 + (n / 64) mod 64) * 64 + n mod 64 = n) ∧
   (n / 4096 * 64 + (n / 64) mod 64) * 64 + n mod 64 = n ∧ n / 64 * 64 + n mod 64 = n)%N.
Proof.
  change 262144%N with (64 * (64 * 64))%N. change 4096%N with (64 * 64)%N.
  rewrite <-!N.Div0.div_div.
  pose proof (N.div_mod n 64 ltac:(done)). pose proof (N.div_mod (n / 64) 64 ltac:(done)).
  pose proof (N.div_mod (n / 64 / 64) 64 ltac:(done)).
  generalize dependent (n / 64 / 64 / 64)%N. generalize dependent ((n / 64 / 64) mod 64)%N.
  generalize dependent (n / 64 / 64)%N. generalize dependent ((n / 64) mod 64)%N.
  generalize dependent (n / 64)%N. generalize dependent (n mod 64)%N. intros. subst. lia.
Qed.

(** The base-256 digits of a number made of bytes are the bytes. *)
Lemma byte_digits a b c : (b < 256)%N → (c < 256)%N →
  (((a * 256 + b) * 256 + c) / 65536 = a ∧ (((a * 256 + b) * 256 + c) / 256) mod 256 = b ∧
   ((a * 256 + b) * 256 + c) mod 256 = c ∧ ((a * 256 + b) * 256 + c) / 256 = a * 256 + b)%N.
Proof.
  intros Hb Hc.
  assert (((a * 256 + b) * 256 + c) / 256 = a * 256 + b)%N as H1 by
    (symmetry; apply (N.div_unique _ _ _ c); lia).
  assert (((a * 256 + b) * 256 + c) mod 256 = c)%N as H2 by
    (symmetry; apply (N.mod_unique _ _ (a * 256 + b)); lia).
  rewrite H1, H2. change 65536%N with (256 * 256)%N. rewrite <-N.Div0.div_div, H1.
  split_and!; [|symmetry|done..].
  - symmetry. apply (N.div_unique _ _ _ b); lia.
  - apply (N.mod_unique _ _ a); lia.
Qed.

Lemma b64_strip_char d r : (d < 64)%N → b64_strip (String (b64_char d) r) = String (b64_char d) (b64_strip r).
Proof. intros Hd. cbn [b64_strip]. by destruct (b64_value_char d Hd) as (_ & _ & -> & -> & _). Qed.

Lemma b64_value_char_ok d : (d < 64)%N → b64_value (b64_char d) = Some d.
Proof. intros Hd. apply (b64_value_char d Hd). Qed.

Lemma b64_not_pad d : (d < 64)%N → (code (b64_char d) =? 61)%N = false.
Proof. intros Hd. apply (b64_value_char d Hd). Qed.

Lemma string_ind3 (P : string → Prop) :
  P "" → (∀ a, P (String a "")) → (∀ a b, P (String a (String b ""))) →
  (∀ a b c r, P r → P (String a (String b (String c r)))) → ∀ s, P s.
Proof. intros H0 H1 H2 H3. fix IH 1. intros [|a [|b [|c r]]]; [done|done|done|]. apply H3, IH. Qed.

(** A number below [64 * k] has base-64 digits below 64 all the way up. *)
Lemma div_bound n k m : (n < k * m)%N → (n / k < m)%N.
Proof.
  intros Hn. destruct (decide (k = 0)%N) as [-> | Hk]; [lia|].
  by apply N.Div0.div_lt_upper_bound.
Qed.

Lemma b64_decode_encode s : b64_decode (b64_encode s) = Some s.
Proof.
  unfold b64_decode. induction s as [|a|a b|a b c r IH] using string_ind3; [done|..];
    cbn [b64_encode];
    repeat match goal with c : Ascii.ascii |- _ =>
      lazymatch goal with H : (code c < 256)%N |- _ => fail
      | _ => pose proof (code_bound c); pose proof (chr_code c) end end.
  - set (n := (code a * 16)%N). destruct (b64_digits n) as (_ & _ & Hn).
    assert (n / 64 < 64)%N by (apply div_bound; subst n; lia).
    assert (n mod 64 < 64)%N by (by apply N.mod_lt).
    rewrite !b64_strip_char by done. cbn [b64_quanta b64_strip].
    rewrite !b64_value_char_ok by done. cbn -[N.mul N.div N.add N.modulo].
    rewrite Hn. subst n. rewrite N.div_mul, chr_code by done. done.
  - set (n := ((code a * 256 + code b) * 4)%N). destruct (b64_digits n) as (_ & Hn & _).
    assert (n / 4096 < 64)%N by (apply div_bound; subst n; lia).
    assert (n mod 64 < 64 ∧ (n / 64) mod 64 < 64)%N as [??] by (split; by apply N.mod_lt).
    rewrite !b64_strip_char by done. cbn [b64_quanta b64_strip].
    rewrite !b64_value_char_ok, !b64_not_pad by done. cbn -[N.mul N.div N.add N.modulo].
    rewrite Hn. subst n. rewrite N.div_mul by done.
    destruct (byte_digits 0 (code a) (code b)) as (_ & _ & Hm & Hd); [done..|].
    rewrite N.mul_0_l, N.add_0_l in Hm, Hd. by rewrite Hm, Hd, !chr_code.
  - set (n := ((code a * 256 + code b) * 256 + code c)%N). destruct (b64_digits n) as (Hn & _ & _).
    assert (n / 262144 < 64)%N by (apply div_bound; subst n; lia).
    assert (n mod 64 < 64 ∧ (n / 64) mod 64 < 64 ∧ (n / 4096) mod 64 < 64)%N as (? & ? & ?)
      by (split_and!; by apply N.mod_lt).
    rewrite !b64_strip_char by done. cbn [b64_quanta].
    rewrite !b64_value_char_ok, !b64_not_pad by done. cbn -[N.mul N.div N.add N.modulo b64_quanta].
    rewrite IH, Hn. cbn -[N.mul N.div N.add N.modulo]. subst n.
    destruct (byte_digits (code a) (code b) (code c)) as (-> & -> & -> & _); [done..|].
    by rewrite !chr_code.
Qed.

(** Base64 text is ASCII. *)
Lemma b64_encode_utf8 s : valid_utf8 (b64_encode s) = true.
Proof.
  induction s as [|a|a b|a b c r IH] using string_ind3; [done|..]; cbn [b64_encode];
    repeat match goal with c : Ascii.ascii |- _ =>
      lazymatch goal with H : (code c < 256)%N |- _ => fail
      | _ => pose proof (code_bound c) end end;
    cbn [valid_utf8];
    repeat match goal with |- context [ (code (b64_char ?d) <? 128)%N ] =>
      destruct (b64_value_char d) as (_ & _ & _ & _ & ->);
        [first [by apply N.mod_lt | apply div_bound; lia]|] end; done.
Qed.

(** ** Codecs

    A codec round-trips at [x]: what it writes is well formed, and decoding it
    into any previous value gives [x] back. *)
Record codec_ok {T} (h : N) (enc : T → json) (dec : json → T → option T) (zero x : T)
    : Prop := {
  codec_wf : wf (enc x);
  codec_height : (height (enc x) ≤ h)%N;
  codec_dec : dec (enc x) zero = Some x }.

Lemma Unmarshal_print {T} h enc dec (zero x : T) :
  (h ≤ maxNestingDepth)%N → codec_ok h enc dec zero x →
  Unmarshal dec zero (print (enc x)) = Some x.
Proof.
  intros Hb [Hwf Hh Hd]. unfold Unmarshal. rewrite parse_print; [done..|]. lia.
Qed.

Lemma bytes_codec zero b : codec_ok 0 enc_bytes dec_bytes zero b.
Proof.
  destruct b as [s|]; split; try done; cbn.
  - apply b64_encode_utf8.
  - by rewrite b64_decode_encode.
Qed.

Lemma uint_codec zero n : (n ≤ max_uint64)%N → codec_ok 0 enc_uint dec_uint64 zero n.
Proof. intros Hn. split; [by exists n|done|]. cbn. by apply ParseUint_pretty. Qed.

Lemma bool_codec zero b : codec_ok 0 enc_bool dec_bool zero b.
Proof. by split. Qed.

Lemma string_codec zero s : valid_utf8 s = true → codec_ok 0 enc_string dec_string zero s.
Proof. by split. Qed.

(** ** Maps *)

Lemma insert_sorted_perm {T} (kv : string * T) l : insert_sorted kv l ≡ₚ kv :: l.
Proof.
  induction l as [|kv' l IH]; [done|]. cbn. case_match; [done|].
  rewrite IH. apply Permutation_swap.
Qed.

Lemma sort_keys_perm {T} (l : list (string * T)) : sort_keys l ≡ₚ l.
Proof. induction l as [|kv l IH]; [done|]. cbn. by rewrite insert_sorted_perm, IH. Qed.

Lemma dec_entries_enc {T} h (enc : T → json) dec zero (l : list (string * T)) :
  (∀ kv, kv ∈ l → codec_ok h enc dec zero kv.2) → NoDup l.*1 → ∀ m,
  dec_entries zero dec ((λ kv, (kv.1, enc kv.2)) <$> l) m = Some (list_to_map l ∪ m).
Proof.
  induction l as [|[k v] l IH]; intros Hc Hnd m; cbn [fmap list_fmap dec_entries].
  - by rewrite list_to_map_nil, (left_id_L ∅ (∪)).
  - rewrite (codec_dec _ _ _ _ _ (Hc (k, v) ltac:(left))). cbn [mbind option_bind fst].
    apply NoDup_cons in Hnd as [Hk Hnd].
    rewrite IH; [|intros kv Hkv; apply Hc; by right|done].
    rewrite list_to_map_cons, <-insert_union_l, insert_union_r; [done|].
    by apply not_elem_of_list_to_map.
Qed.

(** A map whose keys are valid UTF-8 round-trips; other keys are repaired by
    the encoder and come back different. *)
Lemma map_codec {T} h (enc : T → json) dec zero (m : gmap string T) :
  (∀ k v, m !! k = Some v → valid_utf8 k = true ∧ codec_ok h enc dec zero v) →
  codec_ok (1 + h) (enc_map enc) (dec_map zero dec) None (Some m).
Proof.
  intros Hm. pose proof (sort_keys_perm (map_to_list m)) as Hp.
  assert (∀ kv, kv ∈ sort_keys (map_to_list m) →
    valid_utf8 kv.1 = true ∧ codec_ok h enc dec zero kv.2) as Hall.
  { intros [k v] Hin. rewrite Hp in Hin. apply elem_of_map_to_list in Hin. by apply Hm. }
  split.
  - unfold enc_map. cbn [wf]. apply foldr_and_Forall, Forall_fmap, Forall_forall.
    intros kv [Hk Hc]%Hall. split; [done|]. apply Hc.
  - unfold enc_map. cbn [height]. apply N.add_le_mono_l. clear Hp.
    induction (sort_keys (map_to_list m)) as [|kv l IH]; cbn; [lia|].
    apply N.max_lub; [|apply IH; intros; apply Hall; by right].
    destruct (Hall kv ltac:(left)) as [_ Hc]. apply Hc.
  - unfold enc_map, dec_map. cbn [default].
    rewrite (dec_entries_enc h); [|intros kv [_ Hc]%Hall; done|].
    + cbn. rewrite (right_id_L ∅ (∪)). do 2 f_equal.
      rewrite (list_to_map_proper _ (map_to_list m)); [apply list_to_map_to_list| |done].
      rewrite Hp. apply NoDup_fst_map_to_list.
    + rewrite Hp. apply NoDup_fst_map_to_list.
Qed.

End JsonThms.
