(* ===== verification/Libs.v ===== *)
(** * The libraries the client calls

    github.com/google/uuid and github.com/cs161-staff/project2-userlib are not
    part of the repository. Their operations are the parameters [UuidLib] and
    [Userlib]; what the program relies on is stated separately, as the laws
    [UuidLaws] and [UserlibLaws], and [Toy] instantiates both so that the
    theorems that assume the laws are shown not to be vacuous.

    Randomness enters through one parameter: a library call that draws random
    bits is a function of a [Seed], and the effect that draws the seed is an
    event of the program (file Effects). *)

From S2P Require Import Prelude Json JsonThms.
Import Json JsonThms.
Open Scope string_scope.

(** ** encoding/hex *)

Fixpoint hex_EncodeToString (s : string) : string :=
  match s with
  | "" => ""
  | String c r =>
      String (hex_digit (code c / 16)) (String (hex_digit (code c mod 16))
        (hex_EncodeToString r))
  end.

(** ** strconv.Quote, the verb %q

    Runes outside ASCII are taken to be printable. *)

Definition quote_byte (c : char) : string :=
  let n := code c in
  if (n =? 34)%N || (n =? 92)%N then String backslash (String c "")
  else if (n =? 7)%N then "\a" else if (n =? 8)%N then "\b" else if (n =? 12)%N then "\f"
  else if (n =? 10)%N then "\n" else if (n =? 13)%N then "\r" else if (n =? 9)%N then "\t"
  else if (n =? 11)%N then "\v"
  else if (n <? 32)%N || (n =? 127)%N
  then "\x" +:+ String (hex_digit (n / 16)) (String (hex_digit (n mod 16)) "")
  else String c "".

Fixpoint quote_bytes (s : string) : string :=
  match s with "" => "" | String c r => quote_byte c +:+ quote_bytes r end.

Definition strconv_Quote (s : string) : string :=
  String dquote (quote_bytes s +:+ String dquote "").

(** ** The parameters *)

Class UuidLib := {
  UUID : Type;
  UUID_eq_dec :: EqDecision UUID;
  UUID_countable :: Countable UUID;
  uuid_Nil : UUID;
  uuid_FromBytes : string → option UUID;
  uuid_String : UUID → string;
  uuid_Parse : string → option UUID }.

(** [PublicKeyType] has a [KeyType] tag the client inspects; private keys are
    encoded with the account by [encoding/json]. [DSVerify] returns Go's
    error, [None] for success; [errKeyNameTaken] is the error of [KeystoreSet]
    for a name that is registered already. *)
Class Userlib := {
  Seed : Type;
  PublicKeyType : Type;
  PrivateKeyType : Type;
  KeyType : PublicKeyType → string;
  enc_private : PrivateKeyType → json;
  dec_private : json → PrivateKeyType → option PrivateKeyType;
  zero_private : PrivateKeyType;
  RandomBytes : N → Seed → string;
  PKEKeyGen : Seed → result (PublicKeyType * PrivateKeyType);
  DSKeyGen : Seed → result (PrivateKeyType * PublicKeyType);
  PKEEnc : PublicKeyType → string → Seed → result string;
  PKEDec : PrivateKeyType → string → result string;
  DSSign : PrivateKeyType → string → result string;
  DSVerify : PublicKeyType → string → string → option error;
  Hash : string → string;
  HashKDF : string → string → result string;
  Argon2Key : string → string → N → string;
  HMACEval : string → string → result string;
  HMACEqual : string → string → bool;
  SymEnc : string → string → string → string;
  SymDec : string → string → string;
  errKeyNameTaken : error }.

(** [uuid.New] draws 16 random bytes. *)
Class UuidNew `{UuidLib} `{Userlib} := uuid_New : Seed → UUID.

Definition AESBlockSizeBytes : nat := 16.
Definition HashSizeBytes : nat := 64.
Definition symmetricKeySize : nat := 16.

(** [b[:n]] of a slice that has at least [n] bytes; Go panics on a shorter
    one, which the laws rule out for the hashes the program cuts. *)
Definition take_bytes (n : nat) (s : string) : string := String.substring 0 n s.

(** ** What the program relies on *)

Class UuidLaws `{UuidLib} : Prop := {
  Parse_String u : uuid_Parse (uuid_String u) = Some u;
  String_nonempty u : uuid_String u ≠ "";
  String_utf8 u : valid_utf8 (uuid_String u) = true;
  FromBytes_16 b : String.length b = 16%nat → ∃ u, uuid_FromBytes b = Some u;
  FromBytes_inj b1 b2 u :
    uuid_FromBytes b1 = Some u → uuid_FromBytes b2 = Some u → b1 = b2 }.

(** A signing key and its verification key, and an encryption key pair, are
    those one run of key generation made. *)
Definition ds_pair `{Userlib} (sk : PrivateKeyType) (vk : PublicKeyType) : Prop :=
  ∃ s, DSKeyGen s = Ok (sk, vk).
Definition pke_pair `{Userlib} (pk : PublicKeyType) (dk : PrivateKeyType) : Prop :=
  ∃ s, PKEKeyGen s = Ok (pk, dk).

Class UserlibLaws `{Userlib} : Prop := {
  private_codec k : codec_ok 8 enc_private dec_private zero_private k;
  RandomBytes_length n s : String.length (RandomBytes n s) = N.to_nat n;
  PKEKeyGen_type pk dk : pke_pair pk dk → KeyType pk = "PKE";
  DSKeyGen_type sk vk : ds_pair sk vk → KeyType vk = "DS";
  PKEDec_Enc pk dk m s c : pke_pair pk dk → PKEEnc pk m s = Ok c → PKEDec dk c = Ok m;
  DSVerify_Sign sk vk m sg : ds_pair sk vk → DSSign sk m = Ok sg → DSVerify vk m sg = None;
  DSSign_total sk vk m : ds_pair sk vk → ∃ sg, DSSign sk m = Ok sg;
  PKEEnc_total pk dk m s :
    pke_pair pk dk → String.length m = symmetricKeySize → ∃ c, PKEEnc pk m s = Ok c;
  Hash_length m : String.length (Hash m) = HashSizeBytes;
  HashKDF_total k p : String.length k = 16%nat →
    ∃ o, HashKDF k p = Ok o ∧ String.length o = HashSizeBytes;
  Argon2Key_length p s n : String.length (Argon2Key p s n) = N.to_nat n;
  HMACEval_total k m : String.length k = 16%nat →
    ∃ o, HMACEval k m = Ok o ∧ String.length o = HashSizeBytes;
  HMACEqual_spec a b : HMACEqual a b = bool_decide (a = b);
  SymEnc_length k iv m : String.length k = 16%nat → String.length iv = 16%nat →
    (AESBlockSizeBytes ≤ String.length (SymEnc k iv m))%nat;
  SymDec_Enc k iv m : String.length k = 16%nat → String.length iv = 16%nat →
    SymDec k (SymEnc k iv m) = m }.

(** ** Consequences the components share *)

Lemma take_bytes_length n s :
  (n ≤ String.length s)%nat → String.length (take_bytes n s) = n.
Proof.
  unfold take_bytes. revert s. induction n as [|n IH]; intros s Hs; [by destruct s|].
  destruct s as [|c s]; cbn in *; [lia|]. f_equal. apply IH. lia.
Qed.

Lemma Hash_uuid `{UuidLaws} `{UserlibLaws} m :
  ∃ u, uuid_FromBytes (take_bytes 16 (Hash m)) = Some u.
Proof.
  apply FromBytes_16, take_bytes_length. rewrite Hash_length. unfold HashSizeBytes. lia.
Qed.

Lemma hex_value_digit n : (n < 16)%N → hex_value (hex_digit n) = Some n ∧
  (code (hex_digit n) <? 128)%N = true.
Proof.
  intros Hn.
  assert (forallb (λ n, bool_decide (hex_value (hex_digit n) = Some n) &&
    (code (hex_digit n) <? 128)%N) (N.of_nat <$> seq 0 16) = true) as Hall by reflexivity.
  rewrite List.forallb_forall in Hall. specialize (Hall n).
  rewrite andb_true_iff, bool_decide_eq_true in Hall. apply Hall.
  apply list_elem_of_In, list_elem_of_fmap. exists (N.to_nat n).
  split; [lia|]. apply elem_of_seq. lia.
Qed.

Lemma hex_utf8 s : valid_utf8 (hex_EncodeToString s) = true.
Proof.
  induction s as [|c s IH]; [done|]. cbn [hex_EncodeToString valid_utf8].
  pose proof (code_bound c) as Hc.
  destruct (hex_value_digit (code c / 16)) as [_ ->]; [apply div_bound; lia|].
  destruct (hex_value_digit (code c mod 16)) as [_ ->]; [by apply N.mod_lt|]. done.
Qed.

(** ** A toy instance

    Transparent "cryptography" that satisfies every law: it exists only to
    evaluate the model and to show that the laws are consistent. *)
Module Toy.

Fixpoint hex_DecodeString (s : string) : option string :=
  match s with
  | "" => Some ""
  | String a (String b r) =>
      x ← hex_value a; y ← hex_value b; t ← hex_DecodeString r;
      Some (String (chr (x * 16 + y)) t)
  | _ => None
  end.

#[export] Instance toy_uuid : UuidLib := {|
  UUID := string;
  uuid_Nil := "";
  uuid_FromBytes b := if decide (String.length b = 16%nat) then Some b else None;
  uuid_String u := "u" +:+ hex_EncodeToString u;
  uuid_Parse s := match s with String c r => if decide (c = chr 117) then hex_DecodeString r else None | "" => None end |}.

Fixpoint zeros (n : nat) : string :=
  match n with O => "" | S n => String (chr 48) (zeros n) end.

(** [s] cut or padded to [n] bytes. *)
Definition pad_to (n : nat) (s : string) : string :=
  String.substring 0 n (s +:+ zeros n).

Definition drop_bytes (n : nat) (s : string) : string :=
  String.substring n (String.length s - n) s.

#[export] Instance toy_userlib : Userlib := {|
  Seed := N;
  PublicKeyType := string;
  PrivateKeyType := unit;
  KeyType k := k;
  enc_private _ := JNull;
  dec_private _ _ := Some ();
  zero_private := ();
  RandomBytes n s := pad_to (N.to_nat n) (pretty s);
  PKEKeyGen _ := Ok ("PKE", ());
  DSKeyGen _ := Ok ((), "DS");
  PKEEnc _ m _ := Ok m;
  PKEDec _ c := Ok c;
  DSSign _ m := Ok m;
  DSVerify _ m sg := if decide (sg = m) then None else Some (EMsg "bad signature");
  Hash m := pad_to 64 m;
  HashKDF k p := if decide (String.length k = 16%nat) then Ok (pad_to 64 (k +:+ p))
                 else Err (EMsg "bad key");
  Argon2Key p s n := pad_to (N.to_nat n) p;
  HMACEval k m := if decide (String.length k = 16%nat) then Ok (pad_to 64 (k +:+ m))
                  else Err (EMsg "bad key");
  HMACEqual a b := bool_decide (a = b);
  SymEnc _ iv m := iv +:+ m;
  SymDec _ c := drop_bytes 16 c;
  errKeyNameTaken := EMsg "that key name is already taken" |}.

#[export] Instance toy_new : UuidNew := λ s, "u" +:+ pretty s.

Lemma hex_round_trip s : hex_DecodeString (hex_EncodeToString s) = Some s.
Proof.
  induction s as [|c s IH]; [done|]. cbn [hex_EncodeToString hex_DecodeString].
  pose proof (code_bound c) as Hc.
  destruct (hex_value_digit (code c / 16)) as [Hv1 _]; [apply div_bound; lia|].
  destruct (hex_value_digit (code c mod 16)) as [Hv2 _]; [by apply N.mod_lt|].
  rewrite Hv1, Hv2, IH. cbn -[N.mul N.div N.modulo N.add].
  by rewrite N.mul_comm, <-N.div_mod, chr_code.
Qed.

#[export] Instance toy_uuid_laws : UuidLaws.
Proof.
  split; cbn.
  - apply hex_round_trip.
  - done.
  - apply hex_utf8.
  - intros b Hb. rewrite decide_True by done. eauto.
  - intros b1 b2 u. repeat case_decide; naive_solver.
Qed.

Lemma zeros_length n : String.length (zeros n) = n.
Proof. induction n; cbn; by f_equal. Qed.

Lemma pad_to_length n s : String.length (pad_to n s) = n.
Proof. apply take_bytes_length. rewrite length_app_s, zeros_length. lia. Qed.

Lemma drop_bytes_app iv m : String.length iv = 16%nat → drop_bytes 16 (iv +:+ m) = m.
Proof.
  unfold drop_bytes. rewrite length_app_s. intros <-.
  replace (String.length iv + String.length m - String.length iv)%nat
    with (String.length m) by lia.
  induction iv as [|c iv IH]; [|exact IH]. change ("" +:+ m) with m.
  induction m as [|c m IH]; [done|]. cbn in *. by rewrite IH.
Qed.

#[export] Instance toy_userlib_laws : UserlibLaws.
Proof.
  split.
  - intros []. by split.
  - intros n s. apply pad_to_length.
  - intros pk dk [s Hs]. cbn in *. by simplify_eq.
  - intros sk vk [s Hs]. cbn in *. by simplify_eq.
  - cbn. naive_solver.
  - cbn. intros. simplify_eq. by rewrite decide_True.
  - cbn. eauto.
  - cbn. eauto.
  - intros m. apply (pad_to_length 64).
  - intros k p Hk. cbn -[pad_to]. rewrite decide_True by done. eexists. split; [done|].
    apply (pad_to_length 64).
  - intros p s n. apply pad_to_length.
  - intros k p Hk. cbn -[pad_to]. rewrite decide_True by done. eexists. split; [done|].
    apply (pad_to_length 64).
  - done.
  - intros k iv m _ Hiv. cbn. rewrite length_app_s. unfold AESBlockSizeBytes. lia.
  - intros k iv m _ Hiv. by apply drop_bytes_app.
Qed.

End Toy.
