(* ===== verification/Fencing.v ===== *)
(** * Fencing tokens (src/client/fencing/fencing.go)

    The grant a transaction proves at commit time, the canonical resource
    key, and the values an operation's context carries. *)

From S2P Require Import Prelude Json JsonThms LockManager.
Import JsonThms.
Open Scope string_scope.

Module Fencing.

Abbreviation Token := N (only parsing).

Record Grant := mkGrant { Resource : string; grant_Token : Token; OwnerTxn : string }.

#[global] Instance Grant_eq_dec : EqDecision Grant.
Proof. solve_decision. Defined.

Definition Grant_String (g : Grant) : string :=
  "fence{resource=" +:+ Resource g +:+ " token=" +:+ pretty (grant_Token g) +:+
  " owner=" +:+ OwnerTxn g +:+ "}".

(** [fmt.Sprintf("%d:%s", resourceType, key)] *)
Definition ResourceKey (resourceType : N) (key : string) : string :=
  pretty resourceType +:+ ":" +:+ key.

(** What a [context.Context] carries through an operation: the deadline and
    cancellation the lock manager sees, the fencing grants and the test-only
    switch. *)
Record Ctx := mkCtx { lock_ctx : LM.Ctx; grants : option (list Grant); skipValidation : bool }.

#[global] Instance Ctx_eq_dec : EqDecision Ctx.
Proof. pose proof LM.Ctx_eq_dec. solve_decision. Defined.

Definition Background : Ctx := mkCtx LM.Background None false.

Definition WithGrants (ctx : Ctx) (gs : list Grant) : Ctx :=
  if decide (length gs = 0%nat) then ctx
  else mkCtx (lock_ctx ctx) (Some gs) (skipValidation ctx).

Definition GrantsFromContext (ctx : Ctx) : list Grant := default [] (grants ctx).

Definition WithoutValidationForTest (ctx : Ctx) : Ctx :=
  mkCtx (lock_ctx ctx) (grants ctx) true.

Definition ValidationSkippedForTest (ctx : Ctx) : bool := skipValidation ctx.

Lemma ResourceKey_inj t1 k1 t2 k2 :
  ResourceKey t1 k1 = ResourceKey t2 k2 → t1 = t2 ∧ k1 = k2.
Proof.
  intros [Ht Hk]%decimal_field_inj; [|apply pretty_all_digits..].
  split; [by apply (inj pretty)|done].
Qed.

(** The canonical resource identifier is injective, so a namespace and a
    file, or two files, never share a fence document. *)
Theorem ResourceKey_injective t1 k1 t2 k2 :
  ResourceKey t1 k1 = ResourceKey t2 k2 → t1 = t2 ∧ k1 = k2.
Proof. apply ResourceKey_inj. Qed.

Lemma ResourceKey_injective_witness :
  ResourceKey 0 "1:a" = ResourceKey 0 ("1:" +:+ "a") ∧ (0 = 0)%N ∧ "1:a" = "1:" +:+ "a".
Proof. split; [reflexivity|]. apply ResourceKey_injective. reflexivity. Defined.

End Fencing.
