(* ===== verification/SaferTypes.v ===== *)
(** * The client's data (src/client/client.go, the struct declarations)

    One record per Go struct, with the encoder and the decoder
    [encoding/json] derives from its fields, in declaration order. The
    round-trip theorems of the codecs close the file. *)

From S2P Require Import Prelude Json JsonThms Libs.
Import Json JsonThms.
Open Scope string_scope.
Open Scope N_scope.

(** [uuid.UUID] implements [encoding.TextMarshaler] and
    [encoding.TextUnmarshaler]. *)
Definition enc_uuid `{UuidLib} (u : UUID) : json := JStr (uuid_String u).
Definition dec_uuid `{UuidLib} (j : json) (dst : UUID) : option UUID :=
  match j with JNull => Some dst | JStr s => uuid_Parse s | _ => None end.

Section types.
Context `{UuidLib} `{Userlib}.

(** [User] is never serialized. *)
Record User := mkUser {
  Username : string;
  u_NamespaceRoot : slice;
  u_PKEPrivate : PrivateKeyType;
  u_SignPrivate : PrivateKeyType }.

Record Account := mkAccount {
  a_UsernameHash : slice;
  a_NamespaceRoot : slice;
  a_PKEPrivate : PrivateKeyType;
  a_SignPrivate : PrivateKeyType }.

Definition zero_Account : Account :=
  mkAccount None None zero_private zero_private.

Definition enc_Account (x : Account) : json := JObj [
  ("UsernameHash", enc_bytes (a_UsernameHash x));
  ("NamespaceRoot", enc_bytes (a_NamespaceRoot x));
  ("PKEPrivate", enc_private (a_PKEPrivate x));
  ("SignPrivate", enc_private (a_SignPrivate x))].

Definition dec_Account : json → Account → option Account := dec_struct [
    ("UsernameHash", λ j x, v ← dec_bytes j (a_UsernameHash x);
      Some (mkAccount v (a_NamespaceRoot x) (a_PKEPrivate x) (a_SignPrivate x)));
    ("NamespaceRoot", λ j x, v ← dec_bytes j (a_NamespaceRoot x);
      Some (mkAccount (a_UsernameHash x) v (a_PKEPrivate x) (a_SignPrivate x)));
    ("PKEPrivate", λ j x, v ← dec_private j (a_PKEPrivate x);
      Some (mkAccount (a_UsernameHash x) (a_NamespaceRoot x) v (a_SignPrivate x)));
    ("SignPrivate", λ j x, v ← dec_private j (a_SignPrivate x);
      Some (mkAccount (a_UsernameHash x) (a_NamespaceRoot x) (a_PKEPrivate x) v))].

Record AuthenticatedEnvelope := mkAuthenticatedEnvelope {
  env_Ciphertext : slice;
  env_MAC : slice }.

Definition zero_AuthenticatedEnvelope : AuthenticatedEnvelope :=
  mkAuthenticatedEnvelope None None.

Definition enc_AuthenticatedEnvelope (x : AuthenticatedEnvelope) : json := JObj [
  ("Ciphertext", enc_bytes (env_Ciphertext x));
  ("MAC", enc_bytes (env_MAC x))].

Definition dec_AuthenticatedEnvelope : json → AuthenticatedEnvelope → option AuthenticatedEnvelope := dec_struct [
    ("Ciphertext", λ j x, v ← dec_bytes j (env_Ciphertext x);
      Some (mkAuthenticatedEnvelope v (env_MAC x)));
    ("MAC", λ j x, v ← dec_bytes j (env_MAC x);
      Some (mkAuthenticatedEnvelope (env_Ciphertext x) v))].

Record NamespaceEntry := mkNamespaceEntry {
  ne_IsOwner : bool;
  ne_FileID : UUID;
  ne_AccessBoxUUID : UUID;
  ne_AccessBoxEncKey : slice;
  ne_AccessBoxMACKey : slice;
  ne_AccessBoxStructureUUID : UUID;
  ne_AccessBoxStructureEncKey : slice;
  ne_AccessBoxStructureMACKey : slice }.

Definition zero_NamespaceEntry : NamespaceEntry :=
  mkNamespaceEntry false uuid_Nil uuid_Nil None None uuid_Nil None None.

Definition enc_NamespaceEntry (x : NamespaceEntry) : json := JObj [
  ("IsOwner", enc_bool (ne_IsOwner x));
  ("FileID", enc_uuid (ne_FileID x));
  ("AccessBoxUUID", enc_uuid (ne_AccessBoxUUID x));
  ("AccessBoxEncKey", enc_bytes (ne_AccessBoxEncKey x));
  ("AccessBoxMACKey", enc_bytes (ne_AccessBoxMACKey x));
  ("AccessBoxStructureUUID", enc_uuid (ne_AccessBoxStructureUUID x));
  ("AccessBoxStructureEncKey", enc_bytes (ne_AccessBoxStructureEncKey x));
  ("AccessBoxStructureMACKey", enc_bytes (ne_AccessBoxStructureMACKey x))].

Definition dec_NamespaceEntry : json → NamespaceEntry → option NamespaceEntry := dec_struct [
    ("IsOwner", λ j x, v ← dec_bool j (ne_IsOwner x);
      Some (mkNamespaceEntry v (ne_FileID x) (ne_AccessBoxUUID x) (ne_AccessBoxEncKey x) (ne_AccessBoxMACKey x) (ne_AccessBoxStructureUUID x) (ne_AccessBoxStructureEncKey x) (ne_AccessBoxStructureMACKey x)));
    ("FileID", λ j x, v ← dec_uuid j (ne_FileID x);
      Some (mkNamespaceEntry (ne_IsOwner x) v (ne_AccessBoxUUID x) (ne_AccessBoxEncKey x) (ne_AccessBoxMACKey x) (ne_AccessBoxStructureUUID x) (ne_AccessBoxStructureEncKey x) (ne_AccessBoxStructureMACKey x)));
    ("AccessBoxUUID", λ j x, v ← dec_uuid j (ne_AccessBoxUUID x);
      Some (mkNamespaceEntry (ne_IsOwner x) (ne_FileID x) v (ne_AccessBoxEncKey x) (ne_AccessBoxMACKey x) (ne_AccessBoxStructureUUID x) (ne_AccessBoxStructureEncKey x) (ne_AccessBoxStructureMACKey x)));
    ("AccessBoxEncKey", λ j x, v ← dec_bytes j (ne_AccessBoxEncKey x);
      Some (mkNamespaceEntry (ne_IsOwner x) (ne_FileID x) (ne_AccessBoxUUID x) v (ne_AccessBoxMACKey x) (ne_AccessBoxStructureUUID x) (ne_AccessBoxStructureEncKey x) (ne_AccessBoxStructureMACKey x)));
    ("AccessBoxMACKey", λ j x, v ← dec_bytes j (ne_AccessBoxMACKey x);
      Some (mkNamespaceEntry (ne_IsOwner x) (ne_FileID x) (ne_AccessBoxUUID x) (ne_AccessBoxEncKey x) v (ne_AccessBoxStructureUUID x) (ne_AccessBoxStructureEncKey x) (ne_AccessBoxStructureMACKey x)));
    ("AccessBoxStructureUUID", λ j x, v ← dec_uuid j (ne_AccessBoxStructureUUID x);
      Some (mkNamespaceEntry (ne_IsOwner x) (ne_FileID x) (ne_AccessBoxUUID x) (ne_AccessBoxEncKey x) (ne_AccessBoxMACKey x) v (ne_AccessBoxStructureEncKey x) (ne_AccessBoxStructureMACKey x)));
    ("AccessBoxStructureEncKey", λ j x, v ← dec_bytes j (ne_AccessBoxStructureEncKey x);
      Some (mkNamespaceEntry (ne_IsOwner x) (ne_FileID x) (ne_AccessBoxUUID x) (ne_AccessBoxEncKey x) (ne_AccessBoxMACKey x) (ne_AccessBoxStructureUUID x) v (ne_AccessBoxStructureMACKey x)));
    ("AccessBoxStructureMACKey", λ j x, v ← dec_bytes j (ne_AccessBoxStructureMACKey x);
      Some (mkNamespaceEntry (ne_IsOwner x) (ne_FileID x) (ne_AccessBoxUUID x) (ne_AccessBoxEncKey x) (ne_AccessBoxMACKey x) (ne_AccessBoxStructureUUID x) (ne_AccessBoxStructureEncKey x) v))].

Record AccessBox := mkAccessBox {
  ab_FileID : UUID;
  ab_EpochID : UUID;
  ab_MetadataUUID : UUID;
  ab_MetadataEncKey : slice;
  ab_MetadataMACKey : slice;
  ab_FileRoot : slice;
  ab_AccessBoxStructureUUID : UUID;
  ab_StatusUUID : UUID;
  ab_OwnerVerifyKeyName : string }.

Definition zero_AccessBox : AccessBox :=
  mkAccessBox uuid_Nil uuid_Nil uuid_Nil None None None uuid_Nil uuid_Nil "".

Definition enc_AccessBox (x : AccessBox) : json := JObj [
  ("FileID", enc_uuid (ab_FileID x));
  ("EpochID", enc_uuid (ab_EpochID x));
  ("MetadataUUID", enc_uuid (ab_MetadataUUID x));
  ("MetadataEncKey", enc_bytes (ab_MetadataEncKey x));
  ("MetadataMACKey", enc_bytes (ab_MetadataMACKey x));
  ("FileRoot", enc_bytes (ab_FileRoot x));
  ("AccessBoxStructureUUID", enc_uuid (ab_AccessBoxStructureUUID x));
  ("StatusUUID", enc_uuid (ab_StatusUUID x));
  ("OwnerVerifyKeyName", enc_string (ab_OwnerVerifyKeyName x))].

Definition dec_AccessBox : json → AccessBox → option AccessBox := dec_struct [
    ("FileID", λ j x, v ← dec_uuid j (ab_FileID x);
      Some (mkAccessBox v (ab_EpochID x) (ab_MetadataUUID x) (ab_MetadataEncKey x) (ab_MetadataMACKey x) (ab_FileRoot x) (ab_AccessBoxStructureUUID x) (ab_StatusUUID x) (ab_OwnerVerifyKeyName x)));
    ("EpochID", λ j x, v ← dec_uuid j (ab_EpochID x);
      Some (mkAccessBox (ab_FileID x) v (ab_MetadataUUID x) (ab_MetadataEncKey x) (ab_MetadataMACKey x) (ab_FileRoot x) (ab_AccessBoxStructureUUID x) (ab_StatusUUID x) (ab_OwnerVerifyKeyName x)));
    ("MetadataUUID", λ j x, v ← dec_uuid j (ab_MetadataUUID x);
      Some (mkAccessBox (ab_FileID x) (ab_EpochID x) v (ab_MetadataEncKey x) (ab_MetadataMACKey x) (ab_FileRoot x) (ab_AccessBoxStructureUUID x) (ab_StatusUUID x) (ab_OwnerVerifyKeyName x)));
    ("MetadataEncKey", λ j x, v ← dec_bytes j (ab_MetadataEncKey x);
      Some (mkAccessBox (ab_FileID x) (ab_EpochID x) (ab_MetadataUUID x) v (ab_MetadataMACKey x) (ab_FileRoot x) (ab_AccessBoxStructureUUID x) (ab_StatusUUID x) (ab_OwnerVerifyKeyName x)));
    ("MetadataMACKey", λ j x, v ← dec_bytes j (ab_MetadataMACKey x);
      Some (mkAccessBox (ab_FileID x) (ab_EpochID x) (ab_MetadataUUID x) (ab_MetadataEncKey x) v (ab_FileRoot x) (ab_AccessBoxStructureUUID x) (ab_StatusUUID x) (ab_OwnerVerifyKeyName x)));
    ("FileRoot", λ j x, v ← dec_bytes j (ab_FileRoot x);
      Some (mkAccessBox (ab_FileID x) (ab_EpochID x) (ab_MetadataUUID x) (ab_MetadataEncKey x) (ab_MetadataMACKey x) v (ab_AccessBoxStructureUUID x) (ab_StatusUUID x) (ab_OwnerVerifyKeyName x)));
    ("AccessBoxStructureUUID", λ j x, v ← dec_uuid j (ab_AccessBoxStructureUUID x);
      Some (mkAccessBox (ab_FileID x) (ab_EpochID x) (ab_MetadataUUID x) (ab_MetadataEncKey x) (ab_MetadataMACKey x) (ab_FileRoot x) v (ab_StatusUUID x) (ab_OwnerVerifyKeyName x)));
    ("StatusUUID", λ j x, v ← dec_uuid j (ab_StatusUUID x);
      Some (mkAccessBox (ab_FileID x) (ab_EpochID x) (ab_MetadataUUID x) (ab_MetadataEncKey x) (ab_MetadataMACKey x) (ab_FileRoot x) (ab_AccessBoxStructureUUID x) v (ab_OwnerVerifyKeyName x)));
    ("OwnerVerifyKeyName", λ j x, v ← dec_string j (ab_OwnerVerifyKeyName x);
      Some (mkAccessBox (ab_FileID x) (ab_EpochID x) (ab_MetadataUUID x) (ab_MetadataEncKey x) (ab_MetadataMACKey x) (ab_FileRoot x) (ab_AccessBoxStructureUUID x) (ab_StatusUUID x) v))].

Record FileStatusBody := mkFileStatusBody {
  fb_FileID : UUID;
  fb_EpochID : UUID;
  fb_CurrentAccessCommitment : slice;
  fb_OwnerVerifyKeyName : string }.

Definition zero_FileStatusBody : FileStatusBody :=
  mkFileStatusBody uuid_Nil uuid_Nil None "".

Definition enc_FileStatusBody (x : FileStatusBody) : json := JObj [
  ("FileID", enc_uuid (fb_FileID x));
  ("EpochID", enc_uuid (fb_EpochID x));
  ("CurrentAccessCommitment", enc_bytes (fb_CurrentAccessCommitment x));
  ("OwnerVerifyKeyName", enc_string (fb_OwnerVerifyKeyName x))].

Definition dec_FileStatusBody : json → FileStatusBody → option FileStatusBody := dec_struct [
    ("FileID", λ j x, v ← dec_uuid j (fb_FileID x);
      Some (mkFileStatusBody v (fb_EpochID x) (fb_CurrentAccessCommitment x) (fb_OwnerVerifyKeyName x)));
    ("EpochID", λ j x, v ← dec_uuid j (fb_EpochID x);
      Some (mkFileStatusBody (fb_FileID x) v (fb_CurrentAccessCommitment x) (fb_OwnerVerifyKeyName x)));
    ("CurrentAccessCommitment", λ j x, v ← dec_bytes j (fb_CurrentAccessCommitment x);
      Some (mkFileStatusBody (fb_FileID x) (fb_EpochID x) v (fb_OwnerVerifyKeyName x)));
    ("OwnerVerifyKeyName", λ j x, v ← dec_string j (fb_OwnerVerifyKeyName x);
      Some (mkFileStatusBody (fb_FileID x) (fb_EpochID x) (fb_CurrentAccessCommitment x) v))].

Record FileStatus := mkFileStatus {
  fs_Body : FileStatusBody;
  fs_Signature : slice }.

Definition zero_FileStatus : FileStatus :=
  mkFileStatus zero_FileStatusBody None.

Definition enc_FileStatus (x : FileStatus) : json := JObj [
  ("Body", enc_FileStatusBody (fs_Body x));
  ("Signature", enc_bytes (fs_Signature x))].

Definition dec_FileStatus : json → FileStatus → option FileStatus := dec_struct [
    ("Body", λ j x, v ← dec_FileStatusBody j (fs_Body x);
      Some (mkFileStatus v (fs_Signature x)));
    ("Signature", λ j x, v ← dec_bytes j (fs_Signature x);
      Some (mkFileStatus (fs_Body x) v))].

Record Metadata := mkMetadata {
  md_FileID : UUID;
  md_EpochID : UUID;
  md_Version : N;
  md_TailUUID : UUID;
  md_ChunkCount : N }.

Definition zero_Metadata : Metadata :=
  mkMetadata uuid_Nil uuid_Nil 0 uuid_Nil 0.

Definition enc_Metadata (x : Metadata) : json := JObj [
  ("FileID", enc_uuid (md_FileID x));
  ("EpochID", enc_uuid (md_EpochID x));
  ("Version", enc_uint (md_Version x));
  ("TailUUID", enc_uuid (md_TailUUID x));
  ("ChunkCount", enc_uint (md_ChunkCount x))].

Definition dec_Metadata : json → Metadata → option Metadata := dec_struct [
    ("FileID", λ j x, v ← dec_uuid j (md_FileID x);
      Some (mkMetadata v (md_EpochID x) (md_Version x) (md_TailUUID x) (md_ChunkCount x)));
    ("EpochID", λ j x, v ← dec_uuid j (md_EpochID x);
      Some (mkMetadata (md_FileID x) v (md_Version x) (md_TailUUID x) (md_ChunkCount x)));
    ("Version", λ j x, v ← dec_uint64 j (md_Version x);
      Some (mkMetadata (md_FileID x) (md_EpochID x) v (md_TailUUID x) (md_ChunkCount x)));
    ("TailUUID", λ j x, v ← dec_uuid j (md_TailUUID x);
      Some (mkMetadata (md_FileID x) (md_EpochID x) (md_Version x) v (md_ChunkCount x)));
    ("ChunkCount", λ j x, v ← dec_uint64 j (md_ChunkCount x);
      Some (mkMetadata (md_FileID x) (md_EpochID x) (md_Version x) (md_TailUUID x) v))].

Record Chunk := mkChunk {
  ck_FileID : UUID;
  ck_EpochID : UUID;
  ck_Index : N;
  ck_PrevUUID : UUID;
  ck_Content : slice }.

Definition zero_Chunk : Chunk :=
  mkChunk uuid_Nil uuid_Nil 0 uuid_Nil None.

Definition enc_Chunk (x : Chunk) : json := JObj [
  ("FileID", enc_uuid (ck_FileID x));
  ("EpochID", enc_uuid (ck_EpochID x));
  ("Index", enc_uint (ck_Index x));
  ("PrevUUID", enc_uuid (ck_PrevUUID x));
  ("Content", enc_bytes (ck_Content x))].

Definition dec_Chunk : json → Chunk → option Chunk := dec_struct [
    ("FileID", λ j x, v ← dec_uuid j (ck_FileID x);
      Some (mkChunk v (ck_EpochID x) (ck_Index x) (ck_PrevUUID x) (ck_Content x)));
    ("EpochID", λ j x, v ← dec_uuid j (ck_EpochID x);
      Some (mkChunk (ck_FileID x) v (ck_Index x) (ck_PrevUUID x) (ck_Content x)));
    ("Index", λ j x, v ← dec_uint64 j (ck_Index x);
      Some (mkChunk (ck_FileID x) (ck_EpochID x) v (ck_PrevUUID x) (ck_Content x)));
    ("PrevUUID", λ j x, v ← dec_uuid j (ck_PrevUUID x);
      Some (mkChunk (ck_FileID x) (ck_EpochID x) (ck_Index x) v (ck_Content x)));
    ("Content", λ j x, v ← dec_bytes j (ck_Content x);
      Some (mkChunk (ck_FileID x) (ck_EpochID x) (ck_Index x) (ck_PrevUUID x) v))].

Record BranchBoxRecord := mkBranchBoxRecord {
  bb_BoxUUID : UUID;
  bb_BoxEncKey : slice;
  bb_BoxMACKey : slice }.

Definition zero_BranchBoxRecord : BranchBoxRecord :=
  mkBranchBoxRecord uuid_Nil None None.

Definition enc_BranchBoxRecord (x : BranchBoxRecord) : json := JObj [
  ("BoxUUID", enc_uuid (bb_BoxUUID x));
  ("BoxEncKey", enc_bytes (bb_BoxEncKey x));
  ("BoxMACKey", enc_bytes (bb_BoxMACKey x))].

Definition dec_BranchBoxRecord : json → BranchBoxRecord → option BranchBoxRecord := dec_struct [
    ("BoxUUID", λ j x, v ← dec_uuid j (bb_BoxUUID x);
      Some (mkBranchBoxRecord v (bb_BoxEncKey x) (bb_BoxMACKey x)));
    ("BoxEncKey", λ j x, v ← dec_bytes j (bb_BoxEncKey x);
      Some (mkBranchBoxRecord (bb_BoxUUID x) v (bb_BoxMACKey x)));
    ("BoxMACKey", λ j x, v ← dec_bytes j (bb_BoxMACKey x);
      Some (mkBranchBoxRecord (bb_BoxUUID x) (bb_BoxEncKey x) v))].

Record AccessBoxStructure := mkAccessBoxStructure {
  st_FileID : UUID;
  st_CurrentEpoch : UUID;
  st_RecipientBoxes : option (gmap string BranchBoxRecord) }.

Definition zero_AccessBoxStructure : AccessBoxStructure :=
  mkAccessBoxStructure uuid_Nil uuid_Nil None.

Definition enc_AccessBoxStructure (x : AccessBoxStructure) : json := JObj [
  ("FileID", enc_uuid (st_FileID x));
  ("CurrentEpoch", enc_uuid (st_CurrentEpoch x));
  ("RecipientBoxes", enc_map enc_BranchBoxRecord (st_RecipientBoxes x))].

Definition dec_AccessBoxStructure : json → AccessBoxStructure → option AccessBoxStructure := dec_struct [
    ("FileID", λ j x, v ← dec_uuid j (st_FileID x);
      Some (mkAccessBoxStructure v (st_CurrentEpoch x) (st_RecipientBoxes x)));
    ("CurrentEpoch", λ j x, v ← dec_uuid j (st_CurrentEpoch x);
      Some (mkAccessBoxStructure (st_FileID x) v (st_RecipientBoxes x)));
    ("RecipientBoxes", λ j x, v ← dec_map zero_BranchBoxRecord dec_BranchBoxRecord j (st_RecipientBoxes x);
      Some (mkAccessBoxStructure (st_FileID x) (st_CurrentEpoch x) v))].

Record InvitationPayload := mkInvitationPayload {
  ip_SenderIdentity : slice;
  ip_RecipientIdentity : slice;
  ip_FileID : UUID;
  ip_AccessBoxUUID : UUID;
  ip_AccessBoxEncKey : slice;
  ip_AccessBoxMACKey : slice }.

Definition zero_InvitationPayload : InvitationPayload :=
  mkInvitationPayload None None uuid_Nil uuid_Nil None None.

Definition enc_InvitationPayload (x : InvitationPayload) : json := JObj [
  ("SenderIdentity", enc_bytes (ip_SenderIdentity x));
  ("RecipientIdentity", enc_bytes (ip_RecipientIdentity x));
  ("FileID", enc_uuid (ip_FileID x));
  ("AccessBoxUUID", enc_uuid (ip_AccessBoxUUID x));
  ("AccessBoxEncKey", enc_bytes (ip_AccessBoxEncKey x));
  ("AccessBoxMACKey", enc_bytes (ip_AccessBoxMACKey x))].

Definition dec_InvitationPayload : json → InvitationPayload → option InvitationPayload := dec_struct [
    ("SenderIdentity", λ j x, v ← dec_bytes j (ip_SenderIdentity x);
      Some (mkInvitationPayload v (ip_RecipientIdentity x) (ip_FileID x) (ip_AccessBoxUUID x) (ip_AccessBoxEncKey x) (ip_AccessBoxMACKey x)));
    ("RecipientIdentity", λ j x, v ← dec_bytes j (ip_RecipientIdentity x);
      Some (mkInvitationPayload (ip_SenderIdentity x) v (ip_FileID x) (ip_AccessBoxUUID x) (ip_AccessBoxEncKey x) (ip_AccessBoxMACKey x)));
    ("FileID", λ j x, v ← dec_uuid j (ip_FileID x);
      Some (mkInvitationPayload (ip_SenderIdentity x) (ip_RecipientIdentity x) v (ip_AccessBoxUUID x) (ip_AccessBoxEncKey x) (ip_AccessBoxMACKey x)));
    ("AccessBoxUUID", λ j x, v ← dec_uuid j (ip_AccessBoxUUID x);
      Some (mkInvitationPayload (ip_SenderIdentity x) (ip_RecipientIdentity x) (ip_FileID x) v (ip_AccessBoxEncKey x) (ip_AccessBoxMACKey x)));
    ("AccessBoxEncKey", λ j x, v ← dec_bytes j (ip_AccessBoxEncKey x);
      Some (mkInvitationPayload (ip_SenderIdentity x) (ip_RecipientIdentity x) (ip_FileID x) (ip_AccessBoxUUID x) v (ip_AccessBoxMACKey x)));
    ("AccessBoxMACKey", λ j x, v ← dec_bytes j (ip_AccessBoxMACKey x);
      Some (mkInvitationPayload (ip_SenderIdentity x) (ip_RecipientIdentity x) (ip_FileID x) (ip_AccessBoxUUID x) (ip_AccessBoxEncKey x) v))].

Record Invitation := mkInvitation {
  iv_WrappedRoot : slice;
  iv_Ciphertext : slice;
  iv_MAC : slice;
  iv_Signature : slice }.

Definition zero_Invitation : Invitation :=
  mkInvitation None None None None.

Definition enc_Invitation (x : Invitation) : json := JObj [
  ("WrappedRoot", enc_bytes (iv_WrappedRoot x));
  ("Ciphertext", enc_bytes (iv_Ciphertext x));
  ("MAC", enc_bytes (iv_MAC x));
  ("Signature", enc_bytes (iv_Signature x))].

Definition dec_Invitation : json → Invitation → option Invitation := dec_struct [
    ("WrappedRoot", λ j x, v ← dec_bytes j (iv_WrappedRoot x);
      Some (mkInvitation v (iv_Ciphertext x) (iv_MAC x) (iv_Signature x)));
    ("Ciphertext", λ j x, v ← dec_bytes j (iv_Ciphertext x);
      Some (mkInvitation (iv_WrappedRoot x) v (iv_MAC x) (iv_Signature x)));
    ("MAC", λ j x, v ← dec_bytes j (iv_MAC x);
      Some (mkInvitation (iv_WrappedRoot x) (iv_Ciphertext x) v (iv_Signature x)));
    ("Signature", λ j x, v ← dec_bytes j (iv_Signature x);
      Some (mkInvitation (iv_WrappedRoot x) (iv_Ciphertext x) (iv_MAC x) v))].

Record InvitationSignedFields := mkInvitationSignedFields {
  sf_WrappedRoot : slice;
  sf_Ciphertext : slice;
  sf_MAC : slice }.

Definition zero_InvitationSignedFields : InvitationSignedFields :=
  mkInvitationSignedFields None None None.

Definition enc_InvitationSignedFields (x : InvitationSignedFields) : json := JObj [
  ("WrappedRoot", enc_bytes (sf_WrappedRoot x));
  ("Ciphertext", enc_bytes (sf_Ciphertext x));
  ("MAC", enc_bytes (sf_MAC x))].

Definition dec_InvitationSignedFields : json → InvitationSignedFields → option InvitationSignedFields := dec_struct [
    ("WrappedRoot", λ j x, v ← dec_bytes j (sf_WrappedRoot x);
      Some (mkInvitationSignedFields v (sf_Ciphertext x) (sf_MAC x)));
    ("Ciphertext", λ j x, v ← dec_bytes j (sf_Ciphertext x);
      Some (mkInvitationSignedFields (sf_WrappedRoot x) v (sf_MAC x)));
    ("MAC", λ j x, v ← dec_bytes j (sf_MAC x);
      Some (mkInvitationSignedFields (sf_WrappedRoot x) (sf_Ciphertext x) v))].

(** ** Round trips *)

Section codecs.
Context `{!UuidLaws} `{!UserlibLaws}.

Lemma uuid_codec zero u : codec_ok 0 enc_uuid dec_uuid zero u.
Proof. split; [apply String_utf8|done|apply Parse_String]. Qed.

Lemma codec_le {T} h h' (enc : T → json) dec (zero x : T) :
  codec_ok h enc dec zero x → h ≤ h' → codec_ok h' enc dec zero x.
Proof. intros [] ?. split; [done|lia|done]. Qed.

Lemma dec_fields_step {T} (fs : list (@field T)) k v kvs f dst dst' x :
  lookup_field fs k = Some f → f v dst = Some dst' →
  dec_fields fs kvs dst' = Some x → dec_fields fs ((k, v) :: kvs) dst = Some x.
Proof. intros Hl Hf Hk. cbn [dec_fields]. rewrite Hl. cbn. by rewrite Hf. Qed.

Lemma dec_field {T A} h (enc : A → json) dec zero (a : A) (mk : A → T) :
  codec_ok h enc dec zero a → (v ← dec (enc a) zero; Some (mk v)) = Some (mk a).
Proof. intros Ha. by rewrite (codec_dec _ _ _ _ _ Ha). Qed.

(** A struct's codec, field by field. *)
Ltac field_codec :=
  first [eapply (bytes_codec None) | eapply (uuid_codec uuid_Nil) | eapply (bool_codec false)
        | eapply (uint_codec 0); eassumption | eapply (string_codec ""); eassumption
        | eapply private_codec | eassumption].
Ltac struct_codec h :=
  split;
  [ lazymatch goal with |- wf (?enc _) => unfold enc end; cbn [wf foldr fst snd];
    split_and!; try done; eapply codec_wf; field_codec
  | lazymatch goal with |- height (?enc _) ≤ _ => unfold enc end; cbn [height foldr fst snd];
    apply (N.add_le_mono_l _ h 1); repeat apply N.max_lub; try lia;
    (eapply codec_height, codec_le; [field_codec|lia])
  | lazymatch goal with |- ?dec (?enc _) _ = _ => unfold enc, dec end; unfold dec_struct;
    repeat lazymatch goal with |- dec_fields _ (_ :: _) _ = _ =>
      eapply dec_fields_step; [reflexivity|eapply dec_field; field_codec|];
      lazymatch goal with |- dec_fields _ _ ?d = _ =>
        let d' := eval cbn in d in change d with d' end
    end; reflexivity ].

Lemma envelope_codec x :
  codec_ok 1 enc_AuthenticatedEnvelope dec_AuthenticatedEnvelope zero_AuthenticatedEnvelope x.
Proof. destruct x. struct_codec 0. Qed.

Lemma account_codec x : codec_ok 9 enc_Account dec_Account zero_Account x.
Proof. destruct x. struct_codec 8. Qed.

Lemma namespace_entry_codec x :
  codec_ok 1 enc_NamespaceEntry dec_NamespaceEntry zero_NamespaceEntry x.
Proof. destruct x. struct_codec 0. Qed.

Lemma access_box_codec x : valid_utf8 (ab_OwnerVerifyKeyName x) = true →
  codec_ok 1 enc_AccessBox dec_AccessBox zero_AccessBox x.
Proof. destruct x. cbn. intros. struct_codec 0. Qed.

Lemma status_body_codec x : valid_utf8 (fb_OwnerVerifyKeyName x) = true →
  codec_ok 1 enc_FileStatusBody dec_FileStatusBody zero_FileStatusBody x.
Proof. destruct x. cbn. intros. struct_codec 0. Qed.

Lemma file_status_codec x : valid_utf8 (fb_OwnerVerifyKeyName (fs_Body x)) = true →
  codec_ok 2 enc_FileStatus dec_FileStatus zero_FileStatus x.
Proof.
  destruct x as [body sg]. cbn [fs_Body]. intros Hb%status_body_codec. struct_codec 1.
Qed.

Lemma metadata_codec x : md_Version x ≤ max_uint64 → md_ChunkCount x ≤ max_uint64 →
  codec_ok 1 enc_Metadata dec_Metadata zero_Metadata x.
Proof. destruct x. cbn. intros. struct_codec 0. Qed.

Lemma chunk_codec x : ck_Index x ≤ max_uint64 →
  codec_ok 1 enc_Chunk dec_Chunk zero_Chunk x.
Proof. destruct x. cbn. intros. struct_codec 0. Qed.

Lemma branch_box_codec x :
  codec_ok 1 enc_BranchBoxRecord dec_BranchBoxRecord zero_BranchBoxRecord x.
Proof. destruct x. struct_codec 0. Qed.

Lemma structure_codec fid ep m : (∀ k v, m !! k = Some v → valid_utf8 k = true) →
  codec_ok 3 enc_AccessBoxStructure dec_AccessBoxStructure zero_AccessBoxStructure
    (mkAccessBoxStructure fid ep (Some m)).
Proof.
  intros Hm.
  assert (codec_ok 2 (enc_map enc_BranchBoxRecord)
    (dec_map zero_BranchBoxRecord dec_BranchBoxRecord) None (Some m)) as Hmap.
  { apply (map_codec 1). intros k v Hk. split; [by eapply Hm|apply branch_box_codec]. }
  struct_codec 2.
Qed.

Lemma payload_codec x :
  codec_ok 1 enc_InvitationPayload dec_InvitationPayload zero_InvitationPayload x.
Proof. destruct x. struct_codec 0. Qed.

Lemma invitation_codec x :
  codec_ok 1 enc_Invitation dec_Invitation zero_Invitation x.
Proof. destruct x. struct_codec 0. Qed.

End codecs.

End types.
