(* ===== verification/Effects.v ===== *)
(** * The operations' interactions

    A client operation computes and, between computations, interacts with its
    environment: it draws randomness, asks the coordination backend for locks,
    reads storage, and commits one atomic block of writes. [prog] is the tree
    of those interactions; an operation translated from Go is a [prog], run
    against an environment by [run]. Go's [(T, error)] results are [M T], whose
    bind is the early return on error. *)

From S2P Require Import Prelude Json Libs LockManager Fencing.
Import LM.

Section effects.
Context `{UuidLib} `{Userlib}.

(** The storage calls a commit closure makes, in order. *)
Inductive Mutation :=
  | MPut (id : UUID) (value : string)
  | MDelete (id : UUID)
  | MKeyPut (name : string) (key : PublicKeyType).

Definition is_object_write (m : Mutation) : Prop :=
  match m with MKeyPut _ _ => False | _ => True end.
#[global] Instance is_object_write_dec m : Decision (is_object_write m).
Proof. destruct m; apply _. Defined.

Inductive event :=
  | EDraw
  | EAllocTxn
  | EBegin (txn : TxnID)
  | EAcquire (ctx : Fencing.Ctx) (resource : ResourceID) (mode : LockMode)
  | EGrants
  | EReleaseAll
  | EGet (ctx : Fencing.Ctx) (id : UUID)
  | EKeyGet (ctx : Fencing.Ctx) (name : string)
  | ERange (keys : list string)
  | EAtomic (ctx : Fencing.Ctx) (writes : list Mutation).

(** What the environment answers. [EGrants] is the guard's fencing grants and
    the state of the test-only switch [disableFenceValidation]; [ERange] is
    the order in which Go ranges over a map with these keys. *)
Definition resp (e : event) : Type :=
  match e with
  | EDraw => Seed
  | EAllocTxn => result TxnID
  | EBegin _ => result unit
  | EAcquire _ _ _ => result unit
  | EGrants => list Fencing.Grant * bool
  | EReleaseAll => unit
  | EGet _ _ => result (option string)
  | EKeyGet _ _ => result (option PublicKeyType)
  | ERange _ => list string
  | EAtomic _ _ => result unit
  end.

Inductive prog (A : Type) :=
  | Ret (a : A)
  | Vis (e : event) (k : resp e → prog A).
Arguments Ret {A} _.
Arguments Vis {A} _ _.

Fixpoint bindP {A B} (p : prog A) (f : A → prog B) : prog B :=
  match p with
  | Ret a => f a
  | Vis e k => Vis e (λ r, bindP (k r) f)
  end.

(** Computations that may return an error. *)
Definition M (A : Type) : Type := prog (result A).

#[global] Instance M_ret : MRet M := λ A a, Ret (Ok a).
#[global] Instance M_bind : MBind M := λ A B f p,
  bindP p (λ r, match r with Ok a => f a | Err e => Ret (Err e) end).

Definition lift {A} (r : result A) : M A := Ret r.
Definition throw {A} (msg : string) : M A := Ret (Err (EMsg msg)).
(** [if b { return errors.New(msg) }] *)
Definition guard_ (b : bool) (msg : string) : M unit := lift (fail_if b msg).

Definition draw : M Seed := Vis EDraw (λ s, Ret (Ok s)).
Definition allocateTxn : M TxnID := Vis EAllocTxn Ret.
Definition acquire (ctx : Fencing.Ctx) (r : ResourceID) (m : LockMode) : M unit :=
  Vis (EAcquire ctx r m) Ret.
Definition datastoreGet (ctx : Fencing.Ctx) (id : UUID) : M (option string) :=
  Vis (EGet ctx id) Ret.
Definition keystoreGet (ctx : Fencing.Ctx) (name : string) : M (option PublicKeyType) :=
  Vis (EKeyGet ctx name) Ret.
Definition range (keys : list string) : M (list string) :=
  Vis (ERange keys) (λ l, Ret (Ok l)).
Definition runAtomicStorage (ctx : Fencing.Ctx) (writes : list Mutation) : M unit :=
  Vis (EAtomic ctx writes) Ret.

(** [withFenceGrants]: the guard's grants, and the test-only switch, on the
    operation's context. *)
Definition withFenceGrants (ctx : Fencing.Ctx) : M Fencing.Ctx :=
  Vis EGrants (λ g,
    let ctx := Fencing.WithGrants ctx g.1 in
    Ret (Ok (if g.2 then Fencing.WithoutValidationForTest ctx else ctx))).

(** [guard, err := newOperationGuard(txn)] with [defer guard.ReleaseAll()]:
    the release runs on every return of [body]. *)
Definition withOperationGuard {A} (txn : TxnID) (body : M A) : M A :=
  Vis (EBegin txn) (λ r,
    match r with
    | Err e => Ret (Err e)
    | Ok _ => bindP body (λ x, Vis EReleaseAll (λ _, Ret x))
    end).

(** ** Running against an environment *)

(** An environment answers every event from its own state. *)
Definition handler (S : Type) : Type := ∀ e : event, S → S * resp e.

Fixpoint run {S A} (h : handler S) (p : prog A) (st : S) : S * A :=
  match p with
  | Ret a => (st, a)
  | Vis e k => let '(st, r) := h e st in run h (k r) st
  end.

(** The interactions of a run, with their answers. *)
Fixpoint trace {S A} (h : handler S) (p : prog A) (st : S) : list {e : event & resp e} :=
  match p with
  | Ret _ => []
  | Vis e k => let '(st, r) := h e st in existT e r :: trace h (k r) st
  end.

Lemma run_bindP {S A B} (h : handler S) (p : prog A) (f : A → prog B) st :
  run h (bindP p f) st = run h (f (run h p st).2) (run h p st).1.
Proof. revert st. induction p as [a|e k IH]; intros st; cbn; [done|]. by destruct (h e st). Qed.

Lemma run_bind {S A B} (h : handler S) (p : M A) (f : A → M B) st :
  run h (p ≫= f) st =
    let '(st', r) := run h p st in
    match r with Ok a => run h (f a) st' | Err e => (st', Err e) end.
Proof.
  unfold mbind, M_bind. rewrite run_bindP. destruct (run h p st) as [st' []]; done.
Qed.

Lemma trace_bindP {S A B} (h : handler S) (p : prog A) (f : A → prog B) st :
  trace h (bindP p f) st =
    (trace h p st ++ trace h (f (run h p st).2) (run h p st).1)%list.
Proof.
  revert st. induction p as [a|e k IH]; intros st; cbn; [done|].
  destruct (h e st) as [st' r]. cbn. by rewrite IH.
Qed.

End effects.

Arguments Ret {_ _ A} _.
Arguments Vis {_ _ A} _ _.
