(* ===== verification/Client.v ===== *)
(** * Accounts, envelopes and files (src/client/client.go, lines 300-2690)

    The helpers and the public operations on accounts and files, each the
    whole Go function: the same checks in the same order, the same storage
    calls, locks and draws of randomness, and the same error at every early
    return. *)

From S2P Require Import Prelude Json Libs LockManager Fencing SaferTypes Effects.
Import Json LM.
Open Scope string_scope.

Section client.
Context `{UuidLib} `{Userlib} `{!UuidNew}.

(** ** Randomness *)

Definition newUUID : M UUID := s ← draw; mret (uuid_New s).
Definition randomBytes (n : N) : M string := s ← draw; mret (RandomBytes n s).
Definition uuidFromBytes (b : string) : result UUID :=
  of_option "invalid UUID" (uuid_FromBytes b).

(** ** Names and keys *)

Definition getUserUUID (username : string) : result UUID :=
  uuidFromBytes (take_bytes 16 (Hash ("user-record-" +:+ username))).

Definition publicKeyName (domain username : string) : string :=
  hex_EncodeToString (take_bytes 16 (Hash (domain +:+ ":" +:+ username))).

Definition getPKEKeyName (username : string) : string :=
  publicKeyName "pke-public-key" username.

Definition getVerifyKeyName (username : string) : string :=
  publicKeyName "signature-verify-key" username.

Definition isUsernameTaken (ctx : Fencing.Ctx) (username : string) (accountUUID : UUID)
    : M bool :=
  account ← datastoreGet ctx accountUUID;
  pke ← keystoreGet ctx (getPKEKeyName username);
  verify ← keystoreGet ctx (getVerifyKeyName username);
  mret (bool_decide (is_Some account) || bool_decide (is_Some pke)
        || bool_decide (is_Some verify)).

Definition deriveAccountKey (username password : string) (accountUUID : UUID)
    : result (string * string) :=
  let salt := Hash ("password-salt-" +:+ username) in
  let passwordRoot := Argon2Key password salt 16 in
  enc ← HashKDF passwordRoot ("account-enc" +:+ uuid_String accountUUID);
  mac ← HashKDF passwordRoot ("account-mac" +:+ uuid_String accountUUID);
  mret (take_bytes 16 enc, take_bytes 16 mac).

Definition accountMACMessage (accountUUID : UUID) (ciphertext : string) : string :=
  "authenticated-account:" +:+ uuid_String accountUUID +:+ ":" +:+ ciphertext.

Definition emacAccount (account : Account) (accountUUID : UUID) (encKey macKey : string)
    : M string :=
  _ ← guard_ (negb (String.length encKey =? 16)%nat || negb (String.length macKey =? 16)%nat)
    "invalid account key length";
  accountBytes ← lift (Marshal (enc_Account account));
  iv ← randomBytes 16;
  let ciphertext := SymEnc encKey iv accountBytes in
  mac ← lift (HMACEval macKey (accountMACMessage accountUUID ciphertext));
  lift (Marshal (enc_AuthenticatedEnvelope
    (mkAuthenticatedEnvelope (Some ciphertext) (Some mac)))).

(** ** InitUser and GetUser *)

Definition InitUserContext (ctx : Fencing.Ctx) (username password : string) : M User :=
  _ ← guard_ (bool_decide (username = "")) "username cannot be empty";
  accountUUID ← lift (getUserUUID username);
  taken ← isUsernameTaken ctx username accountUUID;
  _ ← guard_ taken "username already exits";
  s ← draw;
  '(pkePublic, pkePrivate) ← lift (PKEKeyGen s);
  s ← draw;
  '(signPrivate, verifyPublic) ← lift (DSKeyGen s);
  namespaceRoot ← randomBytes 16;
  let account := mkAccount (Some (Hash username)) (Some namespaceRoot) pkePrivate signPrivate in
  '(accountEncKey, accountMACKey) ← lift (deriveAccountKey username password accountUUID);
  encAccount ← emacAccount account accountUUID accountEncKey accountMACKey;
  _ ← runAtomicStorage ctx [
    MKeyPut (getPKEKeyName username) pkePublic;
    MKeyPut (getVerifyKeyName username) verifyPublic;
    MPut accountUUID encAccount];
  mret (mkUser username (Some namespaceRoot) pkePrivate signPrivate).

Definition InitUser (username password : string) : M User :=
  InitUserContext Fencing.Background username password.

Definition openAccount (envelopeBytes : string) (accountUUID : UUID) (encKey macKey : string)
    : result Account :=
  _ ← fail_if (negb (String.length encKey =? symmetricKeySize)%nat)
    "invalid account encryption key";
  _ ← fail_if (negb (String.length macKey =? symmetricKeySize)%nat)
    "invalid account MAC key";
  envelope ← of_option "invalid account envelope"
    (Unmarshal dec_AuthenticatedEnvelope zero_AuthenticatedEnvelope envelopeBytes);
  _ ← fail_if (negb (slen (env_MAC envelope) =? HashSizeBytes)%nat)
    "Invalid account MAC length";
  expectedMAC ← HMACEval macKey
    (accountMACMessage accountUUID (bytes_of (env_Ciphertext envelope)));
  _ ← fail_if (negb (HMACEqual expectedMAC (bytes_of (env_MAC envelope))))
    "account authentication failed";
  _ ← fail_if (slen (env_Ciphertext envelope) <? AESBlockSizeBytes)%nat
    "account ciphertext is too short";
  let plaintext := SymDec encKey (bytes_of (env_Ciphertext envelope)) in
  of_option "invalid account plaintext" (Unmarshal dec_Account zero_Account plaintext).

Definition GetUserContext (ctx : Fencing.Ctx) (username password : string) : M User :=
  _ ← guard_ (bool_decide (username = "")) "username cant be empty";
  accountUUID ← lift (getUserUUID username);
  found ← datastoreGet ctx accountUUID;
  envelopeBytes ← lift (of_option "user account does not exits" found);
  '(accountEncKey, accountMACKey) ← lift (deriveAccountKey username password accountUUID);
  account ← lift (openAccount envelopeBytes accountUUID accountEncKey accountMACKey);
  mret (mkUser username (a_NamespaceRoot account) (a_PKEPrivate account)
    (a_SignPrivate account)).

Definition GetUser (username password : string) : M User :=
  GetUserContext Fencing.Background username password.

(** ** Versions, transaction identifiers, lock resources *)

Definition nextMetadataVersion (current : N) : result N :=
  if decide (current = max_uint64)
  then Err (EMsg "file content version exhausted")
  else Ok (u64_add current 1).

(** [allocateTxnID]: [interference] is what other goroutines store in
    [txnIDCounter] between this goroutine's [Load] and its compare-and-swap,
    one entry per failed attempt; the result pairs the counter's final value
    with the return value. *)
Fixpoint allocateTxnID (txnIDCounter : N) (interference : list N) : N * result TxnID :=
  if decide (txnIDCounter = max_uint64)
  then (txnIDCounter, Err (EMsg "safer-cc: transaction ID space exhausted"))
  else
    let next := u64_add txnIDCounter 1 in
    match interference with
    | [] => (next, Ok next)
    | other :: interference =>
        if decide (other = txnIDCounter) then (next, Ok next)
        else allocateTxnID other interference
    end.

(** netstring-style: decimal length, colon, bytes, for each field *)
Definition canonicalNamespaceIdentity (username filename : string) : string :=
  pretty (N.of_nat (String.length username)) +:+ ":" +:+ username +:+
  pretty (N.of_nat (String.length filename)) +:+ ":" +:+ filename.

Definition getNameSpaceEntryUUID (username filename : string) : result UUID :=
  uuidFromBytes (take_bytes 16 (Hash (canonicalNamespaceIdentity username filename))).

Definition namespaceResourceID (username filename : string) : result ResourceID :=
  nameUUID ← getNameSpaceEntryUUID username filename;
  mret (mkResourceID NamespaceResource (uuid_String nameUUID)).

Definition fileResourceID (fileID : UUID) : ResourceID :=
  mkResourceID FileResource (uuid_String fileID).

Definition deriveNamespaceEntryKeys (namespaceRoot : slice) (filename : string)
    : result (slice * slice) :=
  _ ← fail_if (negb (slen namespaceRoot =? symmetricKeySize)%nat) "Invalid namespace root";
  enc ← HashKDF (bytes_of namespaceRoot) ("namespace-entry-enc:" +:+ filename);
  mac ← HashKDF (bytes_of namespaceRoot) ("namespace-entry-mac:" +:+ filename);
  mret (Some (take_bytes 16 enc), Some (take_bytes 16 mac)).

Definition deriveChunkKeys (fileRoot : slice) (chunkUUID : UUID) : result (slice * slice) :=
  _ ← fail_if (negb (slen fileRoot =? symmetricKeySize)%nat) "invalid file root";
  enc ← HashKDF (bytes_of fileRoot) ("file-chunk-enc:" +:+ uuid_String chunkUUID);
  mac ← HashKDF (bytes_of fileRoot) ("file-chunk-mac:" +:+ uuid_String chunkUUID);
  mret (Some (take_bytes 16 enc), Some (take_bytes 16 mac)).

(** ** Authenticated envelopes *)

Definition datastoreObjectMACMessage (objectType : string) (objectUUID : UUID)
    (ciphertext : string) : string :=
  objectType +:+ ":" +:+ uuid_String objectUUID +:+ ":" +:+ ciphertext.

Definition protectDatastoreObject (objectType : string) (objectUUID : UUID) (object : json)
    (encKey macKey : slice) : M string :=
  _ ← guard_ (bool_decide (objectType = "")) "object type cannot be empty";
  _ ← guard_ (bool_decide (objectUUID = uuid_Nil)) "object UUID cannot be nil";
  _ ← guard_ (negb (slen encKey =? symmetricKeySize)%nat
              || negb (slen macKey =? symmetricKeySize)%nat) "invalid object keys";
  plaintext ← lift (Marshal object);
  iv ← randomBytes (N.of_nat AESBlockSizeBytes);
  let ciphertext := SymEnc (bytes_of encKey) iv plaintext in
  mac ← lift (HMACEval (bytes_of macKey)
    (datastoreObjectMACMessage objectType objectUUID ciphertext));
  lift (Marshal (enc_AuthenticatedEnvelope
    (mkAuthenticatedEnvelope (Some ciphertext) (Some mac)))).

Definition namespaceEntryObjectType : string := "namespace-entry".
Definition accessBoxObjectType : string := "access-box".
Definition accessBoxStructureObjectType : string := "access-box-structure".
Definition metadataObjectType : string := "metadata".
Definition chunkObjectType : string := "chunk".

(** The checks of [loadDatastoreObject] on the bytes it read. *)
Definition openEnvelope {T} (objectType : string) (objectUUID : UUID) (encKey macKey : slice)
    (dec : json → T → option T) (zero : T) (envelopeBytes : string) : result T :=
  envelope ← of_option "invalid datastore envelope"
    (Unmarshal dec_AuthenticatedEnvelope zero_AuthenticatedEnvelope envelopeBytes);
  _ ← fail_if (negb (slen (env_MAC envelope) =? HashSizeBytes)%nat)
    "invalid datastore MAC length";
  expectedMAC ← HMACEval (bytes_of macKey)
    (datastoreObjectMACMessage objectType objectUUID (bytes_of (env_Ciphertext envelope)));
  _ ← fail_if (negb (HMACEqual expectedMAC (bytes_of (env_MAC envelope))))
    "datastore object authentication failed";
  _ ← fail_if (slen (env_Ciphertext envelope) <? AESBlockSizeBytes)%nat
    "datastore ciphertext is too short";
  let plaintext := SymDec (bytes_of encKey) (bytes_of (env_Ciphertext envelope)) in
  of_option "invalid datastore object plaintext" (Unmarshal dec zero plaintext).

Definition loadDatastoreObject {T} (ctx : Fencing.Ctx) (objectType : string)
    (objectUUID : UUID) (encKey macKey : slice) (dec : json → T → option T) (zero : T) : M T :=
  _ ← guard_ (bool_decide (objectType = "")) "object type cannot be empty";
  _ ← guard_ (bool_decide (objectUUID = uuid_Nil)) "object UUID cannot be nil";
  _ ← guard_ (negb (slen encKey =? symmetricKeySize)%nat
              || negb (slen macKey =? symmetricKeySize)%nat) "invalid object keys";
  found ← datastoreGet ctx objectUUID;
  envelopeBytes ← lift (of_option "required datastore object is missing" found);
  lift (openEnvelope objectType objectUUID encKey macKey dec zero envelopeBytes).

(** ** The signed file status *)

Definition getAccessBoxCommitment (accessBox : AccessBox) : result string :=
  accessBoxBytes ← Marshal (enc_AccessBox accessBox);
  mret (Hash accessBoxBytes).

Definition getFileStatusSignatureMessage (statusUUID : UUID) (body : FileStatusBody)
    : result string :=
  bodyBytes ← Marshal (enc_FileStatusBody body);
  mret ("file-status-signature:" +:+ uuid_String statusUUID +:+ ":" +:+ bodyBytes).

Definition createFileStatus (userdata : User) (statusUUID : UUID) (accessBox : AccessBox)
    : result FileStatus :=
  commitment ← getAccessBoxCommitment accessBox;
  let body := mkFileStatusBody (ab_FileID accessBox) (ab_EpochID accessBox)
    (Some commitment) (ab_OwnerVerifyKeyName accessBox) in
  signatureMessage ← getFileStatusSignatureMessage statusUUID body;
  signature ← DSSign (u_SignPrivate userdata) signatureMessage;
  mret (mkFileStatus body (Some signature)).

(** The checks of [verifyFileStatus] on the status record and the owner's key. *)
Definition checkFileStatus (accessBox : AccessBox) (status : FileStatus)
    (verifyKey : PublicKeyType) : result unit :=
  _ ← fail_if (bool_decide (KeyType verifyKey ≠ "DS")) "Invalid owner verification key";
  signatureMessage ← getFileStatusSignatureMessage (ab_StatusUUID accessBox) (fs_Body status);
  _ ← match DSVerify verifyKey signatureMessage (bytes_of (fs_Signature status)) with
      | Some _ => Err (EMsg "invalid signature")
      | None => mret ()
      end;
  _ ← fail_if (bool_decide (fb_FileID (fs_Body status) ≠ ab_FileID accessBox))
    "file status FileID mismatch";
  _ ← fail_if (bool_decide (fb_EpochID (fs_Body status) ≠ ab_EpochID accessBox))
    "file status epoch mismatch";
  _ ← fail_if (bool_decide
      (fb_OwnerVerifyKeyName (fs_Body status) ≠ ab_OwnerVerifyKeyName accessBox))
    "file status owner mismatch";
  expectedCommitment ← getAccessBoxCommitment accessBox;
  fail_if (negb (HMACEqual expectedCommitment
      (bytes_of (fb_CurrentAccessCommitment (fs_Body status))))) "stale access box".

Definition verifyFileStatus (ctx : Fencing.Ctx) (accessBox : AccessBox) : M unit :=
  _ ← guard_ (bool_decide (ab_StatusUUID accessBox = uuid_Nil)) "invalid status uuid";
  found ← datastoreGet ctx (ab_StatusUUID accessBox);
  statusBytes ← lift (of_option "file status is missing" found);
  status ← lift (of_option "invalid file status"
    (Unmarshal dec_FileStatus zero_FileStatus statusBytes));
  found ← keystoreGet ctx (ab_OwnerVerifyKeyName accessBox);
  verifyKey ← lift (of_option "owner verification key is missing" found);
  lift (checkFileStatus accessBox status verifyKey).

(** ** Resolving a file *)

Definition loadNamespaceEntry (ctx : Fencing.Ctx) (userdata : option User) (filename : string)
    : M NamespaceEntry :=
  userdata ← lift (of_option "user cannot be nil" userdata);
  nameUUID ← lift (getNameSpaceEntryUUID (Username userdata) filename);
  '(namespaceEncKey, namespaceMACKey) ←
    lift (deriveNamespaceEntryKeys (u_NamespaceRoot userdata) filename);
  namespaceEntry ← loadDatastoreObject ctx namespaceEntryObjectType nameUUID
    namespaceEncKey namespaceMACKey dec_NamespaceEntry zero_NamespaceEntry;
  _ ← guard_ (bool_decide (ne_FileID namespaceEntry = uuid_Nil)) "invalid namespace FileID";
  _ ← guard_ (bool_decide (ne_AccessBoxUUID namespaceEntry = uuid_Nil))
    "invalid access box UUID";
  _ ← guard_ (negb (slen (ne_AccessBoxEncKey namespaceEntry) =? symmetricKeySize)%nat)
    "invalid access box encryption key";
  _ ← guard_ (negb (slen (ne_AccessBoxMACKey namespaceEntry) =? symmetricKeySize)%nat)
    "invalid access box MAC key";
  mret namespaceEntry.

Definition validateFileAccessUnderLock (ctx : Fencing.Ctx) (namespaceEntry : NamespaceEntry)
    : M AccessBox :=
  accessBox ← loadDatastoreObject ctx accessBoxObjectType (ne_AccessBoxUUID namespaceEntry)
    (ne_AccessBoxEncKey namespaceEntry) (ne_AccessBoxMACKey namespaceEntry)
    dec_AccessBox zero_AccessBox;
  _ ← guard_ (bool_decide (ab_FileID accessBox ≠ ne_FileID namespaceEntry))
    "access box FileID mismatch";
  _ ← guard_ (bool_decide (ab_EpochID accessBox = uuid_Nil)) "invalid access box epoch";
  _ ← guard_ (bool_decide (ab_MetadataUUID accessBox = uuid_Nil)) "invalid metadata UUID";
  _ ← guard_ (negb (slen (ab_MetadataEncKey accessBox) =? symmetricKeySize)%nat
              || negb (slen (ab_MetadataMACKey accessBox) =? symmetricKeySize)%nat)
    "invalid metadata keys";
  _ ← guard_ (negb (slen (ab_FileRoot accessBox) =? symmetricKeySize)%nat) "invalid file root";
  _ ← guard_ (bool_decide (ab_AccessBoxStructureUUID accessBox = uuid_Nil))
    "invalid access box structure UUID";
  _ ← guard_ (bool_decide (ab_StatusUUID accessBox = uuid_Nil)) "invalid status UUID";
  _ ← guard_ (bool_decide (ab_OwnerVerifyKeyName accessBox = ""))
    "missing owner verification key name";
  _ ← verifyFileStatus ctx accessBox;
  mret accessBox.

Definition resolveFile (ctx : Fencing.Ctx) (userdata : option User) (filename : string)
    : M (NamespaceEntry * AccessBox) :=
  namespaceEntry ← loadNamespaceEntry ctx userdata filename;
  accessBox ← validateFileAccessUnderLock ctx namespaceEntry;
  mret (namespaceEntry, accessBox).

Definition loadMetadata (ctx : Fencing.Ctx) (accessBox : AccessBox) : M Metadata :=
  metadata ← loadDatastoreObject ctx metadataObjectType (ab_MetadataUUID accessBox)
    (ab_MetadataEncKey accessBox) (ab_MetadataMACKey accessBox) dec_Metadata zero_Metadata;
  _ ← guard_ (bool_decide (md_FileID metadata ≠ ab_FileID accessBox)) "metadata FileID mismatch";
  _ ← guard_ (bool_decide (md_EpochID metadata ≠ ab_EpochID accessBox)) "metadata epoch mismatch";
  _ ← guard_ (bool_decide (md_ChunkCount metadata = 0%N)) "metadata has zero chunks";
  _ ← guard_ (bool_decide (md_Version metadata = 0%N)) "metadata has invalid content version";
  _ ← guard_ (bool_decide (md_TailUUID metadata = uuid_Nil)) "metadata tail is nil";
  mret metadata.

(** ** The chunk chain *)

(** The checks on one chunk; [expectedIndex] is its position in the file. *)
Definition checkChunk (accessBox : AccessBox) (chunk : Chunk) (expectedIndex : N) : result unit :=
  _ ← fail_if (bool_decide (ck_FileID chunk ≠ ab_FileID accessBox)) "chunk FileID mismatch";
  _ ← fail_if (bool_decide (ck_EpochID chunk ≠ ab_EpochID accessBox)) "chunk epoch mismatch";
  _ ← fail_if (bool_decide (ck_Index chunk ≠ expectedIndex)) "chunk index mismatch";
  if decide (expectedIndex = 0%N)
  then fail_if (bool_decide (ck_PrevUUID chunk ≠ uuid_Nil)) "base chunk predecessor is not nil"
  else fail_if (bool_decide (ck_PrevUUID chunk = uuid_Nil)) "chunk chain is truncated".

(** The [for remaining := ChunkCount; remaining > 0; remaining--] loop, with
    the loop's variables as arguments; it returns [currentUUID] and the two
    slices built. *)
Fixpoint walkChunks (ctx : Fencing.Ctx) (accessBox : AccessBox) (remaining : nat)
    (currentUUID : UUID) (seen : gset UUID) (reversedContents : list slice)
    (chunkUUIDs : list UUID) : M (UUID * list slice * list UUID) :=
  match remaining with
  | O => mret (currentUUID, reversedContents, chunkUUIDs)
  | S remaining' =>
      _ ← guard_ (bool_decide (currentUUID = uuid_Nil)) "chunk chain ended early";
      _ ← guard_ (bool_decide (currentUUID ∈ seen)) "chunk chain contains a cycle";
      '(chunkEncKey, chunkMACKey) ← lift (deriveChunkKeys (ab_FileRoot accessBox) currentUUID);
      chunk ← loadDatastoreObject ctx chunkObjectType currentUUID chunkEncKey chunkMACKey
        dec_Chunk zero_Chunk;
      _ ← lift (checkChunk accessBox chunk (N.of_nat remaining'));
      walkChunks ctx accessBox remaining' (ck_PrevUUID chunk) ({[currentUUID]} ∪ seen)
        (reversedContents ++ [ck_Content chunk])%list (chunkUUIDs ++ [currentUUID])%list
  end.

(** The second loop: [reversedContents] from its last element to its first. *)
Definition joinReversed (reversedContents : list slice) : string :=
  foldl (λ content c, content +:+ bytes_of c) "" (reverse reversedContents).

Definition loadFileContentAndChunkUUIDs (ctx : Fencing.Ctx) (accessBox : AccessBox)
    (metadata : Metadata) : M (string * list UUID) :=
  '(currentUUID, reversedContents, chunkUUIDs) ←
    walkChunks ctx accessBox (N.to_nat (md_ChunkCount metadata)) (md_TailUUID metadata)
      ∅ [] [];
  _ ← guard_ (bool_decide (currentUUID ≠ uuid_Nil)) "chunk chain has extra predecessor";
  mret (joinReversed reversedContents, chunkUUIDs).

(** ** StoreFile *)

(** Everything [storeNewFileLocked] computes before its commit: the six
    objects, in the order it writes them. *)
Definition prepareNewFile (userdata : User) (filename : string) (content : slice)
    (fileID : UUID) : M (list Mutation) :=
  nameUUID ← lift (getNameSpaceEntryUUID (Username userdata) filename);
  '(namespaceEncKey, namespaceMACKey) ←
    lift (deriveNamespaceEntryKeys (u_NamespaceRoot userdata) filename);
  epochID ← newUUID;
  fileRoot ← randomBytes 16;
  baseChunkUUID ← newUUID;
  metadataUUID ← newUUID;
  metadataEncKey ← randomBytes 16;
  metadataMACKey ← randomBytes 16;
  ownerAccessBoxUUID ← newUUID;
  ownerAccessBoxEncKey ← randomBytes 16;
  ownerAccessBoxMACKey ← randomBytes 16;
  structureUUID ← newUUID;
  structureEncKey ← randomBytes 16;
  structureMACKey ← randomBytes 16;
  statusUUID ← newUUID;
  let chunk := mkChunk fileID epochID 0 uuid_Nil content in
  '(chunkEncKey, chunkMACKey) ← lift (deriveChunkKeys (Some fileRoot) baseChunkUUID);
  protectedChunk ← protectDatastoreObject chunkObjectType baseChunkUUID (enc_Chunk chunk)
    chunkEncKey chunkMACKey;
  let metadata := mkMetadata fileID epochID 1 baseChunkUUID 1 in
  protectedMetadata ← protectDatastoreObject metadataObjectType metadataUUID
    (enc_Metadata metadata) (Some metadataEncKey) (Some metadataMACKey);
  let accessBox := mkAccessBox fileID epochID metadataUUID (Some metadataEncKey)
    (Some metadataMACKey) (Some fileRoot) structureUUID statusUUID
    (getVerifyKeyName (Username userdata)) in
  protectedAccessBox ← protectDatastoreObject accessBoxObjectType ownerAccessBoxUUID
    (enc_AccessBox accessBox) (Some ownerAccessBoxEncKey) (Some ownerAccessBoxMACKey);
  fileStatus ← lift (createFileStatus userdata statusUUID accessBox);
  fileStatusBytes ← lift (Marshal (enc_FileStatus fileStatus));
  let structure := mkAccessBoxStructure fileID epochID (Some ∅) in
  protectedAccessBoxStructure ← protectDatastoreObject accessBoxStructureObjectType
    structureUUID (enc_AccessBoxStructure structure) (Some structureEncKey)
    (Some structureMACKey);
  let namespaceEntry := mkNamespaceEntry true fileID ownerAccessBoxUUID
    (Some ownerAccessBoxEncKey) (Some ownerAccessBoxMACKey) structureUUID
    (Some structureEncKey) (Some structureMACKey) in
  protectedNamespaceEntry ← protectDatastoreObject namespaceEntryObjectType nameUUID
    (enc_NamespaceEntry namespaceEntry) namespaceEncKey namespaceMACKey;
  mret [MPut baseChunkUUID protectedChunk; MPut metadataUUID protectedMetadata;
        MPut ownerAccessBoxUUID protectedAccessBox; MPut statusUUID fileStatusBytes;
        MPut structureUUID protectedAccessBoxStructure; MPut nameUUID protectedNamespaceEntry].

Definition storeNewFileLocked (userdata : User) (ctx : Fencing.Ctx) (filename : string)
    (content : slice) (fileID : UUID) : M unit :=
  writes ← prepareNewFile userdata filename content fileID;
  runAtomicStorage ctx writes.

(** The [for] loop that draws a UUID outside [oldChunkSet]. Go's loop has no
    bound; [fuel] attempts are enough whenever the drawn UUIDs are distinct. *)
Fixpoint newBaseChunkUUID (fuel : nat) (oldChunkSet : gset UUID) : M UUID :=
  match fuel with
  | O => throw "no fresh chunk UUID was drawn"
  | S fuel =>
      u ← newUUID;
      if decide (u ∈ oldChunkSet) then newBaseChunkUUID fuel oldChunkSet else mret u
  end.

Definition overwriteExistingFileLocked (ctx : Fencing.Ctx) (accessBox : AccessBox)
    (content : slice) : M unit :=
  metadata ← loadMetadata ctx accessBox;
  '(_, oldChunkUUIDs) ← loadFileContentAndChunkUUIDs ctx accessBox metadata;
  newBaseChunk ← newBaseChunkUUID (S (length oldChunkUUIDs)) (list_to_set oldChunkUUIDs);
  let newChunk := mkChunk (ab_FileID accessBox) (ab_EpochID accessBox) 0 uuid_Nil content in
  '(newChunkEncKey, newChunkMACKey) ← lift (deriveChunkKeys (ab_FileRoot accessBox) newBaseChunk);
  protectedNewChunk ← protectDatastoreObject chunkObjectType newBaseChunk (enc_Chunk newChunk)
    newChunkEncKey newChunkMACKey;
  newVersion ← lift (nextMetadataVersion (md_Version metadata));
  let newMetadata := mkMetadata (ab_FileID accessBox) (ab_EpochID accessBox) newVersion
    newBaseChunk 1 in
  protectedNewMetadata ← protectDatastoreObject metadataObjectType (ab_MetadataUUID accessBox)
    (enc_Metadata newMetadata) (ab_MetadataEncKey accessBox) (ab_MetadataMACKey accessBox);
  runAtomicStorage ctx (
    [MPut newBaseChunk protectedNewChunk; MPut (ab_MetadataUUID accessBox) protectedNewMetadata]
    ++ (MDelete <$> oldChunkUUIDs))%list.

Definition StoreFileContext (userdata : User) (ctx : Fencing.Ctx) (filename : string)
    (content : slice) : M unit :=
  txn ← allocateTxn;
  withOperationGuard txn (
    nsResource ← lift (namespaceResourceID (Username userdata) filename);
    _ ← acquire ctx nsResource ExclusiveLock;
    nameUUID ← lift (getNameSpaceEntryUUID (Username userdata) filename);
    found ← datastoreGet ctx nameUUID;
    if decide (is_Some found) then
      namespaceEntry ← loadNamespaceEntry ctx (Some userdata) filename;
      _ ← acquire ctx (fileResourceID (ne_FileID namespaceEntry)) ExclusiveLock;
      ctx ← withFenceGrants ctx;
      accessBox ← validateFileAccessUnderLock ctx namespaceEntry;
      overwriteExistingFileLocked ctx accessBox content
    else
      fileID ← newUUID;
      _ ← acquire ctx (fileResourceID fileID) ExclusiveLock;
      ctx ← withFenceGrants ctx;
      storeNewFileLocked userdata ctx filename content fileID).

Definition StoreFile (userdata : User) (filename : string) (content : slice) : M unit :=
  StoreFileContext userdata Fencing.Background filename content.

(** ** AppendToFile *)

(** The body of [AppendToFileContext] after the empty-content return. *)
Definition appendChunk (ctx : Fencing.Ctx) (accessBox : AccessBox) (metadata : Metadata)
    (content : slice) : M unit :=
  _ ← guard_ (bool_decide (md_ChunkCount metadata = max_uint64)) "chunk count overflow";
  newChunkUUID ← newUUID;
  let newChunk := mkChunk (ab_FileID accessBox) (ab_EpochID accessBox)
    (md_ChunkCount metadata) (md_TailUUID metadata) content in
  '(newChunkEncKey, newChunkMACKey) ← lift (deriveChunkKeys (ab_FileRoot accessBox) newChunkUUID);
  protectedNewChunk ← protectDatastoreObject chunkObjectType newChunkUUID (enc_Chunk newChunk)
    newChunkEncKey newChunkMACKey;
  newVersion ← lift (nextMetadataVersion (md_Version metadata));
  let updatedMetadata := mkMetadata (md_FileID metadata) (md_EpochID metadata) newVersion
    newChunkUUID (u64_add (md_ChunkCount metadata) 1) in
  protectedUpdatedMetadata ← protectDatastoreObject metadataObjectType
    (ab_MetadataUUID accessBox) (enc_Metadata updatedMetadata)
    (ab_MetadataEncKey accessBox) (ab_MetadataMACKey accessBox);
  runAtomicStorage ctx [MPut newChunkUUID protectedNewChunk;
    MPut (ab_MetadataUUID accessBox) protectedUpdatedMetadata].

Definition AppendToFileContext (userdata : User) (ctx : Fencing.Ctx) (filename : string)
    (content : slice) : M unit :=
  txn ← allocateTxn;
  withOperationGuard txn (
    nsResource ← lift (namespaceResourceID (Username userdata) filename);
    _ ← acquire ctx nsResource SharedLock;
    namespaceEntry ← loadNamespaceEntry ctx (Some userdata) filename;
    _ ← acquire ctx (fileResourceID (ne_FileID namespaceEntry)) ExclusiveLock;
    ctx ← withFenceGrants ctx;
    accessBox ← validateFileAccessUnderLock ctx namespaceEntry;
    metadata ← loadMetadata ctx accessBox;
    if decide (slen content = 0%nat) then mret ()
    else appendChunk ctx accessBox metadata content).

Definition AppendToFile (userdata : User) (filename : string) (content : slice) : M unit :=
  AppendToFileContext userdata Fencing.Background filename content.

(** ** LoadFile *)

Definition LoadFileContext (userdata : User) (ctx : Fencing.Ctx) (filename : string)
    : M slice :=
  txn ← allocateTxn;
  withOperationGuard txn (
    nsResource ← lift (namespaceResourceID (Username userdata) filename);
    _ ← acquire ctx nsResource SharedLock;
    namespaceEntry ← loadNamespaceEntry ctx (Some userdata) filename;
    _ ← acquire ctx (fileResourceID (ne_FileID namespaceEntry)) SharedLock;
    accessBox ← validateFileAccessUnderLock ctx namespaceEntry;
    metadata ← loadMetadata ctx accessBox;
    '(content, _) ← loadFileContentAndChunkUUIDs ctx accessBox metadata;
    mret (Some content)).

Definition LoadFile (userdata : User) (filename : string) : M slice :=
  LoadFileContext userdata Fencing.Background filename.

Definition DebugFileVersionForBenchmark (owner : option User) (filename : string) : M (N * N) :=
  '(_, accessBox) ← resolveFile Fencing.Background owner filename;
  metadata ← loadMetadata Fencing.Background accessBox;
  mret (md_Version metadata, md_ChunkCount metadata).

End client.
