(* ===== verification/Sharing.v ===== *)
(** * Sharing and revocation (src/client/client.go, lines 2690-3879)

    Invitations, the owner's access-box structure, and the epoch rotation of
    [RevokeAccess]. *)

From S2P Require Import Prelude Json Libs LockManager Fencing SaferTypes Effects Client.
Import Json LM.
Open Scope string_scope.

Section sharing.
Context `{UuidLib} `{Userlib} `{!UuidNew}.

(** ** Building an invitation *)

Definition getInvitationIdentity (username : string) : string :=
  Hash ("invitation-identity:" +:+ username).

Definition deriveInvitationKeys (inviteRoot : string) (invitationUUID : UUID)
    : result (string * string) :=
  _ ← fail_if (negb (String.length inviteRoot =? symmetricKeySize)%nat) "invalid invitation root";
  enc ← HashKDF inviteRoot ("invitation-enc:" +:+ uuid_String invitationUUID);
  mac ← HashKDF inviteRoot ("invitation-mac:" +:+ uuid_String invitationUUID);
  mret (take_bytes 16 enc, take_bytes 16 mac).

Definition getInvitationMACMessage (invitationUUID : UUID) (ciphertext : string) : string :=
  "invitation-ciphertext:" +:+ uuid_String invitationUUID +:+ ":" +:+ ciphertext.

Definition getInvitationSignatureMessage (invitationUUID : UUID)
    (fields : InvitationSignedFields) : result string :=
  fieldsBytes ← Marshal (enc_InvitationSignedFields fields);
  mret ("invitation-signature:" +:+ uuid_String invitationUUID +:+ ":" +:+ fieldsBytes).

Definition buildInvitation (sender : option User) (recipientPublicKey : PublicKeyType)
    (invitationUUID : UUID) (payload : InvitationPayload) : M string :=
  sender ← lift (of_option "sender cannot be nil" sender);
  _ ← guard_ (bool_decide (KeyType recipientPublicKey ≠ "PKE")) "invalid recipient PKE key";
  inviteRoot ← randomBytes 16;
  '(invitationEncKey, invitationMACKey) ← lift (deriveInvitationKeys inviteRoot invitationUUID);
  payloadBytes ← lift (Marshal (enc_InvitationPayload payload));
  iv ← randomBytes 16;
  let ciphertext := SymEnc invitationEncKey iv payloadBytes in
  mac ← lift (HMACEval invitationMACKey (getInvitationMACMessage invitationUUID ciphertext));
  s ← draw;
  wrappedRoot ← lift (PKEEnc recipientPublicKey inviteRoot s);
  let signedFields := mkInvitationSignedFields (Some wrappedRoot) (Some ciphertext) (Some mac) in
  signatureMessage ← lift (getInvitationSignatureMessage invitationUUID signedFields);
  signature ← lift (DSSign (u_SignPrivate sender) signatureMessage);
  lift (Marshal (enc_Invitation
    (mkInvitation (Some wrappedRoot) (Some ciphertext) (Some mac) (Some signature)))).

Definition loadOwnerAccessBoxStructure (ctx : Fencing.Ctx) (namespaceEntry : NamespaceEntry)
    (accessBox : AccessBox) : M AccessBoxStructure :=
  _ ← guard_ (negb (ne_IsOwner namespaceEntry)) "caller is not the owner";
  _ ← guard_ (bool_decide (ne_AccessBoxStructureUUID namespaceEntry = uuid_Nil))
    "missing structure UUID";
  _ ← guard_ (bool_decide (ne_AccessBoxStructureUUID namespaceEntry
                           ≠ ab_AccessBoxStructureUUID accessBox)) "structure UUID mismatch";
  _ ← guard_ (negb (slen (ne_AccessBoxStructureEncKey namespaceEntry) =? symmetricKeySize)%nat
       || negb (slen (ne_AccessBoxStructureMACKey namespaceEntry) =? symmetricKeySize)%nat)
    "invalid structure keys";
  structure ← loadDatastoreObject ctx accessBoxStructureObjectType
    (ne_AccessBoxStructureUUID namespaceEntry) (ne_AccessBoxStructureEncKey namespaceEntry)
    (ne_AccessBoxStructureMACKey namespaceEntry) dec_AccessBoxStructure zero_AccessBoxStructure;
  _ ← guard_ (bool_decide (st_FileID structure ≠ ab_FileID accessBox)) "structure FileID mismatch";
  _ ← guard_ (bool_decide (st_CurrentEpoch structure ≠ ab_EpochID accessBox))
    "structure epoch mismatch";
  _ ← guard_ (bool_decide (st_RecipientBoxes structure = None)) "invalid recipient map";
  mret structure.

(** [structure.RecipientBoxes[name]] and its assignment, on a non-nil map. *)
Definition recipientBoxes (structure : AccessBoxStructure) : gmap string BranchBoxRecord :=
  default ∅ (st_RecipientBoxes structure).
Definition setRecipientBoxes (m : gmap string BranchBoxRecord) (structure : AccessBoxStructure)
    : AccessBoxStructure :=
  mkAccessBoxStructure (st_FileID structure) (st_CurrentEpoch structure) (Some m).

(** ** CreateInvitation *)

(** The owner's branch of [CreateInvitation]: the recipient's box record,
    tracked already or created now, and the writes of the box and, when it
    changed, of the structure. *)
Definition grantBranchBox (ctx : Fencing.Ctx) (namespaceEntry : NamespaceEntry)
    (accessBox : AccessBox) (recipientUsername : string) : M (BranchBoxRecord * list Mutation) :=
  structure ← loadOwnerAccessBoxStructure ctx namespaceEntry accessBox;
  '(record, structureWrites) ←
    match recipientBoxes structure !! recipientUsername with
    | Some record => mret (record, [])
    | None =>
        boxUUID ← newUUID;
        boxEncKey ← randomBytes 16;
        boxMACKey ← randomBytes 16;
        let record := mkBranchBoxRecord boxUUID (Some boxEncKey) (Some boxMACKey) in
        let structure := setRecipientBoxes
          (<[recipientUsername := record]> (recipientBoxes structure)) structure in
        protectedUpdatedStructure ← protectDatastoreObject accessBoxStructureObjectType
          (ab_AccessBoxStructureUUID accessBox) (enc_AccessBoxStructure structure)
          (ne_AccessBoxStructureEncKey namespaceEntry)
          (ne_AccessBoxStructureMACKey namespaceEntry);
        mret (record,
          [MPut (ne_AccessBoxStructureUUID namespaceEntry) protectedUpdatedStructure])
    end;
  protectedBranchBox ← protectDatastoreObject accessBoxObjectType (bb_BoxUUID record)
    (enc_AccessBox accessBox) (bb_BoxEncKey record) (bb_BoxMACKey record);
  mret (record, MPut (bb_BoxUUID record) protectedBranchBox :: structureWrites).

Definition CreateInvitation (userdata : User) (filename recipientUsername : string) : M UUID :=
  let ctx := Fencing.Background in
  txn ← allocateTxn;
  withOperationGuard txn (
    nsResource ← lift (namespaceResourceID (Username userdata) filename);
    _ ← acquire ctx nsResource SharedLock;
    namespaceEntry ← loadNamespaceEntry ctx (Some userdata) filename;
    _ ← acquire ctx (fileResourceID (ne_FileID namespaceEntry)) ExclusiveLock;
    ctx ← withFenceGrants ctx;
    accessBox ← validateFileAccessUnderLock ctx namespaceEntry;
    found ← keystoreGet ctx (getPKEKeyName recipientUsername);
    recipientPKEKey ← lift (of_option "recipient does not exist" found);
    _ ← guard_ (bool_decide (KeyType recipientPKEKey ≠ "PKE")) "recipient does not exist";
    found ← keystoreGet ctx (getVerifyKeyName recipientUsername);
    recipientVerifyKey ← lift (of_option "recipient does not exist" found);
    _ ← guard_ (bool_decide (KeyType recipientVerifyKey ≠ "DS")) "recipient does not exist";
    invitationUUID ← newUUID;
    '(granted, writes) ←
      (if ne_IsOwner namespaceEntry
       then grantBranchBox ctx namespaceEntry accessBox recipientUsername
       else mret (mkBranchBoxRecord (ne_AccessBoxUUID namespaceEntry)
                    (ne_AccessBoxEncKey namespaceEntry) (ne_AccessBoxMACKey namespaceEntry), []));
    let payload := mkInvitationPayload
      (Some (getInvitationIdentity (Username userdata)))
      (Some (getInvitationIdentity recipientUsername))
      (ab_FileID accessBox) (bb_BoxUUID granted) (bb_BoxEncKey granted) (bb_BoxMACKey granted) in
    invitationBytes ← buildInvitation (Some userdata) recipientPKEKey invitationUUID payload;
    _ ← runAtomicStorage ctx (writes ++ [MPut invitationUUID invitationBytes])%list;
    mret invitationUUID).

(** ** Opening and accepting an invitation *)

(** The sender's signature and the unwrapping of the root key. *)
Definition checkInvitation (userdata : User) (invitationPtr : UUID) (invitation : Invitation)
    (senderVerifyKey : PublicKeyType) : result string :=
  let signedFields := mkInvitationSignedFields (iv_WrappedRoot invitation)
    (iv_Ciphertext invitation) (iv_MAC invitation) in
  signatureMessage ← getInvitationSignatureMessage invitationPtr signedFields;
  _ ← match DSVerify senderVerifyKey signatureMessage (bytes_of (iv_Signature invitation)) with
      | Some _ => Err (EMsg "invalid invitation signature")
      | None => mret ()
      end;
  inviteRoot ← match PKEDec (u_PKEPrivate userdata) (bytes_of (iv_WrappedRoot invitation)) with
               | Err _ => Err (EMsg "cannot decrypt invitation root")
               | Ok r => mret r
               end;
  _ ← fail_if (negb (String.length inviteRoot =? symmetricKeySize)%nat) "invalid invitation root";
  mret inviteRoot.

(** Authenticating and decrypting the payload under the root key. *)
Definition openInvitationPayload (inviteRoot : string) (invitationPtr : UUID)
    (invitation : Invitation) : result InvitationPayload :=
  '(invitationEncKey, invitationMACKey) ← deriveInvitationKeys inviteRoot invitationPtr;
  _ ← fail_if (negb (slen (iv_MAC invitation) =? HashSizeBytes)%nat)
    "invalid invitation MAC length";
  expectedMAC ← HMACEval invitationMACKey
    (getInvitationMACMessage invitationPtr (bytes_of (iv_Ciphertext invitation)));
  _ ← fail_if (negb (HMACEqual expectedMAC (bytes_of (iv_MAC invitation))))
    "invitation authentication failed";
  _ ← fail_if (slen (iv_Ciphertext invitation) <? AESBlockSizeBytes)%nat
    "invitation ciphertext is too short";
  let payloadBytes := SymDec invitationEncKey (bytes_of (iv_Ciphertext invitation)) in
  of_option "invalid invitation payload"
    (Unmarshal dec_InvitationPayload zero_InvitationPayload payloadBytes).

(** The identity and well-formedness checks on the payload. *)
Definition checkPayload (userdata : User) (senderUsername : string)
    (payload : InvitationPayload) : result unit :=
  _ ← fail_if (negb (slen (ip_SenderIdentity payload) =? HashSizeBytes)%nat
       || negb (HMACEqual (bytes_of (ip_SenderIdentity payload))
                  (getInvitationIdentity senderUsername))) "invitation sender mismatch";
  _ ← fail_if (negb (slen (ip_RecipientIdentity payload) =? HashSizeBytes)%nat
       || negb (HMACEqual (bytes_of (ip_RecipientIdentity payload))
                  (getInvitationIdentity (Username userdata)))) "invitation recipient mismatch";
  _ ← fail_if (bool_decide (ip_FileID payload = uuid_Nil)) "invalid invitation FileID";
  _ ← fail_if (bool_decide (ip_AccessBoxUUID payload = uuid_Nil))
    "invalid invitation AccessBox UUID";
  fail_if (negb (slen (ip_AccessBoxEncKey payload) =? symmetricKeySize)%nat
       || negb (slen (ip_AccessBoxMACKey payload) =? symmetricKeySize)%nat)
    "invalid invitation AccessBox keys".

Definition openInvitation (ctx : Fencing.Ctx) (userdata : option User) (senderUsername : string)
    (invitationPtr : UUID) : M InvitationPayload :=
  userdata ← lift (of_option "recipient cannot be nil" userdata);
  _ ← guard_ (bool_decide (invitationPtr = uuid_Nil)) "invitation UUID cannot be nil";
  found ← datastoreGet ctx invitationPtr;
  invitationBytes ← lift (of_option "invitation is missing" found);
  invitation ← lift (of_option "invalid invitation"
    (Unmarshal dec_Invitation zero_Invitation invitationBytes));
  found ← keystoreGet ctx (getVerifyKeyName senderUsername);
  senderVerifyKey ← lift (of_option "sender does not exist" found);
  _ ← guard_ (bool_decide (KeyType senderVerifyKey ≠ "DS")) "sender does not exist";
  inviteRoot ← lift (checkInvitation userdata invitationPtr invitation senderVerifyKey);
  payload ← lift (openInvitationPayload inviteRoot invitationPtr invitation);
  _ ← lift (checkPayload userdata senderUsername payload);
  mret payload.

Definition validateInvitationAccessUnderLock (ctx : Fencing.Ctx) (payload : InvitationPayload)
    : M AccessBox :=
  accessBox ← loadDatastoreObject ctx accessBoxObjectType (ip_AccessBoxUUID payload)
    (ip_AccessBoxEncKey payload) (ip_AccessBoxMACKey payload) dec_AccessBox zero_AccessBox;
  _ ← guard_ (bool_decide (ab_FileID accessBox ≠ ip_FileID payload))
    "invitation and AccessBox FileID mismatch";
  _ ← verifyFileStatus ctx accessBox;
  mret accessBox.

Definition AcceptInvitation (userdata : option User) (senderUsername : string)
    (invitationPtr : UUID) (filename : string) : M unit :=
  let ctx := Fencing.Background in
  u ← lift (of_option "recipient cannot be nil" userdata);
  txn ← allocateTxn;
  withOperationGuard txn (
    nsResource ← lift (namespaceResourceID (Username u) filename);
    _ ← acquire ctx nsResource ExclusiveLock;
    ctx' ← withFenceGrants ctx;
    nameUUID ← lift (getNameSpaceEntryUUID (Username u) filename);
    occupied ← datastoreGet ctx' nameUUID;
    _ ← guard_ (bool_decide (is_Some occupied)) "filename is already in use";
    '(namespaceEncKey, namespaceMACKey) ←
      lift (deriveNamespaceEntryKeys (u_NamespaceRoot u) filename);
    payload ← openInvitation ctx' (Some u) senderUsername invitationPtr;
    _ ← acquire ctx (fileResourceID (ip_FileID payload)) SharedLock;
    _ ← validateInvitationAccessUnderLock ctx' payload;
    let sharedEntry := mkNamespaceEntry false (ip_FileID payload) (ip_AccessBoxUUID payload)
      (ip_AccessBoxEncKey payload) (ip_AccessBoxMACKey payload) uuid_Nil None None in
    protectedNamespaceEntry ← protectDatastoreObject namespaceEntryObjectType nameUUID
      (enc_NamespaceEntry sharedEntry) namespaceEncKey namespaceMACKey;
    runAtomicStorage ctx' [MPut nameUUID protectedNamespaceEntry; MDelete invitationPtr]).

(** ** RevokeAccess *)

(** The loop over the direct recipients, in the order the map is ranged over:
    every branch but the revoked one gets the new access box. *)
Fixpoint rewrapSurvivors (boxes : gmap string BranchBoxRecord) (newAccessBox : AccessBox)
    (recipientUsername : string) (order : list string) : M (list Mutation) :=
  match order with
  | [] => mret []
  | directRecipient :: order =>
      if decide (directRecipient = recipientUsername)
      then rewrapSurvivors boxes newAccessBox recipientUsername order
      else match boxes !! directRecipient with
      | None => rewrapSurvivors boxes newAccessBox recipientUsername order
      | Some record =>
          protectedBranchBox ← protectDatastoreObject accessBoxObjectType (bb_BoxUUID record)
            (enc_AccessBox newAccessBox) (bb_BoxEncKey record) (bb_BoxMACKey record);
          rest ← rewrapSurvivors boxes newAccessBox recipientUsername order;
          mret (MPut (bb_BoxUUID record) protectedBranchBox :: rest)
      end
  end.

(** The new epoch: content re-encrypted under a new root, new metadata with
    the same version, and the access box that names them. *)
Definition rotateEpoch (currentAccessBox : AccessBox) (metadata : Metadata) (fileContent : string)
    : M (AccessBox * list Mutation) :=
  newEpochID ← newUUID;
  newFileRoot ← randomBytes 16;
  newMetadataUUID ← newUUID;
  newMetadataEncKey ← randomBytes 16;
  newMetadataMACKey ← randomBytes 16;
  newBaseChunkUUID ← newUUID;
  let newChunk := mkChunk (ab_FileID currentAccessBox) newEpochID 0 uuid_Nil
    (Some fileContent) in
  '(newChunkEncKey, newChunkMACKey) ←
    lift (deriveChunkKeys (Some newFileRoot) newBaseChunkUUID);
  protectedNewChunk ← protectDatastoreObject chunkObjectType newBaseChunkUUID
    (enc_Chunk newChunk) newChunkEncKey newChunkMACKey;
  let newMetadata := mkMetadata (ab_FileID currentAccessBox) newEpochID (md_Version metadata)
    newBaseChunkUUID 1 in
  protectedNewMetadata ← protectDatastoreObject metadataObjectType newMetadataUUID
    (enc_Metadata newMetadata) (Some newMetadataEncKey) (Some newMetadataMACKey);
  let newAccessBox := mkAccessBox (ab_FileID currentAccessBox) newEpochID newMetadataUUID
    (Some newMetadataEncKey) (Some newMetadataMACKey) (Some newFileRoot)
    (ab_AccessBoxStructureUUID currentAccessBox) (ab_StatusUUID currentAccessBox)
    (ab_OwnerVerifyKeyName currentAccessBox) in
  mret (newAccessBox,
    [MPut newBaseChunkUUID protectedNewChunk; MPut newMetadataUUID protectedNewMetadata]).

(** The owner's box, the surviving branches, the structure and the status of
    the new epoch, in the order they are written. *)
Definition republish (userdata : User) (namespaceEntry : NamespaceEntry)
    (currentAccessBox newAccessBox : AccessBox) (structure : AccessBoxStructure)
    (recipientUsername : string) : M (list Mutation) :=
  protectedOwnerAccessBox ← protectDatastoreObject accessBoxObjectType
    (ne_AccessBoxUUID namespaceEntry) (enc_AccessBox newAccessBox)
    (ne_AccessBoxEncKey namespaceEntry) (ne_AccessBoxMACKey namespaceEntry);
  order ← range (map_to_list (recipientBoxes structure)).*1;
  survivingWrites ← rewrapSurvivors (recipientBoxes structure) newAccessBox
    recipientUsername order;
  let structure := mkAccessBoxStructure (st_FileID structure) (ab_EpochID newAccessBox)
    (Some (delete recipientUsername (recipientBoxes structure))) in
  protectedUpdatedStructure ← protectDatastoreObject accessBoxStructureObjectType
    (ne_AccessBoxStructureUUID namespaceEntry) (enc_AccessBoxStructure structure)
    (ne_AccessBoxStructureEncKey namespaceEntry) (ne_AccessBoxStructureMACKey namespaceEntry);
  newFileStatus ← lift (createFileStatus userdata (ab_StatusUUID currentAccessBox) newAccessBox);
  newFileStatusBytes ← lift (Marshal (enc_FileStatus newFileStatus));
  mret (MPut (ne_AccessBoxUUID namespaceEntry) protectedOwnerAccessBox :: survivingWrites ++
    [MPut (ne_AccessBoxStructureUUID namespaceEntry) protectedUpdatedStructure;
     MPut (ab_StatusUUID currentAccessBox) newFileStatusBytes])%list.

Definition RevokeAccess (userdata : User) (filename recipientUsername : string) : M unit :=
  let ctx := Fencing.Background in
  txn ← allocateTxn;
  withOperationGuard txn (
    nsResource ← lift (namespaceResourceID (Username userdata) filename);
    _ ← acquire ctx nsResource SharedLock;
    namespaceEntry ← loadNamespaceEntry ctx (Some userdata) filename;
    _ ← guard_ (negb (ne_IsOwner namespaceEntry)) "only the file owner can revoke access";
    _ ← acquire ctx (fileResourceID (ne_FileID namespaceEntry)) ExclusiveLock;
    ctx ← withFenceGrants ctx;
    currentAccessBox ← validateFileAccessUnderLock ctx namespaceEntry;
    structure ← loadOwnerAccessBoxStructure ctx namespaceEntry currentAccessBox;
    revokedRecord ← lift (of_option "recipient is not a direct share"
      (recipientBoxes structure !! recipientUsername));
    metadata ← loadMetadata ctx currentAccessBox;
    '(fileContent, oldChunkUUIDs) ← loadFileContentAndChunkUUIDs ctx currentAccessBox metadata;
    '(newAccessBox, contentWrites) ← rotateEpoch currentAccessBox metadata fileContent;
    boxWrites ← republish userdata namespaceEntry currentAccessBox newAccessBox structure
      recipientUsername;
    runAtomicStorage ctx (contentWrites ++ boxWrites ++
      [MDelete (bb_BoxUUID revokedRecord); MDelete (ab_MetadataUUID currentAccessBox)] ++
      (MDelete <$> oldChunkUUIDs))%list).

(** ** Diagnostics *)

(** [ReadFileMetadata] of src/client/diagnostics.go: version and chunk count,
    read under the same locks as [LoadFile]. *)
Definition ReadFileMetadata (userdata : User) (filename : string) : M (N * N) :=
  let ctx := Fencing.Background in
  txn ← allocateTxn;
  withOperationGuard txn (
    nsResource ← lift (namespaceResourceID (Username userdata) filename);
    _ ← acquire ctx nsResource SharedLock;
    namespaceEntry ← loadNamespaceEntry ctx (Some userdata) filename;
    _ ← acquire ctx (fileResourceID (ne_FileID namespaceEntry)) SharedLock;
    accessBox ← validateFileAccessUnderLock ctx namespaceEntry;
    metadata ← loadMetadata ctx accessBox;
    mret (md_Version metadata, md_ChunkCount metadata)).

(** [if err != nil { return what + err.Error() }] in a function that returns a
    description of the first violation. *)
Definition orReport {A} (what : string) (p : M A) (k : A → prog string) : prog string :=
  bindP p (λ r, match r with Err e => Ret (what +:+ error_Error e) | Ok a => k a end).

Fixpoint checkBranches (ctx : Fencing.Ctx) (structure : AccessBoxStructure)
    (order : list string) : prog string :=
  match order with
  | [] => Ret ""
  | recipient :: order =>
      match recipientBoxes structure !! recipient with
      | None => checkBranches ctx structure order
      | Some record =>
          orReport ("recipient " +:+ recipient +:+ " branch AccessBox: ")
            (loadDatastoreObject ctx accessBoxObjectType (bb_BoxUUID record)
               (bb_BoxEncKey record) (bb_BoxMACKey record) dec_AccessBox zero_AccessBox)
            (λ branchBox,
               if decide (ab_EpochID branchBox ≠ st_CurrentEpoch structure)
               then Ret ("recipient " +:+ recipient
                         +:+ " branch AccessBox is stamped with a stale epoch")
               else checkBranches ctx structure order)
      end
  end.

Definition CheckAuthorizationInvariantsForBenchmark (owner : option User) (filename : string)
    (expectedVersion : N) : prog string :=
  let ctx := Fencing.Background in
  orReport "resolveFile: " (resolveFile ctx owner filename) (λ '(namespaceEntry, accessBox),
  if negb (ne_IsOwner namespaceEntry) then Ret "caller is not the owner" else
  orReport "loadOwnerAccessBoxStructure: "
    (loadOwnerAccessBoxStructure ctx namespaceEntry accessBox) (λ structure,
  if decide (st_CurrentEpoch structure ≠ ab_EpochID accessBox)
  then Ret "AccessBoxStructure.CurrentEpoch does not match owner AccessBox.EpochID" else
  orReport "loadMetadata: " (loadMetadata ctx accessBox) (λ metadata,
  if decide (md_EpochID metadata ≠ ab_EpochID accessBox)
  then Ret "Metadata.EpochID does not match the current epoch" else
  if decide (md_Version metadata ≠ expectedVersion)
  then Ret ("Metadata.Version = " +:+ pretty (md_Version metadata)
            +:+ ", expected " +:+ pretty expectedVersion) else
  Vis (ERange (map_to_list (recipientBoxes structure)).*1) (checkBranches ctx structure)))).

End sharing.
