(* ===== verification/Protocol.v ===== *)
(** * Strict two-phase locking of the client's operations

    The protocol every locking operation promises its environment: an
    automaton over interactions, and the proof that no answer of the
    environment, error or not, makes an operation leave it. *)

From S2P Require Import Prelude Json Libs LockManager Fencing SaferTypes Effects Client.
From S2P Require Import Sharing.
Import LM.

Section protocol.
Context `{UuidLib} `{Userlib} `{!UuidNew} `{!UuidLaws}.

(** The context [withFenceGrants] makes. *)
Definition fenced_ctx (ctx : Fencing.Ctx) (g : list Fencing.Grant * bool) : Fencing.Ctx :=
  if g.2 then Fencing.WithoutValidationForTest (Fencing.WithGrants ctx g.1)
  else Fencing.WithGrants ctx g.1.

Section automaton.

(** The context the operation was called with. *)
Context (ctx0 : Fencing.Ctx).

(** ** The automaton *)

(** Where an operation stands: before its transaction; holding the locks
    granted so far, the grants it attached and the outcome of its commit;
    refused a lock, with the guard still open; or ended, the guard released
    (or never opened). *)
Inductive phase :=
  | Start
  | Allocated (txn : TxnID)
  | Holding (locks : list (ResourceID * LockMode)) (fenced : option (list Fencing.Grant * bool))
      (committed : option bool)
  | Refused
  | Ended (committed : option bool).

(** A namespace lock first, then a file lock; both have a name. *)
Definition may_acquire (locks : list (ResourceID * LockMode)) (r : ResourceID) : bool :=
  bool_decide (Key r ≠ "") &&
  match locks with
  | [] => bool_decide (Type_ r = NamespaceResource)
  | [(ns, _)] => bool_decide (Type_ ns = NamespaceResource) && bool_decide (Type_ r = FileResource)
  | _ => false
  end.

(** A commit happens under both locks, one of them exclusive, on the
    operation's context with the guard's grants, and writes objects only. *)
Definition may_commit (locks : list (ResourceID * LockMode))
    (fenced : option (list Fencing.Grant * bool)) (ctx : Fencing.Ctx) (ms : list Mutation) : bool :=
  match locks, fenced with
  | [(ns, m1); (f, m2)], Some g =>
      (bool_decide (m1 = ExclusiveLock) || bool_decide (m2 = ExclusiveLock))
      && bool_decide (ctx = fenced_ctx ctx0 g) && bool_decide (Forall is_object_write ms)
  | _, _ => false
  end.

(** [ctx] has the cancellation and the deadline of the operation's context. *)
Definition under (ctx : Fencing.Ctx) : bool :=
  bool_decide (Fencing.lock_ctx ctx = Fencing.lock_ctx ctx0).

Definition may_read (locks : list (ResourceID * LockMode)) (committed : option bool)
    (ctx : Fencing.Ctx) : bool :=
  bool_decide (locks ≠ []) && bool_decide (committed = None) && under ctx.

(** One interaction; [None] is a violation. *)
Definition next (s : phase) (e : event) : resp e → option phase :=
  match e with
  | EDraw => λ _, Some s
  | ERange _ => λ _, Some s
  | EAllocTxn => λ r,
      match s with
      | Start => Some (match r with Ok t => Allocated t | Err _ => Ended None end)
      | _ => None
      end
  | EBegin txn => λ r,
      match s with
      | Allocated t =>
          if decide (t = txn)
          then Some (match r with Ok _ => Holding [] None None | Err _ => Ended None end)
          else None
      | _ => None
      end
  | EAcquire ctx res mode => λ r,
      match s with
      | Holding locks g None =>
          if may_acquire locks res && bool_decide (ctx = ctx0)
             && (bool_decide (mode = SharedLock) || bool_decide (mode = ExclusiveLock))
          then Some (match r with
                     | Ok _ => Holding (locks ++ [(res, mode)])%list g None
                     | Err _ => Refused
                     end)
          else None
      | _ => None
      end
  | EGrants => λ r,
      match s with Holding locks None None => Some (Holding locks (Some r) None) | _ => None end
  | EGet ctx _ => λ _,
      match s with Holding locks g c => if may_read locks c ctx then Some s else None | _ => None end
  | EKeyGet ctx _ => λ _,
      match s with Holding locks g c => if may_read locks c ctx then Some s else None | _ => None end
  | EAtomic ctx ms => λ r,
      match s with
      | Holding locks g None =>
          if may_commit locks g ctx ms then Some (Holding locks g (Some (is_ok r))) else None
      | _ => None
      end
  | EReleaseAll => λ _,
      match s with
      | Holding _ _ c => Some (Ended c)
      | Refused => Some (Ended None)
      | _ => None
      end
  end.

Fixpoint accept (s : phase) (tr : list {e : event & resp e}) : option phase :=
  match tr with
  | [] => Some s
  | existT e r :: tr => s' ← next s e r; accept s' tr
  end.

(** ** Programs that follow it *)

Fixpoint safe {A} (p : prog A) (s : phase) (Q : phase → A → Prop) : Prop :=
  match p with
  | Ret a => Q s a
  | Vis e k => ∀ r, match next s e r with Some s' => safe (k r) s' Q | None => False end
  end.

Lemma safe_mono {A} (p : prog A) s (Q Q' : phase → A → Prop) :
  (∀ s a, Q s a → Q' s a) → safe p s Q → safe p s Q'.
Proof.
  intros HQ. revert s. induction p as [a|e k IH]; intros s; cbn; [by apply HQ|].
  intros Hs r. specialize (Hs r). case_match; [by apply IH|done].
Qed.

Lemma safe_bindP {A B} (p : prog A) (f : A → prog B) s Q :
  safe p s (λ s' a, safe (f a) s' Q) → safe (bindP p f) s Q.
Proof.
  revert s. induction p as [a|e k IH]; intros s; cbn; [done|].
  intros Hs r. specialize (Hs r). case_match; [by apply IH|done].
Qed.

Lemma safe_bind {A B} (p : M A) (f : A → M B) s Q :
  safe p s (λ s' r, match r with Ok a => safe (f a) s' Q | Err e => Q s' (Err e) end) →
  safe (p ≫= f) s Q.
Proof.
  intros Hp. apply safe_bindP. eapply safe_mono; [|exact Hp]. by intros s' [].
Qed.

(** Every run of a safe program is accepted, whatever the environment. *)
Lemma safe_accept {A S} (p : prog A) s Q (h : handler S) st :
  safe p s Q → ∃ s', accept s (trace h p st) = Some s' ∧ Q s' (run h p st).2.
Proof.
  revert s st. induction p as [a|e k IH]; intros s st Hs; cbn in *; [eauto|].
  destruct (h e st) as [st' r]. specialize (Hs r). cbn.
  destruct (next s e r) as [s'|]; [|done]. by apply IH.
Qed.

(** ** Helpers that only read *)

(** [p] draws, ranges and reads, and does nothing else. *)
Fixpoint reader {A} (p : prog A) : Prop :=
  match p with
  | Ret _ => True
  | Vis e k =>
      match e with
      | EDraw | ERange _ => True
      | EGet ctx _ | EKeyGet ctx _ => under ctx = true
      | _ => False
      end
      ∧ ∀ r, reader (k r)
  end.

Lemma reader_bindP {A B} (p : prog A) (f : A → prog B) :
  reader p → (∀ a, reader (f a)) → reader (bindP p f).
Proof. induction p as [a|e k IH]; cbn; [auto|]. intros [? Hk] ?. split; auto. Qed.

Lemma reader_bind {A B} (p : M A) (f : A → M B) :
  reader p → (∀ a, reader (f a)) → reader (p ≫= f).
Proof. intros Hp Hf. apply reader_bindP; [done|]. by intros []. Qed.

Lemma safe_reader {A} (p : prog A) locks g (Q : phase → A → Prop) :
  reader p → locks ≠ [] → (∀ a, Q (Holding locks g None) a) →
  safe p (Holding locks g None) Q.
Proof.
  intros Hp Hl HQ. induction p as [a|e k IH]; cbn; [done|]. destruct Hp as [He Hk].
  assert (∀ ctx, under ctx = true → may_read locks None ctx = true) as Hr.
  { intros ctx Hu. unfold may_read. by rewrite Hu, bool_decide_true. }
  intros r. destruct e; try done; cbn; rewrite ?Hr by done; by apply IH.
Qed.

Lemma reader_lift {A} (r : result A) : reader (lift r).
Proof. done. Qed.

(** Closes [reader] goals by following the program's structure. *)
Ltac read_step :=
  match goal with
  | |- reader (mbind _ _) => apply reader_bind; [|intros ?]
  | |- reader (if _ then _ else _) => case_match
  | |- reader (match ?x with _ => _ end) => destruct x
  | |- reader (let '(_, _) := ?x in _) => destruct x
  | |- ∀ _, _ => intros ?
  | |- reader _ => first [done | progress eauto with safer]
  end.
Ltac solve_reader := repeat read_step; try (split; [done|intros ?; exact I]); try done.

Lemma under_refl : under ctx0 = true.
Proof. by apply bool_decide_eq_true. Qed.
Lemma under_fenced g : under (fenced_ctx ctx0 g) = true.
Proof.
  apply bool_decide_eq_true. unfold fenced_ctx, Fencing.WithGrants.
  destruct g as [gs []]; cbn; by case_decide.
Qed.
#[local] Hint Resolve under_refl under_fenced : safer.

Lemma reader_draw : reader draw.
Proof. solve_reader. Qed.
Lemma reader_get ctx id : under ctx = true → reader (datastoreGet ctx id).
Proof. solve_reader. Qed.
Lemma reader_keyget ctx n : under ctx = true → reader (keystoreGet ctx n).
Proof. solve_reader. Qed.
Lemma reader_range l : reader (range l).
Proof. solve_reader. Qed.
#[local] Hint Resolve reader_draw reader_get reader_keyget reader_range reader_lift : safer.

Lemma reader_newUUID : reader newUUID.
Proof. unfold newUUID. solve_reader. Qed.
Lemma reader_randomBytes n : reader (randomBytes n).
Proof. unfold randomBytes. solve_reader. Qed.
#[local] Hint Resolve reader_newUUID reader_randomBytes : safer.

Lemma reader_protect t u j ek mk : reader (protectDatastoreObject t u j ek mk).
Proof. unfold protectDatastoreObject. solve_reader. Qed.
Lemma reader_load {T} ctx t u ek mk dec (zero : T) :
  under ctx = true → reader (loadDatastoreObject ctx t u ek mk dec zero).
Proof. unfold loadDatastoreObject. solve_reader. Qed.
#[local] Hint Resolve reader_protect reader_load : safer.

Lemma reader_verifyFileStatus ctx ab : under ctx = true → reader (verifyFileStatus ctx ab).
Proof. unfold verifyFileStatus. solve_reader. Qed.
#[local] Hint Resolve reader_verifyFileStatus : safer.

Lemma reader_loadNamespaceEntry ctx u f : under ctx = true → reader (loadNamespaceEntry ctx u f).
Proof. unfold loadNamespaceEntry. solve_reader. Qed.
Lemma reader_validate ctx ne : under ctx = true → reader (validateFileAccessUnderLock ctx ne).
Proof. unfold validateFileAccessUnderLock. solve_reader. Qed.
Lemma reader_loadMetadata ctx ab : under ctx = true → reader (loadMetadata ctx ab).
Proof. unfold loadMetadata. solve_reader. Qed.
Lemma reader_walkChunks ctx ab n cur seen rev ids : under ctx = true → reader (walkChunks ctx ab n cur seen rev ids).
Proof.
  intros Hu. revert cur seen rev ids.
  induction n as [|n IH]; intros; cbn [walkChunks]; solve_reader; apply IH.
Qed.
#[local] Hint Resolve reader_loadNamespaceEntry reader_validate reader_loadMetadata
  reader_walkChunks : safer.
Lemma reader_loadFileContent ctx ab md : under ctx = true → reader (loadFileContentAndChunkUUIDs ctx ab md).
Proof. unfold loadFileContentAndChunkUUIDs. solve_reader. Qed.
Lemma reader_newBaseChunk n old : reader (newBaseChunkUUID n old).
Proof. induction n; cbn [newBaseChunkUUID]; solve_reader. Qed.
Lemma reader_prepareNewFile u f c id : reader (prepareNewFile u f c id).
Proof. unfold prepareNewFile. solve_reader. Qed.
#[local] Hint Resolve reader_loadFileContent reader_newBaseChunk reader_prepareNewFile : safer.

Lemma reader_buildInvitation s k u p : reader (buildInvitation s k u p).
Proof. unfold buildInvitation. solve_reader. Qed.
Lemma reader_loadStructure ctx ne ab : under ctx = true → reader (loadOwnerAccessBoxStructure ctx ne ab).
Proof. unfold loadOwnerAccessBoxStructure. solve_reader. Qed.
#[local] Hint Resolve reader_buildInvitation reader_loadStructure : safer.
Lemma reader_grantBranchBox ctx ne ab r : under ctx = true → reader (grantBranchBox ctx ne ab r).
Proof. unfold grantBranchBox. solve_reader. Qed.
Lemma reader_openInvitation ctx u s p : under ctx = true → reader (openInvitation ctx u s p).
Proof. unfold openInvitation. solve_reader. Qed.
Lemma reader_validateInvitation ctx p : under ctx = true → reader (validateInvitationAccessUnderLock ctx p).
Proof. unfold validateInvitationAccessUnderLock. solve_reader. Qed.
Lemma reader_rewrap boxes ab r order : reader (rewrapSurvivors boxes ab r order).
Proof. induction order; cbn [rewrapSurvivors]; solve_reader. Qed.
#[local] Hint Resolve reader_grantBranchBox reader_openInvitation reader_validateInvitation
  reader_rewrap : safer.
Lemma reader_rotateEpoch ab md c : reader (rotateEpoch ab md c).
Proof. unfold rotateEpoch. solve_reader. Qed.
Lemma reader_republish u ne ab ab' st r : reader (republish u ne ab ab' st r).
Proof. unfold republish. solve_reader. Qed.
#[local] Hint Resolve reader_rotateEpoch reader_republish : safer.

(** *** What the writes they prepare are *)

(** Whatever the environment answers, a successful result satisfies [P]. *)
Fixpoint yields {A} (P : A → Prop) (p : M A) : Prop :=
  match p with
  | Ret (Ok a) => P a
  | Ret (Err _) => True
  | Vis e k => ∀ r, yields P (k r)
  end.

Lemma yields_bind {A B} (Q : A → Prop) (P : B → Prop) (p : M A) (f : A → M B) :
  yields Q p → (∀ a, Q a → yields P (f a)) → yields P (p ≫= f).
Proof.
  intros Hp Hf. revert Hp. induction p as [[a|e]|e k IH]; cbn; [apply Hf|done|].
  intros Hk r. by apply IH.
Qed.

Lemma yields_any {A} (p : M A) : yields (λ _, True) p.
Proof. induction p as [[a|e]|e k IH]; cbn; auto. Qed.

Abbreviation objects := (Forall is_object_write) (only parsing).

Ltac solve_writes := repeat first [assumption | apply Forall_app_2 | constructor];
  try (apply Forall_fmap, Forall_forall; intros ? _; exact I).

(** Follows a program to its last return. *)
Ltac solve_yields :=
  repeat match goal with
  | |- yields _ (_ ≫= _) => apply (yields_bind (λ _, True)); [apply yields_any|intros ? _]
  | |- yields _ (let '(_, _) := ?x in _) => destruct x
  | |- yields _ (mret _) => cbn; solve_writes
  end.

Lemma yields_prepareNewFile u f c id : yields objects (prepareNewFile u f c id).
Proof. unfold prepareNewFile. solve_yields. Qed.

Lemma yields_grantBranchBox ctx ne ab r :
  yields (λ gw, objects gw.2) (grantBranchBox ctx ne ab r).
Proof.
  unfold grantBranchBox. apply (yields_bind (λ _, True)); [apply yields_any|]. intros st _.
  apply (yields_bind (λ gw, objects gw.2)).
  - destruct (recipientBoxes st !! r); [cbn; constructor|]. solve_yields.
  - intros [record ws] Hws. cbn in Hws. solve_yields.
Qed.

Lemma yields_granted (b : bool) ctx ne ab r record :
  yields (λ gw, objects gw.2) (if b then grantBranchBox ctx ne ab r else mret (record, [])).
Proof. destruct b; [apply yields_grantBranchBox|cbn; constructor]. Qed.

Lemma yields_rewrap boxes ab r order : yields objects (rewrapSurvivors boxes ab r order).
Proof.
  induction order as [|o order IH]; [cbn; constructor|]. cbn [rewrapSurvivors].
  case_decide; [done|]. destruct (boxes !! o); [|done].
  apply (yields_bind (λ _, True)); [apply yields_any|]. intros ? _.
  apply (yields_bind _ _ _ _ IH). intros l Hl. cbn. solve_writes.
Qed.

Lemma yields_rotateEpoch ab md c : yields (λ bw, objects bw.2) (rotateEpoch ab md c).
Proof. unfold rotateEpoch. solve_yields. Qed.

Lemma yields_republish u ne ab ab' st r : yields objects (republish u ne ab ab' st r).
Proof.
  unfold republish. do 2 (apply (yields_bind (λ _, True)); [apply yields_any|intros ? _]).
  apply (yields_bind _ _ _ _ (yields_rewrap _ _ _ _)). intros l Hl. solve_yields.
Qed.

(** ** The steps of an operation *)

Lemma safe_lift {A B} (r : result A) (f : A → M B) s Q :
  (∀ a, r = Ok a → safe (f a) s Q) → (∀ e, Q s (Err e)) → safe (lift r ≫= f) s Q.
Proof. intros Hok Herr. apply safe_bind. cbn. destruct r; eauto. Qed.

Lemma safe_acquire {B} res m (f : unit → M B) locks g Q :
  may_acquire locks res = true → m = SharedLock ∨ m = ExclusiveLock →
  safe (f ()) (Holding (locks ++ [(res, m)])%list g None) Q →
  (∀ e, Q Refused (Err e)) → safe (acquire ctx0 res m ≫= f) (Holding locks g None) Q.
Proof.
  intros Hm Hmode Hf He. apply safe_bind. cbn. intros r. rewrite Hm, bool_decide_true by done.
  assert (bool_decide (m = SharedLock) || bool_decide (m = ExclusiveLock) = true) as ->
    by (by rewrite orb_true_iff, !bool_decide_eq_true).
  destruct r as [[]|e]; [exact Hf|apply He].
Qed.

Lemma safe_reader_yields {A} (P : A → Prop) (p : M A) locks g (Q : phase → result A → Prop) :
  reader p → yields P p → locks ≠ [] → (∀ a, P a → Q (Holding locks g None) (Ok a)) →
  (∀ e, Q (Holding locks g None) (Err e)) → safe p (Holding locks g None) Q.
Proof.
  intros Hp Hy Hl HQ He. induction p as [[a|e]|e k IH]; cbn in *; [by apply HQ|done|].
  destruct Hp as [He' Hk]. intros r. specialize (IH r (Hk r) (Hy r)).
  destruct e; try done; cbn; unfold may_read; rewrite ?He', ?(bool_decide_true (locks ≠ [])) by done;
    exact IH.
Qed.

Lemma safe_read_yields {A B} (P : A → Prop) (p : M A) (f : A → M B) locks g Q :
  yields P p → reader p → locks ≠ [] → (∀ a, P a → safe (f a) (Holding locks g None) Q) →
  (∀ e, Q (Holding locks g None) (Err e)) → safe (p ≫= f) (Holding locks g None) Q.
Proof. intros Hy Hp Hl Hf He. by apply safe_bind, (safe_reader_yields P). Qed.

Lemma safe_read {A B} (p : M A) (f : A → M B) locks g Q :
  reader p → locks ≠ [] → (∀ a, safe (f a) (Holding locks g None) Q) →
  (∀ e, Q (Holding locks g None) (Err e)) → safe (p ≫= f) (Holding locks g None) Q.
Proof. intros Hp Hl Hf He. apply safe_bind, safe_reader; [done..|]. by intros []. Qed.

Lemma safe_fence {B} ctx (f : Fencing.Ctx → M B) locks Q :
  (∀ g, safe (f (fenced_ctx ctx g)) (Holding locks (Some g) None) Q) →
  safe (withFenceGrants ctx ≫= f) (Holding locks None None) Q.
Proof. intros Hf. apply safe_bind. cbn. intros r. apply Hf. Qed.

Lemma safe_commit g0 ms ns m1 f m2 g Q :
  m1 = ExclusiveLock ∨ m2 = ExclusiveLock → Forall is_object_write ms →
  (∀ r, Q (Holding [(ns, m1); (f, m2)] (Some g) (Some (is_ok r))) r) → g0 = g →
  safe (runAtomicStorage (fenced_ctx ctx0 g0) ms) (Holding [(ns, m1); (f, m2)] (Some g) None) Q.
Proof.
  intros Hm Hw HQ ->. cbn -[fenced_ctx]. intros r.
  rewrite (bool_decide_true (fenced_ctx ctx0 g = fenced_ctx ctx0 g)), (bool_decide_true (Forall _ _)) by done.
  assert (bool_decide (m1 = ExclusiveLock) || bool_decide (m2 = ExclusiveLock) = true) as ->
    by (by rewrite orb_true_iff, !bool_decide_eq_true).
  apply HQ.
Qed.

(** How a run may end: an operation that [mutates] committed exactly when it
    reports success, one that does not mutate never commits, and a failed
    operation committed nothing. *)
Definition ends_well {A} (mutates : bool) (c : option bool) (r : result A) : Prop :=
  match r with
  | Ok _ => c = if mutates then Some true else None
  | Err _ => c ≠ Some true ∧ (mutates = false → c = None)
  end.

Definition body_ends {A} (mutates : bool) (s : phase) (r : result A) : Prop :=
  match s with
  | Holding _ _ c => ends_well mutates c r
  | Refused => is_ok r = false
  | _ => False
  end.

Definition finished {A} (mutates : bool) (s : phase) (r : result A) : Prop :=
  ∃ c, s = Ended c ∧ ends_well mutates c r.

Lemma safe_operation {A} mutates (body : M A) :
  safe body (Holding [] None None) (body_ends mutates) →
  safe (txn ← allocateTxn; withOperationGuard txn body) Start (finished mutates).
Proof.
  assert (∀ e : error, ends_well mutates None (Err (A := A) e)) as Hnone by done.
  intros Hb. apply safe_bind. cbn. intros [txn|e]; cbn; [|exists None; split; [done|apply Hnone]].
  intros r. rewrite decide_True by done. destruct r as [[]|e]; [|exists None; split; [done|apply Hnone]].
  apply safe_bindP. eapply safe_mono; [|exact Hb].
  intros s r Hr. cbn. intros []. destruct s; try done.
  - cbn. eexists. split; [done|]. exact Hr.
  - eexists. split; [done|]. by destruct r.
Qed.

Lemma namespaceResourceID_type u f r :
  namespaceResourceID u f = Ok r → Type_ r = NamespaceResource ∧ Key r ≠ "".
Proof.
  unfold namespaceResourceID. intros Hr. invert_result. subst r. split; [done|]. apply String_nonempty.
Qed.

Lemma may_acquire_first r :
  Type_ r = NamespaceResource ∧ Key r ≠ "" → may_acquire [] r = true.
Proof. intros [Hr Hk]. unfold may_acquire. by rewrite !bool_decide_true. Qed.

Lemma may_acquire_file ns m u :
  Type_ ns = NamespaceResource → may_acquire [(ns, m)] (fileResourceID u) = true.
Proof.
  intros Hr. unfold may_acquire. rewrite (bool_decide_true (Key _ ≠ "")) by apply String_nonempty.
  by rewrite bool_decide_true.
Qed.

(** Every operation starts by locking the namespace entry. *)
Lemma safe_namespace_lock {A} mutates user file m (k : M A) :
  m = SharedLock ∨ m = ExclusiveLock →
  (∀ ns, Type_ ns = NamespaceResource →
     safe k (Holding [(ns, m)] None None) (body_ends mutates)) →
  safe (nsResource ← lift (namespaceResourceID user file);
        _ ← acquire ctx0 nsResource m; k) (Holding [] None None) (body_ends mutates).
Proof.
  intros Hm Hf. apply safe_lift; [|done].
  intros ns Hns%namespaceResourceID_type.
  apply safe_acquire; [by apply may_acquire_first|done| |done]. by apply Hf, Hns.
Qed.

(** ** The operations *)

(** The tail of an operation, under a namespace lock: locking the file, then
    attaching the grants and reading before the commit. *)
Ltac op_writes H :=
  eapply safe_read_yields; [apply H|by solve_reader|done| |done];
  first [intros [] ?|intros ? ?]; cbn [snd] in *.
Ltac op_step :=
  lazymatch goal with
  | |- safe (lift _ ≫= _) _ _ => apply safe_lift; [intros ? _|done]
  | |- safe (acquire _ (fileResourceID _) _ ≫= _) _ _ =>
      apply safe_acquire; [by apply may_acquire_file|by (left + right)| |done]; cbn [app]
  | |- safe (withFenceGrants _ ≫= _) _ _ => apply safe_fence; intros ?
  | |- safe (runAtomicStorage (fenced_ctx _ _) _) _ _ =>
      apply safe_commit; [by (left + right)|solve_writes|intros []; done|done]
  | |- safe (runAtomicStorage (fenced_ctx _ _) _ ≫= _) _ _ =>
      apply safe_bind, safe_commit; [by (left + right)|solve_writes|intros []; done|done]
  | |- safe (prepareNewFile _ _ _ _ ≫= _) _ _ => op_writes yields_prepareNewFile
  | |- safe ((if _ then grantBranchBox _ _ _ _ else _) ≫= _) _ _ => op_writes yields_granted
  | |- safe (rotateEpoch _ _ _ ≫= _) _ _ => op_writes yields_rotateEpoch
  | |- safe (republish _ _ _ _ _ _ ≫= _) _ _ => op_writes yields_republish
  | |- safe (_ ≫= _) (Holding _ _ None) _ =>
      apply safe_read; [by solve_reader|done|intros ?|done]
  | |- safe (let '(_, _) := ?x in _) _ _ => destruct x
  | |- safe (if decide ?P then _ else _) _ _ => destruct (decide P)
  | |- safe (mret _) _ _ => done
  end.

Lemma StoreFile_safe u f c : safe (StoreFileContext u ctx0 f c) Start (finished true).
Proof.
  unfold StoreFileContext. apply safe_operation, safe_namespace_lock; [by (left + right)|]. intros ns Hns.
  unfold overwriteExistingFileLocked, storeNewFileLocked. repeat op_step.
Qed.

Lemma Append_safe u f c :
  safe (AppendToFileContext u ctx0 f c) Start
    (finished (bool_decide (slen c ≠ 0%nat))).
Proof.
  unfold AppendToFileContext. apply safe_operation, safe_namespace_lock; [by (left + right)|]. intros ns Hns.
  unfold appendChunk. repeat op_step.
  - cbn. by rewrite bool_decide_false by naive_solver.
  - rewrite bool_decide_true by done. repeat op_step.
Qed.

Lemma Load_safe u f : safe (LoadFileContext u ctx0 f) Start (finished false).
Proof.
  unfold LoadFileContext. apply safe_operation, safe_namespace_lock; [by (left + right)|]. intros ns Hns.
  repeat op_step.
Qed.

Lemma ReadFileMetadata_safe u f : ctx0 = Fencing.Background → safe (ReadFileMetadata u f) Start (finished false).
Proof.
  intros Hctx. unfold ReadFileMetadata. rewrite <-Hctx. apply safe_operation, safe_namespace_lock; [by (left + right)|]. intros ns Hns.
  repeat op_step.
Qed.

Lemma CreateInvitation_safe u f r : ctx0 = Fencing.Background → safe (CreateInvitation u f r) Start (finished true).
Proof.
  intros Hctx. unfold CreateInvitation. rewrite <-Hctx. apply safe_operation, safe_namespace_lock; [by (left + right)|]. intros ns Hns.
  repeat op_step.
Qed.

Lemma AcceptInvitation_safe u s p f :
  ctx0 = Fencing.Background → safe (AcceptInvitation (Some u) s p f) Start (finished true).
Proof.
  intros Hctx. unfold AcceptInvitation. rewrite <-Hctx. apply safe_bind. unfold lift at 1. cbn [of_option safe].
  apply safe_operation, safe_namespace_lock; [by (left + right)|]. intros ns Hns.
  repeat op_step.
Qed.

Lemma RevokeAccess_safe u f r : ctx0 = Fencing.Background → safe (RevokeAccess u f r) Start (finished true).
Proof.
  intros Hctx. unfold RevokeAccess. rewrite <-Hctx. apply safe_operation, safe_namespace_lock; [by (left + right)|]. intros ns Hns.
  repeat op_step.
Qed.

(** The seven locking operations, on every argument. *)
Inductive operation :=
  | OpStoreFile (u : User) (ctx : Fencing.Ctx) (filename : string) (content : slice)
  | OpAppendToFile (u : User) (ctx : Fencing.Ctx) (filename : string) (content : slice)
  | OpLoadFile (u : User) (ctx : Fencing.Ctx) (filename : string)
  | OpCreateInvitation (u : User) (filename recipient : string)
  | OpAcceptInvitation (u : User) (sender : string) (ptr : UUID) (filename : string)
  | OpRevokeAccess (u : User) (filename recipient : string)
  | OpReadFileMetadata (u : User) (filename : string).

(** What it returns beside an error: the bytes of the file, the UUID of the
    invitation, the version and the chunk count. *)
Definition answer (o : operation) : Type :=
  match o with
  | OpLoadFile _ _ _ => slice
  | OpCreateInvitation _ _ _ => UUID
  | OpReadFileMetadata _ _ => N * N
  | _ => unit
  end.

Definition perform (o : operation) : M (answer o) :=
  match o with
  | OpStoreFile u ctx f c => StoreFileContext u ctx f c
  | OpAppendToFile u ctx f c => AppendToFileContext u ctx f c
  | OpLoadFile u ctx f => LoadFileContext u ctx f
  | OpCreateInvitation u f r => CreateInvitation u f r
  | OpAcceptInvitation u s p f => AcceptInvitation (Some u) s p f
  | OpRevokeAccess u f r => RevokeAccess u f r
  | OpReadFileMetadata u f => ReadFileMetadata u f
  end.

(** The context it is called with; the operations that take none use
    [context.Background()]. *)
Definition op_ctx (o : operation) : Fencing.Ctx :=
  match o with
  | OpStoreFile _ ctx _ _ | OpAppendToFile _ ctx _ _ | OpLoadFile _ ctx _ => ctx
  | _ => Fencing.Background
  end.

(** Whether a successful run must have committed: appending nothing is the
    one mutating call that writes nothing. *)
Definition mutates (o : operation) : bool :=
  match o with
  | OpLoadFile _ _ _ | OpReadFileMetadata _ _ => false
  | OpAppendToFile _ _ _ c => bool_decide (slen c ≠ 0%nat)
  | _ => true
  end.

Lemma perform_safe o : ctx0 = op_ctx o → safe (perform o) Start (finished (mutates o)).
Proof.
  intros Hctx. destruct o; cbn [perform mutates op_ctx answer] in *; rewrite <-?Hctx;
    auto using StoreFile_safe, Append_safe, Load_safe, CreateInvitation_safe,
      AcceptInvitation_safe, RevokeAccess_safe, ReadFileMetadata_safe.
Qed.

End automaton.

(** C4. Strict two-phase locking and atomic publication: whatever the
    environment answers, every locking operation follows the protocol (one
    transaction; the namespace lock, then the file lock, waited for under the
    caller's context; reads only under a lock and under the caller's deadline;
    at most one commit, of objects only, under both locks, at least one of
    them exclusive, on the caller's context with the guard's fencing grants;
    no lock and no read after it) and always ends with its guard released. A
    mutating operation that succeeds has committed exactly once, a reading one
    never commits, and an operation that fails has committed nothing. *)
Theorem strict_two_phase {S} (h : handler S) (st : S) (o : operation) :
  ∃ c, accept (op_ctx o) Start (trace h (perform o) st) = Some (Ended c) ∧
    ends_well (mutates o) c (run h (perform o) st).2.
Proof.
  destruct (safe_accept (op_ctx o) _ _ _ h st (perform_safe _ o eq_refl)) as (s & Ha & c & -> & Hc). eauto.
Qed.

End protocol.
