(* ===== verification/LocalEnv.v ===== *)
(** * The default environment

    The in-memory backend of src/client/storage (storage.go,
    userlib_store.go) and the process-local coordination backend of
    src/client/coordination/coordination.go, as one environment for the
    client's operations, run by one goroutine.

    userlib's datastore and keystore are process-wide maps; registering a key
    is write-once. *)

From S2P Require Import Prelude Json Libs LockManager LockManagerInv LockManagerThms.
From S2P Require Import LockManagerSeq Fencing SaferTypes Effects Client.
Import LM LMSeq.
Open Scope string_scope.

Section local_env.
Context `{UuidLib} `{Userlib} `{!UuidNew}.

(** ** Storage *)

Record UserlibStore := mkStore {
  Datastore : gmap UUID string;
  Keystore : gmap string PublicKeyType }.

Definition UserlibObjectStore_Get (id : UUID) (s : UserlibStore) : result (option string) :=
  Ok (Datastore s !! id).

Definition UserlibObjectStore_Put (id : UUID) (value : string) (s : UserlibStore)
    : UserlibStore * result unit :=
  (mkStore (<[id := value]> (Datastore s)) (Keystore s), Ok ()).

Definition UserlibObjectStore_Delete (id : UUID) (s : UserlibStore)
    : UserlibStore * result unit :=
  (mkStore (delete id (Datastore s)) (Keystore s), Ok ()).

Definition UserlibKeyStore_Get (name : string) (s : UserlibStore)
    : result (option PublicKeyType) :=
  Ok (Keystore s !! name).

Definition UserlibKeyStore_Put (name : string) (key : PublicKeyType) (s : UserlibStore)
    : UserlibStore * result unit :=
  match Keystore s !! name with
  | Some _ => (s, Err errKeyNameTaken)
  | None => (mkStore (Datastore s) (<[name := key]> (Keystore s)), Ok ())
  end.

(** One storage call of a commit closure. *)
Definition mutate (m : Mutation) : UserlibStore → UserlibStore * result unit :=
  match m with
  | MPut id value => UserlibObjectStore_Put id value
  | MDelete id => UserlibObjectStore_Delete id
  | MKeyPut name key => UserlibKeyStore_Put name key
  end.

(** A commit closure: its calls in order, up to the first error. *)
Fixpoint closure {S} (step : Mutation → S → S * result unit) (ms : list Mutation) (s : S)
    : S * result unit :=
  match ms with
  | [] => (s, Ok ())
  | m :: ms =>
      let '(s, r) := step m s in
      match r with Ok _ => closure step ms s | Err e => (s, Err e) end
  end.

(** [storage.RunAtomic]: a backend without [Atomic] runs the closure as it is. *)
Definition RunAtomic {S} (atomic : option ((S → S * result unit) → S → S * result unit))
    (fn : S → S * result unit) (s : S) : S * result unit :=
  match atomic with None => fn s | Some run => run fn s end.

(** ** The world of one process *)

(** [granted] is what [withFenceGrants] reads: [GrantsOf] the guard, which is
    nil for a guard of the local backend, and the test-only switch. Nothing
    here depends on it: this storage backend ignores what a context carries. *)
Record World := mkWorld {
  store : UserlibStore;
  saferLockManager : LMState;
  txnIDCounter : N;
  guard : option LockGuard;
  tape : nat → Seed;
  drawn : nat;
  granted : list Fencing.Grant * bool }.

Definition set_store (s : UserlibStore) (w : World) : World :=
  mkWorld s (saferLockManager w) (txnIDCounter w) (guard w) (tape w) (drawn w) (granted w).
Definition set_lm (lm : LMState) (w : World) : World :=
  mkWorld (store w) lm (txnIDCounter w) (guard w) (tape w) (drawn w) (granted w).
Definition set_counter (n : N) (w : World) : World :=
  mkWorld (store w) (saferLockManager w) n (guard w) (tape w) (drawn w) (granted w).
Definition set_guard (g : option LockGuard) (w : World) : World :=
  mkWorld (store w) (saferLockManager w) (txnIDCounter w) g (tape w) (drawn w) (granted w).
Definition advance (w : World) : World :=
  mkWorld (store w) (saferLockManager w) (txnIDCounter w) (guard w) (tape w) (S (drawn w)) (granted w).

(** [LocalBackend.Begin] *)
Definition LocalBackend_Begin (localTxn : TxnID) : result LockGuard := Ok (NewLockGuard localTxn).

(** The answer to [guard.AcquireContext]. With one goroutine a request that
    parks is never woken; that case is reported as an error of its own. *)
Definition acquire_answer (out : outcome) : result unit :=
  match out with
  | Returned None => Ok ()
  | Returned (Some e) => Err e
  | Parked => Err (EMsg "blocked")
  end.

Definition local : handler World := λ e,
  match e with
  | EDraw => λ w, (advance w, tape w (drawn w))
  | EAllocTxn => λ w,
      let '(n, r) := allocateTxnID (txnIDCounter w) [] in (set_counter n w, r)
  | EBegin txn => λ w,
      match LocalBackend_Begin txn with
      | Ok g => (set_guard (Some g) w, Ok ())
      | Err e => (w, Err e)
      end
  | EAcquire ctx r m => λ w,
      match guard w with
      | None => (w, Err (EMsg "no guard"))
      | Some g =>
          let '(lm, out) := Guard_AcquireContext g (Some (Fencing.lock_ctx ctx)) r m
            (saferLockManager w) in
          (set_lm lm w, acquire_answer out)
      end
  | EGrants => λ w, (w, granted w)
  | EReleaseAll => λ w,
      match guard w with
      | None => (w, ())
      | Some g =>
          let '(g, lm) := Guard_ReleaseAll g (saferLockManager w) in
          (set_guard (Some g) (set_lm lm w), ())
      end
  | EGet _ id => λ w, (w, UserlibObjectStore_Get id (store w))
  | EKeyGet _ name => λ w, (w, UserlibKeyStore_Get name (store w))
  | ERange keys => λ w, (w, keys)
  | EAtomic _ ms => λ w,
      let '(s, r) := RunAtomic None (closure mutate ms) (store w) in (set_store s w, r)
  end.

(** ** Running alone *)

(** Nobody holds a lock and transaction identifiers are left. *)
Record quiet (w : World) : Prop := {
  qu_alone : alone (saferLockManager w) 0 [];
  qu_ids : (txnIDCounter w < max_uint64)%N }.

(** The world inside an operation whose transaction has asked for [L]. *)
Record working (w : World) (txn : TxnID) (L : list ResourceID) : Prop := {
  wk_alone : alone (saferLockManager w) txn L;
  wk_guard : guard w = Some (mkGuard txn false) }.

(** What the data-carrying part of an operation can observe of the world. *)
Definition same_data (w w' : World) : Prop :=
  store w' = store w ∧ tape w' = tape w ∧ drawn w' = drawn w.

Lemma run_acquire w txn L ctx r m :
  working w txn L → (r ∉ L) → LMInv.valid_mode m → ctx_Err (Fencing.lock_ctx ctx) = None →
  ∃ w', working w' txn (r :: L) ∧ same_data w w' ∧ txnIDCounter w' = txnIDCounter w ∧
    run local (acquire ctx r m) w = (w', Ok ()).
Proof.
  intros [Ha Hg] Hr Hm Hc.
  destruct (acquire_alone _ _ _ r m (Fencing.lock_ctx ctx) Ha Hr Hm Hc) as (lm & Heq & Ha').
  exists (set_lm lm w). split; [by split|]. split; [done|]. split; [done|].
  cbn -[AcquireContext]. rewrite Hg. cbn -[AcquireContext]. unfold Guard_AcquireContext. cbn [g_txn]. by rewrite Heq.
Qed.

(** The tape is only read. *)
Lemma run_tape {A} (p : prog A) w : tape (run local p w).1 = tape w.
Proof.
  revert w. induction p as [a|e k IH]; intros w; [done|]. cbn [run].
  destruct (local e w) as [w' r] eqn:E. rewrite IH.
  destruct e; unfold local in E; repeat case_match; by simplify_eq.
Qed.

Lemma run_drawn {A} (p : prog A) w : (drawn w ≤ drawn (run local p w).1)%nat.
Proof.
  revert w. induction p as [a|e k IH]; intros w; [done|]. cbn [run].
  destruct (local e w) as [w' r] eqn:E. etransitivity; [|apply IH].
  destruct e; unfold local in E; repeat case_match; simplify_eq; cbn; lia.
Qed.

(** An operation leaves the world quiet, unless it used the last transaction
    identifier. *)
Definition settled (w w' : World) : Prop :=
  (txnIDCounter w + 1 < max_uint64)%N → quiet w'.

(** A whole operation: its body runs under a fresh transaction with no lock,
    and whatever it establishes of the store and of the position on the tape
    holds when the operation has returned, in a world that is quiet again. *)
Lemma run_operation {A} w (body : M A) r (P : UserlibStore → nat → Prop) :
  quiet w →
  (∀ w1 txn, working w1 txn [] → same_data w w1 →
     ∃ w2 L, run local body w1 = (w2, r) ∧ working w2 txn L ∧ P (store w2) (drawn w2) ∧
       txnIDCounter w2 = txnIDCounter w1) →
  ∃ w', run local (txn ← allocateTxn; withOperationGuard txn body) w = (w', r) ∧
    P (store w') (drawn w') ∧ settled w w'.
Proof.
  intros [Ha Hid] Hbody. rewrite run_bind. cbn [run allocateTxn local].
  unfold allocateTxnID. rewrite decide_False by lia. rewrite u64_add_small by lia.
  set (txn := (txnIDCounter w + 1)%N). cbn [run withOperationGuard local].
  destruct (Hbody (set_guard (Some (NewLockGuard txn)) (set_counter txn w)) txn)
    as (w2 & L & Hrun & [Ha2 Hg2] & HP & Hc).
  { split; [|done]. by apply (alone_any _ 0). }
  { done. }
  unfold LocalBackend_Begin. rewrite run_bindP, Hrun. cbn -[ReleaseAll].
  rewrite Hg2. cbn -[ReleaseAll].
  eexists. split; [done|]. cbn -[ReleaseAll]. split; [done|].
  intros Hlt. split; [by eapply release_alone|]. cbn -[ReleaseAll]. by rewrite Hc.
Qed.

(** ** Commits *)

Definition apply_mutation (m : Mutation) (d : gmap UUID string) : gmap UUID string :=
  match m with
  | MPut id v => <[id := v]> d
  | MDelete id => delete id d
  | MKeyPut _ _ => d
  end.

(** Object writes cannot fail in this backend. *)
Lemma closure_objects ms s :
  Forall is_object_write ms →
  closure mutate ms s =
    (mkStore (foldl (λ d m, apply_mutation m d) (Datastore s) ms) (Keystore s), Ok ()).
Proof.
  revert s. induction ms as [|m ms IH]; intros s Hm; [by destruct s|].
  inversion_clear Hm. destruct m; cbn; [rewrite IH by done; done..|done].
Qed.

Lemma run_commit ctx ms w :
  Forall is_object_write ms →
  run local (runAtomicStorage ctx ms) w =
    (set_store (mkStore (foldl (λ d m, apply_mutation m d) (Datastore (store w)) ms)
      (Keystore (store w))) w, Ok ()).
Proof. intros Hm. cbn. by rewrite closure_objects. Qed.

End local_env.
