(* ===== verification/Pool.v ===== *)
(** * Concurrent operations of one process

    Client operations ([prog]) interleaved at their interactions with storage,
    locks and randomness, over any lock implementation that satisfies
    [LockingLaws]; and the argument that operations which read and commit under
    one lock behave as if they ran one after the other. The implementations
    are the three concurrency strategies of src/client/client.go
    (newOperationGuard): file Strategies.

    A commit ([EAtomic]) is one step here. On the in-memory store [RunAtomic]
    applies its writes one by one, so another goroutine may run between them;
    but what a commit writes, other operations read only under the file's lock,
    which the committing operation holds until it has applied the last write. *)

From S2P Require Import Prelude Json Libs LockManager LockManagerInv Fencing SaferTypes.
From S2P Require Import Effects Client LocalEnv.
Import LM.
Open Scope string_scope.

(** ** Locks as operations use them *)

(** The answer to one attempt: granted, refused, or still waiting under a
    token. *)
Inductive lk_status := Granted | Refused (e : error) | Waiting (tok : N).

(** What is done to the locks: a guard is made; a call of
    [guard.AcquireContext], up to its return or its first wait; one attempt of
    a waiting call; [guard.ReleaseAll]; something another goroutine of the
    implementation does. Guards are named by their transaction. *)
Inductive lk_act :=
  | ABegin (t : TxnID)
  | ACall (ctx : Fencing.Ctx) (t : TxnID) (r : ResourceID) (m : LockMode)
  | AResume (tok : N)
  | ARelease (t : TxnID)
  | AOther.

Class Locking (L : Type) := {
  lk_step : lk_act → L → L → lk_status → Prop;
  (** [lk_covers l t r m]: [t] may rely on holding [r] in mode [m] *)
  lk_covers : L → TxnID → ResourceID → LockMode → Prop;
  (** the guard of [t] was made and not released *)
  lk_live : L → TxnID → Prop;
  (** the transaction, resource and mode a token waits for *)
  lk_pending : L → N → TxnID → ResourceID → LockMode → Prop;
  lk_inv : L → Prop }.

Definition disturbs (a : lk_act) (t : TxnID) : Prop :=
  match a with ABegin t' | ARelease t' => t' = t | _ => False end.

(** A guard is used only while it is live. *)
Definition proper {L} `{Locking L} (a : lk_act) (l : L) : Prop :=
  match a with ACall _ t _ _ | ARelease t => lk_live l t | _ => True end.

(** What a client relies on: what it holds or waits for is its own affair, and
    an exclusive holder is alone. *)
Class LockingLaws (L : Type) `{Locking L} : Prop := {
  lk_step_inv a l l' st : lk_inv l → proper a l → lk_step a l l' st → lk_inv l';
  lk_covers_keeps a l l' st t r m : lk_inv l → proper a l → lk_step a l l' st → ¬ disturbs a t →
    lk_covers l t r m → lk_covers l' t r m;
  lk_live_keeps a l l' st t : lk_inv l → proper a l → lk_step a l l' st → ¬ disturbs a t →
    lk_live l t → lk_live l' t;
  lk_pending_keeps a l l' st tok t r m : lk_inv l → proper a l → lk_step a l l' st → ¬ disturbs a t →
    a ≠ AResume tok → lk_pending l tok t r m → lk_pending l' tok t r m;
  lk_begin_live t l l' st : lk_inv l → lk_step (ABegin t) l l' st → lk_live l' t;
  lk_call_status ctx t r m l l' st :
    lk_inv l → lk_live l t → lk_step (ACall ctx t r m) l l' st →
    match st with
    | Granted => lk_covers l' t r m
    | Refused _ => True
    | Waiting tok => lk_pending l' tok t r m
    end;
  lk_resume_status tok l l' st t r m :
    lk_inv l → lk_live l t → lk_pending l tok t r m → lk_step (AResume tok) l l' st →
    match st with
    | Granted => lk_covers l' t r m
    | Refused _ => True
    | Waiting tok' => lk_pending l' tok' t r m
    end;
  lk_pending_fun l tok t t' r r' m m' :
    lk_inv l → lk_pending l tok t r m → lk_pending l tok t' r' m' → t' = t;
  lk_exclusive l t t' r m : lk_inv l → lk_covers l t r ExclusiveLock → lk_covers l t' r m →
    t' = t }.

Section pool.
Context `{UuidLib} `{Userlib} `{!UuidNew} {L : Type} `{!Locking L} {A : Type}.

(** ** Threads and their interleavings *)

Inductive phase :=
  | Runs (p : prog A)
  | Waits (tok : N) (k : result unit → prog A).

Record thread := mkThread { th_guard : option TxnID; th_phase : phase }.

(** The process: storage, locks, the transaction counter, how much of the
    tape of random seeds is used, and the goroutines. *)
Record pool := mkPool {
  pl_store : UserlibStore;
  pl_locks : L;
  pl_counter : N;
  pl_drawn : nat;
  pl_threads : gmap nat thread }.

(** The events that touch no lock are answered as in [local]. *)
Definition is_data (e : event) : bool :=
  match e with EBegin _ | EAcquire _ _ _ | EReleaseAll => false | _ => true end.

Section steps.
Context (seeds : nat → Seed) (gr : list Fencing.Grant * bool).

Definition world_of (c : pool) : World :=
  mkWorld (pl_store c) NewLockManager (pl_counter c) None seeds (pl_drawn c) gr.

Definition answered (k : result unit → prog A) (st : lk_status) : phase :=
  match st with
  | Granted => Runs (k (Ok ()))
  | Refused e => Runs (k (Err e))
  | Waiting tok => Waits tok k
  end.

Inductive pool_step : pool → pool → Prop :=
  | ps_data i g e k c w r :
      pl_threads c !! i = Some (mkThread g (Runs (Vis e k))) → is_data e = true →
      local e (world_of c) = (w, r) →
      pool_step c (mkPool (store w) (pl_locks c) (txnIDCounter w) (drawn w)
        (<[i := mkThread g (Runs (k r))]> (pl_threads c)))
  | ps_begin i g txn k c l st :
      pl_threads c !! i = Some (mkThread g (Runs (Vis (EBegin txn) k))) →
      lk_step (ABegin txn) (pl_locks c) l st →
      pool_step c (mkPool (pl_store c) l (pl_counter c) (pl_drawn c)
        (<[i := mkThread (Some txn) (Runs (k (Ok ())))]> (pl_threads c)))
  | ps_acquire i txn ctx r m k c l st :
      pl_threads c !! i = Some (mkThread (Some txn) (Runs (Vis (EAcquire ctx r m) k))) →
      lk_step (ACall ctx txn r m) (pl_locks c) l st →
      pool_step c (mkPool (pl_store c) l (pl_counter c) (pl_drawn c)
        (<[i := mkThread (Some txn) (answered k st)]> (pl_threads c)))
  | ps_resume i g tok k c l st :
      pl_threads c !! i = Some (mkThread g (Waits tok k)) →
      lk_step (AResume tok) (pl_locks c) l st →
      pool_step c (mkPool (pl_store c) l (pl_counter c) (pl_drawn c)
        (<[i := mkThread g (answered k st)]> (pl_threads c)))
  | ps_release i txn k c l st :
      pl_threads c !! i = Some (mkThread (Some txn) (Runs (Vis EReleaseAll k))) →
      lk_step (ARelease txn) (pl_locks c) l st →
      pool_step c (mkPool (pl_store c) l (pl_counter c) (pl_drawn c)
        (<[i := mkThread (Some txn) (Runs (k ()))]> (pl_threads c)))
  | ps_other c l st :
      lk_step AOther (pl_locks c) l st →
      pool_step c (mkPool (pl_store c) l (pl_counter c) (pl_drawn c) (pl_threads c)).

(** A scheduler: the step thread [i] takes, with the locks' next state
    computed by [act]. *)
Section schedule.
Context (act : lk_act → L → option (L * lk_status)).

Definition lock_move (i : nat) (g : option TxnID) (a : lk_act) (k : lk_status → phase) (c : pool)
    : option pool :=
  '(l, st) ← act a (pl_locks c);
  Some (mkPool (pl_store c) l (pl_counter c) (pl_drawn c)
    (<[i := mkThread g (k st)]> (pl_threads c))).

Definition data_move (i : nat) (g : option TxnID) (e : event) (k : resp e → prog A) (c : pool)
    : option pool :=
  let '(w, r) := local e (world_of c) in
  Some (mkPool (store w) (pl_locks c) (txnIDCounter w) (drawn w)
    (<[i := mkThread g (Runs (k r))]> (pl_threads c))).

Definition move (i : nat) (c : pool) : option pool :=
  th ← pl_threads c !! i;
  let g := th_guard th in
  match th_phase th with
  | Runs (Ret _) => None
  | Runs (Vis e k) =>
      match e as e return (resp e → prog A) → option pool with
      | EBegin txn => λ k, lock_move i (Some txn) (ABegin txn) (λ _, Runs (k (Ok ()))) c
      | EAcquire ctx r m => λ k, txn ← g; lock_move i g (ACall ctx txn r m) (answered k) c
      | EReleaseAll => λ k, txn ← g; lock_move i g (ARelease txn) (λ _, Runs (k ())) c
      | e => λ k, data_move i g e k c
      end k
  | Waits tok k => lock_move i g (AResume tok) (answered k) c
  end.

(** Threads that cannot move are skipped. *)
Definition schedule (order : list nat) (c : pool) : pool :=
  foldl (λ c i, default c (move i c)) c order.

Hypothesis act_step : ∀ a l l' st, act a l = Some (l', st) → lk_step a l l' st.

Lemma lock_move_inv i g a k c c' :
  lock_move i g a k c = Some c' → ∃ l st, lk_step a (pl_locks c) l st ∧
    c' = mkPool (pl_store c) l (pl_counter c) (pl_drawn c)
      (<[i := mkThread g (k st)]> (pl_threads c)).
Proof.
  unfold lock_move. destruct (act a (pl_locks c)) as [[l st]|] eqn:E; [|done].
  intros [= <-]. exists l, st. auto.
Qed.

Lemma data_move_step i g e k c c' :
  pl_threads c !! i = Some (mkThread g (Runs (Vis e k))) → is_data e = true →
  data_move i g e k c = Some c' → pool_step c c'.
Proof.
  intros Hi He. unfold data_move. destruct (local e (world_of c)) as [w r] eqn:E.
  intros [= <-]. by apply ps_data.
Qed.

Lemma move_step i c c' : move i c = Some c' → pool_step c c'.
Proof.
  unfold move. destruct (pl_threads c !! i) as [[g [[a|e k]|tok k]]|] eqn:Hi; [done| | |done].
  - cbn [mbind option_bind th_phase th_guard].
    destruct e; try (by apply data_move_step).
    + intros (l & st & Hl & ->)%lock_move_inv. by eapply ps_begin.
    + destruct g as [txn|]; [|done]. intros (l & st & Hl & ->)%lock_move_inv. by eapply ps_acquire.
    + destruct g as [txn|]; [|done]. intros (l & st & Hl & ->)%lock_move_inv. by eapply ps_release.
  - intros (l & st & Hl & ->)%lock_move_inv. by eapply ps_resume.
Qed.

Lemma schedule_steps order c : rtc pool_step c (schedule order c).
Proof.
  revert c. induction order as [|i order IH]; intros c; [apply rtc_refl|].
  cbn [schedule foldl]. destruct (move i c) as [c1|] eqn:E; cbn; [|apply IH].
  eapply rtc_l; [by eapply move_step|apply IH].
Qed.

(** A thread that is not scheduled stays where it is. *)
Lemma move_other i j c c' :
  move i c = Some c' → j ≠ i → pl_threads c' !! j = pl_threads c !! j.
Proof.
  unfold move. destruct (pl_threads c !! i) as [[g [[a|e k]|tok k]]|]; [done| | |done];
    cbn [mbind option_bind th_phase th_guard].
  - intros Hm Hj. destruct e; unfold data_move in Hm;
      repeat match type of Hm with
      | lock_move _ _ _ _ _ = _ => apply lock_move_inv in Hm as (l & st & _ & ->)
      | (let '(_, _) := ?p in _) = _ => destruct p
      | (g ≫= _) = _ => destruct g; [|done]; cbn [mbind option_bind] in Hm
      end; simplify_eq; cbn; by rewrite lookup_insert_ne.
  - intros (l & st & _ & ->)%lock_move_inv Hj. cbn. by rewrite lookup_insert_ne.
Qed.

Lemma schedule_other order c j :
  j ∉ order → pl_threads (schedule order c) !! j = pl_threads c !! j.
Proof.
  revert c. induction order as [|i order IH]; intros c Hj; [done|].
  apply not_elem_of_cons in Hj as [Hji Hj]. cbn [schedule foldl].
  change (foldl _ ?c order) with (schedule order c). rewrite IH by done.
  destruct (move i c) as [c1|] eqn:E; cbn; [|done]. by eapply move_other.
Qed.

End schedule.

End steps.


(** ** Operations under one lock *)

Section serial.
Context {V : Type} (J : V → UserlibStore → Prop) (file : ResourceID).
Context (s0 : UserlibStore) (K : nat) (gr : list Fencing.Grant * bool).

(** What an operation is meant to do to the abstract value of the data the
    lock protects: which mode it locks, its effect if it writes, and which
    results it may return for the value it found. *)
Record task := mkTask {
  tk_mode : LockMode;
  tk_effect : option (V → V);
  tk_answer : V → A → Prop;
  tk_fail : A → Prop }.

(** How far an operation has come: not holding the lock, or gone without ever
    having held it; inside, where the
    store is [s], its value [v] and [D] was drawn; past its commit; past its
    release, with or without a commit. *)
Inductive mode :=
  | Before (n : option TxnID)
  | Gone
  | Inside (v : V) (s : UserlibStore) (D : list Seed)
  | After (v : V)
  | Over (v : V) (committed : bool).

(** A seed whose UUID is new to the store, and was new to it at the start,
    when it was [s0]. *)
Definition good (s : UserlibStore) (d : Seed) : Prop :=
  uuid_New d ≠ uuid_Nil ∧ Datastore s !! uuid_New d = None ∧ Datastore s0 !! uuid_New d = None.

(** There are more than [K] of them, as many as any operation draws UUIDs. *)
Definition plenty (s : UserlibStore) : Prop :=
  ∃ E, length E = S K ∧ Forall (good s) E ∧ NoDup (uuid_New <$> E).

Definition allowed (t : task) (md : mode) (e : event) : Prop :=
  match md with
  | Before n =>
      match e with
      | EAllocTxn => n = None
      | EBegin txn => n = Some txn
      | EAcquire _ r m => r = file → m = tk_mode t
      | EAtomic _ _ => False
      | _ => True
      end
  | Inside v s D =>
      match e with
      | EAllocTxn | EBegin _ | EAcquire _ _ _ => False
      | EAtomic _ ms => ∃ f s', tk_effect t = Some f ∧ closure mutate ms s = (s', Ok ()) ∧
          J (f v) s' ∧ ∀ id, Datastore s' !! id ≠ None →
            Datastore s !! id ≠ None ∨ id ∈ uuid_New <$> D
      | _ => True
      end
  | After _ => e = EReleaseAll
  | Gone | Over _ _ => False
  end.

(** The answers an operation has to expect, and where they leave it. Outside
    the lock it may find any value. *)
Definition trans (md : mode) (e : event) : resp e → mode → Prop :=
  match e with
  | EDraw => λ r md', match md with
      | Before n => md' = md
      | Inside v s D => good s r ∧ (uuid_New r ∉ uuid_New <$> D) ∧ md' = Inside v s (r :: D)
      | _ => False
      end
  | EAllocTxn => λ r md', match md with
      | Before n => md' = Before (match r with Ok x => Some x | Err _ => None end)
      | _ => False
      end
  | EBegin _ => λ r md', r = Ok () ∧ md' = md
  | EAcquire _ res _ => λ r md', match md with
      | Before n => (res = file ∧ r = Ok () ∧ ∃ v s, J v s ∧ plenty s ∧ md' = Inside v s []) ∨
          ((res = file → r ≠ Ok ()) ∧ md' = md)
      | _ => False
      end
  | EGrants => λ r md', r = gr ∧ md' = md
  | EReleaseAll => λ _ md', match md with
      | Before _ => md' = Gone
      | Inside v _ _ => md' = Over v false
      | After v => md' = Over v true
      | Gone | Over _ _ => False
      end
  | EGet _ id => λ r md', md' = md ∧ match md with
      | Inside v s D => r = Ok (Datastore s !! id)
      | _ => ∃ v s, J v s ∧ r = Ok (Datastore s !! id)
      end
  | EKeyGet _ name => λ r md', md' = md ∧ match md with
      | Inside v s D => r = Ok (Keystore s !! name)
      | _ => ∃ v s, J v s ∧ r = Ok (Keystore s !! name)
      end
  | ERange keys => λ r md', r = keys ∧ md' = md
  | EAtomic _ ms => λ r md', match md with
      | Inside v s D => r = (closure mutate ms s).2 ∧ md' = After v
      | _ => False
      end
  end.

Definition final (t : task) (md : mode) (a : A) : Prop :=
  match md with
  | Before _ | Gone => tk_fail t a
  | Over v true => tk_answer t v a
  | Over v false => tk_effect t = None ∧ tk_answer t v a ∨ tk_fail t a
  | _ => False
  end.

(** [p], resumed in mode [md], behaves as [t] says. *)
Fixpoint wp (t : task) (md : mode) (p : prog A) : Prop :=
  match p with
  | Ret a => final t md a
  | Vis e k => allowed t md e ∧ ∀ r md', trans md e r md' → wp t md' (k r)
  end.

(** ** Serialization *)

Section theorem.
Context `{!LockingLaws L} (seeds : nat → Seed).
Context (tasks : gmap nat task) (v0 : V).
Hypothesis writers_exclusive : ∀ i t,
  tasks !! i = Some t → is_Some (tk_effect t) → tk_mode t = ExclusiveLock.

(** The first [limit] draws are new and distinct. *)
Context (limit : nat).
Hypothesis seeds_nil : ∀ n, (n < limit)%nat → uuid_New (seeds n) ≠ uuid_Nil.
Hypothesis seeds_new : ∀ n, (n < limit)%nat → Datastore s0 !! uuid_New (seeds n) = None.
Hypothesis seeds_inj : ∀ m n, (m < limit)%nat → (n < limit)%nat →
  uuid_New (seeds m) = uuid_New (seeds n) → m = n.

(** The value after the operations [log], one after the other. *)
Definition effect (i : nat) (v : V) : V :=
  match tasks !! i ≫= tk_effect with Some f => f v | None => v end.
Definition replay (log : list nat) : V := foldl (λ v i, effect i v) v0 log.

Lemma replay_snoc log i : replay (log ++ [i]) = effect i (replay log).
Proof. unfold replay. by rewrite foldl_app. Qed.

(** The operations [late] find at least what the operations [floor] left. *)
Section floor.
Context (floor : list nat) (late : nat → Prop).

Definition above (i : nat) (pre : list nat) : Prop := late i → floor `prefix_of` pre.

(** What is known of thread [i]. *)
Definition mode_ok (c : pool) (log : list nat) (txns : gmap nat TxnID)
    (i : nat) (t : task) (g : option TxnID) (md : mode) : Prop :=
  match md with
  | Before n => (i ∉ log) ∧ n = txns !! i ∧ ∀ x, g = Some x → lk_live (pl_locks c) x
  | Gone => i ∉ log
  | Inside v s D => (i ∉ log) ∧ s = pl_store c ∧ v = replay log ∧
      (∃ x, g = Some x ∧ lk_live (pl_locks c) x ∧ lk_covers (pl_locks c) x file (tk_mode t)) ∧
      (∀ d, d ∈ D → ∃ j, (j < pl_drawn c)%nat ∧ d = seeds j)
  | After v => (∃ pre, (pre ++ [i])%list `prefix_of` log ∧ above i pre ∧ v = replay pre) ∧
      (∃ x, g = Some x ∧ lk_live (pl_locks c) x ∧ lk_covers (pl_locks c) x file (tk_mode t))
  | Over v true => ∃ pre, (pre ++ [i])%list `prefix_of` log ∧ above i pre ∧ v = replay pre
  | Over v false => (i ∉ log) ∧ ∃ pre, pre `prefix_of` log ∧ above i pre ∧ v = replay pre
  end.

Definition phase_ok (c : pool) (t : task) (g : option TxnID) (md : mode)
    (ph : phase) : Prop :=
  match ph with
  | Runs p => wp t md p
  | Waits tok k => ∃ ctx r m x n, g = Some x ∧ md = Before n ∧
      wp t md (Vis (EAcquire ctx r m) k) ∧ lk_pending (pl_locks c) tok x r m
  end.

Definition thread_ok (c : pool) (log : list nat) (txns : gmap nat TxnID)
    (i : nat) (th : thread) : Prop :=
  ∃ t md, tasks !! i = Some t ∧ mode_ok c log txns i t (th_guard th) md ∧
    phase_ok c t (th_guard th) md (th_phase th) ∧
    (th_guard th = None ∨ th_guard th = txns !! i).

Record pool_ok (c : pool) (log : list nat) (txns : gmap nat TxnID) : Prop := {
  po_locks : lk_inv (pl_locks c);
  po_value : J (replay log) (pl_store c);
  po_nodup : NoDup log;
  po_floor : floor `prefix_of` log;
  po_writes i : i ∈ log → ∃ t, tasks !! i = Some t ∧ is_Some (tk_effect t);
  po_dom id : Datastore (pl_store c) !! id ≠ None → Datastore s0 !! id ≠ None ∨
    ∃ j, (j < pl_drawn c)%nat ∧ id = uuid_New (seeds j);
  po_counter : (pl_counter c ≤ max_uint64)%N;
  po_txns i x : txns !! i = Some x → (x ≤ pl_counter c)%N;
  po_inj i j x : txns !! i = Some x → txns !! j = Some x → i = j;
  po_threads i th : pl_threads c !! i = Some th → thread_ok c log txns i th }.


(** What a step of another thread may change for thread [j]. *)
Record evolves (c c' : pool) (log log' : list nat) (txns txns' : gmap nat TxnID)
    (j : nat) (th : thread) : Prop := {
  ev_log : log `prefix_of` log';
  ev_new : j ∈ log' → j ∈ log;
  ev_value : pl_store c' = pl_store c ∧ log' = log ∨
    ∀ x m, th_guard th = Some x → ¬ lk_covers (pl_locks c) x file m;
  ev_covers x r m : th_guard th = Some x →
    lk_covers (pl_locks c) x r m → lk_covers (pl_locks c') x r m;
  ev_live x : th_guard th = Some x → lk_live (pl_locks c) x → lk_live (pl_locks c') x;
  ev_pending tok k x r m : th_phase th = Waits tok k → th_guard th = Some x →
    lk_pending (pl_locks c) tok x r m → lk_pending (pl_locks c') tok x r m;
  ev_drawn : (pl_drawn c ≤ pl_drawn c')%nat;
  ev_txns : txns' !! j = txns !! j }.

Lemma thread_evolves c c' log log' txns txns' j th :
  evolves c c' log log' txns txns' j th → thread_ok c log txns j th → thread_ok c' log' txns' j th.
Proof.
  intros [Hl Hn Hv Hc Hlv Hp Hd Ht] (t & md & Htask & Hmd & Hph & Hg).
  exists t, md. split; [done|]. split; [|split].
  - destruct md as [n| |v s D|v|v [|]]; cbn in *.
    + rewrite Ht. naive_solver.
    + auto.
    + destruct Hmd as (Hi & -> & -> & (x & Hx & Hlx & Hcov) & HD). split; [auto|].
      destruct Hv as [[-> ->]|Hno]; [|by destruct (Hno _ _ Hx Hcov)].
      split; [done|]. split; [done|]. split; [eauto 10|].
      intros d Hin. destruct (HD d Hin) as (i & ? & ?). exists i. split; [lia|done].
    + destruct Hmd as ((pre & Hpre & Hab & ->) & (x & Hx & Hlx & Hcov)). split; [|eauto 10].
      exists pre. split; [by etrans|done].
    + destruct Hmd as (pre & Hpre & Hab & ->). exists pre. split; [by etrans|done].
    + destruct Hmd as (Hi & pre & Hpre & Hab & ->). split; [auto|].
      exists pre. split; [by etrans|done].
  - destruct (th_phase th) as [p|tok k] eqn:E; cbn in *; [done|].
    destruct Hph as (ctx & r & m & x & n & Hx & Hb & Hwp & Hpend).
    exists ctx, r, m, x, n. eauto.
  - by rewrite Ht.
Qed.

(** Thread [i] moves to [th']; every other thread only [evolves]. *)
Lemma pool_ok_step c c' i th' log log' txns txns' :
  pool_ok c log txns → pl_threads c' = <[i := th']> (pl_threads c) →
  lk_inv (pl_locks c') → J (replay log') (pl_store c') → NoDup log' → log `prefix_of` log' →
  (∀ j, j ∈ log' → ∃ t, tasks !! j = Some t ∧ is_Some (tk_effect t)) →
  (∀ id, Datastore (pl_store c') !! id ≠ None → Datastore s0 !! id ≠ None ∨
     ∃ j, (j < pl_drawn c')%nat ∧ id = uuid_New (seeds j)) →
  (pl_counter c' ≤ max_uint64)%N →
  (∀ j x, txns' !! j = Some x → (x ≤ pl_counter c')%N) →
  (∀ j1 j2 x, txns' !! j1 = Some x → txns' !! j2 = Some x → j1 = j2) →
  thread_ok c' log' txns' i th' →
  (∀ j th, j ≠ i → pl_threads c !! j = Some th → evolves c c' log log' txns txns' j th) →
  pool_ok c' log' txns'.
Proof.
  intros Hc Ht Hl HJ Hnd Hpre Hw Hdom Hmax Hx Hinj Hi Hother. split; try done.
  { etrans; [apply Hc|done]. }
  intros j th. rewrite Ht. intros [[<- <-]|[Hne Hj]]%lookup_insert_Some; [done|].
  eapply thread_evolves; [by apply Hother|]. by eapply po_threads.
Qed.

(** The guards of two threads are different transactions. *)
Lemma guards_differ c log txns i j th th' x y :
  pool_ok c log txns → i ≠ j → pl_threads c !! i = Some th → pl_threads c !! j = Some th' →
  th_guard th = Some x → th_guard th' = Some y → y ≠ x.
Proof.
  intros Hc Hij Hi Hj Hx Hy ->.
  destruct (po_threads _ _ _ Hc _ _ Hi) as (_ & _ & _ & _ & _ & [Hn|Hg]); [congruence|].
  destruct (po_threads _ _ _ Hc _ _ Hj) as (_ & _ & _ & _ & _ & [Hn|Hg']); [congruence|].
  apply Hij. eapply po_inj; [done|..]; by rewrite <-?Hg, <-?Hg'.
Qed.

(** A step that only moves thread [i] and, perhaps, draws. *)
Lemma pool_ok_quiet c i g p' log txns n t md' th :
  pool_ok c log txns → pl_threads c !! i = Some th → (pl_drawn c ≤ n)%nat →
  let c' := mkPool (pl_store c) (pl_locks c) (pl_counter c) n
    (<[i := mkThread g (Runs p')]> (pl_threads c)) in
  tasks !! i = Some t → mode_ok c' log txns i t g md' → wp t md' p' →
  (g = None ∨ g = txns !! i) →
  pool_ok c' log txns.
Proof.
  intros Hc Hi Hn c' Ht Hmd Hwp Hg.
  apply (pool_ok_step c c' i (mkThread g (Runs p')) log log txns txns); try done; try apply Hc.
  - intros id Hid. destruct (po_dom _ _ _ Hc id Hid) as [?|(j & ? & ?)]; [by left|right].
    exists j. split; [cbn; lia|done].
  - exists t, md'. done.
  - intros j th0 Hne Hj. split; try done. by left.
Qed.

Lemma mode_ok_drawn c c' log txns i t g md :
  mode_ok c log txns i t g md → pl_store c' = pl_store c → pl_locks c' = pl_locks c →
  (pl_drawn c ≤ pl_drawn c')%nat → mode_ok c' log txns i t g md.
Proof.
  intros Hmd Hs Hl Hd. destruct md as [n| |v s D|v|v [|]]; cbn in *; rewrite ?Hs, ?Hl; try done.
  destruct Hmd as (? & ? & ? & ? & HD). split_and!; try done.
  intros d Hin. destruct (HD d Hin) as (j & ? & ?). exists j. split; [lia|done].
Qed.

(** What is drawn next is new. *)
Lemma next_good c log txns n :
  pool_ok c log txns → (pl_drawn c ≤ n)%nat → (n < limit)%nat → good (pl_store c) (seeds n).
Proof.
  intros Hc Hn Hlim. split_and!; [by apply seeds_nil| |by apply seeds_new].
  destruct (Datastore (pl_store c) !! uuid_New (seeds n)) eqn:E; [|done].
  destruct (po_dom _ _ _ Hc (uuid_New (seeds n))) as [Hs|(j & Hj & Heq)].
  - by rewrite E.
  - by rewrite seeds_new in Hs.
  - apply seeds_inj in Heq; lia.
Qed.

Lemma draw_good c log txns :
  pool_ok c log txns → (pl_drawn c < limit)%nat → good (pl_store c) (seeds (pl_drawn c)).
Proof.
  intros Hc. apply (next_good c log txns (pl_drawn c) Hc). lia.
Qed.

(** The next draws are enough for any operation. *)
Lemma draws_plenty c log txns :
  pool_ok c log txns → (pl_drawn c + S K ≤ limit)%nat → plenty (pl_store c).
Proof.
  intros Hc Hlim. exists (seeds <$> seq (pl_drawn c) (S K)). split; [by rewrite length_fmap, length_seq|].
  split.
  - apply Forall_fmap, Forall_forall. intros n [? ?]%elem_of_seq.
    apply (next_good c log txns n Hc); lia.
  - rewrite <-list_fmap_compose. apply NoDup_fmap_2_strong; [|apply NoDup_seq].
    intros m n [? ?]%elem_of_seq [? ?]%elem_of_seq. apply seeds_inj; lia.
Qed.


(** A data event of thread [i] that leaves its mode alone. *)
Lemma reading_ok c i g e (k : resp e → prog A) r log txns n md t :
  pool_ok c log txns → pl_threads c !! i = Some (mkThread g (Runs (Vis e k))) →
  tasks !! i = Some t → mode_ok c log txns i t g md → (g = None ∨ g = txns !! i) →
  wp t md (Vis e k) → trans md e r md → (pl_drawn c ≤ n)%nat →
  pool_ok (mkPool (pl_store c) (pl_locks c) (pl_counter c) n
    (<[i := mkThread g (Runs (k r))]> (pl_threads c))) log txns.
Proof.
  intros Hc Hi Ht Hmd Hg [_ Hk] Htr Hn. eapply pool_ok_quiet; try done.
  - eapply mode_ok_drawn; [exact Hmd|done..].
  - by apply Hk.
Qed.

(** The allocation of a transaction id. *)
Lemma alloc_ok c i g (k : result TxnID → prog A) w r log txns :
  pool_ok c log txns → pl_threads c !! i = Some (mkThread g (Runs (Vis EAllocTxn k))) →
  local EAllocTxn (world_of seeds gr c) = (w, r) →
  ∃ txns', pool_ok (mkPool (store w) (pl_locks c) (txnIDCounter w) (drawn w)
    (<[i := mkThread g (Runs (k r))]> (pl_threads c))) log txns'.
Proof.
  intros Hc Hi Hl. pose proof (po_threads _ _ _ Hc _ _ Hi) as (t & md & Ht & Hmd & [Ha Hk] & Hg).
  cbn in Hmd, Hg. destruct md as [n| |v s D|v|v []]; try done. cbn in Ha. subst n.
  destruct Hmd as (Hin & Hn & _). pose proof (po_counter _ _ _ Hc) as Hmax.
  assert (g = None) as -> by (destruct Hg as [?|Hg]; [done|by rewrite Hg, <-Hn]).
  cbn in Hl. unfold allocateTxnID in Hl. destruct (decide _) as [|Hlt]; simplify_eq.
  - exists txns. eapply (pool_ok_quiet c i None _ log txns (pl_drawn c) t (Before None)); try done.
    by apply Hk.
  - set (x := (pl_counter c + 1)%N). exists (<[i := x]> txns).
    rewrite u64_add_small by lia. cbn [store txnIDCounter drawn world_of set_counter].
    assert (∀ j y, txns !! j = Some y → y ≠ x) as Hfresh.
    { intros j y Hj%(po_txns _ _ _ Hc). unfold x. lia. }
    eapply pool_ok_step; try exact Hc; try done; try apply Hc; cbn [pl_counter].
    + unfold x. lia.
    + intros j y [[<- <-]|[_ Hj]]%lookup_insert_Some; [done|].
      apply (po_txns _ _ _ Hc) in Hj. unfold x. lia.
    + intros j1 j2 y [[<- <-]|[Hd1 Hj1]]%lookup_insert_Some [[<- ?]|[Hd2 Hj2]]%lookup_insert_Some;
        try done; try (by exfalso; eapply Hfresh; [exact Hj1|]);
        try (by exfalso; eapply Hfresh; [exact Hj2|]). by eapply po_inj.
    + exists t, (Before (Some x)). cbn. rewrite lookup_insert_eq. split; [done|]. split; [done|].
      split; [by apply Hk|by left].
    + intros j th Hne Hj. split; try done; [by left|]. by rewrite lookup_insert_ne.
Qed.

(** The commit of thread [i]. *)
Lemma commit_ok c i g ctx ms (k : result unit → prog A) w r log txns :
  pool_ok c log txns → pl_threads c !! i = Some (mkThread g (Runs (Vis (EAtomic ctx ms) k))) →
  local (EAtomic ctx ms) (world_of seeds gr c) = (w, r) →
  pool_ok (mkPool (store w) (pl_locks c) (txnIDCounter w) (drawn w)
    (<[i := mkThread g (Runs (k r))]> (pl_threads c))) (log ++ [i]) txns.
Proof.
  intros Hc Hi Hl. pose proof (po_threads _ _ _ Hc _ _ Hi) as (t & md & Ht & Hmd & [Ha Hk] & Hg).
  cbn in Hmd, Hg. destruct md as [n| |v s D|v|v []]; try done.
  destruct Hmd as (Hin & -> & -> & (x & -> & Hlx & Hcov) & HD).
  destruct Ha as (f & s' & Hf & Hcl & HJ & Hdom). cbn in Hl. rewrite Hcl in Hl. simplify_eq.
  cbn [store txnIDCounter drawn world_of set_store].
  rewrite (writers_exclusive _ _ Ht) in Hcov by eauto.
  assert (replay (log ++ [i]) = f (replay log)) as Hrep.
  { rewrite replay_snoc. unfold effect. by rewrite Ht; cbn; rewrite Hf. }
  eapply pool_ok_step; try exact Hc; try done; try apply Hc; cbn [pl_store pl_drawn].
  - by rewrite Hrep.
  - apply NoDup_app. split; [apply Hc|]. split; [|apply NoDup_singleton].
    intros j Hj ->%list_elem_of_singleton. done.
  - by apply prefix_app_r.
  - intros j [Hj | ->%list_elem_of_singleton]%elem_of_app; [by eapply po_writes|eauto].
  - intros id [Hid|(d & -> & Hd)%list_elem_of_fmap]%Hdom; [by eapply po_dom|].
    destruct (HD d Hd) as (j & ? & ->). right. by exists j.
  - exists t, (After (replay log)). split; [done|]. split; [|split; [|done]].
    + cbn. split; [exists log; split; [done|]; split; [intros _; apply Hc|done]|]. exists x. rewrite (writers_exclusive _ _ Ht) by eauto. done.
    + apply Hk. cbn. by rewrite Hcl.
  - intros j th Hne Hj. split; try done.
    + by apply prefix_app_r.
    + intros [? | ->%list_elem_of_singleton]%elem_of_app; done.
    + right. intros y m Hy Hcov'. eapply (guards_differ c log txns i j); try done.
      eapply lk_exclusive; [|exact Hcov|exact Hcov']. apply Hc.
Qed.

Lemma data_ok c i g e k w r log txns :
  pool_ok c log txns → pl_threads c !! i = Some (mkThread g (Runs (Vis e k))) →
  is_data e = true → local e (world_of seeds gr c) = (w, r) → (drawn w + S K ≤ limit)%nat →
  ∃ log' txns', log `prefix_of` log' ∧
    pool_ok (mkPool (store w) (pl_locks c) (txnIDCounter w) (drawn w)
      (<[i := mkThread g (Runs (k r))]> (pl_threads c))) log' txns'.
Proof.
  intros Hc Hi He Hl Hlim. pose proof (po_threads _ _ _ Hc _ _ Hi) as (t & md & Ht & Hmd & Hph & Hg).
  cbn in Hmd, Hph, Hg. pose proof (po_value _ _ _ Hc) as HJ. pose proof Hph as [Ha Hk].
  destruct e; try done.
  - cbn in Hl. simplify_eq. exists log, txns. split; [done|].
    destruct md as [n| |v s D|v|v []]; try done.
    + eapply reading_ok; try done. cbn. lia.
    + destruct Hmd as (Hin & -> & -> & Hcov & HD).
      eapply (pool_ok_quiet c i g _ log txns _ t
        (Inside (replay log) (pl_store c) (seeds (pl_drawn c) :: D))); try done.
      * cbn. lia.
      * cbn. split_and!; try done. intros d [->|Hd]%elem_of_cons.
        -- exists (pl_drawn c). split; [lia|done].
        -- destruct (HD d Hd) as (j & ? & ?). exists j. split; [lia|done].
      * apply Hk. cbn in Hlim |- *. split; [eapply draw_good; [done|lia]|]. split; [|done].
        intros (d & Heq & Hd)%list_elem_of_fmap. destruct (HD d Hd) as (j & ? & ->).
        apply seeds_inj in Heq; lia.
  - exists log. destruct (alloc_ok c i g k w r log txns) as [txns' ?]; try done. by exists txns'.
  - cbn in Hl. simplify_eq. exists log, txns. split; [done|]. by eapply reading_ok.
  - cbn in Hl. simplify_eq. exists log, txns. split; [done|]. eapply reading_ok; try done.
    cbn. split; [done|]. destruct md; try done; [by eauto|]. by destruct Hmd as (_ & -> & _).
  - cbn in Hl. simplify_eq. exists log, txns. split; [done|]. eapply reading_ok; try done.
    cbn. split; [done|]. destruct md; try done; [by eauto|]. by destruct Hmd as (_ & -> & _).
  - cbn in Hl. simplify_eq. exists log, txns. split; [done|]. by eapply reading_ok.
  - exists (log ++ [i])%list, txns. split; [by apply prefix_app_r|]. by eapply commit_ok.
Qed.


(** A step that moves thread [i] and the locks. *)
Lemma lock_step_ok c i th th' a l st log txns :
  pool_ok c log txns → pl_threads c !! i = Some th → proper a (pl_locks c) →
  lk_step a (pl_locks c) l st →
  let c' := mkPool (pl_store c) l (pl_counter c) (pl_drawn c) (<[i := th']> (pl_threads c)) in
  thread_ok c' log txns i th' →
  (∀ j th0 x, j ≠ i → pl_threads c !! j = Some th0 → th_guard th0 = Some x → ¬ disturbs a x) →
  (∀ j th0 tok k x r m, j ≠ i → pl_threads c !! j = Some th0 → th_phase th0 = Waits tok k →
     th_guard th0 = Some x → lk_pending (pl_locks c) tok x r m → a ≠ AResume tok) →
  pool_ok c' log txns.
Proof.
  intros Hc Hi Hpr Hl c' Hth Hdis Htok. pose proof (po_locks _ _ _ Hc) as Hinv.
  apply (pool_ok_step c c' i th' log log txns txns); try done; try apply Hc;
    [by eapply lk_step_inv|].
  intros j th0 Hne Hj. split; try done; [by left|..]; cbn.
  - intros. eapply lk_covers_keeps; [done..|by eapply Hdis|done].
  - intros. eapply lk_live_keeps; [done..|by eapply Hdis|done].
  - intros. eapply lk_pending_keeps; [done..|by eapply Hdis|by eapply Htok|done].
Qed.

(** What thread [i] knows once its request for [r] is answered. *)
Lemma answered_ok c i x ctx r m k st l log txns t n :
  pool_ok c log txns → tasks !! i = Some t → (i ∉ log) → n = txns !! i → Some x = txns !! i →
  (pl_drawn c + S K ≤ limit)%nat →
  lk_live l x → wp t (Before n) (Vis (EAcquire ctx r m) k) →
  match st with
  | Granted => lk_covers l x r m
  | Refused _ => True
  | Waiting tok => lk_pending l tok x r m
  end →
  thread_ok (mkPool (pl_store c) l (pl_counter c) (pl_drawn c)
    (<[i := mkThread (Some x) (answered k st)]> (pl_threads c))) log txns i
    (mkThread (Some x) (answered k st)).
Proof.
  intros Hc Ht Hin Hn Hx Hlim Hlive Hwp Hst. pose proof Hwp as [Ha Hk].
  assert (mode_ok (mkPool (pl_store c) l (pl_counter c) (pl_drawn c)
    (<[i := mkThread (Some x) (answered k st)]> (pl_threads c))) log txns i t (Some x) (Before n))
    as Hbefore by (cbn; split_and!; try done; by intros ? [= <-]).
  destruct st as [|e|tok]; cbn [answered] in *.
  - destruct (decide (r = file)) as [->|Hr].
    + exists t, (Inside (replay log) (pl_store c) []). split; [done|]. split; [|split; [|by right]].
      * cbn. split_and!; try done; [|by intros d ?%elem_of_nil].
        exists x. rewrite <-Ha by done. done.
      * apply Hk. cbn. left. split_and!; try done. exists (replay log), (pl_store c).
        split; [apply Hc|]. split; [by eapply draws_plenty|done].
    + exists t, (Before n). split; [done|]. split; [done|]. split; [|by right].
      apply Hk. cbn. right. split; [done|done].
  - exists t, (Before n). split; [done|]. split; [done|]. split; [|by right].
    apply Hk. cbn. by right.
  - exists t, (Before n). split; [done|]. split; [done|]. split; [|by right].
    cbn [th_phase phase_ok]. by exists ctx, r, m, x, n.
Qed.

Lemma acquire_ok c i x ctx r m k l st log txns :
  pool_ok c log txns →
  pl_threads c !! i = Some (mkThread (Some x) (Runs (Vis (EAcquire ctx r m) k))) →
  lk_step (ACall ctx x r m) (pl_locks c) l st → (pl_drawn c + S K ≤ limit)%nat →
  pool_ok (mkPool (pl_store c) l (pl_counter c) (pl_drawn c)
    (<[i := mkThread (Some x) (answered k st)]> (pl_threads c))) log txns.
Proof.
  intros Hc Hi Hcall Hlim. pose proof (po_threads _ _ _ Hc _ _ Hi) as (t & md & Ht & Hmd & Hwp & Hg).
  cbn [th_guard th_phase phase_ok] in Hmd, Hwp, Hg. pose proof Hwp as [Ha _].
  destruct md as [n| |v s D|v|v []]; try done.
  destruct Hmd as (Hin & Hn & Hlive). destruct Hg as [|Hg]; [done|].
  pose proof (po_locks _ _ _ Hc) as Hl.
  assert (proper (ACall ctx x r m) (pl_locks c)) as Hpr by by apply Hlive.
  eapply lock_step_ok; try done; [|by cbn; auto].
  eapply (answered_ok c i x ctx r m k st l log txns t n); try done.
  - eapply (lk_live_keeps (ACall ctx x r m)); [done..|by cbn; auto|by apply Hlive].
  - eapply lk_call_status; [done|by apply Hlive|done].
Qed.

Lemma resume_ok c i g tok k l st log txns :
  pool_ok c log txns → pl_threads c !! i = Some (mkThread g (Waits tok k)) →
  lk_step (AResume tok) (pl_locks c) l st → (pl_drawn c + S K ≤ limit)%nat →
  pool_ok (mkPool (pl_store c) l (pl_counter c) (pl_drawn c)
    (<[i := mkThread g (answered k st)]> (pl_threads c))) log txns.
Proof.
  intros Hc Hi Hres Hlim. pose proof (po_threads _ _ _ Hc _ _ Hi) as (t & md & Ht & Hmd & Hph & Hg).
  cbn [th_guard th_phase phase_ok] in Hmd, Hph, Hg.
  destruct Hph as (ctx & r & m & x & n & -> & -> & Hwp & Hpend).
  destruct Hmd as (Hin & Hn & Hlive). destruct Hg as [|Hg]; [done|].
  pose proof (po_locks _ _ _ Hc) as Hl.
  eapply (lock_step_ok c i _ _ (AResume tok)); [done|done|exact I|done| |by cbn; auto|].
  - eapply (answered_ok c i x ctx r m k st l log txns t n); try done.
    + eapply (lk_live_keeps (AResume tok)); [done..|by cbn; auto|by apply Hlive].
    + eapply lk_resume_status; [done|by apply Hlive|done..].
  - intros j th0 tok' k' y r' m' Hne Hj Hph Hy Hp [= ->].
    pose proof (lk_pending_fun _ _ _ _ _ _ _ _ Hl Hp Hpend) as ->.
    by eapply (guards_differ c log txns i j).
Qed.

Lemma release_ok c i x k l st log txns :
  pool_ok c log txns → pl_threads c !! i = Some (mkThread (Some x) (Runs (Vis EReleaseAll k))) →
  lk_step (ARelease x) (pl_locks c) l st →
  pool_ok (mkPool (pl_store c) l (pl_counter c) (pl_drawn c)
    (<[i := mkThread (Some x) (Runs (k ()))]> (pl_threads c))) log txns.
Proof.
  intros Hc Hi Hrel. pose proof (po_threads _ _ _ Hc _ _ Hi) as (t & md & Ht & Hmd & Hwp & Hg).
  cbn in Hmd, Hwp, Hg. destruct Hwp as [Ha Hk].
  eapply lock_step_ok; try done.
  - cbn. destruct md as [n| |v s D|v|v []]; try done.
    + by apply Hmd.
    + by destruct Hmd as (_ & _ & _ & (? & [= <-] & ? & _) & _).
    + by destruct Hmd as (_ & (? & [= <-] & ? & _)).
  - destruct md as [n| |v s D|v|v []]; try done.
    + exists t, Gone. split; [done|]. split; [apply Hmd|]. split; [|done]. by apply Hk.
    + destruct Hmd as (Hin & -> & -> & _). exists t, (Over (replay log) false).
      split; [done|]. split; [|split; [by apply Hk|done]]. cbn. split; [done|].
      exists log. split; [done|]. split; [intros _; apply Hc|done].
    + destruct Hmd as [Hpre _]. exists t, (Over v true). split; [done|]. split; [done|].
      split; [by apply Hk|done].
  - intros j th0 y Hne Hj Hy Heq. cbn in Heq. subst y. by eapply (guards_differ c log txns i j).
Qed.

Lemma begin_ok c i g txn k l st log txns :
  pool_ok c log txns → pl_threads c !! i = Some (mkThread g (Runs (Vis (EBegin txn) k))) →
  lk_step (ABegin txn) (pl_locks c) l st →
  pool_ok (mkPool (pl_store c) l (pl_counter c) (pl_drawn c)
    (<[i := mkThread (Some txn) (Runs (k (Ok ())))]> (pl_threads c))) log txns.
Proof.
  intros Hc Hi Hl. pose proof (po_threads _ _ _ Hc _ _ Hi) as (t & md & Ht & Hmd & [Ha Hk] & Hg).
  cbn in Hmd. destruct md as [n| |v s D|v|v []]; try done. cbn in Ha.
  destruct Hmd as (Hin & Hn & Hlive). pose proof (po_locks _ _ _ Hc) as Hinv.
  eapply (lock_step_ok c i _ _ (ABegin txn)); [done|done|exact I|done| | |done].
  - exists t, (Before n). split; [done|]. split; [|split; [by apply Hk|right; cbn; congruence]].
    cbn. split_and!; try done. intros x [= <-]. by eapply lk_begin_live.
  - intros j th0 y Hne Hj Hy Heq. cbn in Heq. subst y.
    destruct (po_threads _ _ _ Hc _ _ Hj) as (_ & _ & _ & _ & _ & [?|Hg']); [congruence|].
    apply Hne. apply (po_inj _ _ _ Hc j i txn); congruence.
Qed.

Lemma pool_step_drawn c c' : pool_step seeds gr c c' → (pl_drawn c ≤ pl_drawn c')%nat.
Proof.
  destruct 1 as [i g e k c w r _ _ Hl| | | | |]; try done. cbn.
  destruct e; unfold local in Hl; repeat case_match; simplify_eq; cbn; lia.
Qed.

Lemma pool_steps_drawn c c' : rtc (pool_step seeds gr) c c' → (pl_drawn c ≤ pl_drawn c')%nat.
Proof.
  induction 1 as [|c c1 c2 Hstep%pool_step_drawn _ IH]; lia.
Qed.

Lemma pool_step_ok c c' log txns :
  pool_ok c log txns → pool_step seeds gr c c' → (pl_drawn c' + S K ≤ limit)%nat →
  ∃ log' txns', log `prefix_of` log' ∧ pool_ok c' log' txns'.
Proof.
  intros Hc Hstep Hlim. destruct Hstep as [i g e k c w r Hi He Hl|i g txn k c l st Hi Hl
    |i txn ctx r m k c l st Hi Hl|i g tok k c l st Hi Hl|i txn k c l st Hi Hl|c l st Hl].
  - by eapply data_ok.
  - exists log, txns. split; [done|]. by eapply begin_ok.
  - exists log, txns. split; [done|]. by eapply acquire_ok.
  - exists log, txns. split; [done|]. by eapply resume_ok.
  - exists log, txns. split; [done|]. by eapply release_ok.
  - exists log, txns. split; [done|]. pose proof (po_locks _ _ _ Hc) as Hinv.
    destruct Hc as [? ? ? ? ? ? ? ? ? Hth]. split; try done; [by eapply (lk_step_inv AOther)|].
    intros j th Hj. eapply thread_evolves; [|by apply Hth]. split; try done; [by left|..]; intros.
    + by eapply (lk_covers_keeps AOther); [|exact I| |cbn; auto|].
    + by eapply (lk_live_keeps AOther); [|exact I| |cbn; auto|].
    + by eapply (lk_pending_keeps AOther); [|exact I| |cbn; auto| |].
Qed.

Lemma pool_steps_ok c c' log txns :
  pool_ok c log txns → rtc (pool_step seeds gr) c c' → (pl_drawn c' + S K ≤ limit)%nat →
  ∃ log' txns', log `prefix_of` log' ∧ pool_ok c' log' txns'.
Proof.
  intros Hc Hsteps Hlim. revert log txns Hc.
  induction Hsteps as [c|c c1 c2 Hstep Hsteps IH]; intros log txns Hc; [by exists log, txns|].
  destruct (pool_step_ok _ _ _ _ Hc Hstep) as (log1 & txns1 & Hpre & Hc1).
  { apply pool_steps_drawn in Hsteps. lia. }
  destruct (IH Hlim _ _ Hc1) as (log' & txns' & Hpre' & Hc'). exists log', txns'.
  split; [by etrans|done].
Qed.

(** An operation that finished is in [log] exactly if it took effect, and what
    it returned is its answer for the value at its place. *)
Definition placed (log : list nat) (i : nat) (t : task) (a : A) : Prop :=
  (∃ pre, (pre ++ [i])%list `prefix_of` log ∧ above i pre ∧ tk_answer t (replay pre) a) ∨
  (i ∉ log) ∧ (tk_fail t a ∨
    tk_effect t = None ∧ ∃ pre, pre `prefix_of` log ∧ above i pre ∧ tk_answer t (replay pre) a).

Lemma finished_ok c log txns i g a :
  pool_ok c log txns → pl_threads c !! i = Some (mkThread g (Runs (Ret a))) →
  ∃ t, tasks !! i = Some t ∧ placed log i t a.
Proof.
  intros Hc Hi. destruct (po_threads _ _ _ Hc _ _ Hi) as (t & md & Ht & Hmd & Hwp & _).
  exists t. split; [done|]. cbn in Hwp, Hmd.
  destruct md as [n| |v s D|v|v []]; cbn in Hwp; try done.
  - right. split; [apply Hmd|by left].
  - right. split; [done|by left].
  - left. destruct Hmd as (pre & Hpre & Hab & ->). by exists pre.
  - right. destruct Hmd as (Hin & pre & Hpre & Hab & ->). split; [done|].
    destruct Hwp as [[? ?]|?]; [right; eauto|by left].
Qed.

End floor.

(** A thread that has not asked for its transaction yet. *)
Definition unstarted (c : pool) (i : nat) : Prop :=
  ∃ k, pl_threads c !! i = Some (mkThread None (Runs (Vis EAllocTxn k))).

(** Operations that start now find what was done so far. *)
Lemma pool_ok_raise c log txns :
  pool_ok [] (λ _, False) c log txns → pool_ok log (unstarted c) c log txns.
Proof.
  intros [? ? ? ? ? ? ? ? ? Hth]. split; try done. intros i th Hi.
  destruct (Hth i th Hi) as (t & md & Ht & Hmd & Hph & Hg). exists t, md.
  split; [done|]. split; [|done].
  assert ((∀ n, md ≠ Before n) → ¬ unstarted c i) as Hst.
  { intros Hmb [k Hk]. rewrite Hi in Hk. injection Hk as ->. cbn in Hmd, Hph.
    destruct Hph as [Ha _]. destruct md as [m| |v s D|v|v []]; try done. by eapply Hmb. }
  destruct md as [n| |v s D|v|v []]; cbn in *; try done; unfold above in *; naive_solver.
Qed.

(** Every interleaving is equivalent to the operations of a log, one after the
    other, in an order that respects what had finished before what began: at
    every point [c1] of the run there is a log of the operations that took
    effect so far; it only grows; and an operation that had not begun at [c1]
    finds what the operations of [log1] left. *)
Lemma linearizable c c1 c2 txns :
  pool_ok [] (λ _, False) c [] txns →
  rtc (pool_step seeds gr) c c1 → rtc (pool_step seeds gr) c1 c2 →
  (pl_drawn c2 + S K ≤ limit)%nat →
  ∃ log1 log2, log1 `prefix_of` log2 ∧ NoDup log2 ∧ J (replay log2) (pl_store c2) ∧
    (∀ i, i ∈ log2 → ∃ t, tasks !! i = Some t ∧ is_Some (tk_effect t)) ∧
    (∀ i g a, pl_threads c1 !! i = Some (mkThread g (Runs (Ret a))) →
       ∃ t, tasks !! i = Some t ∧ placed [] (λ _, False) log1 i t a) ∧
    (∀ i g a, pl_threads c2 !! i = Some (mkThread g (Runs (Ret a))) →
       ∃ t, tasks !! i = Some t ∧ placed log1 (unstarted c1) log2 i t a).
Proof.
  intros Hc Hs1 Hs2 Hlim. pose proof (pool_steps_drawn _ _ Hs2) as Hd.
  destruct (pool_steps_ok [] (λ _, False) c c1 [] txns) as (log1 & txns1 & _ & Hc1); [done..|lia|].
  destruct (pool_steps_ok log1 (unstarted c1) c1 c2 log1 txns1) as (log2 & txns2 & Hpre & Hc2);
    [by apply pool_ok_raise|done..|].
  exists log1, log2. split; [done|]. split_and!; try apply Hc2.
  - intros i g a Hi. by eapply finished_ok.
  - intros i g a Hi. by eapply finished_ok.
Qed.

End theorem.
End serial.

End pool.

Arguments phase {_ _} A.
Arguments thread {_ _} A.
Arguments pool {_ _} L A.
