(* ===== verification/Strategies.v ===== *)
(** * Concurrency strategies (src/client/client.go, lines 949-1074)

    The guards an operation can get from [newOperationGuard], as locks in the
    sense of file Pool: the lock manager of the local backend, the benchmark's
    global mutex, and no coordination at all. The first two satisfy the laws
    operations rely on. *)

From S2P Require Import Prelude Json Libs LockManager LockManagerInv LockManagerThms.
From S2P Require Import Fencing Pool.
Import LM LMInv LMThms.
Open Scope N_scope.

Inductive ConcurrencyStrategy := StrategySaferCC | StrategyGlobalLock | StrategyNoCC.

(** The guard an operation gets. *)
Inductive guard_kind := coordinationGuard | globalMutexGuardKind | noCCGuardKind.

Definition newOperationGuard (activeConcurrencyStrategy : ConcurrencyStrategy) : guard_kind :=
  match activeConcurrencyStrategy with
  | StrategyGlobalLock => globalMutexGuardKind
  | StrategyNoCC => noCCGuardKind
  | _ => coordinationGuard
  end.

(** ** The local backend: the lock manager *)

Definition lk_outcome (tok : N) (out : outcome) : lk_status :=
  match out with
  | Returned None => Granted
  | Returned (Some e) => Refused e
  | Parked => Waiting tok
  end.

(** A call that parks waits as the request it has just allocated. *)
Inductive lm_act : lk_act → LMState → LMState → lk_status → Prop :=
  | la_begin t st : lm_act (ABegin t) st st Granted
  | la_call ctx t r m st st' out :
      Guard_AcquireContext (NewLockGuard t) (Some (Fencing.lock_ctx ctx)) r m st = (st', out) →
      lm_act (ACall ctx t r m) st st' (lk_outcome (next_ptr st' - 1) out)
  | la_resume tok w e st st' out :
      waiters st !! tok = Some w → w_awake w = true → acquire_iteration w e st = (st', out) →
      lm_act (AResume tok) st st' (lk_outcome tok out)
  | la_release order t st :
      order ≡ₚ heldKeys t st → lm_act (ARelease t) st (ReleaseAll_in order t st).1 Granted
  | la_fires i p st :
      watchers st !! i = Some p → lm_act AOther st (watcherFires i p st) Granted
  | la_stops i st :
      waiters st !! i = None → lm_act AOther st (watcherStops i st) Granted.

(** A waiting request. *)
Definition lm_pending (st : LMState) (tok : N) (t : TxnID) (r : ResourceID) (m : LockMode) : Prop :=
  ∃ p a, waiters st !! tok = Some (mkWaiter (mkReq tok t m) p r a).

#[export] Instance SaferCC : Locking LMState := {|
  lk_step := lm_act;
  lk_covers st t r m := holds st t r = Some m;
  lk_live _ _ := True;
  lk_pending := lm_pending;
  lk_inv := reachable |}.

Lemma lm_act_step a st st' s : lm_act a st st' s → lm_step st st' ∨ st' = st.
Proof.
  destruct 1 as [|ctx t r m st st' out Hc|tok w e st st' out Hw Ha Hi|order t st Ho| |];
    [by right|left..].
  - change st' with (st', out).1. rewrite <-Hc. apply step_acquire.
  - change st' with (st', out).1. rewrite <-Hi. by eapply step_wake.
  - by apply step_release_all.
  - by apply step_watch_fires.
  - by apply step_watch_stops.
Qed.

Lemma lm_act_reachable a st st' s : reachable st → lm_act a st st' s → reachable st'.
Proof. intros Hr [Hs | ->]%lm_act_step; [by eapply rtc_r|done]. Qed.

(** A grant never changes a mode that is held: the request waited for a
    resource its own transaction holds. *)
Lemma grant_keeps st i w e st' t r m :
  reachable st → waiters st !! i = Some w → acquire_iteration w e st = (st', Returned None) →
  holds st t r = Some m → holds st' t r = Some m.
Proof.
  intros HI%reachable_Inv Hw Hit Hh. rewrite (grant_holds_eq _ _ _ _ _ _ Hit).
  destruct (decide _) as [[-> ->]|]; [|done].
  destruct (inv_waiter _ HI _ _ Hw) as (Hid & _ & Hr & Hin).
  destruct (inv_ls _ HI _ _ Hr) as (_ & ls & Hp & Hok). rewrite (deref_Some _ _ _ Hp) in Hin.
  unfold acquire_iteration in Hit. rewrite (deref_Some _ _ _ Hp) in Hit.
  destruct (decide _); [done|]. destruct (canGrant ls (w_req w)) eqn:Hg; [|done].
  apply (lo_held _ _ _ _ Hok) in Hh. unfold canGrant in Hg.
  destruct (lo_queue _ _ _ _ Hok _ Hin) as [[Hm|Hm] _]; rewrite Hm in *; cbn in Hg.
  - destruct Hh as [(_ & Hx & _)|[-> _]]; [by rewrite Hx in Hg|done].
  - destruct Hh as [(_ & Hx & _)|[_ Hin']]; [by rewrite Hx in Hg|].
    destruct (hasExclusive ls); [done|]. cbn in Hg.
    rewrite bool_decide_true in Hg; [done|]. intros Hemp. rewrite Hemp in Hin'. set_solver.
Qed.

Lemma lm_covers_keeps a st st' s t r m :
  reachable st → lm_act a st st' s → ¬ disturbs a t →
  holds st t r = Some m → holds st' t r = Some m.
Proof.
  intros Hreach Hact Hd Hh. destruct Hact as [|ctx t' r' m' st st' out Hc|tok w e st st' out Hw Ha Hi
    |order t' st Ho| |]; try done.
  - unfold Guard_AcquireContext in Hc. cbn [g_txn NewLockGuard] in Hc.
    pose proof (acquire_holds st (Some (Fencing.lock_ctx ctx)) t' r' m') as Hah.
    rewrite Hc in Hah. rewrite Hah. destruct (decide _) as [(-> & -> & ->)|]; [|done].
    destruct (proj1 (ownership_checked st t' r' m' (Some (Fencing.lock_ctx ctx)) m) Hh) as [e He].
    rewrite He in Hc. done.
  - destruct out as [[err|]|].
    + by rewrite (cancel_holds_eq _ _ _ _ _ _ _ Hi).
    + by eapply grant_keeps.
    + unfold acquire_iteration in Hi. repeat case_match; simplify_eq. done.
  - destruct (release_all_holds st order t' Hreach Ho) as (st' & Heq & _ & Hr').
    rewrite Heq. cbn. rewrite Hr', decide_False; [done|]. intros ->. by apply Hd.
Qed.


(** What a request waits for does not change while others act. *)
Definition waits_in (ws : gmap ptr waiter) (tok : N) (t : TxnID) (r : ResourceID) (m : LockMode)
    : Prop := ∃ p a, ws !! tok = Some (mkWaiter (mkReq tok t m) p r a).

Lemma waits_wake ws q tok t r m : waits_in ws tok t r m → waits_in (wake q <$> ws) tok t r m.
Proof.
  intros (p & a & Hw). exists p. unfold waits_in. rewrite lookup_fmap, Hw. cbn. unfold wake. cbn.
  case_decide; eauto.
Qed.

Lemma waits_sweep st r' p tok t r m :
  waits_in (waiters st) tok t r m → waits_in (waiters (sweepIfIdle r' p st)) tok t r m.
Proof. unfold sweepIfIdle. by case_match. Qed.

Lemma iteration_waits w e st st' out tok t r m :
  acquire_iteration w e st = (st', out) → req_id (w_req w) ≠ tok →
  waits_in (waiters st) tok t r m → waits_in (waiters st') tok t r m.
Proof.
  intros Hit Hne Hw.
  assert (waits_in (delete (req_id (w_req w)) (waiters st)) tok t r m) as Hdel.
  { destruct Hw as (p & a & Hw). exists p, a. by rewrite lookup_delete_ne. }
  unfold acquire_iteration in Hit. repeat case_match; simplify_eq.
  - by apply waits_sweep, waits_wake.
  - by apply waits_wake.
  - destruct Hw as (p & a & Hw). exists p, a. cbn. by rewrite lookup_insert_ne.
Qed.

Lemma release_waits t' r' st tok t r m :
  waits_in (waiters st) tok t r m → waits_in (waiters (releaseLocked t' r' st).1) tok t r m.
Proof.
  intros Hw. unfold releaseLocked. repeat case_match; try done. by apply waits_sweep, waits_wake.
Qed.

Lemma release_each_waits t' rs e st tok t r m :
  waits_in (waiters st) tok t r m → waits_in (waiters (releaseEach t' rs e st).1) tok t r m.
Proof.
  revert e st. induction rs as [|r' rs IH]; intros e st Hw; [done|]. cbn.
  pose proof (release_waits t' r' st tok t r m Hw) as Hw'.
  destruct (releaseLocked t' r' st) as [st' err]. by apply IH.
Qed.

(** A call that reaches its first wait has queued a fresh request. *)
Lemma call_waits ctx t' r' m' st st' out :
  Inv st → AcquireContext (Some ctx) t' r' m' st = (st', out) →
  (∀ tok t r m, waits_in (waiters st) tok t r m → waits_in (waiters st') tok t r m) ∧
  (out = Parked → waits_in (waiters st') (next_ptr st' - 1) t' r' m').
Proof.
  intros HI. unfold AcquireContext. destruct (decide _); [by intros [= <- <-]|].
  destruct (ctx_Err ctx); [by intros [= <- <-]|].
  destruct (txnLocks st t' !! r'); [by intros [= <- <-]|].
  assert (∀ st1 p, (waiters st1 = waiters st) → (∀ i w, waiters st !! i = Some w → i < next_ptr st1) →
    (let '(st2, w) := enqueue ctx t' r' m' p st1 in acquire_iteration w None st2) = (st', out) →
    (∀ tok t r m, waits_in (waiters st) tok t r m → waits_in (waiters st') tok t r m) ∧
    (out = Parked → waits_in (waiters st') (next_ptr st' - 1) t' r' m')) as Haux.
  { intros st1 p Hws Hlt Hit. unfold enqueue in Hit. split.
    - intros tok t r m (q & a & Hw). eapply iteration_waits; [exact Hit| |].
      + cbn. apply Hlt in Hw. lia.
      + exists q, a. cbn. rewrite lookup_insert_ne; [by rewrite Hws|]. apply Hlt in Hw. lia.
    - intros ->. unfold acquire_iteration in Hit. cbn in Hit. repeat case_match; simplify_eq;
      exists p, false; cbn; rewrite N.add_sub; by rewrite lookup_insert_eq. }
  pose proof (inv_waiter _ HI) as Hlt. unfold getLockState.
  destruct (resources st !! r') as [p|]; apply Haux; try done; cbn; intros i w Hw;
    destruct (Hlt _ _ Hw) as (_ & ? & _); lia.
Qed.

Lemma lm_pending_keeps a st st' s tok t r m :
  reachable st → lm_act a st st' s → a ≠ AResume tok →
  lm_pending st tok t r m → lm_pending st' tok t r m.
Proof.
  intros HI%reachable_Inv Hact Ha Hp. destruct Hact as [|ctx t' r' m' st st' out Hc
    |tok' w e st st' out Hw Haw Hi|order t' st Ho| |]; try done.
  - by apply (call_waits _ _ _ _ _ _ _ HI Hc).
  - eapply iteration_waits; [exact Hi| |exact Hp].
    destruct (inv_waiter _ HI _ _ Hw) as (-> & _). congruence.
  - by apply release_each_waits.
  - by apply waits_wake.
Qed.

#[export] Instance SaferCC_laws : LockingLaws LMState.
Proof.
  split; cbn.
  - intros a l l' st Hr _. by apply lm_act_reachable.
  - intros a l l' st t r m Hr _. by apply lm_covers_keeps.
  - done.
  - intros a l l' st tok t r m Hr _ Hact _. by eapply lm_pending_keeps.
  - done.
  - intros ctx t r m l l' st Hr _ Hact. inversion Hact as [|? ? ? ? ? ? out Hc| | | |]; subst.
    destruct out as [[e|]|]; cbn; [done|..].
    + pose proof (acquire_holds l (Some (Fencing.lock_ctx ctx)) t r m) as Hah.
      unfold Guard_AcquireContext in Hc. cbn [g_txn NewLockGuard] in Hc. rewrite Hc in Hah.
      by rewrite Hah, decide_True.
    + by apply (call_waits _ _ _ _ _ _ _ (reachable_Inv _ Hr) Hc).
  - intros tok l l' st t r m Hr _ (p & a & Hw) Hact.
    inversion Hact as [| |? w e ? ? out Hw' Haw Hi| | |]; subst. rewrite Hw in Hw'.
    injection Hw' as <-. destruct out as [[err|]|]; cbn; [done|..].
    + rewrite (grant_holds_eq _ _ _ _ _ _ Hi). by rewrite decide_True.
    + unfold acquire_iteration in Hi. repeat case_match; simplify_eq.
      exists p, false. cbn. by rewrite lookup_insert_eq.
  - intros l tok t t' r r' m m' _ (p & a & Hw) (p' & a' & Hw'). congruence.
  - intros l t t' r m Hr Hx Hm. by destruct (exclusive_alone _ _ _ _ _ Hr Hx Hm).
Qed.

(** The lock manager's moves, computed; a waiting call is not cancelled and
    the held locks are released in [heldKeys]' order. *)
Definition lm_move (a : lk_act) (st : LMState) : option (LMState * lk_status) :=
  match a with
  | ABegin _ => Some (st, Granted)
  | ACall ctx t r m =>
      let '(st', out) := Guard_AcquireContext (NewLockGuard t) (Some (Fencing.lock_ctx ctx)) r m st in
      Some (st', lk_outcome (next_ptr st' - 1) out)
  | AResume tok =>
      w ← waiters st !! tok;
      if w_awake w then
        let '(st', out) := acquire_iteration w None st in Some (st', lk_outcome tok out)
      else None
  | ARelease t => Some ((ReleaseAll_in (heldKeys t st) t st).1, Granted)
  | AOther => None
  end.

Lemma lm_move_step a st st' s : lm_move a st = Some (st', s) → lm_act a st st' s.
Proof.
  destruct a as [t|ctx t r m|tok|t|]; cbn -[Guard_AcquireContext]; intros Hm; simplify_eq.
  - constructor.
  - destruct (Guard_AcquireContext _ _ _ _ _) as [st1 out] eqn:E. simplify_eq. by constructor.
  - destruct (waiters st !! tok) as [w|] eqn:Hw; [|done]. cbn in Hm.
    destruct (w_awake w) eqn:Ha; [|done].
    destruct (acquire_iteration w None st) as [st1 out] eqn:E. simplify_eq. by econstructor.
  - by constructor.
Qed.

(** ** The global mutex *)

(** The benchmark's guard: its [sync.Once] and whether it locked the mutex. *)
Record globalMutexGuard := mkGlobalMutexGuard { once : bool; locked : bool }.

(** [globalBenchmarkMutex] with its owner, the guards that exist, and the
    goroutines blocked in [Lock] inside their guard's [once.Do]. *)
Record GlobalMutex := mkGlobalMutex {
  owner : option TxnID;
  guards : gmap TxnID globalMutexGuard;
  blocked : gset TxnID }.

(** [globalBenchmarkMutex.Lock(); g.locked = true], on a free mutex. *)
Definition lockedBy (t : TxnID) (gm : GlobalMutex) : GlobalMutex :=
  mkGlobalMutex (Some t) (<[t := mkGlobalMutexGuard true true]> (guards gm)) (blocked gm ∖ {[t]}).

(** [globalMutexGuard.Acquire]: the first call locks the mutex, whatever the
    resource and the mode; [once.Do] makes a call that finds another one of the
    same guard in progress wait for it. *)
Definition GlobalGuard_Acquire (t : TxnID) (gm : GlobalMutex) : GlobalMutex * lk_status :=
  match guards gm !! t with
  | Some g =>
      if once g then (gm, Granted)
      else if decide (t ∈ blocked gm) then (gm, Waiting t)
      else match owner gm with
      | None => (lockedBy t gm, Granted)
      | Some _ => (mkGlobalMutex (owner gm) (guards gm) ({[t]} ∪ blocked gm), Waiting t)
      end
  | None => (gm, Refused (EMsg "no guard"))
  end.

(** [globalMutexGuard.ReleaseAll] *)
Definition GlobalGuard_ReleaseAll (t : TxnID) (gm : GlobalMutex) : GlobalMutex :=
  match guards gm !! t with
  | Some g => if locked g then mkGlobalMutex None (guards gm) (blocked gm) else gm
  | None => gm
  end.

(** A guard is a new object, so its name is new. *)
Inductive gm_act : lk_act → GlobalMutex → GlobalMutex → lk_status → Prop :=
  | ga_begin t gm : guards gm !! t = None →
      gm_act (ABegin t) gm (mkGlobalMutex (owner gm)
        (<[t := mkGlobalMutexGuard false false]> (guards gm)) (blocked gm)) Granted
  | ga_call ctx t r m gm gm' st :
      GlobalGuard_Acquire t gm = (gm', st) → gm_act (ACall ctx t r m) gm gm' st
  | ga_resume t gm : owner gm = None → t ∈ blocked gm →
      gm_act (AResume t) gm (lockedBy t gm) Granted
  | ga_release t gm : gm_act (ARelease t) gm (GlobalGuard_ReleaseAll t gm) Granted.

(** The guard of [t] is unused, or it owns the mutex. *)
Definition gm_live (gm : GlobalMutex) (t : TxnID) : Prop :=
  guards gm !! t = Some (mkGlobalMutexGuard false false) ∨
  guards gm !! t = Some (mkGlobalMutexGuard true true) ∧ owner gm = Some t.

Record gm_inv (gm : GlobalMutex) : Prop := {
  gi_owner t : owner gm = Some t → guards gm !! t = Some (mkGlobalMutexGuard true true);
  gi_blocked t : t ∈ blocked gm → guards gm !! t = Some (mkGlobalMutexGuard false false) }.

#[export] Instance GlobalLock : Locking GlobalMutex := {|
  lk_step := gm_act;
  lk_covers gm t _ _ := owner gm = Some t;
  lk_live := gm_live;
  lk_pending gm tok t _ _ := tok = t ∧ t ∈ blocked gm;
  lk_inv := gm_inv |}.

Lemma lockedBy_inv t gm : gm_inv gm → gm_inv (lockedBy t gm).
Proof.
  intros [Ho Hb]. split; cbn.
  - intros t' [= <-]. by rewrite lookup_insert_eq.
  - intros t' [Hin Hne]%elem_of_difference. rewrite lookup_insert_ne; [by apply Hb|]. set_solver.
Qed.

Lemma gm_act_inv a gm gm' st : gm_inv gm → proper a gm → gm_act a gm gm' st → gm_inv gm'.
Proof.
  intros HI Hpr Hact. pose proof HI as [Ho Hb]. destruct Hact as [t gm Hn|ctx t r m gm gm' st Hc|t gm Hn Hin|t gm].
  - split; cbn; intros t' Ht'; rewrite lookup_insert_ne; auto; intros ->;
      [rewrite (Ho _ Ht') in Hn|rewrite (Hb _ Ht') in Hn]; done.
  - cbn in Hpr. unfold GlobalGuard_Acquire in Hc.
    destruct (guards gm !! t) as [[[] lk]|] eqn:Hg; cbn in Hc; [by simplify_eq| |by simplify_eq].
    destruct (decide _); [by simplify_eq|].
    destruct (owner gm) as [t'|] eqn:Hown; injection Hc as <- <-; [|by apply lockedBy_inv].
    split; cbn; [done|]. intros t2 [->%elem_of_singleton|?]%elem_of_union; [|by apply Hb].
    destruct Hpr as [?|[? ?]]; congruence.
  - by apply lockedBy_inv.
  - unfold GlobalGuard_ReleaseAll. by repeat case_match.
Qed.

#[export] Instance GlobalLock_laws : LockingLaws GlobalMutex.
Proof.
  split; cbn.
  - apply gm_act_inv.
  - intros a gm gm' st t _ _ HI Hpr Hact Hd Hown.
    destruct Hact as [t' gm Hn|ctx t' r m gm gm' st Hc|t' gm Hn Hin|t' gm]; cbn; try done.
    + unfold GlobalGuard_Acquire in Hc. repeat case_match; simplify_eq; done.
    + congruence.
    + unfold GlobalGuard_ReleaseAll. cbn in Hpr, Hd. repeat case_match; try done. cbn.
      destruct Hpr as [Hg|[_ Hg]]; [|congruence].
      rewrite Hg in *. by simplify_eq.
  - intros a gm gm' st t HI Hpr Hact Hd Hlive.
    assert (∀ t', t' ≠ t → owner gm = None → gm_live (lockedBy t' gm) t) as Hother.
    { intros t' Hne Hn. left. cbn. rewrite lookup_insert_ne by done.
      destruct Hlive as [?|[_ ?]]; [done|congruence]. }
    assert (∀ t', gm_live (lockedBy t' gm) t') as Hself
      by (intros t'; right; cbn; by rewrite lookup_insert_eq).
    destruct Hact as [t' gm Hn|ctx t' r m gm gm' st Hc|t' gm Hn Hin|t' gm]; cbn in Hd.
    + unfold gm_live in *. cbn. by rewrite lookup_insert_ne.
    + unfold GlobalGuard_Acquire in Hc. destruct (guards gm !! t') as [[[] lk]|] eqn:Hg;
        cbn in Hc; [by simplify_eq| |by simplify_eq].
      destruct (decide _); [by simplify_eq|].
      destruct (owner gm) as [o|] eqn:Hown; injection Hc as <- <-.
      * unfold gm_live in *. cbn. by rewrite <-Hown.
      * destruct (decide (t' = t)) as [->|]; auto.
    + destruct (decide (t' = t)) as [->|]; auto.
    + unfold GlobalGuard_ReleaseAll. repeat case_match; try done. unfold gm_live in *. cbn in *.
      destruct Hlive as [?|[? Hown]]; [by left|].
      destruct Hpr as [Hg|[_ Hg]]; [|congruence].
      rewrite Hg in *. by simplify_eq.
  - intros a gm gm' st tok t _ _ HI Hpr Hact Hd Ha [-> Hin]. split; [done|].
    destruct Hact as [t' gm Hn|ctx t' r m gm gm' st Hc|t' gm Hn Hin'|t' gm]; cbn; try done.
    + unfold GlobalGuard_Acquire in Hc. repeat case_match; simplify_eq; try done; set_solver.
    + set_solver.
    + unfold GlobalGuard_ReleaseAll. by repeat case_match.
  - intros t gm gm' st HI Hact. inversion Hact; subst. left. cbn. by rewrite lookup_insert_eq.
  - intros ctx t r m gm gm' st HI Hlive Hact. inversion Hact as [|? ? ? ? ? ? ? Hc| |]; subst.
    unfold GlobalGuard_Acquire in Hc. destruct Hlive as [Hg|[Hg Hown]]; rewrite Hg in Hc; cbn in Hc.
    + destruct (decide _); [by simplify_eq|].
      destruct (owner gm); simplify_eq; cbn; [set_solver|done].
    + by simplify_eq.
  - intros tok gm gm' st t _ _ HI Hlive [-> Hin] Hact. by inversion Hact; subst.
  - by intros gm tok t t' _ _ _ _ _ [-> _] [-> _].
  - intros gm t t' _ _ _ Hx Hm. congruence.
Qed.

(** ** No coordination *)

(** [noCCGuard]: every call returns at once. Nothing is held, so there are no
    laws. *)
Inductive no_act : lk_act → unit → unit → lk_status → Prop :=
  | na_act a : no_act a () () Granted.

Definition NoCC : Locking unit := {|
  lk_step := no_act;
  lk_covers _ _ _ _ := False;
  lk_live _ _ := True;
  lk_pending _ _ _ _ _ := False;
  lk_inv _ := True |}.

Definition no_move (_ : lk_act) (_ : unit) : option (unit * lk_status) := Some ((), Granted).
