(* ===== verification/FileModel.v ===== *)
(** * Files as the client stores them

    The envelope round trip, the representation of a file in the store (a
    namespace entry, an access box, a signed status, metadata and a chain of
    chunks), and what the operations' helpers do on a represented file. *)

From S2P Require Import Prelude Json JsonThms Libs LockManager LockManagerInv.
From S2P Require Import LockManagerSeq Fencing SaferTypes Effects Client LocalEnv.
Import Json JsonThms LM LMSeq.
Open Scope string_scope.

Section model.
Context `{UuidLib} `{Userlib} `{!UuidNew} `{!UuidLaws} `{!UserlibLaws}.

(** ** Helpers on the local environment *)

Lemma run_newUUID w : run local newUUID w = (advance w, Ok (uuid_New (tape w (drawn w)))).
Proof. done. Qed.

Lemma run_randomBytes n w :
  run local (randomBytes n) w = (advance w, Ok (RandomBytes n (tape w (drawn w)))).
Proof. done. Qed.

Lemma run_lift {A B} (r : result A) (f : A → M B) a w :
  r = Ok a → run local (lift r ≫= f) w = run local (f a) w.
Proof. by intros ->. Qed.

Lemma guard_false {B} msg (f : unit → M B) : (guard_ false msg ≫= f) = f ().
Proof. done. Qed.

(** A computation whose run is known is skipped. *)
Lemma run_step {A B} (p : M A) (f : A → M B) w w' a :
  run local p w = (w', Ok a) → run local (p ≫= f) w = run local (f a) w'.
Proof. intros Hp. by rewrite run_bind, Hp. Qed.

Lemma run_step2 {A B C} (p : M (A * B)) (f : A → B → M C) w w' a b :
  run local p w = (w', Ok (a, b)) →
  run local ('(x, y) ← p; f x y) w = run local (f a b) w'.
Proof. intros Hp. by rewrite run_bind, Hp. Qed.

(** ** The envelope *)

(** Keys an object can be sealed with. *)
Definition key16 (k : slice) : Prop := slen k = symmetricKeySize.

Lemma key16_Some s : String.length s = 16%nat → key16 (Some s).
Proof. done. Qed.

Lemma key16_random s : key16 (Some (RandomBytes 16 s)).
Proof. apply key16_Some. by rewrite RandomBytes_length. Qed.

(** Sealing and opening: whatever IV is drawn, the bytes
    [protectDatastoreObject] makes for an object open, under the same type,
    UUID and keys, to that object. *)
Lemma protect_run {T} h enc dec (zero x : T) t u ek mk w :
  t ≠ "" → u ≠ uuid_Nil → key16 ek → key16 mk →
  (h ≤ maxNestingDepth)%N → codec_ok h enc dec zero x →
  ∃ bytes, run local (protectDatastoreObject t u (enc x) ek mk) w = (advance w, Ok bytes) ∧
    openEnvelope t u ek mk dec zero bytes = Ok x.
Proof.
  intros Ht Hu Hek Hmk Hh Hx. unfold protectDatastoreObject.
  rewrite !bool_decide_false by done. unfold key16, slen in *. rewrite Hek, Hmk. cbn [negb orb Nat.eqb].
  rewrite !guard_false. unfold Marshal. cbn [lift].
  set (iv := RandomBytes (N.of_nat AESBlockSizeBytes) (tape w (drawn w))).
  assert (String.length iv = 16%nat) as Hiv by apply RandomBytes_length.
  set (ct := SymEnc (bytes_of ek) iv (print (enc x))).
  destruct (HMACEval_total (bytes_of mk) (datastoreObjectMACMessage t u ct)) as (mac & Hmac & Hl);
    [done|].
  exists (print (enc_AuthenticatedEnvelope (mkAuthenticatedEnvelope (Some ct) (Some mac)))).
  split.
  - cbn -[datastoreObjectMACMessage print enc_AuthenticatedEnvelope].
    fold iv ct. rewrite Hmac. done.
  - unfold openEnvelope.
    ok_step; [by rewrite (Unmarshal_print 1) by (done || apply envelope_codec)|].
    ok_guard; [change (negb (String.length mac =? HashSizeBytes)%nat = false); by rewrite Hl|].
    ok_step; [exact Hmac|].
    ok_guard; [by rewrite HMACEqual_spec, bool_decide_true|].
    ok_guard; [by apply Nat.ltb_ge, SymEnc_length|].
    change (bytes_of (env_Ciphertext _)) with ct. unfold ct. rewrite SymDec_Enc by done.
    by rewrite (Unmarshal_print h).
Qed.

(** ** Reading sealed objects *)

Lemma run_guard {B} b msg (f : unit → M B) w :
  b = false → run local (guard_ b msg ≫= f) w = run local (f ()) w.
Proof. by intros ->. Qed.

(** The store holds, at [u], bytes that open to [x]. *)
Record opens {T} (s : UserlibStore) (t : string) (u : UUID) (ek mk : slice)
    (dec : json → T → option T) (zero x : T) : Prop := {
  op_uuid : u ≠ uuid_Nil;
  op_ek : key16 ek;
  op_mk : key16 mk;
  op_bytes : ∃ bytes, Datastore s !! u = Some bytes ∧ openEnvelope t u ek mk dec zero bytes = Ok x }.

Lemma opens_ext {T} s s' t u ek mk dec (zero x : T) :
  Datastore s' !! u = Datastore s !! u →
  opens s t u ek mk dec zero x → opens s' t u ek mk dec zero x.
Proof. intros He [? ? ? (b & Hb & Ho)]. split; [done..|]. exists b. by rewrite He. Qed.

Lemma load_run {T} ctx t u ek mk dec (zero x : T) w :
  t ≠ "" → opens (store w) t u ek mk dec zero x →
  run local (loadDatastoreObject ctx t u ek mk dec zero) w = (w, Ok x).
Proof.
  intros Ht [Hu Hek Hmk (b & Hb & Ho)]. unfold loadDatastoreObject.
  rewrite !run_guard; [|unfold key16 in *; by rewrite Hek, Hmk|by apply bool_decide_false..].
  erewrite run_step by done. unfold UserlibObjectStore_Get. rewrite Hb.
  rewrite (run_lift _ _ b) by done. cbn. by rewrite Ho.
Qed.

Lemma load_missing {T} ctx t u ek mk dec (zero : T) w :
  t ≠ "" → u ≠ uuid_Nil → key16 ek → key16 mk → Datastore (store w) !! u = None →
  run local (loadDatastoreObject ctx t u ek mk dec zero) w =
    (w, Err (EMsg "required datastore object is missing")).
Proof.
  intros Ht Hu Hek Hmk Hnone. unfold loadDatastoreObject.
  rewrite !run_guard; [|unfold key16 in *; by rewrite Hek, Hmk|by apply bool_decide_false..].
  erewrite run_step by done. unfold UserlibObjectStore_Get. by rewrite Hnone.
Qed.

(** ** The representation of a file *)

(** The well-formedness checks on a namespace entry and on an access box. *)
Record entry_wf (ne : NamespaceEntry) : Prop := {
  ew_file : ne_FileID ne ≠ uuid_Nil;
  ew_box : ne_AccessBoxUUID ne ≠ uuid_Nil;
  ew_ek : key16 (ne_AccessBoxEncKey ne);
  ew_mk : key16 (ne_AccessBoxMACKey ne) }.

Record box_wf (ab : AccessBox) : Prop := {
  bw_epoch : ab_EpochID ab ≠ uuid_Nil;
  bw_meta : ab_MetadataUUID ab ≠ uuid_Nil;
  bw_ek : key16 (ab_MetadataEncKey ab);
  bw_mk : key16 (ab_MetadataMACKey ab);
  bw_root : key16 (ab_FileRoot ab);
  bw_structure : ab_AccessBoxStructureUUID ab ≠ uuid_Nil;
  bw_status : ab_StatusUUID ab ≠ uuid_Nil;
  bw_owner : ab_OwnerVerifyKeyName ab ≠ "" }.

(** The status record of [ab] verifies. *)
Record status_ok (s : UserlibStore) (ab : AccessBox) : Prop := {
  so_status : ∃ bytes status vk, Datastore s !! ab_StatusUUID ab = Some bytes ∧
    Unmarshal dec_FileStatus zero_FileStatus bytes = Some status ∧
    Keystore s !! ab_OwnerVerifyKeyName ab = Some vk ∧
    checkFileStatus ab status vk = Ok () }.

(** A chain of chunks from [cur] back to the base: UUIDs and contents, the
    tail first. *)
Fixpoint chain (s : UserlibStore) (ab : AccessBox) (cur : UUID) (cs : list (UUID * slice))
    : Prop :=
  match cs with
  | [] => cur = uuid_Nil
  | (u, c) :: cs =>
      cur = u ∧ ∃ ek mk prev,
        deriveChunkKeys (ab_FileRoot ab) u = Ok (ek, mk) ∧
        opens s chunkObjectType u ek mk dec_Chunk zero_Chunk
          (mkChunk (ab_FileID ab) (ab_EpochID ab) (N.of_nat (length cs)) prev c) ∧
        chain s ab prev cs
  end.

(** The bytes of the file. *)
Definition content_of (cs : list (UUID * slice)) : string := joinReversed cs.*2.

(** Metadata, chunks and status under the access box [ab]. *)
Record file_rep (s : UserlibStore) (ab : AccessBox) (md : Metadata) (cs : list (UUID * slice))
    : Prop := {
  fr_wf : box_wf ab;
  fr_status : status_ok s ab;
  fr_meta : opens s metadataObjectType (ab_MetadataUUID ab) (ab_MetadataEncKey ab)
    (ab_MetadataMACKey ab) dec_Metadata zero_Metadata md;
  fr_file : md_FileID md = ab_FileID ab;
  fr_epoch : md_EpochID md = ab_EpochID ab;
  fr_version : (1 ≤ md_Version md ≤ max_uint64)%N;
  fr_count : md_ChunkCount md = N.of_nat (length cs);
  fr_count_le : (md_ChunkCount md ≤ md_Version md)%N;
  fr_nonempty : cs ≠ [];
  fr_chain : chain s ab (md_TailUUID md) cs;
  fr_distinct : NoDup (ab_StatusUUID ab :: ab_MetadataUUID ab :: cs.*1) }.

(** The namespace entry of [filename]. *)
Record names (s : UserlibStore) (u : User) (filename : string) (nu : UUID) (ne : NamespaceEntry)
    : Prop := {
  nm_name : getNameSpaceEntryUUID (Username u) filename = Ok nu;
  nm_entry : ∃ ek mk, deriveNamespaceEntryKeys (u_NamespaceRoot u) filename = Ok (ek, mk) ∧
    opens s namespaceEntryObjectType nu ek mk dec_NamespaceEntry zero_NamespaceEntry ne;
  nm_wf : entry_wf ne }.

(** [u] resolves [filename] to the access box [ab]. *)
Record resolves (s : UserlibStore) (u : User) (filename : string) (nu : UUID)
    (ne : NamespaceEntry) (ab : AccessBox) : Prop := {
  rs_name : getNameSpaceEntryUUID (Username u) filename = Ok nu;
  rs_entry : ∃ ek mk, deriveNamespaceEntryKeys (u_NamespaceRoot u) filename = Ok (ek, mk) ∧
    opens s namespaceEntryObjectType nu ek mk dec_NamespaceEntry zero_NamespaceEntry ne;
  rs_entry_wf : entry_wf ne;
  rs_box : opens s accessBoxObjectType (ne_AccessBoxUUID ne) (ne_AccessBoxEncKey ne)
    (ne_AccessBoxMACKey ne) dec_AccessBox zero_AccessBox ab;
  rs_file : ab_FileID ab = ne_FileID ne }.

(** The abstract view: [u] reads [content] at [version] under [filename]. The
    objects involved have distinct UUIDs. *)
Definition has_file (s : UserlibStore) (u : User) (filename : string) (content : string)
    (version : N) : Prop :=
  ∃ nu ne ab md cs, resolves s u filename nu ne ab ∧ file_rep s ab md cs ∧
    NoDup (nu :: ne_AccessBoxUUID ne :: ab_StatusUUID ab :: ab_MetadataUUID ab :: cs.*1) ∧
    content = content_of cs ∧ version = md_Version md.

(** ** The helpers on a represented file *)

Lemma chain_ext s s' ab cur cs :
  (∀ u, u ∈ cs.*1 → Datastore s' !! u = Datastore s !! u) →
  chain s ab cur cs → chain s' ab cur cs.
Proof.
  revert cur. induction cs as [|[u c] cs IH]; intros cur He; [done|].
  intros (-> & ek & mk & prev & Hk & Ho & Hc). split; [done|]. exists ek, mk, prev.
  split; [done|]. split; [|apply IH; [|done]].
  - eapply opens_ext; [|exact Ho]. apply He. by left.
  - intros u' Hu'. apply He. by right.
Qed.

Lemma resolves_names s u f nu ne ab : resolves s u f nu ne ab → names s u f nu ne.
Proof. by intros []. Qed.

Lemma loadNamespaceEntry_run s u f nu ne ctx w :
  names s u f nu ne → store w = s →
  run local (loadNamespaceEntry ctx (Some u) f) w = (w, Ok ne).
Proof.
  intros [Hn (ek & mk & Hk & Ho) [? ? ? ?]] <-. unfold loadNamespaceEntry.
  rewrite (run_lift _ _ u) by done. rewrite (run_lift _ _ nu) by done.
  rewrite (run_lift _ _ (ek, mk)) by done.
  erewrite run_step by (by apply load_run).
  unfold key16 in *.
  rewrite !run_guard; [done|..]; first [by apply bool_decide_false | by apply negb_false_iff, Nat.eqb_eq].
Qed.

Lemma verifyFileStatus_run ctx ab w :
  ab_StatusUUID ab ≠ uuid_Nil → status_ok (store w) ab →
  run local (verifyFileStatus ctx ab) w = (w, Ok ()).
Proof.
  intros Hn [(b & st & vk & Hb & Hu & Hk & Hc)]. unfold verifyFileStatus.
  rewrite run_guard by (by apply bool_decide_false).
  erewrite run_step by done. unfold UserlibObjectStore_Get. rewrite Hb.
  rewrite (run_lift _ _ b) by done. rewrite (run_lift _ _ st) by (by rewrite Hu).
  erewrite run_step by done. unfold UserlibKeyStore_Get. rewrite Hk.
  rewrite (run_lift _ _ vk) by done. cbn. by rewrite Hc.
Qed.

(** An access box that opens passes every check but, perhaps, that of its
    status. *)
Lemma validate_status ctx ne ab w :
  opens (store w) accessBoxObjectType (ne_AccessBoxUUID ne) (ne_AccessBoxEncKey ne)
    (ne_AccessBoxMACKey ne) dec_AccessBox zero_AccessBox ab →
  ab_FileID ab = ne_FileID ne → box_wf ab →
  run local (validateFileAccessUnderLock ctx ne) w =
    run local (_ ← verifyFileStatus ctx ab; mret ab) w.
Proof.
  intros Hb Hf []. unfold validateFileAccessUnderLock, key16 in *.
  erewrite run_step by (by apply load_run).
  by rewrite !run_guard;
    [|first [by apply bool_decide_false | by rewrite Hf, bool_decide_false by naive_solver
      | by apply negb_false_iff, Nat.eqb_eq
      | by apply orb_false_iff; split; apply negb_false_iff, Nat.eqb_eq]..].
Qed.

Lemma validate_run s u f nu ne ab ctx w :
  resolves s u f nu ne ab → box_wf ab → status_ok s ab → store w = s →
  run local (validateFileAccessUnderLock ctx ne) w = (w, Ok ab).
Proof.
  intros [_ _ _ Hb Hf] Hwf Hs <-. rewrite (validate_status _ _ ab) by done.
  erewrite run_step by (by apply verifyFileStatus_run; [apply Hwf|]). done.
Qed.

Lemma loadMetadata_run s ab md cs ctx w :
  file_rep s ab md cs → store w = s → run local (loadMetadata ctx ab) w = (w, Ok md).
Proof.
  intros Hr <-. pose proof (fr_meta _ _ _ _ Hr) as Ho. unfold loadMetadata.
  erewrite run_step by (by apply load_run).
  destruct Hr as [_ _ _ Hf He Hv Hc _ Hne Hch _].
  rewrite !run_guard; [done|..]; apply bool_decide_eq_false; try lia; try naive_solver.
  - destruct cs as [|[u c] cs]; [done|]. destruct Hch as (-> & ? & ? & ? & ? & [? _ _ _] & _). done.
  - rewrite Hc. destruct cs; [done|]. cbn. lia.
Qed.

Lemma walkChunks_run ctx ab cs w : ∀ cur seen rev ids,
  chain (store w) ab cur cs → NoDup cs.*1 → (∀ u, u ∈ cs.*1 → u ∉ seen) →
  run local (walkChunks ctx ab (length cs) cur seen rev ids) w =
    (w, Ok (uuid_Nil, (rev ++ cs.*2)%list, (ids ++ cs.*1)%list)).
Proof.
  induction cs as [|[u c] cs IH]; intros cur seen rev ids Hc Hnd Hs.
  - cbn in *. by rewrite Hc, !(right_id_L [] (++)%list).
  - destruct Hc as (-> & ek & mk & prev & Hk & Ho & Hc).
    apply NoDup_cons in Hnd as [Hu Hnd]. cbn [length walkChunks].
    pose proof (op_uuid _ _ _ _ _ _ _ _ Ho) as Hn.
    rewrite !run_guard by (apply bool_decide_false; try done; apply Hs; by left).
    rewrite (run_lift _ _ (ek, mk)) by done.
    erewrite run_step by (by apply load_run).
    rewrite (run_lift _ _ ()).
    + cbn [ck_PrevUUID ck_Content]. rewrite IH; [|done|done|].
      * cbn. by rewrite <-!(assoc_L (++)%list).
      * intros u' Hu'. apply not_elem_of_union. split; [|apply Hs; by right].
        apply not_elem_of_singleton. by intros ->.
    + unfold checkChunk. cbn [ck_FileID ck_EpochID ck_Index ck_PrevUUID].
      ok_guard; [by apply bool_decide_false; auto|]. ok_guard; [by apply bool_decide_false; auto|].
      ok_guard; [by apply bool_decide_false; auto|].
      destruct cs as [|[u' c'] cs]; cbn [length].
      * rewrite decide_True by done. apply fail_if_Ok, bool_decide_false. cbn in Hc. naive_solver.
      * rewrite decide_False by lia. apply fail_if_Ok, bool_decide_false.
        destruct Hc as (-> & ? & ? & ? & ? & [? _ _ _] & _). done.
Qed.

Lemma loadFileContent_run s ab md cs ctx w :
  file_rep s ab md cs → store w = s →
  run local (loadFileContentAndChunkUUIDs ctx ab md) w = (w, Ok (content_of cs, cs.*1)).
Proof.
  intros Hr <-. unfold loadFileContentAndChunkUUIDs.
  rewrite (fr_count _ _ _ _ Hr), Nat2N.id.
  pose proof (fr_distinct _ _ _ _ Hr) as Hnd.
  do 2 apply NoDup_cons in Hnd as [_ Hnd].
  rewrite run_bind, walkChunks_run; [|apply (fr_chain _ _ _ _ Hr)|done|set_solver].
  cbn [app]. rewrite run_guard by (by apply bool_decide_false; auto). done.
Qed.

(** ** Fresh draws *)

(** The next [n] UUIDs the environment draws are new to the store. *)
Definition drawn_uuid (w : World) (i : nat) : UUID := uuid_New (tape w (drawn w + i)%nat).

Record fresh (w : World) (n : nat) : Prop := {
  fresh_nodup : NoDup (drawn_uuid w <$> seq 0 n);
  fresh_nil i : (i < n)%nat → drawn_uuid w i ≠ uuid_Nil;
  fresh_store i : (i < n)%nat → Datastore (store w) !! drawn_uuid w i = None }.

Lemma drawn_same w w' i : same_data w w' → drawn_uuid w' i = drawn_uuid w i.
Proof. intros (_ & Ht & Hd). unfold drawn_uuid. by rewrite Ht, Hd. Qed.

Lemma fresh_same w w' n : same_data w w' → fresh w n → fresh w' n.
Proof.
  intros (Hs & Ht & Hd) [Hn Hz Hf].
  assert (∀ i, drawn_uuid w' i = drawn_uuid w i) as He.
  { intros i. unfold drawn_uuid. by rewrite Ht, Hd. }
  split.
  - by erewrite list_fmap_ext by (intros; apply He).
  - intros i Hi. rewrite He. by apply Hz.
  - intros i Hi. rewrite He, Hs. by apply Hf.
Qed.

Lemma fresh_le w m n : fresh w m → (n ≤ m)%nat → fresh w n.
Proof.
  intros [Hn Hz Hf] Hle. split; [|intros; apply Hz; lia|intros; apply Hf; lia].
  replace m with (n + (m - n))%nat in Hn by lia. rewrite seq_app, fmap_app in Hn.
  by apply NoDup_app in Hn as [? _].
Qed.

Lemma opens_stored {T} s t u ek mk dec (zero x : T) :
  opens s t u ek mk dec zero x → Datastore s !! u ≠ None.
Proof. intros [_ _ _ (b & Hb & _)]. by rewrite Hb. Qed.

Lemma chain_stored s ab cur cs u : chain s ab cur cs → u ∈ cs.*1 → Datastore s !! u ≠ None.
Proof.
  revert cur. induction cs as [|[u' c] cs IH]; intros cur Hc Hu; [by apply elem_of_nil in Hu|].
  destruct Hc as (-> & ek & mk & prev & _ & Ho & Hc).
  apply elem_of_cons in Hu as [->|Hu]; [by eapply opens_stored|by eapply IH].
Qed.

(** ** Keys and contents *)

Lemma deriveChunkKeys_ok root u :
  key16 root → ∃ ek mk, deriveChunkKeys root u = Ok (ek, mk) ∧ key16 ek ∧ key16 mk.
Proof.
  intros Hr. unfold key16, deriveChunkKeys in *.
  destruct (HashKDF_total (bytes_of root) ("file-chunk-enc:" +:+ uuid_String u) Hr)
    as (e & He & Hel).
  destruct (HashKDF_total (bytes_of root) ("file-chunk-mac:" +:+ uuid_String u) Hr)
    as (m & Hm & Hml).
  exists (Some (take_bytes 16 e)), (Some (take_bytes 16 m)). split_and!.
  - ok_guard; [by rewrite Hr|]. ok_step; [exact He|]. ok_step; [exact Hm|]. done.
  - apply take_bytes_length. rewrite Hel. unfold HashSizeBytes, symmetricKeySize. lia.
  - apply take_bytes_length. rewrite Hml. unfold HashSizeBytes, symmetricKeySize. lia.
Qed.

Lemma content_of_cons u c cs : content_of ((u, c) :: cs) = content_of cs +:+ bytes_of c.
Proof.
  unfold content_of, joinReversed. cbn [fmap list_fmap snd].
  by rewrite reverse_cons, foldl_app.
Qed.

Lemma nextMetadataVersion_ok v :
  (v < max_uint64)%N → nextMetadataVersion v = Ok (v + 1)%N.
Proof.
  intros Hv. unfold nextMetadataVersion. rewrite decide_False by lia.
  by rewrite u64_add_small by lia.
Qed.

(** ** Replacing the contents of a file *)

(** A file keeps its access box and its status while its metadata and chunks
    are replaced. *)
Lemma file_rep_replace s s' ab md cs md' cs' :
  file_rep s ab md cs →
  Keystore s' = Keystore s →
  Datastore s' !! ab_StatusUUID ab = Datastore s !! ab_StatusUUID ab →
  opens s' metadataObjectType (ab_MetadataUUID ab) (ab_MetadataEncKey ab)
    (ab_MetadataMACKey ab) dec_Metadata zero_Metadata md' →
  md_FileID md' = ab_FileID ab → md_EpochID md' = ab_EpochID ab →
  (1 ≤ md_Version md' ≤ max_uint64)%N →
  md_ChunkCount md' = N.of_nat (length cs') → (md_ChunkCount md' ≤ md_Version md')%N →
  cs' ≠ [] → chain s' ab (md_TailUUID md') cs' →
  NoDup (ab_StatusUUID ab :: ab_MetadataUUID ab :: cs'.*1) →
  file_rep s' ab md' cs'.
Proof.
  intros [Hwf [(b & st & vk & Hb & Hu & Hk & Hc)] _ _ _ _ _ _ _ _ _] HK HS.
  intros. split; try done. split. exists b, st, vk. by rewrite HS, HK.
Qed.

(** A name keeps resolving to its access box while other objects change. *)
Lemma resolves_ext s s' u f nu ne ab :
  Datastore s' !! nu = Datastore s !! nu →
  Datastore s' !! ne_AccessBoxUUID ne = Datastore s !! ne_AccessBoxUUID ne →
  resolves s u f nu ne ab → resolves s' u f nu ne ab.
Proof.
  intros Hn Hb [? (ek & mk & Hk & Ho) ? Hbox ?]. split; try done.
  - exists ek, mk. split; [done|]. by eapply opens_ext.
  - by eapply opens_ext.
Qed.

(** [s'] represents, under the same access box, the file with the chunks
    [cs'] instead of [cs]; nothing but the metadata and the chunks changed. *)
Record published (s s' : UserlibStore) (ab : AccessBox) (cs : list (UUID * slice))
    (md' : Metadata) (cs' : list (UUID * slice)) : Prop := {
  pl_keys : Keystore s' = Keystore s;
  pl_rep : file_rep s' ab md' cs';
  pl_ids id : id ∈ cs'.*1 → id ∈ cs.*1 ∨ Datastore s !! id = None;
  pl_frame id : Datastore s !! id ≠ None → id ≠ ab_MetadataUUID ab → id ∉ cs.*1 →
    Datastore s' !! id = Datastore s !! id;
  pl_dom id : Datastore s' !! id ≠ None → Datastore s !! id ≠ None ∨ id ∈ cs'.*1 }.

Lemma published_has_file s s' u f nu ne ab md cs md' cs' :
  resolves s u f nu ne ab → file_rep s ab md cs →
  NoDup (nu :: ne_AccessBoxUUID ne :: ab_StatusUUID ab :: ab_MetadataUUID ab :: cs.*1) →
  published s s' ab cs md' cs' → has_file s' u f (content_of cs') (md_Version md').
Proof.
  intros Hr Hf Hnd [HK Hrep Hids HS _].
  destruct (rs_entry _ _ _ _ _ _ Hr) as (? & ? & _ & Ho). apply opens_stored in Ho.
  pose proof (opens_stored _ _ _ _ _ _ _ _ (rs_box _ _ _ _ _ _ Hr)) as Hb.
  rewrite !NoDup_cons, !not_elem_of_cons in Hnd.
  exists nu, ne, ab, md', cs'. split; [|split; [done|split; [|done]]].
  - eapply resolves_ext; [..|exact Hr]; apply HS; naive_solver.
  - pose proof (fr_distinct _ _ _ _ Hrep) as Hd.
    assert (nu ∉ cs'.*1) by (intros [?|?]%Hids; naive_solver).
    assert (ne_AccessBoxUUID ne ∉ cs'.*1) by (intros [?|?]%Hids; naive_solver).
    rewrite !NoDup_cons, !not_elem_of_cons in *. naive_solver.
Qed.

(** Publishing a new tail [u0] with content [x] on top of the [kept] chunks,
    with the metadata [md'] that names it, while the chunks in [gone] are
    reclaimed. *)
Lemma publish s s' ab md cs u0 x prev kept gone ek mk b1 b2 md' :
  file_rep s ab md cs →
  u0 ≠ uuid_Nil → Datastore s !! u0 = None →
  deriveChunkKeys (ab_FileRoot ab) u0 = Ok (ek, mk) → key16 ek → key16 mk →
  openEnvelope chunkObjectType u0 ek mk dec_Chunk zero_Chunk b1 =
    Ok (mkChunk (ab_FileID ab) (ab_EpochID ab) (N.of_nat (length kept)) prev x) →
  openEnvelope metadataObjectType (ab_MetadataUUID ab) (ab_MetadataEncKey ab)
    (ab_MetadataMACKey ab) dec_Metadata zero_Metadata b2 = Ok md' →
  md_FileID md' = ab_FileID ab → md_EpochID md' = ab_EpochID ab → md_TailUUID md' = u0 →
  md_ChunkCount md' = (N.of_nat (length kept) + 1)%N →
  (md_ChunkCount md' ≤ md_Version md' ≤ max_uint64)%N →
  chain s ab prev kept → kept.*1 `sublist_of` cs.*1 → gone ⊆ cs.*1 →
  (∀ id, id ∈ kept.*1 → id ∉ gone) →
  Keystore s' = Keystore s → Datastore s' !! u0 = Some b1 →
  Datastore s' !! ab_MetadataUUID ab = Some b2 →
  (∀ id, id ≠ u0 → id ≠ ab_MetadataUUID ab → id ∉ gone →
     Datastore s' !! id = Datastore s !! id) →
  published s s' ab cs md' ((u0, x) :: kept).
Proof.
  intros Hf Hu0 Hnew Hk Hek Hmk Ho1 Ho2 Hfile Hep Htail Hcnt Hle Hch Hsub Hg Hkg HK Hp1 Hp2 Hsame.
  assert (∀ id, Datastore s !! id ≠ None → id ≠ u0) as Hne by naive_solver.
  assert (ab_StatusUUID ab ≠ u0 ∧ ab_MetadataUUID ab ≠ u0) as (Hn3 & Hn4).
  { split; apply Hne; [|eapply opens_stored, Hf].
    destruct (fr_status _ _ _ _ Hf) as [(b & ? & ? & Hb & _)]. by rewrite Hb. }
  pose proof (fr_distinct _ _ _ _ Hf) as Hnd.
  assert (NoDup (ab_StatusUUID ab :: ab_MetadataUUID ab :: u0 :: kept.*1)) as Hnd'.
  { assert (NoDup (ab_StatusUUID ab :: ab_MetadataUUID ab :: kept.*1)) as Hnk
      by (eapply sublist_NoDup; [exact Hnd|by repeat constructor]).
    assert (u0 ∉ kept.*1) by (intros Hin; apply (chain_stored _ _ _ _ _ Hch) in Hin; done).
    rewrite !NoDup_cons, !not_elem_of_cons in *. naive_solver. }
  rewrite !NoDup_cons, !not_elem_of_cons in Hnd.
  assert (∀ id, id ∈ gone → id ∈ cs.*1) as Hgone by exact Hg.
  split; [done| | | |].
  - eapply file_rep_replace; try done.
    + apply Hsame; naive_solver.
    + destruct (fr_wf _ _ _ _ Hf). split; try done. by exists b2.
    + lia.
    + rewrite Hcnt. cbn [length]. lia.
    + lia.
    + cbn [chain]. split; [done|]. exists ek, mk, prev. split; [done|]. split.
      * split; try done. by exists b1.
      * eapply chain_ext; [|exact Hch]. intros id Hid.
        assert (id ∈ cs.*1) by (by eapply elem_of_sublist).
        apply Hsame; [by eapply Hne, chain_stored| |by apply Hkg]. intros ->. naive_solver.
  - intros id [->|Hid]%elem_of_cons; [by right|left; by eapply elem_of_sublist].
  - intros id Hst Hi Hcs. apply Hsame; auto.
  - intros id Hid. destruct (decide (id = u0)) as [->|Hi1]; [right; by left|left].
    destruct (decide (id = ab_MetadataUUID ab)) as [->|Hi2]; [eapply opens_stored, Hf|].
    destruct (decide (id ∈ gone)) as [Hi3|Hi3]; [by eapply chain_stored; [apply Hf|apply Hg]|].
    by rewrite <-Hsame.
Qed.

End model.
