(* ===== verification/FileThms.v ===== *)
(** * What the file operations compute

    On the default environment, started when no other transaction is running,
    the operations implement the abstract file of [has_file]: a name, its
    bytes and its version. *)

From S2P Require Import Prelude Json JsonThms Libs LockManager LockManagerInv.
From S2P Require Import LockManagerSeq Fencing SaferTypes Effects Client Sharing LocalEnv.
From S2P Require Import FileModel.
Import Json JsonThms LM LMSeq.
Open Scope string_scope.

(** Runs the operation in the goal from the quiet world [w]. *)
Ltac operation w r P :=
  lazymatch goal with
  | |- context [allocateTxn ≫= (λ txn, withOperationGuard txn ?body)] =>
      destruct (run_operation w body r P) as (w' & Hrun' & HP & Hset); [done| |]
  end.

Section operations.
Context `{UuidLib} `{Userlib} `{!UuidNew} `{!UuidLaws} `{!UserlibLaws}.

(** A context that is neither cancelled nor expired. *)
Definition live (ctx : Fencing.Ctx) : Prop := ctx_Err (Fencing.lock_ctx ctx) = None.

Lemma namespaceResourceID_name u f nu :
  getNameSpaceEntryUUID u f = Ok nu →
  namespaceResourceID u f = Ok (mkResourceID NamespaceResource (uuid_String nu)).
Proof. unfold namespaceResourceID. by intros ->. Qed.

(** The common prefix of the operations on an existing file: both locks are
    granted and the entry is loaded. *)
Lemma run_locked w txn u f nu ne ctx m1 m2 :
  working w txn [] → live ctx → names (store w) u f nu ne →
  LMInv.valid_mode m1 → LMInv.valid_mode m2 →
  ∃ w' L, working w' txn L ∧ same_data w w' ∧ txnIDCounter w' = txnIDCounter w ∧
    ∀ A (k : NamespaceEntry → M A),
    run local (nsResource ← lift (namespaceResourceID (Username u) f);
      _ ← acquire ctx nsResource m1;
      namespaceEntry ← loadNamespaceEntry ctx (Some u) f;
      _ ← acquire ctx (fileResourceID (ne_FileID namespaceEntry)) m2;
      k namespaceEntry) w = run local (k ne) w'.
Proof.
  intros Hw Hl Hr Hm1 Hm2. set (ns := mkResourceID NamespaceResource (uuid_String nu)).
  destruct (run_acquire w txn [] ctx ns m1) as (w1 & Hw1 & (Hs1 & Ht1 & Hd1) & Hc1 & Hrun1);
    [done|apply not_elem_of_nil|done|done|].
  destruct (run_acquire w1 txn [ns] ctx (fileResourceID (ne_FileID ne)) m2)
    as (w2 & Hw2 & (Hs2 & Ht2 & Hd2) & Hc2 & Hrun2); [done| |done|done|].
  { apply not_elem_of_cons. split; [done|apply not_elem_of_nil]. }
  exists w2. eexists. split; [done|]. split; [|split; [by rewrite Hc2|]].
  { unfold same_data. by rewrite Hs2, Hs1, Ht2, Ht1, Hd2, Hd1. }
  intros A k. rewrite (run_lift _ _ ns) by apply namespaceResourceID_name, Hr.
  erewrite run_step by exact Hrun1. erewrite run_step by (by eapply loadNamespaceEntry_run).
  by erewrite run_step by exact Hrun2.
Qed.

(** The part of an append, of an overwrite and of a load that runs under the
    lock of the file. *)
Definition append_locked (ctx : Fencing.Ctx) (ne : NamespaceEntry) (x : slice) : M unit :=
  ctx ← withFenceGrants ctx;
  accessBox ← validateFileAccessUnderLock ctx ne;
  metadata ← loadMetadata ctx accessBox;
  if decide (slen x = 0%nat) then mret () else appendChunk ctx accessBox metadata x.

Definition overwrite_locked (ctx : Fencing.Ctx) (ne : NamespaceEntry) (x : slice) : M unit :=
  ctx ← withFenceGrants ctx;
  accessBox ← validateFileAccessUnderLock ctx ne;
  overwriteExistingFileLocked ctx accessBox x.

Definition load_locked (ctx : Fencing.Ctx) (ne : NamespaceEntry) : M slice :=
  accessBox ← validateFileAccessUnderLock ctx ne;
  metadata ← loadMetadata ctx accessBox;
  '(content, _) ← loadFileContentAndChunkUUIDs ctx accessBox metadata;
  mret (Some content).

Lemma load_locked_run w u f ctx nu ne ab md cs :
  resolves (store w) u f nu ne ab → file_rep (store w) ab md cs →
  run local (load_locked ctx ne) w = (w, Ok (Some (content_of cs))).
Proof.
  intros Hr Hf. unfold load_locked.
  erewrite run_step by (eapply validate_run; [done|apply Hf|apply Hf|done]).
  erewrite run_step by (by eapply loadMetadata_run).
  rewrite run_bind. by erewrite loadFileContent_run by done.
Qed.

Lemma load_reads w u f ctx content version :
  quiet w → live ctx → has_file (store w) u f content version →
  ∃ w', run local (LoadFileContext u ctx f) w = (w', Ok (Some content)) ∧ store w' = store w ∧
    settled w w'.
Proof.
  intros Hq Hl (nu & ne & ab & md & cs & Hr & Hf & _ & -> & _). unfold LoadFileContext.
  operation w (Ok (Some (content_of cs))) (λ s (_ : nat), s = store w); [|by exists w'].
  intros w1 txn Hw1 (Hs1 & _ & _).
  destruct (run_locked w1 txn u f nu ne ctx SharedLock SharedLock)
    as (w2 & L & Hw2 & (Hs2 & _ & _) & Hc2 & Hrun);
    [done|done|rewrite Hs1; by eapply resolves_names|by left|by left|].
  exists w2, L. split_and!; [|done|by rewrite Hs2|done]. rewrite Hrun.
  assert (store w2 = store w) as Hs by (by rewrite Hs2).
  eapply load_locked_run; by rewrite Hs.
Qed.

(** [LoadFile] returns the bytes of the file and changes nothing. *)
Theorem LoadFile_reads w u f ctx content version :
  quiet w → live ctx → has_file (store w) u f content version →
  ∃ w', run local (LoadFileContext u ctx f) w = (w', Ok (Some content)) ∧ store w' = store w ∧
    settled w w'.
Proof. apply load_reads. Qed.

(** Sealing the next chunk and the metadata that names it, and committing
    both with [deletes]: the shared tail of an append and of an overwrite. *)
Lemma sealed_pair w ab chunk md' u :
  u ≠ uuid_Nil → box_wf ab → (ck_Index chunk ≤ max_uint64)%N →
  (md_Version md' ≤ max_uint64)%N → (md_ChunkCount md' ≤ max_uint64)%N →
  ∃ ek mk b1 b2,
    deriveChunkKeys (ab_FileRoot ab) u = Ok (ek, mk) ∧ key16 ek ∧ key16 mk ∧
    run local (protectDatastoreObject chunkObjectType u (enc_Chunk chunk) ek mk) w
      = (advance w, Ok b1) ∧
    openEnvelope chunkObjectType u ek mk dec_Chunk zero_Chunk b1 = Ok chunk ∧
    run local (protectDatastoreObject metadataObjectType (ab_MetadataUUID ab)
      (enc_Metadata md') (ab_MetadataEncKey ab) (ab_MetadataMACKey ab)) (advance w)
      = (advance (advance w), Ok b2) ∧
    openEnvelope metadataObjectType (ab_MetadataUUID ab) (ab_MetadataEncKey ab)
      (ab_MetadataMACKey ab) dec_Metadata zero_Metadata b2 = Ok md'.
Proof.
  intros Hu Hwf Hi Hv Hc.
  destruct (deriveChunkKeys_ok (ab_FileRoot ab) u) as (ek & mk & Hk & Hek & Hmk); [apply Hwf|].
  destruct (protect_run 1 enc_Chunk dec_Chunk zero_Chunk chunk chunkObjectType u ek mk w)
    as (b1 & Hb1 & Ho1); [done..|by apply chunk_codec|].
  destruct (protect_run 1 enc_Metadata dec_Metadata zero_Metadata md' metadataObjectType
    (ab_MetadataUUID ab) (ab_MetadataEncKey ab) (ab_MetadataMACKey ab) (advance w))
    as (b2 & Hb2 & Ho2); [done|apply Hwf|apply Hwf|apply Hwf|done|by apply metadata_codec|].
  by exists ek, mk, b1, b2.
Qed.

(** What a run that neither asks for locks nor begins leaves alone. *)
Definition same_locks (w w' : World) : Prop :=
  saferLockManager w' = saferLockManager w ∧ guard w' = guard w ∧
  txnIDCounter w' = txnIDCounter w.

Lemma same_locks_working w w' txn L : same_locks w w' → working w txn L → working w' txn L.
Proof. intros (Hl & Hg & _) []. by split; rewrite ?Hl, ?Hg. Qed.

(** The write under the lock publishes the chunks [cs'] at the next version. *)
Definition writes_locked (w : World) (p : M unit) (ab : AccessBox) (md : Metadata)
    (cs cs' : list (UUID * slice)) : Prop :=
  ∃ w' md', run local p w = (w', Ok ()) ∧ same_locks w w' ∧ (drawn w < drawn w')%nat ∧
    published (store w) (store w') ab cs md' cs' ∧ md_Version md' = (md_Version md + 1)%N.

Lemma append_locked_run w u f ctx x nu ne ab md cs :
  fresh w 1 → slen x ≠ 0%nat → (md_Version md < max_uint64)%N →
  resolves (store w) u f nu ne ab → file_rep (store w) ab md cs →
  writes_locked w (append_locked ctx ne x) ab md cs ((drawn_uuid w 0, x) :: cs).
Proof.
  intros Hfr Hx Hv Hr Hf. pose proof (fresh_nil _ _ Hfr 0 ltac:(lia)) as Hnil.
  pose proof (fresh_store _ _ Hfr 0 ltac:(lia)) as Hnew.
  set (u0 := drawn_uuid w 0) in *.
  pose proof (fr_count_le _ _ _ _ Hf) as Hle. pose proof (fr_count _ _ _ _ Hf) as Hcnt.
  pose proof (fr_wf _ _ _ _ Hf) as Hwf.
  set (md' := mkMetadata (md_FileID md) (md_EpochID md) (md_Version md + 1) u0
    (md_ChunkCount md + 1)).
  destruct (sealed_pair (advance w) ab
    (mkChunk (ab_FileID ab) (ab_EpochID ab) (md_ChunkCount md) (md_TailUUID md) x) md' u0)
    as (ek & mk & b1 & b2 & Hk & Hek & Hmk & Hb1 & Ho1 & Hb2 & Ho2); [done|done|cbn; lia..|].
  eexists _, md'. split.
  { unfold append_locked. erewrite run_step by done.
    erewrite run_step by (eapply validate_run; [done|apply Hf|apply Hf|done]).
    erewrite run_step by (by eapply loadMetadata_run).
    rewrite decide_False by done. unfold appendChunk.
    rewrite run_guard by (apply bool_decide_false; lia).
    erewrite run_step by apply run_newUUID.
    replace (uuid_New (tape w (drawn w))) with u0 by (unfold u0, drawn_uuid; by rewrite Nat.add_0_r).
    rewrite (run_lift _ _ (ek, mk)) by done.
    erewrite run_step by exact Hb1.
    rewrite (run_lift _ _ (md_Version md + 1)%N) by (by apply nextMetadataVersion_ok).
    rewrite u64_add_small by lia. erewrite run_step by exact Hb2.
    apply run_commit. repeat constructor. }
  split; [done|]. split; [cbn; lia|]. split; [|done]. cbn [store set_store advance].
  eapply (publish (store w) _ ab md cs u0 x _ cs [] ek mk b1 b2 md'); try done; try apply Hf.
  - by rewrite <-Hcnt.
  - cbn. lia.
  - cbn. lia.
  - set_solver.
  - set_solver.
  - cbn. rewrite lookup_insert_ne, lookup_insert_eq; [done|].
    intros Heq. pose proof (opens_stored _ _ _ _ _ _ _ _ (fr_meta _ _ _ _ Hf)). congruence.
  - cbn. by rewrite lookup_insert_eq.
  - intros id Hi1 Hi2 _. cbn. by rewrite !lookup_insert_ne.
Qed.

(** At the last version a write fails before its commit. *)
Lemma append_exhausted w u f ctx x nu ne ab md cs :
  fresh w 1 → slen x ≠ 0%nat → md_Version md = max_uint64 →
  resolves (store w) u f nu ne ab → file_rep (store w) ab md cs →
  ∃ w' e, run local (append_locked ctx ne x) w = (w', Err e).
Proof.
  intros Hfr Hx Hv Hr Hf. pose proof (fresh_nil _ _ Hfr 0 ltac:(lia)) as Hnil.
  unfold drawn_uuid in Hnil. rewrite Nat.add_0_r in Hnil.
  pose proof (fr_wf _ _ _ _ Hf) as Hwf. pose proof (fr_count_le _ _ _ _ Hf) as Hle.
  destruct (sealed_pair (advance w) ab
    (mkChunk (ab_FileID ab) (ab_EpochID ab) (md_ChunkCount md) (md_TailUUID md) x) md
    (uuid_New (tape w (drawn w)))) as (ek & mk & b1 & b2 & Hk & _ & _ & Hb1 & _);
    [done|done|cbn; lia..|].
  unfold append_locked. erewrite run_step by done.
  erewrite run_step by (eapply validate_run; [done|apply Hf|apply Hf|done]).
  erewrite run_step by (by eapply loadMetadata_run).
  rewrite decide_False by done. unfold appendChunk.
  destruct (decide (md_ChunkCount md = max_uint64)) as [Hc|Hc];
    [rewrite bool_decide_true by done; by eexists _, _|].
  rewrite run_guard by (by apply bool_decide_false).
  erewrite run_step by apply run_newUUID. rewrite (run_lift _ _ (ek, mk)) by done.
  erewrite run_step by exact Hb1.
  unfold nextMetadataVersion. rewrite decide_True by done. by eexists _, _.
Qed.

Lemma overwrite_exhausted w u f ctx x nu ne ab md cs :
  fresh w 1 → md_Version md = max_uint64 →
  resolves (store w) u f nu ne ab → file_rep (store w) ab md cs →
  ∃ w' e, run local (overwrite_locked ctx ne x) w = (w', Err e).
Proof.
  intros Hfr Hv Hr Hf. pose proof (fresh_nil _ _ Hfr 0 ltac:(lia)) as Hnil.
  pose proof (fresh_store _ _ Hfr 0 ltac:(lia)) as Hnew.
  unfold drawn_uuid in Hnil, Hnew. rewrite Nat.add_0_r in Hnil, Hnew.
  pose proof (fr_wf _ _ _ _ Hf) as Hwf. pose proof (fr_count_le _ _ _ _ Hf) as Hle.
  destruct (sealed_pair (advance w) ab (mkChunk (ab_FileID ab) (ab_EpochID ab) 0 uuid_Nil x) md
    (uuid_New (tape w (drawn w)))) as (ek & mk & b1 & b2 & Hk & _ & _ & Hb1 & _);
    [done|done|cbn; lia..|].
  unfold overwrite_locked. erewrite run_step by done.
  erewrite run_step by (eapply validate_run; [done|apply Hf|apply Hf|done]).
  unfold overwriteExistingFileLocked. erewrite run_step by (by eapply loadMetadata_run).
  rewrite run_bind. erewrite loadFileContent_run by done. cbv beta iota. cbn [newBaseChunkUUID].
  erewrite run_step.
  2:{ erewrite run_step by apply run_newUUID. rewrite decide_False; [reflexivity|].
      rewrite elem_of_list_to_set. intros Hin.
      by apply (chain_stored _ _ _ _ _ (fr_chain _ _ _ _ Hf)) in Hin. }
  rewrite (run_lift _ _ (ek, mk)) by done. erewrite run_step by exact Hb1.
  unfold nextMetadataVersion. rewrite decide_True by done. by eexists _, _.
Qed.

(** A write under the lock, inside the operation that took it. *)
Lemma locked_writes w w2 txn L p ab md cs cs' :
  working w2 txn L → store w2 = store w → writes_locked w2 p ab md cs cs' →
  ∃ w' L', run local p w2 = (w', Ok ()) ∧ working w' txn L' ∧
    (∃ md', published (store w) (store w') ab cs md' cs' ∧
       md_Version md' = (md_Version md + 1)%N) ∧
    txnIDCounter w' = txnIDCounter w2.
Proof.
  intros Hw2 Hs (w' & md' & Hrun & Hl & _ & Hp & Hv'). exists w', L.
  split; [done|]. split; [by eapply same_locks_working|]. split; [|apply Hl].
  exists md'. by rewrite <-Hs.
Qed.

(** What an append publishes, whoever of the file's readers makes it. *)
Lemma append_publishes w u f ctx x nu ne ab md cs :
  quiet w → live ctx → fresh w 1 → slen x ≠ 0%nat → (md_Version md < max_uint64)%N →
  resolves (store w) u f nu ne ab → file_rep (store w) ab md cs →
  ∃ w' md' u0, run local (AppendToFileContext u ctx f x) w = (w', Ok ()) ∧
    published (store w) (store w') ab cs md' ((u0, x) :: cs) ∧
    md_Version md' = (md_Version md + 1)%N ∧ settled w w'.
Proof.
  intros Hq Hl Hfr Hx Hv Hr Hf. unfold AppendToFileContext.
  operation w (Ok ()) (λ s (_ : nat), ∃ md', published (store w) s ab cs md'
    ((drawn_uuid w 0, x) :: cs) ∧ md_Version md' = (md_Version md + 1)%N).
  2:{ destruct HP as (md' & Hp & Hv'). by exists w', md', (drawn_uuid w 0). }
  intros w1 txn Hw1 (Hs1 & Ht1 & Hd1).
  destruct (run_locked w1 txn u f nu ne ctx SharedLock ExclusiveLock)
    as (w2 & L & Hw2 & (Hs2 & Ht2 & Hd2) & Hc2 & Hrun);
    [done|done|rewrite Hs1; by eapply resolves_names|by left|by right|].
  assert (same_data w w2) as Hsame by (unfold same_data; by rewrite Hs2, Ht2, Hd2).
  assert (store w2 = store w) as Hs by apply Hsame.
  rewrite Hrun, <-Hc2. rewrite <-(drawn_same w w2 0) by done.
  eapply locked_writes; [done|done|].
  eapply append_locked_run; [by eapply fresh_same|done|done|by rewrite Hs..].
Qed.

Lemma append_appends w u f ctx x content version :
  quiet w → live ctx → fresh w 1 → slen x ≠ 0%nat → (version < max_uint64)%N →
  has_file (store w) u f content version →
  ∃ w', run local (AppendToFileContext u ctx f x) w = (w', Ok ()) ∧
    has_file (store w') u f (content +:+ bytes_of x) (version + 1) ∧
    settled w w'.
Proof.
  intros Hq Hl Hfr Hx Hv (nu & ne & ab & md & cs & Hr & Hf & Hnd & -> & ->).
  destruct (append_publishes w u f ctx x nu ne ab md cs) as (w' & md' & u0 & Hrun & Hp & Hv' & Hs);
    try done.
  exists w'. split; [done|]. split; [|done]. rewrite <-(content_of_cons u0), <-Hv'.
  by eapply published_has_file.
Qed.

(** C3. [AppendToFile] of a non-empty content appends it, advances the version
    by exactly one, and leaves the world quiet. *)
Theorem AppendToFile_appends w u f ctx x content version :
  quiet w → live ctx → fresh w 1 → slen x ≠ 0%nat → (version < max_uint64)%N →
  has_file (store w) u f content version →
  ∃ w', run local (AppendToFileContext u ctx f x) w = (w', Ok ()) ∧
    has_file (store w') u f (content +:+ bytes_of x) (version + 1) ∧
    settled w w'.
Proof. apply append_appends. Qed.

(** The prefix of [StoreFile] on a name that exists. *)
Lemma run_store_existing w txn u f nu ne ab ctx x :
  working w txn [] → live ctx → resolves (store w) u f nu ne ab →
  ∃ w' L, working w' txn L ∧ same_data w w' ∧ txnIDCounter w' = txnIDCounter w ∧
    run local (nsResource ← lift (namespaceResourceID (Username u) f);
      _ ← acquire ctx nsResource ExclusiveLock;
      nameUUID ← lift (getNameSpaceEntryUUID (Username u) f);
      found ← datastoreGet ctx nameUUID;
      if decide (is_Some found) then
        namespaceEntry ← loadNamespaceEntry ctx (Some u) f;
        _ ← acquire ctx (fileResourceID (ne_FileID namespaceEntry)) ExclusiveLock;
        ctx ← withFenceGrants ctx;
        accessBox ← validateFileAccessUnderLock ctx namespaceEntry;
        overwriteExistingFileLocked ctx accessBox x
      else
        fileID ← newUUID;
        _ ← acquire ctx (fileResourceID fileID) ExclusiveLock;
        ctx ← withFenceGrants ctx;
        storeNewFileLocked u ctx f x fileID) w =
    run local (ctx ← withFenceGrants ctx; accessBox ← validateFileAccessUnderLock ctx ne;
      overwriteExistingFileLocked ctx accessBox x) w'.
Proof.
  intros Hw Hl Hr. set (ns := mkResourceID NamespaceResource (uuid_String nu)).
  destruct (run_acquire w txn [] ctx ns ExclusiveLock)
    as (w1 & Hw1 & (Hs1 & Ht1 & Hd1) & Hc1 & Hrun1);
    [done|apply not_elem_of_nil|by right|done|].
  destruct (run_acquire w1 txn [ns] ctx (fileResourceID (ne_FileID ne)) ExclusiveLock)
    as (w2 & Hw2 & (Hs2 & Ht2 & Hd2) & Hc2 & Hrun2); [done| |by right|done|].
  { apply not_elem_of_cons. split; [done|apply not_elem_of_nil]. }
  exists w2. eexists. split; [done|]. split; [|split; [by rewrite Hc2|]].
  { unfold same_data. by rewrite Hs2, Hs1, Ht2, Ht1, Hd2, Hd1. }
  rewrite (run_lift _ _ ns) by apply namespaceResourceID_name, Hr.
  erewrite run_step by exact Hrun1. rewrite (run_lift _ _ nu) by apply Hr.
  erewrite run_step by done.
  destruct (rs_entry _ _ _ _ _ _ Hr) as (? & ? & _ & [_ _ _ (b & Hb & _)]).
  rewrite decide_True by (rewrite Hs1, Hb; eauto).
  erewrite run_step by (eapply loadNamespaceEntry_run; [by eapply resolves_names|done]).
  by erewrite run_step by exact Hrun2.
Qed.

Lemma lookup_deletes (us : list UUID) d id :
  foldl (λ d m, apply_mutation m d) d (MDelete <$> us) !! id =
    if decide (id ∈ us) then None else d !! id.
Proof.
  revert d. induction us as [|u us IH]; intros d; [done|].
  cbn [fmap list_fmap foldl apply_mutation]. rewrite IH.
  destruct (decide (id = u)) as [->|Hne].
  - rewrite (decide_True (P := u ∈ u :: us)) by (by left). rewrite lookup_delete_eq.
    by destruct (decide _).
  - rewrite lookup_delete_ne by done. destruct (decide (id ∈ us)).
    + by rewrite decide_True by (by right).
    + by rewrite decide_False by (by rewrite not_elem_of_cons).
Qed.

Lemma overwrite_locked_run w u f ctx x nu ne ab md cs :
  fresh w 1 → (md_Version md < max_uint64)%N →
  resolves (store w) u f nu ne ab → file_rep (store w) ab md cs →
  writes_locked w (overwrite_locked ctx ne x) ab md cs [(drawn_uuid w 0, x)].
Proof.
  intros Hfr Hv Hr Hf. pose proof (fresh_nil _ _ Hfr 0 ltac:(lia)) as Hnil.
  pose proof (fresh_store _ _ Hfr 0 ltac:(lia)) as Hnew.
  set (u0 := drawn_uuid w 0) in *.
  assert (u0 ∉ cs.*1) as Hu0.
  { intros Hin. by apply (chain_stored _ _ _ _ _ (fr_chain _ _ _ _ Hf)) in Hin. }
  pose proof (fr_wf _ _ _ _ Hf) as Hwf. pose proof (fr_version _ _ _ _ Hf) as Hver.
  set (md' := mkMetadata (ab_FileID ab) (ab_EpochID ab) (md_Version md + 1) u0 1).
  destruct (sealed_pair (advance w) ab (mkChunk (ab_FileID ab) (ab_EpochID ab) 0 uuid_Nil x) md' u0)
    as (ek & mk & b1 & b2 & Hk & Hek & Hmk & Hb1 & Ho1 & Hb2 & Ho2);
    [done|done|cbn; lia|cbn; lia|cbn; unfold max_uint64; lia|].
  eexists _, md'. split.
  { unfold overwrite_locked. erewrite run_step by done.
    erewrite run_step by (eapply validate_run; [done|apply Hf|apply Hf|done]).
    unfold overwriteExistingFileLocked. erewrite run_step by (by eapply loadMetadata_run).
    rewrite run_bind. erewrite loadFileContent_run by done. cbv beta iota.
    cbn [newBaseChunkUUID].
    erewrite run_step.
    2:{ erewrite run_step by apply run_newUUID.
        replace (uuid_New (tape w (drawn w))) with u0
          by (unfold u0, drawn_uuid; by rewrite Nat.add_0_r).
        rewrite decide_False by (by rewrite elem_of_list_to_set). reflexivity. }
    rewrite (run_lift _ _ (ek, mk)) by done.
    erewrite run_step by exact Hb1.
    rewrite (run_lift _ _ (md_Version md + 1)%N) by (by apply nextMetadataVersion_ok).
    erewrite run_step by exact Hb2.
    apply run_commit. apply Forall_app. split; [repeat constructor|]. by apply Forall_fmap, Forall_true. }
  split; [done|]. split; [cbn; lia|]. split; [|done]. cbn [store set_store advance].
  rewrite foldl_app. cbn [foldl apply_mutation].
  assert (ab_MetadataUUID ab ∉ cs.*1) as Hmeta.
  { pose proof (fr_distinct _ _ _ _ Hf) as Hnd.
    rewrite !NoDup_cons, !not_elem_of_cons in Hnd. naive_solver. }
  eapply (publish (store w) _ ab md cs u0 x uuid_Nil [] cs.*1 ek mk b1 b2 md'); try done.
  - cbn. lia.
  - apply sublist_nil_l.
  - set_solver.
  - cbn [Datastore]. rewrite lookup_deletes, decide_False by done.
    rewrite lookup_insert_ne, lookup_insert_eq; [done|].
    intros Heq. pose proof (opens_stored _ _ _ _ _ _ _ _ (fr_meta _ _ _ _ Hf)). congruence.
  - cbn [Datastore]. rewrite lookup_deletes, decide_False by done. by rewrite lookup_insert_eq.
  - intros id Hi1 Hi2 Hi3. cbn [Datastore]. rewrite lookup_deletes, decide_False by done.
    by rewrite !lookup_insert_ne.
Qed.

(** What an overwrite publishes, whoever of the file's readers makes it. *)
Lemma overwrite_publishes w u f ctx x nu ne ab md cs :
  quiet w → live ctx → fresh w 1 → (md_Version md < max_uint64)%N →
  resolves (store w) u f nu ne ab → file_rep (store w) ab md cs →
  ∃ w' md' u0, run local (StoreFileContext u ctx f x) w = (w', Ok ()) ∧
    published (store w) (store w') ab cs md' [(u0, x)] ∧
    md_Version md' = (md_Version md + 1)%N ∧ settled w w'.
Proof.
  intros Hq Hl Hfr Hv Hr Hf. unfold StoreFileContext.
  operation w (Ok ()) (λ s (_ : nat), ∃ md', published (store w) s ab cs md'
    [(drawn_uuid w 0, x)] ∧ md_Version md' = (md_Version md + 1)%N).
  2:{ destruct HP as (md' & Hp & Hv'). by exists w', md', (drawn_uuid w 0). }
  intros w1 txn Hw1 (Hs1 & Ht1 & Hd1).
  destruct (run_store_existing w1 txn u f nu ne ab ctx x)
    as (w2 & L & Hw2 & (Hs2 & Ht2 & Hd2) & Hc2 & Hrun); [done|done|by rewrite Hs1|].
  assert (same_data w w2) as Hsame by (unfold same_data; by rewrite Hs2, Ht2, Hd2).
  assert (store w2 = store w) as Hs by apply Hsame.
  rewrite Hrun, <-Hc2. rewrite <-(drawn_same w w2 0) by done.
  eapply locked_writes; [done|done|].
  eapply overwrite_locked_run; [by eapply fresh_same|done|by rewrite Hs..].
Qed.

Lemma store_overwrites w u f ctx x content version :
  quiet w → live ctx → fresh w 1 → (version < max_uint64)%N →
  has_file (store w) u f content version →
  ∃ w', run local (StoreFileContext u ctx f x) w = (w', Ok ()) ∧
    has_file (store w') u f (bytes_of x) (version + 1) ∧ settled w w'.
Proof.
  intros Hq Hl Hfr Hv (nu & ne & ab & md & cs & Hr & Hf & Hnd & -> & ->).
  destruct (overwrite_publishes w u f ctx x nu ne ab md cs)
    as (w' & md' & u0 & Hrun & Hp & Hv' & Hs); try done.
  exists w'. split; [done|]. split; [|done]. rewrite <-Hv'.
  change (bytes_of x) with (content_of [] +:+ bytes_of x). rewrite <-(content_of_cons u0).
  by eapply published_has_file.
Qed.

(** [StoreFile] on an existing name replaces the file's bytes and advances
    its version by exactly one, whatever the old chunks were. *)
Theorem StoreFile_overwrites w u f ctx x content version :
  quiet w → live ctx → fresh w 1 → (version < max_uint64)%N →
  has_file (store w) u f content version →
  ∃ w', run local (StoreFileContext u ctx f x) w = (w', Ok ()) ∧
    has_file (store w') u f (bytes_of x) (version + 1) ∧ settled w w'.
Proof. apply store_overwrites. Qed.

End operations.
