(* ===== verification/CreateThms.v ===== *)
(** * Creating a file

    [StoreFile] on a free name publishes six objects that together represent
    the file at version 1. *)

From S2P Require Import Prelude Json JsonThms Libs LockManager LockManagerInv.
From S2P Require Import LockManagerSeq Fencing SaferTypes Effects Client Sharing LocalEnv.
From S2P Require Import FileModel FileThms.
Import Json JsonThms LM LMSeq.
Open Scope string_scope.

#[local] Arguments drawn_uuid : simpl never.

Section create.
Context `{UuidLib} `{Userlib} `{!UuidNew} `{!UuidLaws} `{!UserlibLaws}.

(** A user whose namespace root and signing key are those [InitUser] made, the
    verification key being registered. *)
Record user_ok (s : UserlibStore) (u : User) (vk : PublicKeyType) : Prop := {
  uo_root : key16 (u_NamespaceRoot u);
  uo_pair : ds_pair (u_SignPrivate u) vk;
  uo_key : Keystore s !! getVerifyKeyName (Username u) = Some vk }.

Lemma verifyKeyName_utf8 u : valid_utf8 (getVerifyKeyName u) = true.
Proof. apply hex_utf8. Qed.

Lemma verifyKeyName_nonempty u : getVerifyKeyName u ≠ "".
Proof.
  unfold getVerifyKeyName, publicKeyName.
  destruct (take_bytes 16 _) as [|c r] eqn:E; [|done].
  pose proof (take_bytes_length 16 (Hash ("signature-verify-key" +:+ ":" +:+ u))) as Hl.
  rewrite E, Hash_length in Hl. specialize (Hl ltac:(unfold HashSizeBytes; lia)). done.
Qed.

Lemma deriveNamespaceEntryKeys_ok root f : key16 root →
  ∃ ek mk, deriveNamespaceEntryKeys root f = Ok (ek, mk) ∧ key16 ek ∧ key16 mk.
Proof.
  intros Hr. unfold key16, deriveNamespaceEntryKeys in *.
  destruct (HashKDF_total (bytes_of root) ("namespace-entry-enc:" +:+ f) Hr) as (e & He & Hel).
  destruct (HashKDF_total (bytes_of root) ("namespace-entry-mac:" +:+ f) Hr) as (m & Hm & Hml).
  exists (Some (take_bytes 16 e)), (Some (take_bytes 16 m)). split_and!.
  - ok_guard; [by rewrite Hr|]. ok_step; [exact He|]. ok_step; [exact Hm|]. done.
  - apply take_bytes_length. rewrite Hel. unfold HashSizeBytes, symmetricKeySize. lia.
  - apply take_bytes_length. rewrite Hml. unfold HashSizeBytes, symmetricKeySize. lia.
Qed.

(** A status the owner signs verifies under the owner's registered key. *)
Lemma createFileStatus_ok u su ab vk :
  ds_pair (u_SignPrivate u) vk → ab_StatusUUID ab = su →
  ∃ st, createFileStatus u su ab = Ok st ∧ checkFileStatus ab st vk = Ok () ∧
    fb_OwnerVerifyKeyName (fs_Body st) = ab_OwnerVerifyKeyName ab.
Proof.
  intros Hp Hsu. set (c := Hash (print (enc_AccessBox ab))).
  set (body := mkFileStatusBody (ab_FileID ab) (ab_EpochID ab) (Some c) (ab_OwnerVerifyKeyName ab)).
  set (msg := "file-status-signature:" +:+ uuid_String su +:+ ":" +:+
    print (enc_FileStatusBody body)).
  destruct (DSSign_total (u_SignPrivate u) vk msg Hp) as [sg Hsg].
  exists (mkFileStatus body (Some sg)). split_and!; [| |done].
  - unfold createFileStatus. ok_step; [done|]. ok_step; [done|]. fold c body. fold msg.
    ok_step; [exact Hsg|]. done.
  - unfold checkFileStatus. ok_guard; [by rewrite (DSKeyGen_type _ _ Hp)|].
    apply bind_Ok. exists msg. split; [by rewrite Hsu|]. apply bind_Ok. exists (). split.
    { change (bytes_of (fs_Signature _)) with sg. by rewrite (DSVerify_Sign _ _ _ _ Hp Hsg). }
    do 3 (ok_guard; [by apply bool_decide_false; auto|]).
    ok_step; [done|]. fold c. apply fail_if_Ok.
    by rewrite HMACEqual_spec, bool_decide_true.
Qed.

(** ** The six objects *)

(** The access box of a file created from the draws at [w]. *)
Definition new_box (w : World) (u : User) (fileID : UUID) : AccessBox :=
  mkAccessBox fileID (drawn_uuid w 0) (drawn_uuid w 3)
    (Some (RandomBytes 16 (tape w (drawn w + 4)%nat)))
    (Some (RandomBytes 16 (tape w (drawn w + 5)%nat)))
    (Some (RandomBytes 16 (tape w (drawn w + 1)%nat)))
    (drawn_uuid w 9) (drawn_uuid w 12) (getVerifyKeyName (Username u)).

(** Its namespace entry. *)
Definition new_entry (w : World) (fileID : UUID) : NamespaceEntry :=
  mkNamespaceEntry true fileID (drawn_uuid w 6)
    (Some (RandomBytes 16 (tape w (drawn w + 7)%nat)))
    (Some (RandomBytes 16 (tape w (drawn w + 8)%nat)))
    (drawn_uuid w 9)
    (Some (RandomBytes 16 (tape w (drawn w + 10)%nat)))
    (Some (RandomBytes 16 (tape w (drawn w + 11)%nat))).

Definition new_metadata (w : World) (fileID : UUID) : Metadata :=
  mkMetadata fileID (drawn_uuid w 0) 1 (drawn_uuid w 2) 1.

Definition new_chunk (w : World) (fileID : UUID) (x : slice) : Chunk :=
  mkChunk fileID (drawn_uuid w 0) 0 uuid_Nil x.

Lemma advance_data n w :
  store (Nat.iter n advance w) = store w ∧ tape (Nat.iter n advance w) = tape w ∧
  drawn (Nat.iter n advance w) = (drawn w + n)%nat ∧
  saferLockManager (Nat.iter n advance w) = saferLockManager w ∧
  guard (Nat.iter n advance w) = guard w ∧
  txnIDCounter (Nat.iter n advance w) = txnIDCounter w.
Proof.
  induction n as [|n (? & ? & Hd & ? & ? & ?)]; [cbn; by rewrite Nat.add_0_r|].
  change (Nat.iter (S n) advance w) with (advance (Nat.iter n advance w)).
  destruct (Nat.iter n advance w). cbn in *. subst. by rewrite Nat.add_succ_r.
Qed.

(** The draw at position [n]. *)
Lemma run_draw_uuid n w :
  run local newUUID (Nat.iter n advance w) = (Nat.iter (S n) advance w, Ok (drawn_uuid w n)).
Proof.
  rewrite run_newUUID. destruct (advance_data n w) as (_ & -> & -> & _). done.
Qed.

Lemma run_draw_bytes n w :
  run local (randomBytes 16) (Nat.iter n advance w) =
    (Nat.iter (S n) advance w, Ok (RandomBytes 16 (tape w (drawn w + n)%nat))).
Proof.
  rewrite run_randomBytes. destruct (advance_data n w) as (_ & -> & -> & _). done.
Qed.

Lemma protect_at n {T} h enc dec (zero x : T) t u ek mk w :
  t ≠ "" → u ≠ uuid_Nil → key16 ek → key16 mk →
  (h ≤ maxNestingDepth)%N → codec_ok h enc dec zero x →
  ∃ bytes, run local (protectDatastoreObject t u (enc x) ek mk) (Nat.iter n advance w)
      = (Nat.iter (S n) advance w, Ok bytes) ∧
    openEnvelope t u ek mk dec zero bytes = Ok x.
Proof. apply protect_run. Qed.

Record new_objects (w : World) (u : User) (f : string) (x : slice) (fileID nu : UUID)
    (vk : PublicKeyType) (b1 b2 b3 b4 b5 b6 : string) : Prop := {
  no_chunk : ∃ ek mk, deriveChunkKeys (ab_FileRoot (new_box w u fileID)) (drawn_uuid w 2)
      = Ok (ek, mk) ∧ key16 ek ∧ key16 mk ∧
    openEnvelope chunkObjectType (drawn_uuid w 2) ek mk dec_Chunk zero_Chunk b1
      = Ok (new_chunk w fileID x);
  no_meta : openEnvelope metadataObjectType (drawn_uuid w 3)
      (ab_MetadataEncKey (new_box w u fileID)) (ab_MetadataMACKey (new_box w u fileID))
      dec_Metadata zero_Metadata b2 = Ok (new_metadata w fileID);
  no_box : openEnvelope accessBoxObjectType (drawn_uuid w 6)
      (ne_AccessBoxEncKey (new_entry w fileID)) (ne_AccessBoxMACKey (new_entry w fileID))
      dec_AccessBox zero_AccessBox b3 = Ok (new_box w u fileID);
  no_status : ∃ st, Unmarshal dec_FileStatus zero_FileStatus b4 = Some st ∧
    checkFileStatus (new_box w u fileID) st vk = Ok ();
  no_structure : openEnvelope accessBoxStructureObjectType (drawn_uuid w 9)
      (ne_AccessBoxStructureEncKey (new_entry w fileID))
      (ne_AccessBoxStructureMACKey (new_entry w fileID))
      dec_AccessBoxStructure zero_AccessBoxStructure b5
      = Ok (mkAccessBoxStructure fileID (drawn_uuid w 0) (Some ∅));
  no_entry : ∃ ek mk, deriveNamespaceEntryKeys (u_NamespaceRoot u) f = Ok (ek, mk) ∧
    key16 ek ∧ key16 mk ∧
    openEnvelope namespaceEntryObjectType nu ek mk dec_NamespaceEntry zero_NamespaceEntry b6
      = Ok (new_entry w fileID) }.

Lemma prepareNewFile_run w u f x fileID nu vk :
  getNameSpaceEntryUUID (Username u) f = Ok nu → nu ≠ uuid_Nil →
  user_ok (store w) u vk → fresh w 13 →
  ∃ b1 b2 b3 b4 b5 b6,
    run local (prepareNewFile u f x fileID) w = (Nat.iter 18 advance w,
      Ok [MPut (drawn_uuid w 2) b1; MPut (drawn_uuid w 3) b2; MPut (drawn_uuid w 6) b3;
          MPut (drawn_uuid w 12) b4; MPut (drawn_uuid w 9) b5; MPut nu b6]) ∧
    new_objects w u f x fileID nu vk b1 b2 b3 b4 b5 b6.
Proof.
  intros Hnu Hnil [Hroot Hpair Hkey] Hfr.
  destruct (deriveNamespaceEntryKeys_ok _ f Hroot) as (nek & nmk & Hnk & Hnek & Hnmk).
  destruct (deriveChunkKeys_ok (Some (RandomBytes 16 (tape w (drawn w + 1)%nat))) (drawn_uuid w 2))
    as (ek & mk & Hck & Hek & Hmk); [apply key16_random|].
  destruct (createFileStatus_ok u (drawn_uuid w 12) (new_box w u fileID) vk Hpair eq_refl)
    as (st & Hst & Hchk & Hown).
  destruct (protect_at 13 1 enc_Chunk dec_Chunk zero_Chunk (new_chunk w fileID x) chunkObjectType
    (drawn_uuid w 2) ek mk w) as (b1 & Hb1 & Ho1);
    [done|apply Hfr; lia|done..|by apply chunk_codec|].
  destruct (protect_at 14 1 enc_Metadata dec_Metadata zero_Metadata (new_metadata w fileID)
    metadataObjectType (drawn_uuid w 3) (ab_MetadataEncKey (new_box w u fileID))
    (ab_MetadataMACKey (new_box w u fileID)) w) as (b2 & Hb2 & Ho2);
    [done|apply Hfr; lia|apply key16_random..|done|by apply metadata_codec|].
  destruct (protect_at 15 1 enc_AccessBox dec_AccessBox zero_AccessBox (new_box w u fileID)
    accessBoxObjectType (drawn_uuid w 6) (ne_AccessBoxEncKey (new_entry w fileID))
    (ne_AccessBoxMACKey (new_entry w fileID)) w) as (b3 & Hb3 & Ho3);
    [done|apply Hfr; lia|apply key16_random..|done|apply access_box_codec, verifyKeyName_utf8|].
  destruct (protect_at 16 3 enc_AccessBoxStructure dec_AccessBoxStructure zero_AccessBoxStructure
    (mkAccessBoxStructure fileID (drawn_uuid w 0) (Some ∅)) accessBoxStructureObjectType
    (drawn_uuid w 9) (ne_AccessBoxStructureEncKey (new_entry w fileID))
    (ne_AccessBoxStructureMACKey (new_entry w fileID)) w)
    as (b5 & Hb5 & Ho5); [done|apply Hfr; lia|apply key16_random..|done|by apply structure_codec|].
  destruct (protect_at 17 1 enc_NamespaceEntry dec_NamespaceEntry zero_NamespaceEntry
    (new_entry w fileID) namespaceEntryObjectType nu nek nmk w)
    as (b6 & Hb6 & Ho6); [done..|apply namespace_entry_codec|].
  exists b1, b2, b3, (print (enc_FileStatus st)), b5, b6. split.
  - unfold prepareNewFile. rewrite (run_lift _ _ nu) by done.
    rewrite (run_lift _ _ (nek, nmk)) by done.
    change (run local ?p w) with (run local p (Nat.iter 0 advance w)).
    repeat first [erewrite run_step by apply run_draw_uuid
                 |erewrite run_step by apply run_draw_bytes].
    rewrite (run_lift _ _ (ek, mk)) by done.
    erewrite run_step by exact Hb1. erewrite run_step by exact Hb2.
    erewrite run_step by exact Hb3. rewrite (run_lift _ _ st) by exact Hst.
    rewrite (run_lift _ _ (print (enc_FileStatus st))) by done.
    erewrite run_step by exact Hb5. erewrite run_step by exact Hb6. done.
  - split; try done.
    + by exists ek, mk.
    + exists st. split; [|done]. apply (Unmarshal_print 2); [done|]. apply file_status_codec.
      rewrite Hown. apply verifyKeyName_utf8.
    + by exists nek, nmk.
Qed.

(** A file with nobody to share it with yet, and its owner's structure. *)
Record created (s : UserlibStore) (u : User) (f : string) (x : slice) (nu : UUID)
    (ne : NamespaceEntry) (ab : AccessBox) (md : Metadata) (cs : list (UUID * slice)) : Prop := {
  cr_resolves : resolves s u f nu ne ab;
  cr_rep : file_rep s ab md cs;
  cr_owner : ne_IsOwner ne = true;
  cr_same : ne_AccessBoxStructureUUID ne = ab_AccessBoxStructureUUID ab;
  cr_structure : opens s accessBoxStructureObjectType (ne_AccessBoxStructureUUID ne)
    (ne_AccessBoxStructureEncKey ne) (ne_AccessBoxStructureMACKey ne)
    dec_AccessBoxStructure zero_AccessBoxStructure
    (mkAccessBoxStructure (ab_FileID ab) (ab_EpochID ab) (Some ∅));
  cr_key : ab_OwnerVerifyKeyName ab = getVerifyKeyName (Username u);
  cr_distinct : NoDup (nu :: ne_AccessBoxUUID ne :: ab_StatusUUID ab :: ab_MetadataUUID ab ::
    ne_AccessBoxStructureUUID ne :: cs.*1);
  cr_content : content_of cs = bytes_of x;
  cr_version : md_Version md = 1%N }.

Lemma created_has_file s u f x nu ne ab md cs :
  created s u f x nu ne ab md cs → has_file s u f (bytes_of x) 1.
Proof.
  intros []. exists nu, ne, ab, md, cs. split_and!; try done.
  rewrite !NoDup_cons, !not_elem_of_cons in *. tauto.
Qed.

(** Six objects written at fresh, distinct places represent the new file. *)
Lemma new_objects_rep w u f x fileID nu vk b1 b2 b3 b4 b5 b6 s' :
  getNameSpaceEntryUUID (Username u) f = Ok nu → nu ≠ uuid_Nil → fileID ≠ uuid_Nil →
  user_ok (store w) u vk → fresh w 13 → (∀ i, (i < 13)%nat → drawn_uuid w i ≠ nu) →
  new_objects w u f x fileID nu vk b1 b2 b3 b4 b5 b6 →
  s' = mkStore (<[nu := b6]> (<[drawn_uuid w 9 := b5]> (<[drawn_uuid w 12 := b4]>
    (<[drawn_uuid w 6 := b3]> (<[drawn_uuid w 3 := b2]> (<[drawn_uuid w 2 := b1]>
      (Datastore (store w)))))))) (Keystore (store w)) →
  created s' u f x nu (new_entry w fileID) (new_box w u fileID) (new_metadata w fileID)
    [(drawn_uuid w 2, x)].
Proof.
  intros Hnu Hnil Hfid [_ _ Hkey] Hfr Hnd [] ->.
  assert (∀ i j, (i < 13)%nat → (j < 13)%nat → i ≠ j → drawn_uuid w i ≠ drawn_uuid w j) as Hd.
  { intros i j Hi Hj Hij Heq. apply Hij.
    eapply (NoDup_lookup (drawn_uuid w <$> seq 0 13)); [apply Hfr|..];
      rewrite list_lookup_fmap, lookup_seq_lt by done; cbn; [done|by rewrite Heq]. }
  pose proof (fresh_nil _ _ Hfr) as Hz.
  assert (∀ i, (i < 13)%nat → nu ≠ drawn_uuid w i) as Hnd' by (intros; apply not_eq_sym; auto).
  split; try done.
  - split; [done| | | |done].
    + destruct no_entry0 as (ek & mk & Hk & ? & ? & Ho). exists ek, mk. split; [done|].
      split; try done. exists b6. split; [|done]. cbn. by rewrite lookup_insert_eq.
    + split; cbn; [done|apply Hz; lia|apply key16_random..].
    + split; cbn; [apply Hz; lia|apply key16_random..|]. exists b3. split; [|done].
      rewrite !lookup_insert_ne by (apply Hd || apply Hnd'; lia). by rewrite lookup_insert_eq.
  - split; cbn [md_FileID md_EpochID md_Version md_ChunkCount new_metadata new_box
      ab_FileID ab_EpochID length]; try done.
    + split; cbn; try apply key16_random; try (apply Hz; lia). apply verifyKeyName_nonempty.
    + split. destruct no_status0 as (st & Hu & Hc). exists b4, st, vk. cbn.
      rewrite !lookup_insert_ne by (apply Hd || apply Hnd'; lia). by rewrite lookup_insert_eq.
    + split; cbn; [apply Hz; lia|apply key16_random..|]. exists b2. split; [|done].
      rewrite !lookup_insert_ne by (apply Hd || apply Hnd'; lia). by rewrite lookup_insert_eq.
    + cbn [chain]. split; [done|]. destruct no_chunk0 as (ek & mk & Hk & ? & ? & Ho).
      exists ek, mk, uuid_Nil. split_and!; [done| |done].
      split; try done; [apply Hz; lia|]. exists b1. split; [|done]. cbn.
      rewrite !lookup_insert_ne by (apply Hd || apply Hnd'; lia). by rewrite lookup_insert_eq.
    + cbn. rewrite !NoDup_cons, !not_elem_of_cons.
      split_and!; try apply not_elem_of_nil; try apply NoDup_nil_2; apply Hd; lia.
  - split; cbn; [apply Hz; lia|apply key16_random..|]. exists b5. split; [|done].
    rewrite lookup_insert_ne by (apply Hnd'; lia). by rewrite lookup_insert_eq.
  - cbn. rewrite !NoDup_cons, !not_elem_of_cons.
    split_and!; try apply not_elem_of_nil; try apply NoDup_nil_2;
      first [apply Hd; lia | apply Hnd'; lia].
Qed.

Lemma store_writes w u f ctx x nu vk :
  quiet w → live ctx → user_ok (store w) u vk →
  getNameSpaceEntryUUID (Username u) f = Ok nu → nu ≠ uuid_Nil →
  Datastore (store w) !! nu = None →
  fresh w 14 → (∀ i, (i < 14)%nat → drawn_uuid w i ≠ nu) →
  ∃ w' ne ab md cid, run local (StoreFileContext u ctx f x) w = (w', Ok ()) ∧
    created (store w') u f x nu ne ab md [(cid, x)] ∧
    Keystore (store w') = Keystore (store w) ∧
    (∀ id, (id ∉ [nu; ne_AccessBoxUUID ne; ab_StatusUUID ab; ab_MetadataUUID ab;
        ne_AccessBoxStructureUUID ne; cid]) → Datastore (store w') !! id = Datastore (store w) !! id) ∧
    settled w w'.
Proof.
  intros Hq Hl Hu Hnu Hnil Hfree Hfr Hnd. unfold StoreFileContext.
  operation w (Ok ()) (λ s (_ : nat), ∃ ne ab md cid, created s u f x nu ne ab md [(cid, x)] ∧
    Keystore s = Keystore (store w) ∧
    ∀ id, (id ∉ [nu; ne_AccessBoxUUID ne; ab_StatusUUID ab; ab_MetadataUUID ab;
        ne_AccessBoxStructureUUID ne; cid]) → Datastore s !! id = Datastore (store w) !! id);
    [|destruct HP as (ne & ab & md & cid & ? & ? & ?); by exists w', ne, ab, md, cid].
  intros w1 txn Hw1 (Hs1 & Ht1 & Hd1).
  set (ns := mkResourceID NamespaceResource (uuid_String nu)).
  destruct (run_acquire w1 txn [] ctx ns ExclusiveLock)
    as (w2 & Hw2 & (Hs2 & Ht2 & Hd2) & Hc2 & Hrun2);
    [done|apply not_elem_of_nil|by right|done|].
  set (fileID := drawn_uuid w 0).
  assert (working (advance w2) txn [ns]) as Hw2' by (split; apply Hw2).
  destruct (run_acquire (advance w2) txn [ns] ctx (fileResourceID fileID) ExclusiveLock)
    as (w3 & Hw3 & (Hs3 & Ht3 & Hd3) & Hc3 & Hrun3); [done| |by right|done|].
  { apply not_elem_of_cons. split; [done|apply not_elem_of_nil]. }
  cbn in Hs3, Ht3, Hd3, Hc3.
  assert (store w3 = store w) as Hs by (by rewrite Hs3, Hs2).
  assert (∀ i, drawn_uuid w3 i = drawn_uuid w (S i)) as Hdr.
  { intros i. unfold drawn_uuid. rewrite Ht3, Ht2, Ht1, Hd3, Hd2, Hd1. do 2 f_equal. lia. }
  assert (fresh w3 13) as Hfr3.
  { split.
    - erewrite list_fmap_ext by (intros; apply Hdr).
      pose proof (fresh_nodup _ _ Hfr) as Hn.
      change (seq 0 14) with (0%nat :: seq 1 13) in Hn. rewrite <-(fmap_S_seq 0 13) in Hn.
      rewrite fmap_cons, <-list_fmap_compose in Hn. by apply NoDup_cons in Hn as [_ Hn].
    - intros i Hi. rewrite Hdr. apply Hfr. lia.
    - intros i Hi. rewrite Hdr, Hs. apply Hfr. lia. }
  destruct (prepareNewFile_run w3 u f x fileID nu vk) as (b1 & b2 & b3 & b4 & b5 & b6 & Hrun & Hno);
    [done|done|by rewrite Hs|done|].
  eexists _, _. split.
  { rewrite (run_lift _ _ ns) by (by apply namespaceResourceID_name).
    erewrite run_step by exact Hrun2. rewrite (run_lift _ _ nu) by done.
    erewrite run_step by done. unfold UserlibObjectStore_Get.
    rewrite Hs2, Hs1, Hfree, decide_False by (intros [? ?]; done).
    erewrite run_step by apply run_newUUID.
    replace (uuid_New (tape w2 (drawn w2))) with fileID
      by (unfold fileID, drawn_uuid; by rewrite Ht2, Ht1, Hd2, Hd1, Nat.add_0_r).
    erewrite run_step by exact Hrun3. erewrite run_step by done.
    unfold storeNewFileLocked. erewrite run_step by exact Hrun.
    apply run_commit. repeat constructor. }
  destruct (advance_data 18 w3) as (Hs4 & _ & _ & Hlm & Hg & Hc).
  generalize dependent (Nat.iter 18 advance w3). intros w4 _ Hs4 Hlm Hg Hc.
  cbn [store saferLockManager guard txnIDCounter set_store]. split.
  { split; cbn [saferLockManager guard set_store]; [rewrite Hlm|rewrite Hg]; apply Hw3. }
  split; [|by rewrite Hc, Hc3]. rewrite Hs4. eexists _, _, _, _. split; [|split; [by rewrite Hs|]].
  - eapply (new_objects_rep w3 u f x fileID nu vk); try done.
    + apply Hfr. lia.
    + by rewrite Hs.
    + intros i Hi. rewrite Hdr. apply Hnd. lia.
  - intros id. cbn. rewrite !not_elem_of_cons. intros (? & ? & ? & ? & ? & ? & _).
    by rewrite !lookup_insert_ne, Hs by done.
Qed.

Lemma store_creates w u f ctx x nu vk :
  quiet w → live ctx → user_ok (store w) u vk →
  getNameSpaceEntryUUID (Username u) f = Ok nu → nu ≠ uuid_Nil →
  Datastore (store w) !! nu = None →
  fresh w 14 → (∀ i, (i < 14)%nat → drawn_uuid w i ≠ nu) →
  ∃ w', run local (StoreFileContext u ctx f x) w = (w', Ok ()) ∧
    (∃ ne ab md cs, created (store w') u f x nu ne ab md cs) ∧
    Keystore (store w') = Keystore (store w) ∧ settled w w'.
Proof.
  intros. destruct (store_writes w u f ctx x nu vk) as (w' & ne & ab & md & cid & ? & ? & ? & _ & ?);
    try done. exists w'. split; [done|]. split; [by exists ne, ab, md, [(cid, x)]|done].
Qed.

(** C18. [StoreFile] on a free name creates the file: it commits the six objects
    that represent [content] at version 1 (the namespace entry, the access box,
    its status signed by the owner, the metadata, the chunk, and the owner's
    AccessBoxStructure, which tracks nobody yet), at six different places; the
    user has the file, nothing else of the Datastore has changed, and no key. *)
Theorem StoreFile_creates w u f ctx x nu vk :
  quiet w → live ctx → user_ok (store w) u vk →
  getNameSpaceEntryUUID (Username u) f = Ok nu → nu ≠ uuid_Nil →
  Datastore (store w) !! nu = None →
  fresh w 14 → (∀ i, (i < 14)%nat → drawn_uuid w i ≠ nu) →
  ∃ w' ne ab md cid, run local (StoreFileContext u ctx f x) w = (w', Ok ()) ∧
    created (store w') u f x nu ne ab md [(cid, x)] ∧
    has_file (store w') u f (bytes_of x) 1 ∧
    Keystore (store w') = Keystore (store w) ∧
    (∀ id, (id ∉ [nu; ne_AccessBoxUUID ne; ab_StatusUUID ab; ab_MetadataUUID ab;
        ne_AccessBoxStructureUUID ne; cid]) → Datastore (store w') !! id = Datastore (store w) !! id) ∧
    settled w w'.
Proof.
  intros. destruct (store_writes w u f ctx x nu vk) as (w' & ne & ab & md & cid & Hr & Hc & HK & HD & Hs);
    try done.
  exists w', ne, ab, md, cid. split_and!; try done. by eapply created_has_file.
Qed.

End create.
