(* ===== verification/AccountThms.v ===== *)
(** * Accounts

    What [InitUser] stores is what [GetUser] gives back. *)

From S2P Require Import Prelude Json JsonThms Libs LockManager Fencing SaferTypes Effects.
From S2P Require Import Client LocalEnv FileModel CreateThms.
Import Json JsonThms LM.
Open Scope string_scope.

Section accounts.
Context `{UuidLib} `{Userlib} `{!UuidNew} `{!UuidLaws} `{!UserlibLaws}.

Lemma deriveAccountKey_ok username password au :
  ∃ ek mk, deriveAccountKey username password au = Ok (ek, mk) ∧
    String.length ek = 16%nat ∧ String.length mk = 16%nat.
Proof.
  unfold deriveAccountKey. set (root := Argon2Key password _ 16).
  assert (String.length root = 16%nat) as Hr by apply Argon2Key_length.
  destruct (HashKDF_total root ("account-enc" +:+ uuid_String au) Hr) as (e & He & Hel).
  destruct (HashKDF_total root ("account-mac" +:+ uuid_String au) Hr) as (m & Hm & Hml).
  exists (take_bytes 16 e), (take_bytes 16 m). split_and!.
  - ok_step; [exact He|]. ok_step; [exact Hm|]. done.
  - apply take_bytes_length. rewrite Hel. unfold HashSizeBytes. lia.
  - apply take_bytes_length. rewrite Hml. unfold HashSizeBytes. lia.
Qed.

(** The account envelope opens to the account it was made from. *)
Lemma emacAccount_run account au ek mk w :
  String.length ek = 16%nat → String.length mk = 16%nat →
  ∃ bytes, run local (emacAccount account au ek mk) w = (advance w, Ok bytes) ∧
    openAccount bytes au ek mk = Ok account.
Proof.
  intros Hek Hmk. unfold emacAccount. rewrite Hek, Hmk. cbn [negb orb Nat.eqb].
  rewrite guard_false. unfold Marshal. cbn [lift].
  set (iv := RandomBytes 16 (tape w (drawn w))).
  assert (String.length iv = 16%nat) as Hiv by apply RandomBytes_length.
  set (ct := SymEnc ek iv (print (enc_Account account))).
  destruct (HMACEval_total mk (accountMACMessage au ct)) as (mac & Hmac & Hl); [done|].
  exists (print (enc_AuthenticatedEnvelope (mkAuthenticatedEnvelope (Some ct) (Some mac)))).
  split.
  - cbn -[accountMACMessage print enc_AuthenticatedEnvelope]. fold iv ct. by rewrite Hmac.
  - unfold openAccount. ok_guard; [by rewrite Hek|]. ok_guard; [by rewrite Hmk|].
    ok_step; [by rewrite (Unmarshal_print 1) by (done || apply envelope_codec)|].
    ok_guard; [change (negb (String.length mac =? HashSizeBytes)%nat = false); by rewrite Hl|].
    ok_step; [exact Hmac|].
    ok_guard; [by rewrite HMACEqual_spec, bool_decide_true|].
    ok_guard; [by apply Nat.ltb_ge, SymEnc_length|].
    change (bytes_of (env_Ciphertext _)) with ct. unfold ct. rewrite SymDec_Enc by done.
    by rewrite (Unmarshal_print 9) by (done || apply account_codec).
Qed.

(** Nothing of the account [username] exists yet. *)
Record name_free (s : UserlibStore) (username : string) (au : UUID) : Prop := {
  nf_uuid : getUserUUID username = Ok au;
  nf_account : Datastore s !! au = None;
  nf_pke : Keystore s !! getPKEKeyName username = None;
  nf_verify : Keystore s !! getVerifyKeyName username = None;
  nf_names : getPKEKeyName username ≠ getVerifyKeyName username }.

(** C19. Signing up and logging in: on a free name [InitUser] registers both
    public keys and the account in one commit, and [GetUser] with the same
    password then returns exactly that user, with a signing key matching the
    registered verification key. *)
Theorem InitUser_GetUser w username password au pk dk sk vk :
  username ≠ "" → name_free (store w) username au →
  PKEKeyGen (tape w (drawn w)) = Ok (pk, dk) →
  DSKeyGen (tape w (drawn w + 1)%nat) = Ok (sk, vk) →
  ∃ w' u, run local (InitUser username password) w = (w', Ok u) ∧
    Username u = username ∧ user_ok (store w') u vk ∧
    Keystore (store w') !! getPKEKeyName username = Some pk ∧
    run local (GetUser username password) w' = (w', Ok u).
Proof.
  intros Hne [Hau Ha Hp Hv Hn] Hpke Hds.
  destruct (deriveAccountKey_ok username password au) as (ek & mk & Hk & Hek & Hmk).
  set (root := RandomBytes 16 (tape w (drawn w + 2)%nat)).
  set (account := mkAccount (Some (Hash username)) (Some root) dk sk).
  destruct (emacAccount_run account au ek mk (advance (advance (advance w)))) as (b & Hb & Ho);
    [done..|].
  set (user := mkUser username (Some root) dk sk).
  set (s' := mkStore (<[au := b]> (Datastore (store w)))
    (<[getVerifyKeyName username := vk]> (<[getPKEKeyName username := pk]> (Keystore (store w))))).
  exists (set_store s' (advance (advance (advance (advance w))))), user. split.
  { unfold InitUser, InitUserContext. rewrite run_guard by (by apply bool_decide_false).
    rewrite (run_lift _ _ au) by done.
    erewrite (run_step (isUsernameTaken _ _ _)).
    2:{ unfold isUsernameTaken. erewrite run_step by done. erewrite run_step by done.
        erewrite run_step by done. unfold UserlibObjectStore_Get, UserlibKeyStore_Get.
        rewrite Ha, Hp, Hv. reflexivity. }
    rewrite run_guard by done.
    erewrite run_step by done. rewrite (run_lift _ _ (pk, dk)) by done.
    erewrite run_step by done.
    rewrite (run_lift _ _ (sk, vk)) by (cbn; rewrite Nat.add_1_r in Hds; exact Hds).
    erewrite run_step by apply run_randomBytes.
    rewrite (run_lift _ _ (ek, mk)) by done.
    replace (RandomBytes 16 _) with root
      by (unfold root; cbn; do 2 f_equal; lia).
    fold account. erewrite run_step by exact Hb.
    rewrite run_bind. cbn. unfold UserlibKeyStore_Put at 1. cbn. rewrite Hp.
    unfold UserlibKeyStore_Put. cbn. rewrite lookup_insert_ne, Hv by done. done. }
  split; [done|]. split; [|split].
  - split; [apply key16_random|by eexists|]. cbn. by rewrite lookup_insert_eq.
  - cbn. by rewrite lookup_insert_ne, lookup_insert_eq.
  - unfold GetUser, GetUserContext. rewrite run_guard by (by apply bool_decide_false).
    rewrite (run_lift _ _ au) by done. erewrite run_step by done.
    unfold UserlibObjectStore_Get. rewrite (run_lift _ _ b) by (cbn; by rewrite lookup_insert_eq).
    rewrite (run_lift _ _ (ek, mk)) by done. rewrite (run_lift _ _ account) by done. done.
Qed.

End accounts.
