(* ===== verification/ShareThms.v ===== *)
(** * Sharing a file

    What [CreateInvitation], [AcceptInvitation] and [RevokeAccess] compute on
    the default environment: [shared] is the abstract view of one file, its
    owner, the branch boxes the owner tracks, and the members who read it. *)

From S2P Require Import Prelude Json JsonThms Libs LockManager LockManagerInv.
From S2P Require Import LockManagerSeq Fencing SaferTypes Effects Client Sharing LocalEnv.
From S2P Require Import FileModel FileThms CreateThms.
Import Json JsonThms LM LMSeq.
Open Scope string_scope.

#[local] Arguments drawn_uuid : simpl never.

Section share.
Context `{UuidLib} `{Userlib} `{!UuidNew} `{!UuidLaws} `{!UserlibLaws}.

(** ** The invitation's envelope *)

Lemma deriveInvitationKeys_ok root ptr : String.length root = symmetricKeySize →
  ∃ ek mk, deriveInvitationKeys root ptr = Ok (ek, mk) ∧
    String.length ek = symmetricKeySize ∧ String.length mk = symmetricKeySize.
Proof.
  intros Hr. unfold deriveInvitationKeys, symmetricKeySize in *.
  destruct (HashKDF_total root ("invitation-enc:" +:+ uuid_String ptr) Hr) as (e & He & Hel).
  destruct (HashKDF_total root ("invitation-mac:" +:+ uuid_String ptr) Hr) as (m & Hm & Hml).
  exists (take_bytes 16 e), (take_bytes 16 m). split_and!.
  - ok_guard; [by rewrite Hr|]. ok_step; [exact He|]. ok_step; [exact Hm|]. done.
  - apply take_bytes_length. rewrite Hel. unfold HashSizeBytes. lia.
  - apply take_bytes_length. rewrite Hml. unfold HashSizeBytes. lia.
Qed.

(** [bytes] is an invitation from the holder of [vk]'s signing key that [v]
    can open, at [ptr], to [payload]. *)
Definition invites (bytes : string) (v : User) (vk : PublicKeyType) (ptr : UUID)
    (payload : InvitationPayload) : Prop :=
  ∃ inv root, Unmarshal dec_Invitation zero_Invitation bytes = Some inv ∧
    checkInvitation v ptr inv vk = Ok root ∧ openInvitationPayload root ptr inv = Ok payload.

(** Whatever is drawn, the invitation [buildInvitation] makes for [v]'s
    registered key opens, for [v], to its payload. *)
Lemma buildInvitation_run n w u v vk pk ptr payload :
  ds_pair (u_SignPrivate u) vk → pke_pair pk (u_PKEPrivate v) →
  ∃ bytes, run local (buildInvitation (Some u) pk ptr payload) (Nat.iter n advance w)
      = (Nat.iter (3 + n) advance w, Ok bytes) ∧ invites bytes v vk ptr payload.
Proof.
  intros Hds Hpke.
  set (root := RandomBytes 16 (tape w (drawn w + n)%nat)).
  assert (String.length root = symmetricKeySize) as Hroot by apply RandomBytes_length.
  destruct (deriveInvitationKeys_ok root ptr Hroot) as (ek & mk & Hk & Hek & Hmk).
  set (iv := RandomBytes 16 (tape w (drawn w + S n)%nat)).
  assert (String.length iv = 16%nat) as Hiv by apply RandomBytes_length.
  set (ct := SymEnc ek iv (print (enc_InvitationPayload payload))).
  destruct (HMACEval_total mk (getInvitationMACMessage ptr ct) Hmk) as (mac & Hmac & Hl).
  destruct (PKEEnc_total pk (u_PKEPrivate v) root (tape w (drawn w + S (S n))%nat) Hpke Hroot)
    as (wr & Hwr).
  set (msg := "invitation-signature:" +:+ uuid_String ptr +:+ ":" +:+
    print (enc_InvitationSignedFields (mkInvitationSignedFields (Some wr) (Some ct) (Some mac)))).
  destruct (DSSign_total (u_SignPrivate u) vk msg Hds) as [sg Hsg].
  set (inv := mkInvitation (Some wr) (Some ct) (Some mac) (Some sg)).
  exists (print (enc_Invitation inv)). split.
  - unfold buildInvitation. rewrite (run_lift _ _ u) by done.
    rewrite run_guard by (rewrite (PKEKeyGen_type _ _ Hpke); by apply bool_decide_false; auto).
    erewrite run_step by apply run_draw_bytes. fold root.
    rewrite (run_lift _ _ (ek, mk)) by done.
    rewrite (run_lift _ _ (print (enc_InvitationPayload payload))) by done.
    erewrite run_step by apply run_draw_bytes. fold iv ct.
    rewrite (run_lift _ _ mac) by done.
    erewrite run_step by done.
    destruct (advance_data (S (S n)) w) as (_ & -> & -> & _).
    rewrite (run_lift _ _ wr) by exact Hwr.
    rewrite (run_lift _ _ msg) by done. rewrite (run_lift _ _ sg) by done. done.
  - exists inv, root. split; [apply (Unmarshal_print 1); [done|apply invitation_codec]|]. split.
    + unfold checkInvitation. apply bind_Ok. exists msg. split; [done|].
      apply bind_Ok. exists (). split.
      { change (bytes_of (iv_Signature inv)) with sg. by rewrite (DSVerify_Sign _ _ _ _ Hds Hsg). }
      apply bind_Ok. exists root. split.
      { change (bytes_of (iv_WrappedRoot inv)) with wr. by rewrite (PKEDec_Enc _ _ _ _ _ Hpke Hwr). }
      ok_guard; [by rewrite Hroot|]. done.
    + unfold openInvitationPayload. apply bind_Ok. exists (ek, mk). split; [done|].
      ok_guard; [change (negb (String.length mac =? HashSizeBytes)%nat = false); by rewrite Hl|].
      ok_step; [exact Hmac|].
      ok_guard; [by rewrite HMACEqual_spec, bool_decide_true|].
      ok_guard; [by apply Nat.ltb_ge, SymEnc_length|].
      change (bytes_of (iv_Ciphertext inv)) with ct. unfold ct. rewrite SymDec_Enc by done.
      by rewrite (Unmarshal_print 1) by (done || apply payload_codec).
Qed.

(** The payload [CreateInvitation] writes for a branch box. *)
Definition payload_for (sender recipient : string) (fileID : UUID) (box : BranchBoxRecord)
    : InvitationPayload :=
  mkInvitationPayload (Some (getInvitationIdentity sender))
    (Some (getInvitationIdentity recipient)) fileID
    (bb_BoxUUID box) (bb_BoxEncKey box) (bb_BoxMACKey box).

Record record_wf (box : BranchBoxRecord) : Prop := {
  rw_uuid : bb_BoxUUID box ≠ uuid_Nil;
  rw_ek : key16 (bb_BoxEncKey box);
  rw_mk : key16 (bb_BoxMACKey box) }.

Lemma checkPayload_ok v sender fileID box :
  fileID ≠ uuid_Nil → record_wf box →
  checkPayload v sender (payload_for sender (Username v) fileID box) = Ok ().
Proof.
  intros Hf [Hu Hek Hmk]. unfold checkPayload, key16 in *.
  assert (∀ n, slen (Some (getInvitationIdentity n)) = HashSizeBytes) as Hl
    by (intros; apply Hash_length).
  ok_guard; [cbn [ip_SenderIdentity payload_for]; by rewrite Hl, HMACEqual_spec, bool_decide_true|].
  ok_guard; [cbn [ip_RecipientIdentity payload_for];
    by rewrite Hl, HMACEqual_spec, bool_decide_true|].
  do 2 (ok_guard; [by apply bool_decide_false|]).
  apply fail_if_Ok. cbn [ip_AccessBoxEncKey ip_AccessBoxMACKey payload_for]. by rewrite Hek, Hmk.
Qed.

Lemma openInvitation_run ctx u v vk ptr bytes fileID box w :
  ptr ≠ uuid_Nil → Datastore (store w) !! ptr = Some bytes → ds_pair (u_SignPrivate u) vk →
  Keystore (store w) !! getVerifyKeyName (Username u) = Some vk →
  fileID ≠ uuid_Nil → record_wf box →
  invites bytes v vk ptr (payload_for (Username u) (Username v) fileID box) →
  run local (openInvitation ctx (Some v) (Username u) ptr) w =
    (w, Ok (payload_for (Username u) (Username v) fileID box)).
Proof.
  intros Hp Hb Hds Hk Hf Hbox (inv & root & Hu & Hc & Ho). unfold openInvitation.
  rewrite (run_lift _ _ v) by done. rewrite run_guard by (by apply bool_decide_false).
  erewrite run_step by done. unfold UserlibObjectStore_Get.
  rewrite Hb, (run_lift _ _ bytes), (run_lift _ _ inv) by (done || by rewrite Hu).
  erewrite run_step by done. unfold UserlibKeyStore_Get. rewrite Hk, (run_lift _ _ vk) by done.
  rewrite run_guard by (rewrite (DSKeyGen_type _ _ Hds); by apply bool_decide_false; auto).
  rewrite (run_lift _ _ root), (run_lift _ _ (payload_for (Username u) (Username v) fileID box))
    by done.
  by rewrite (run_lift _ _ ()) by (by apply checkPayload_ok).
Qed.

(** ** What a list of writes leaves behind *)

Definition target (m : Mutation) : option UUID :=
  match m with MPut id _ => Some id | MDelete id => Some id | MKeyPut _ _ => None end.

(** The objects a commit touches. *)
Definition targets (ms : list Mutation) : list UUID := omap target ms.

Definition applied (ms : list Mutation) (d : gmap UUID string) : gmap UUID string :=
  foldl (λ d m, apply_mutation m d) d ms.

Lemma applied_other ms d id : id ∉ targets ms → applied ms d !! id = d !! id.
Proof.
  revert d. induction ms as [|m ms IH]; intros d Hid; [done|]. unfold applied in *.
  cbn [foldl]. rewrite IH by (intros Hin; apply Hid; destruct m; cbn; try right; done).
  destruct m; cbn; [|rewrite lookup_delete_ne by (intros ->; apply Hid; by left); done|done].
  rewrite lookup_insert_ne; [done|]. intros ->. apply Hid. by left.
Qed.

Lemma applied_put ms d id v :
  NoDup (targets ms) → MPut id v ∈ ms → applied ms d !! id = Some v.
Proof.
  revert d. induction ms as [|m ms IH]; intros d Hnd; [by intros ?%elem_of_nil|].
  intros [<-|Hin]%elem_of_cons.
  - apply NoDup_cons in Hnd as [Hid _].
    change (applied (MPut id v :: ms) d) with (applied ms (<[id := v]> d)).
    by rewrite applied_other, lookup_insert_eq.
  - change (applied (m :: ms) d) with (applied ms (apply_mutation m d)). apply IH; [|done].
    destruct m; cbn in Hnd; [by apply NoDup_cons in Hnd as [_ ?]..|done].
Qed.

Lemma applied_delete ms d id :
  NoDup (targets ms) → MDelete id ∈ ms → applied ms d !! id = None.
Proof.
  revert d. induction ms as [|m ms IH]; intros d Hnd; [by intros ?%elem_of_nil|].
  intros [<-|Hin]%elem_of_cons.
  - apply NoDup_cons in Hnd as [Hid _].
    change (applied (MDelete id :: ms) d) with (applied ms (delete id d)).
    by rewrite applied_other, lookup_delete_eq.
  - change (applied (m :: ms) d) with (applied ms (apply_mutation m d)). apply IH; [|done].
    destruct m; cbn in Hnd; [by apply NoDup_cons in Hnd as [_ ?]..|done].
Qed.

(** ** A shared file *)

(** The objects of a file its owner reaches without the branch boxes. *)
Definition core (nu : UUID) (ne : NamespaceEntry) (ab : AccessBox) (cs : list (UUID * slice))
    : list UUID :=
  nu :: ne_AccessBoxUUID ne :: ab_StatusUUID ab :: ab_MetadataUUID ab ::
    ne_AccessBoxStructureUUID ne :: cs.*1.

(** [u] owns [f]: the file, the structure that tracks [boxes], and a branch
    box for every recipient in it. *)
Record owns (s : UserlibStore) (u : User) (f : string) (nu : UUID) (ne : NamespaceEntry)
    (ab : AccessBox) (md : Metadata) (cs : list (UUID * slice))
    (boxes : gmap string BranchBoxRecord) : Prop := {
  ow_resolves : resolves s u f nu ne ab;
  ow_rep : file_rep s ab md cs;
  ow_owner : ne_IsOwner ne = true;
  ow_same : ne_AccessBoxStructureUUID ne = ab_AccessBoxStructureUUID ab;
  ow_structure : opens s accessBoxStructureObjectType (ne_AccessBoxStructureUUID ne)
    (ne_AccessBoxStructureEncKey ne) (ne_AccessBoxStructureMACKey ne)
    dec_AccessBoxStructure zero_AccessBoxStructure
    (mkAccessBoxStructure (ab_FileID ab) (ab_EpochID ab) (Some boxes));
  ow_key : ab_OwnerVerifyKeyName ab = getVerifyKeyName (Username u);
  ow_names k box : boxes !! k = Some box → valid_utf8 k = true;
  ow_box k box : boxes !! k = Some box →
    opens s accessBoxObjectType (bb_BoxUUID box) (bb_BoxEncKey box) (bb_BoxMACKey box)
      dec_AccessBox zero_AccessBox ab;
  ow_distinct : NoDup (core nu ne ab cs);
  ow_apart k box : boxes !! k = Some box → bb_BoxUUID box ∉ core nu ne ab cs;
  ow_inj k k' box box' : boxes !! k = Some box → boxes !! k' = Some box' →
    bb_BoxUUID box = bb_BoxUUID box' → k = k' }.

(** An object that is neither in the core of the file nor a branch box. *)
Definition apart (core : list UUID) (boxes : gmap string BranchBoxRecord) (id : UUID) : Prop :=
  (id ∉ core) ∧ (∀ k box, boxes !! k = Some box → id ≠ bb_BoxUUID box).

(** The entry [AcceptInvitation] makes for a branch box. *)
Definition entry_for (fileID : UUID) (box : BranchBoxRecord) : NamespaceEntry :=
  mkNamespaceEntry false fileID (bb_BoxUUID box) (bb_BoxEncKey box) (bb_BoxMACKey box)
    uuid_Nil None None.

(** [v] reads the file as [g] through the branch box recorded for [v]. *)
Definition member (s : UserlibStore) (core : list UUID) (fileID : UUID)
    (boxes : gmap string BranchBoxRecord) (v : User) (g : string) : Prop :=
  ∃ nu box ek mk, boxes !! Username v = Some box ∧ apart core boxes nu ∧
    getNameSpaceEntryUUID (Username v) g = Ok nu ∧
    deriveNamespaceEntryKeys (u_NamespaceRoot v) g = Ok (ek, mk) ∧
    opens s namespaceEntryObjectType nu ek mk dec_NamespaceEntry zero_NamespaceEntry
      (entry_for fileID box).

(** An invitation to [v] is waiting at [ptr]. *)
Definition invited (s : UserlibStore) (core : list UUID) (fileID : UUID)
    (boxes : gmap string BranchBoxRecord) (u : User) (vk : PublicKeyType) (v : User) (ptr : UUID)
    : Prop :=
  ∃ box bytes, boxes !! Username v = Some box ∧ apart core boxes ptr ∧ ptr ≠ uuid_Nil ∧
    Datastore s !! ptr = Some bytes ∧
    invites bytes v vk ptr (payload_for (Username u) (Username v) fileID box).

(** The abstract state of a shared file: its bytes, version and epoch, the
    branch boxes the owner tracks, the members with their own names for the file, and
    the invitations that are waiting. *)
Record view := mkView {
  vw_content : string;
  vw_version : N;
  vw_epoch : UUID;
  vw_boxes : gmap string BranchBoxRecord;
  vw_members : list (User * string);
  vw_pending : list (User * UUID) }.

(** The store represents the abstract state [x] of the file [u] calls [f]. *)
Record view_rep (s : UserlibStore) (u : User) (vk : PublicKeyType) (f : string) (x : view)
    (nu : UUID) (ne : NamespaceEntry) (ab : AccessBox) (md : Metadata)
    (cs : list (UUID * slice)) : Prop := {
  vr_user : user_ok s u vk;
  vr_owns : owns s u f nu ne ab md cs (vw_boxes x);
  vr_content : vw_content x = content_of cs;
  vr_version : vw_version x = md_Version md;
  vr_epoch : vw_epoch x = ab_EpochID ab;
  vr_members v g : (v, g) ∈ vw_members x →
    member s (core nu ne ab cs) (ab_FileID ab) (vw_boxes x) v g;
  vr_pending v ptr : (v, ptr) ∈ vw_pending x →
    invited s (core nu ne ab cs) (ab_FileID ab) (vw_boxes x) u vk v ptr;
  vr_nodup : NoDup (vw_pending x).*2;
  vr_apart v g ptr : (v, g) ∈ vw_members x → ptr ∈ (vw_pending x).*2 →
    getNameSpaceEntryUUID (Username v) g ≠ Ok ptr }.

Definition shared (s : UserlibStore) (u : User) (vk : PublicKeyType) (f : string) (x : view)
    : Prop :=
  ∃ nu ne ab md cs, view_rep s u vk f x nu ne ab md cs.

(** A member's name resolves to the owner's access box. *)
Lemma member_resolves s u f nu ne ab md cs boxes v g :
  owns s u f nu ne ab md cs boxes → member s (core nu ne ab cs) (ab_FileID ab) boxes v g →
  ∃ nu' box, resolves s v g nu' (entry_for (ab_FileID ab) box) ab ∧
    boxes !! Username v = Some box ∧ apart (core nu ne ab cs) boxes nu'.
Proof.
  intros Ho (nu' & box & ek & mk & Hb & Ha & Hn & Hk & He). exists nu', box. split; [|done].
  pose proof (ow_box _ _ _ _ _ _ _ _ _ Ho _ _ Hb) as Hbox.
  split; [done|by exists ek, mk| |exact Hbox|done].
  destruct Hbox. split; try done. cbn.
  rewrite (rs_file _ _ _ _ _ _ (ow_resolves _ _ _ _ _ _ _ _ _ Ho)).
  apply (rs_entry_wf _ _ _ _ _ _ (ow_resolves _ _ _ _ _ _ _ _ _ Ho)).
Qed.

(** The owner and every member have the file. *)
Lemma shared_has_file s u vk f x v g :
  shared s u vk f x → (v, g) = (u, f) ∨ (v, g) ∈ vw_members x →
  has_file s v g (vw_content x) (vw_version x).
Proof.
  intros (nu & ne & ab & md & cs & [_ Ho -> -> _ Hm _ _ _]) [[= -> ->]|Hin].
  - exists nu, ne, ab, md, cs. split; [apply Ho|]. split; [apply Ho|]. split; [|done].
    pose proof (ow_distinct _ _ _ _ _ _ _ _ _ Ho) as Hnd. unfold core in Hnd.
    rewrite !NoDup_cons, !not_elem_of_cons in *. naive_solver.
  - destruct (member_resolves _ _ _ _ _ _ _ _ _ _ _ Ho (Hm _ _ Hin))
      as (nu' & box & Hr & Hb & Ha & Hbs).
    exists nu', (entry_for (ab_FileID ab) box), ab, md, cs.
    split; [done|]. split; [apply Ho|]. split; [|done].
    pose proof (ow_distinct _ _ _ _ _ _ _ _ _ Ho) as Hnd.
    pose proof (ow_apart _ _ _ _ _ _ _ _ _ Ho _ _ Hb) as Ha'. pose proof (Hbs _ _ Hb).
    unfold core in *. cbn [ne_AccessBoxUUID entry_for].
    rewrite !NoDup_cons, !not_elem_of_cons in *. naive_solver.
Qed.

(** A new file is shared with nobody. *)
Lemma created_shared s u vk f x nu ne ab md cs :
  user_ok s u vk → created s u f x nu ne ab md cs →
  shared s u vk f (mkView (bytes_of x) 1 (ab_EpochID ab) ∅ [] []).
Proof.
  intros Hu [Hr Hrep Hown Hsame Hstr Hkey Hd Hcont Hver]. exists nu, ne, ab, md, cs.
  split; cbn; try done; try apply NoDup_nil_2;
    try (intros; exfalso; by eapply not_elem_of_nil).
Qed.

(** ** Framing *)

Lemma status_ext s s' ab :
  Keystore s' = Keystore s → Datastore s' !! ab_StatusUUID ab = Datastore s !! ab_StatusUUID ab →
  status_ok s ab → status_ok s' ab.
Proof. intros HK HS [(b & st & vk & ?)]. split. exists b, st, vk. by rewrite HK, HS. Qed.

Lemma file_rep_ext s s' ab md cs :
  Keystore s' = Keystore s →
  (∀ id, id ∈ ab_StatusUUID ab :: ab_MetadataUUID ab :: cs.*1 →
     Datastore s' !! id = Datastore s !! id) →
  file_rep s ab md cs → file_rep s' ab md cs.
Proof.
  intros HK HS []. split; try done.
  - eapply status_ext; [done|apply HS; by left|done].
  - eapply opens_ext; [apply HS; right; by left|done].
  - eapply chain_ext; [|done]. intros id Hid. apply HS. by do 2 right.
Qed.

Lemma user_ok_ext s s' u vk : Keystore s' = Keystore s → user_ok s u vk → user_ok s' u vk.
Proof. intros HK []. split; [done..|by rewrite HK]. Qed.

(** The owner's file with other branch boxes: the core but the structure is
    as it was. *)
Lemma owns_rebox s s' u f nu ne ab md cs boxes boxes' :
  owns s u f nu ne ab md cs boxes → Keystore s' = Keystore s →
  (∀ id, id ∈ core nu ne ab cs → id ≠ ne_AccessBoxStructureUUID ne →
     Datastore s' !! id = Datastore s !! id) →
  opens s' accessBoxStructureObjectType (ne_AccessBoxStructureUUID ne)
    (ne_AccessBoxStructureEncKey ne) (ne_AccessBoxStructureMACKey ne)
    dec_AccessBoxStructure zero_AccessBoxStructure
    (mkAccessBoxStructure (ab_FileID ab) (ab_EpochID ab) (Some boxes')) →
  (∀ k box, boxes' !! k = Some box → valid_utf8 k = true ∧
     opens s' accessBoxObjectType (bb_BoxUUID box) (bb_BoxEncKey box) (bb_BoxMACKey box)
       dec_AccessBox zero_AccessBox ab ∧ (bb_BoxUUID box ∉ core nu ne ab cs) ∧
     (∀ k' box', boxes' !! k' = Some box' → bb_BoxUUID box = bb_BoxUUID box' → k = k')) →
  owns s' u f nu ne ab md cs boxes'.
Proof.
  intros Ho HK HS Hst Hb. pose proof (ow_distinct _ _ _ _ _ _ _ _ _ Ho) as Hnd.
  unfold core in Hnd. rewrite !NoDup_cons, !not_elem_of_cons in Hnd.
  assert (∀ id, id = nu ∨ id = ne_AccessBoxUUID ne ∨ id = ab_StatusUUID ab ∨
    id = ab_MetadataUUID ab ∨ id ∈ cs.*1 → Datastore s' !! id = Datastore s !! id) as HS'.
  { intros id Hid. apply HS; unfold core; [rewrite !elem_of_cons|]; naive_solver. }
  destruct Ho. split; try done.
  - eapply resolves_ext; [..|done]; apply HS'; auto.
  - eapply file_rep_ext; [done| |done]. intros id. rewrite !elem_of_cons. auto.
  - intros k box Hk. apply (Hb _ _ Hk).
  - intros k box Hk. apply (Hb _ _ Hk).
  - intros k box Hk. apply (Hb _ _ Hk).
  - intros k k' box box' Hk Hk'. by apply (Hb _ _ Hk).
Qed.

Lemma member_ext s s' core core' fid boxes boxes' v g :
  member s core fid boxes v g → boxes' !! Username v = boxes !! Username v →
  (∀ nu, apart core boxes nu → Datastore s !! nu ≠ None →
     getNameSpaceEntryUUID (Username v) g = Ok nu →
     Datastore s' !! nu = Datastore s !! nu ∧ apart core' boxes' nu) →
  member s' core' fid boxes' v g.
Proof.
  intros (nu & box & ek & mk & Hb & Ha & Hn & Hk & Ho) Hbs HS.
  destruct (HS nu) as [He Ha']; [done|by eapply opens_stored|done|].
  exists nu, box, ek, mk. rewrite Hbs. split_and!; try done. by eapply opens_ext.
Qed.

Lemma invited_ext s s' core core' fid boxes boxes' u vk v ptr :
  invited s core fid boxes u vk v ptr → boxes' !! Username v = boxes !! Username v →
  (apart core boxes ptr → Datastore s !! ptr ≠ None →
     Datastore s' !! ptr = Datastore s !! ptr ∧ apart core' boxes' ptr) →
  invited s' core' fid boxes' u vk v ptr.
Proof.
  intros (box & bytes & Hb & Ha & Hn & Hk & Ho) Hbs HS.
  destruct HS as [He Ha']; [done|by rewrite Hk|].
  exists box, bytes. by rewrite Hbs, He.
Qed.

Lemma loadStructure_run ctx s u f nu ne ab md cs boxes w :
  owns s u f nu ne ab md cs boxes → store w = s →
  run local (loadOwnerAccessBoxStructure ctx ne ab) w =
    (w, Ok (mkAccessBoxStructure (ab_FileID ab) (ab_EpochID ab) (Some boxes))).
Proof.
  intros Ho <-. pose proof (ow_structure _ _ _ _ _ _ _ _ _ Ho) as Hs.
  unfold loadOwnerAccessBoxStructure.
  destruct (op_ek _ _ _ _ _ _ _ _ Hs), (op_mk _ _ _ _ _ _ _ _ Hs).
  rewrite !run_guard;
    [|by rewrite (op_ek _ _ _ _ _ _ _ _ Hs), (op_mk _ _ _ _ _ _ _ _ Hs)
     |apply bool_decide_false; pose proof (ow_same _ _ _ _ _ _ _ _ _ Ho); naive_solver
     |apply bool_decide_false, Hs
     |by rewrite (ow_owner _ _ _ _ _ _ _ _ _ Ho)].
  erewrite run_step by (by apply load_run).
  rewrite !run_guard; [done|..]; by apply bool_decide_false; auto.
Qed.

(** ** Inviting *)

(** What [grantBranchBox] computes: the branch box of [name], tracked already
    or new, sealed for the current access box; and, when it is new, the
    structure that tracks it. *)
Record granting (w : World) (n : nat) (ne : NamespaceEntry) (ab : AccessBox)
    (boxes : gmap string BranchBoxRecord) (name : string) (box : BranchBoxRecord)
    (ms : list Mutation) : Prop := {
  gr_objects : Forall is_object_write ms;
  gr_wf : record_wf box;
  gr_box : ∃ b, MPut (bb_BoxUUID box) b ∈ ms ∧ openEnvelope accessBoxObjectType (bb_BoxUUID box)
    (bb_BoxEncKey box) (bb_BoxMACKey box) dec_AccessBox zero_AccessBox b = Ok ab;
  gr_case : boxes !! name = Some box ∧ targets ms = [bb_BoxUUID box] ∨
    boxes !! name = None ∧ bb_BoxUUID box = drawn_uuid w n ∧
    targets ms = [bb_BoxUUID box; ne_AccessBoxStructureUUID ne] ∧
    ∃ b, MPut (ne_AccessBoxStructureUUID ne) b ∈ ms ∧
      openEnvelope accessBoxStructureObjectType (ne_AccessBoxStructureUUID ne)
        (ne_AccessBoxStructureEncKey ne) (ne_AccessBoxStructureMACKey ne)
        dec_AccessBoxStructure zero_AccessBoxStructure b =
      Ok (mkAccessBoxStructure (ab_FileID ab) (ab_EpochID ab) (Some (<[name := box]> boxes))) }.

Lemma owner_box_codec s u f nu ne ab md cs boxes :
  owns s u f nu ne ab md cs boxes → valid_utf8 (ab_OwnerVerifyKeyName ab) = true.
Proof. intros Ho. rewrite (ow_key _ _ _ _ _ _ _ _ _ Ho). apply verifyKeyName_utf8. Qed.

Lemma grantBranchBox_run n w u f nu ne ab md cs boxes name :
  owns (store w) u f nu ne ab md cs boxes → valid_utf8 name = true →
  drawn_uuid w n ≠ uuid_Nil →
  ∃ m box ms, (∀ ctx, run local (grantBranchBox ctx ne ab name) (Nat.iter n advance w) =
      (Nat.iter m advance w, Ok (box, ms))) ∧ granting w n ne ab boxes name box ms.
Proof.
  intros Ho Hname Hnil. unfold grantBranchBox.
  assert (∀ ctx, run local (loadOwnerAccessBoxStructure ctx ne ab) (Nat.iter n advance w) =
    (Nat.iter n advance w, Ok (mkAccessBoxStructure (ab_FileID ab) (ab_EpochID ab) (Some boxes))))
    as Hload by (intros; eapply loadStructure_run; [exact Ho|apply advance_data]).
  pose proof (owner_box_codec _ _ _ _ _ _ _ _ _ Ho) as Hutf.
  destruct (boxes !! name) as [box|] eqn:Hbox.
  - destruct (ow_box _ _ _ _ _ _ _ _ _ Ho _ _ Hbox) as [Hu Hek Hmk _].
    destruct (protect_at n 1 enc_AccessBox dec_AccessBox zero_AccessBox ab accessBoxObjectType
      (bb_BoxUUID box) (bb_BoxEncKey box) (bb_BoxMACKey box) w) as (b & Hb & Hopen);
      [done..|by apply access_box_codec|].
    eexists _, box, _. split.
    { intros ctx. erewrite run_step by apply Hload. change (recipientBoxes _) with boxes.
      rewrite Hbox. erewrite run_step2 by done. erewrite run_step by exact Hb. done. }
    split; [by repeat constructor|done| |by left]. exists b. split; [by left|done].
  - set (box := mkBranchBoxRecord (drawn_uuid w n)
      (Some (RandomBytes 16 (tape w (drawn w + S n)%nat)))
      (Some (RandomBytes 16 (tape w (drawn w + S (S n))%nat)))).
    destruct (ow_structure _ _ _ _ _ _ _ _ _ Ho) as [Hsu Hsek Hsmk _].
    destruct (protect_at (3 + n) 3 enc_AccessBoxStructure dec_AccessBoxStructure
      zero_AccessBoxStructure
      (mkAccessBoxStructure (ab_FileID ab) (ab_EpochID ab) (Some (<[name := box]> boxes)))
      accessBoxStructureObjectType (ne_AccessBoxStructureUUID ne)
      (ne_AccessBoxStructureEncKey ne) (ne_AccessBoxStructureMACKey ne) w)
      as (b' & Hb' & Hopen'); [done..| |].
    { apply structure_codec. intros k r [[<- _]|[_ Hk]]%lookup_insert_Some; [done|].
      by eapply ow_names. }
    destruct (protect_at (4 + n) 1 enc_AccessBox dec_AccessBox zero_AccessBox ab
      accessBoxObjectType (bb_BoxUUID box) (bb_BoxEncKey box) (bb_BoxMACKey box) w)
      as (b & Hb & Hopen);
      [done|done|apply key16_random..|done|by apply access_box_codec|].
    eexists _, box, _. split.
    { intros ctx. erewrite run_step by apply Hload. change (recipientBoxes _) with boxes.
      rewrite Hbox. erewrite run_step2.
      2:{ erewrite run_step by apply run_draw_uuid. erewrite run_step by apply run_draw_bytes.
          erewrite run_step by apply run_draw_bytes. fold box.
          rewrite <-(ow_same _ _ _ _ _ _ _ _ _ Ho). erewrite run_step by exact Hb'. reflexivity. }
      erewrite run_step by exact Hb. done. }
    split; [by repeat constructor|split; [done|apply key16_random..]| |].
    + exists b. split; [by left|done].
    + right. split_and!; [done..|]. exists b'. split; [right; by left|done].
Qed.

Lemma targets_app ms1 ms2 : targets (ms1 ++ ms2) = (targets ms1 ++ targets ms2)%list.
Proof. apply omap_app. Qed.

(** Everything the owner's file consists of is stored. *)
Lemma core_stored s u f nu ne ab md cs boxes id :
  owns s u f nu ne ab md cs boxes → id ∈ core nu ne ab cs → Datastore s !! id ≠ None.
Proof.
  intros Ho. unfold core. rewrite !elem_of_cons. intros [->|[->|[->|[->|[->|Hid]]]]].
  - destruct (rs_entry _ _ _ _ _ _ (ow_resolves _ _ _ _ _ _ _ _ _ Ho)) as (? & ? & _ & He).
    by eapply opens_stored.
  - eapply opens_stored, rs_box, Ho.
  - destruct (fr_status _ _ _ _ (ow_rep _ _ _ _ _ _ _ _ _ Ho)) as [(b & ? & ? & Hb & _)].
    by rewrite Hb.
  - eapply opens_stored, fr_meta, Ho.
  - eapply opens_stored, Ho.
  - eapply chain_stored; [apply fr_chain, Ho|done].
Qed.

Lemma fresh_apart s u f nu ne ab md cs boxes id :
  owns s u f nu ne ab md cs boxes → Datastore s !! id = None →
  apart (core nu ne ab cs) boxes id.
Proof.
  intros Ho Hid. split.
  - intros Hin. by eapply core_stored.
  - intros k box Hk ->. eapply opens_stored; [|exact Hid]. by eapply ow_box.
Qed.

Definition vw_invite (v : User) (ptr : UUID) (box : BranchBoxRecord) (x : view) : view :=
  mkView (vw_content x) (vw_version x) (vw_epoch x) (<[Username v := box]> (vw_boxes x)) (vw_members x)
    ((v, ptr) :: vw_pending x).

(** What the writes of an invitation change. *)
Record branched (s s' : UserlibStore) (ne : NamespaceEntry) (ab : AccessBox)
    (boxes : gmap string BranchBoxRecord) (name : string) (box : BranchBoxRecord) (ptr : UUID)
    : Prop := {
  br_keys : Keystore s' = Keystore s;
  br_frame id : Datastore s !! id ≠ None → id ≠ ne_AccessBoxStructureUUID ne →
    id ≠ bb_BoxUUID box → Datastore s' !! id = Datastore s !! id;
  br_old : Datastore s !! bb_BoxUUID box ≠ None → boxes !! name = Some box;
  br_tracked : is_Some (boxes !! name) → boxes !! name = Some box;
  br_box : opens s' accessBoxObjectType (bb_BoxUUID box) (bb_BoxEncKey box) (bb_BoxMACKey box)
    dec_AccessBox zero_AccessBox ab;
  br_structure : opens s' accessBoxStructureObjectType (ne_AccessBoxStructureUUID ne)
    (ne_AccessBoxStructureEncKey ne) (ne_AccessBoxStructureMACKey ne)
    dec_AccessBoxStructure zero_AccessBoxStructure
    (mkAccessBoxStructure (ab_FileID ab) (ab_EpochID ab) (Some (<[name := box]> boxes)));
  br_ptr : bb_BoxUUID box ≠ ptr;
  br_else id : id ≠ ptr → id ≠ ne_AccessBoxStructureUUID ne → id ≠ bb_BoxUUID box →
    Datastore s' !! id = Datastore s !! id }.

Lemma granting_branched w n u f nu ne ab md cs boxes name box ms ptr bytes :
  owns (store w) u f nu ne ab md cs boxes → granting w n ne ab boxes name box ms →
  Datastore (store w) !! drawn_uuid w n = None → Datastore (store w) !! ptr = None →
  drawn_uuid w n ≠ ptr →
  let s' := mkStore (applied (ms ++ [MPut ptr bytes]) (Datastore (store w)))
    (Keystore (store w)) in
  branched (store w) s' ne ab boxes name box ptr ∧ Datastore s' !! ptr = Some bytes.
Proof.
  intros Ho [Hobj [Hu Hek Hmk] (b & Hb & Hopen) Hcase] Hn Hp Hnp s'.
  destruct (ow_structure _ _ _ _ _ _ _ _ _ Ho) as [Hsu Hsek Hsmk (bs & Hbs & Hos)].
  assert (bb_BoxUUID box ≠ ptr ∧ bb_BoxUUID box ≠ ne_AccessBoxStructureUUID ne) as [Hbp Hbst].
  { destruct Hcase as [(Hbox & _)|(_ & -> & _)]; [|split; congruence].
    pose proof (ow_apart _ _ _ _ _ _ _ _ _ Ho _ _ Hbox) as Ha. unfold core in Ha.
    rewrite !not_elem_of_cons in Ha. split; [|naive_solver].
    intros Heq. rewrite <-Heq in Hp. eapply opens_stored; [|exact Hp]. by eapply ow_box. }
  assert (ne_AccessBoxStructureUUID ne ≠ ptr) as Hsp by congruence.
  assert (NoDup (targets (ms ++ [MPut ptr bytes]))) as Hnd.
  { rewrite targets_app. destruct Hcase as [(_ & ->)|(_ & _ & -> & _)];
      cbn; rewrite !NoDup_cons, !not_elem_of_cons; split_and!; try done;
      try apply not_elem_of_nil; apply NoDup_nil_2. }
  assert (∀ id v, MPut id v ∈ (ms ++ [MPut ptr bytes])%list → Datastore s' !! id = Some v) as Hput
    by (intros; by apply applied_put).
  split; [|apply Hput, elem_of_app; right; by left].
  assert (∀ id, id ≠ ptr → id ≠ ne_AccessBoxStructureUUID ne → id ≠ bb_BoxUUID box →
    Datastore s' !! id = Datastore (store w) !! id) as Helse.
  { intros id Hid Hi1 Hi2. apply applied_other. rewrite targets_app. cbn.
    destruct Hcase as [(_ & ->)|(_ & _ & -> & _)]; cbn; rewrite !not_elem_of_cons;
      split_and!; try done; apply not_elem_of_nil. }
  split; try done.
  - intros id Hid Hi1 Hi2. apply Helse; congruence.
  - intros Hid. destruct Hcase as [(Hbox & _)|(_ & Heq & _)]; [done|by rewrite Heq in Hid].
  - intros [box' Hx]. destruct Hcase as [(Hbox & _)|(Hnone & _)]; [done|congruence].
  - split; try done. exists b. split; [|done]. apply Hput, elem_of_app. by left.
  - split; try done. destruct Hcase as [(Hbox & Ht)|(_ & _ & _ & b' & Hb' & Hopen')].
    + exists bs. split; [|by rewrite insert_id]. unfold s'. cbn [Datastore].
      rewrite applied_other; [done|]. rewrite targets_app, Ht. cbn.
      rewrite !not_elem_of_cons. split_and!; try done. apply not_elem_of_nil.
    + exists b'. split; [|done]. apply Hput, elem_of_app. by left.
Qed.

Lemma boxes_insert (boxes : gmap string BranchBoxRecord) name box k :
  (is_Some (boxes !! name) → boxes !! name = Some box) → is_Some (boxes !! k) →
  <[name := box]> boxes !! k = boxes !! k.
Proof.
  intros Ht Hk. destruct (decide (k = name)) as [->|]; [|by rewrite lookup_insert_ne].
  by rewrite lookup_insert_eq, Ht.
Qed.

Lemma branched_owns s s' u f nu ne ab md cs boxes name box ptr :
  owns s u f nu ne ab md cs boxes → valid_utf8 name = true →
  branched s s' ne ab boxes name box ptr →
  owns s' u f nu ne ab md cs (<[name := box]> boxes).
Proof.
  intros Ho Hname [HK HF Hold Htr Hbox Hstr _ _].
  pose proof (ow_apart _ _ _ _ _ _ _ _ _ Ho) as Hap.
  assert (∀ id, Datastore s !! id ≠ None → id ∈ core nu ne ab cs → id ≠ bb_BoxUUID box) as Hcb.
  { intros id Hid Hc ->. by eapply Hap, Hc; apply Hold. }
  assert (∀ k box', k ≠ name → boxes !! k = Some box' → bb_BoxUUID box' ≠ bb_BoxUUID box) as Hinj.
  { intros k box' Hk Hb' Heq. apply Hk. eapply ow_inj; [exact Ho|exact Hb'| |exact Heq].
    apply Hold. rewrite <-Heq. by eapply opens_stored, ow_box. }
  eapply owns_rebox; try done.
  { intros id Hc Hs. apply HF; [by eapply core_stored|done|].
    apply Hcb; [by eapply core_stored|done]. }
  intros k b [[<- <-]|[Hk Hb]]%lookup_insert_Some.
  - split_and!; [done|done| |].
    + intros Hc. eapply Hcb; [by eapply core_stored|exact Hc|done].
    + intros k' b' [[<- _]|[Hk' Hb']]%lookup_insert_Some Heq; [done|].
      exfalso. by eapply Hinj; [|exact Hb'|].
  - split_and!; [by eapply ow_names| |by eapply Hap|].
    + eapply opens_ext; [|by eapply ow_box]. apply HF.
      * by eapply opens_stored, ow_box.
      * pose proof (Hap _ _ Hb) as Ha. unfold core in Ha. rewrite !not_elem_of_cons in Ha. naive_solver.
      * by eapply Hinj.
    + intros k' b' [[<- <-]|[Hk' Hb']]%lookup_insert_Some Heq; [|by eapply ow_inj].
      exfalso. by eapply Hinj; [|exact Hb|].
Qed.

Lemma branched_view s s' u vk f x v box ptr bytes nu ne ab md cs :
  view_rep s u vk f x nu ne ab md cs → valid_utf8 (Username v) = true →
  branched s s' ne ab (vw_boxes x) (Username v) box ptr →
  ptr ≠ uuid_Nil → Datastore s !! ptr = None → Datastore s' !! ptr = Some bytes →
  invites bytes v vk ptr (payload_for (Username u) (Username v) (ab_FileID ab) box) →
  view_rep s' u vk f (vw_invite v ptr box x) nu ne ab md cs.
Proof.
  intros [Huo Ho Hc Hv Hep Hm Hi Hnd Hna] Hname Hbr Hnil Hfree Hbytes Hinv.
  pose proof (branched_owns _ _ _ _ _ _ _ _ _ _ _ _ _ Ho Hname Hbr) as Ho'.
  pose proof Hbr as [HK HF Hold Htr _ _ Hbp _].
  assert (∀ id, apart (core nu ne ab cs) (vw_boxes x) id → Datastore s !! id ≠ None →
    Datastore s' !! id = Datastore s !! id ∧
    apart (core nu ne ab cs) (vw_boxes (vw_invite v ptr box x)) id) as Hframe.
  { intros id [Hid Hb] Hst.
    assert (id ≠ bb_BoxUUID box) by (intros ->; by eapply Hb; [apply Hold|]).
    split; [apply HF; [done| |done]; unfold core in Hid; rewrite !not_elem_of_cons in Hid; naive_solver|].
    split; [done|]. cbn [vw_boxes vw_invite].
    intros k b [[_ <-]|[_ Hk]]%lookup_insert_Some; [done|by eapply Hb]. }
  split; try done.
  - by eapply user_ok_ext.
  - intros v' g' Hin. pose proof (Hm _ _ Hin) as Hmem. eapply member_ext; [exact Hmem| |auto].
    apply boxes_insert; [done|]. destruct Hmem as (? & ? & ? & ? & Hb & _). by rewrite Hb.
  - intros v' ptr' [[= -> ->]|Hin]%elem_of_cons.
    + exists box, bytes. cbn [vw_boxes vw_invite]. rewrite lookup_insert_eq. split_and!; try done.
      destruct (fresh_apart _ _ _ _ _ _ _ _ _ _ Ho Hfree) as [Ha Hb].
      split; [done|]. intros k b [[_ <-]|[_ Hk]]%lookup_insert_Some; [by apply not_eq_sym|by eapply Hb].
    + pose proof (Hi _ _ Hin) as Hinvd. eapply invited_ext; [exact Hinvd| |auto].
      apply boxes_insert; [done|]. destruct Hinvd as (? & ? & Hb & _). by rewrite Hb.
  - cbn. apply NoDup_cons. split; [|done]. intros ([v' ptr'] & -> & Hin)%list_elem_of_fmap.
    destruct (Hi _ _ Hin) as (? & ? & _ & _ & _ & Hb & _). cbn in Hfree. congruence.
  - intros v' g' ptr' Hin. cbn [vw_pending vw_invite fmap list_fmap snd].
    intros [->|Hp]%elem_of_cons; [|by eapply Hna].
    intros Hn. destruct (Hm _ _ Hin) as (nu' & ? & ? & ? & _ & _ & Hn' & _ & Hopen).
    apply opens_stored in Hopen. congruence.
Qed.

(** A recipient whose keys are registered and whose name the structure can
    record. *)
Record recipient_ok (s : UserlibStore) (v : User) (pk vk : PublicKeyType) : Prop := {
  ro_name : valid_utf8 (Username v) = true;
  ro_root : key16 (u_NamespaceRoot v);
  ro_pke : pke_pair pk (u_PKEPrivate v);
  ro_pke_key : Keystore s !! getPKEKeyName (Username v) = Some pk;
  ro_verify : KeyType vk = "DS";
  ro_verify_key : Keystore s !! getVerifyKeyName (Username v) = Some vk }.

Lemma same_data_trans w w1 w2 : same_data w w1 → same_data w1 w2 → same_data w w2.
Proof. unfold same_data. intros (-> & -> & ->). done. Qed.

(** The two checks of the recipient's registered keys. *)
Lemma run_recipient {A} ctx v pk vk w (k : PublicKeyType → M A) :
  recipient_ok (store w) v pk vk →
  run local (found ← keystoreGet ctx (getPKEKeyName (Username v));
    recipientPKEKey ← lift (of_option "recipient does not exist" found);
    _ ← guard_ (bool_decide (KeyType recipientPKEKey ≠ "PKE")) "recipient does not exist";
    found ← keystoreGet ctx (getVerifyKeyName (Username v));
    recipientVerifyKey ← lift (of_option "recipient does not exist" found);
    _ ← guard_ (bool_decide (KeyType recipientVerifyKey ≠ "DS")) "recipient does not exist";
    k recipientPKEKey) w = run local (k pk) w.
Proof.
  intros [_ _ Hp Hpk Hv Hvk].
  erewrite run_step by done. unfold UserlibKeyStore_Get. rewrite Hpk, (run_lift _ _ pk) by done.
  rewrite run_guard by (rewrite (PKEKeyGen_type _ _ Hp); by apply bool_decide_false; auto).
  erewrite run_step by done. unfold UserlibKeyStore_Get. rewrite Hvk, (run_lift _ _ vk) by done.
  by rewrite run_guard by (rewrite Hv; by apply bool_decide_false; auto).
Qed.

(** The objects an invitation may write: the owner's structure, the recipient's
    branch box and the invitation itself. *)
Definition only_changes (ids : list UUID) (s s' : UserlibStore) : Prop :=
  Keystore s' = Keystore s ∧ ∀ id, (id ∉ ids) → Datastore s' !! id = Datastore s !! id.

Lemma create_writes w u vk f x v pk vvk nu ne ab md cs :
  quiet w → view_rep (store w) u vk f x nu ne ab md cs → recipient_ok (store w) v pk vvk → fresh w 2 →
  ∃ w' box, run local (CreateInvitation u f (Username v)) w = (w', Ok (drawn_uuid w 0)) ∧
    view_rep (store w') u vk f (vw_invite v (drawn_uuid w 0) box x) nu ne ab md cs ∧
    only_changes [ne_AccessBoxStructureUUID ne; bb_BoxUUID box; drawn_uuid w 0] (store w) (store w') ∧
    settled w w'.
Proof.
  intros Hq Hx Hrc Hfr. pose proof (vr_owns _ _ _ _ _ _ _ _ _ _ Hx) as Ho.
  set (ptr := drawn_uuid w 0). unfold CreateInvitation.
  operation w (Ok ptr) (λ s (_ : nat), ∃ box,
    view_rep s u vk f (vw_invite v ptr box x) nu ne ab md cs ∧
    only_changes [ne_AccessBoxStructureUUID ne; bb_BoxUUID box; ptr] (store w) s).
  2:{ destruct HP as (box & HK & Hsh). by exists w', box. }
  intros w1 txn Hw1 Hsd1.
  destruct (run_locked w1 txn u f nu ne Fencing.Background SharedLock ExclusiveLock)
    as (w2 & L & Hw2 & Hsd2 & Hc2 & Hrun);
    [done|done|destruct Hsd1 as (-> & _); eapply resolves_names, Ho|by left|by right|].
  pose proof (same_data_trans _ _ _ Hsd1 Hsd2) as Hsd. destruct Hsd as (Hs & Ht & Hd).
  assert (∀ i, drawn_uuid w2 i = drawn_uuid w i) as Hdr by (intros; by apply drawn_same).
  pose proof (fresh_nil _ _ Hfr) as Hnil. pose proof (fresh_store _ _ Hfr) as Hnew.
  assert (drawn_uuid w 1 ≠ ptr) as Hne.
  { pose proof (fresh_nodup _ _ Hfr) as Hnd. cbn in Hnd.
    rewrite !NoDup_cons, !not_elem_of_cons in Hnd. naive_solver. }
  destruct (grantBranchBox_run 1 w2 u f nu ne ab md cs
    (vw_boxes x) (Username v)) as (m & box & ms & Hgrant & Hg);
    [by rewrite Hs|apply Hrc|rewrite Hdr; apply Hnil; lia|].
  destruct (buildInvitation_run m w2 u v vk pk ptr
    (payload_for (Username u) (Username v) (ab_FileID ab) box)) as (bytes & Hbuild & Hinv);
    [apply (vr_user _ _ _ _ _ _ _ _ _ _ Hx)|apply Hrc|].
  rewrite Hrun. eexists _, L. split.
  { erewrite run_step by done.
    erewrite run_step by (eapply validate_run; [apply Ho|eapply fr_wf, Ho|eapply fr_status, Ho|done]).
    rewrite (run_recipient _ v pk vvk) by (by rewrite Hs).
    change (run local ?p w2) with (run local p (Nat.iter 0 advance w2)).
    erewrite run_step by apply run_draw_uuid. rewrite Hdr. fold ptr.
    rewrite (ow_owner _ _ _ _ _ _ _ _ _ Ho). erewrite run_step2.
    2:{ apply Hgrant. }
    erewrite run_step by exact Hbuild.
    erewrite run_step by (apply run_commit, Forall_app; split; [apply Hg|by repeat constructor]).
    done. }
  destruct (advance_data (3 + m) w2) as (Hs3 & _ & _ & Hlm & Hgd & Hc3).
  generalize dependent (Nat.iter (3 + m) advance w2). intros w3 _ Hs3 Hlm Hgd Hc3.
  cbn [store saferLockManager guard txnIDCounter set_store]. rewrite Hs3, Hc3.
  split; [by split; cbn [saferLockManager guard set_store]; [rewrite Hlm|rewrite Hgd]; apply Hw2|].
  split; [|done]. exists box. rewrite Hs.
  destruct (granting_branched w2 1 u f nu ne ab md cs (vw_boxes x) (Username v) box ms ptr bytes)
    as [Hbr Hbytes]; [by rewrite Hs|done|rewrite Hs, Hdr; apply Hnew; lia|rewrite Hs; apply Hnew; lia
    |by rewrite Hdr|].
  rewrite Hs in Hbr, Hbytes. split.
  - eapply branched_view; try done; [apply Hrc|apply Hnil; lia|apply Hnew; lia].
  - split; [apply Hbr|]. intros id. rewrite !not_elem_of_cons. intros (? & ? & ? & _). by apply (br_else _ _ _ _ _ _ _ _ Hbr).
Qed.

Lemma create_invites w u vk f x v pk vvk :
  quiet w → shared (store w) u vk f x → recipient_ok (store w) v pk vvk → fresh w 2 →
  ∃ w' box, run local (CreateInvitation u f (Username v)) w = (w', Ok (drawn_uuid w 0)) ∧
    shared (store w') u vk f (vw_invite v (drawn_uuid w 0) box x) ∧
    Keystore (store w') = Keystore (store w) ∧ settled w w'.
Proof.
  intros Hq (nu & ne & ab & md & cs & Hx) Hrc Hfr.
  destruct (create_writes w u vk f x v pk vvk nu ne ab md cs) as (w' & box & ? & ? & [? _] & ?); [done..|].
  exists w', box. split; [done|]. split; [by exists nu, ne, ab, md, cs|done].
Qed.

(** C10. [CreateInvitation] by the owner, for a recipient whose two keys are
    registered and whose name is valid UTF-8, in a world where nobody holds a
    lock and the UUIDs drawn are new: the recipient's branch box is tracked and
    sealed for the current access box, the invitation is waiting under the UUID
    it returns, and the file (the same entry, access box, metadata and chunks),
    its members and the other invitations are as they were. No object of the
    Datastore but the owner's structure, that branch box and the invitation has
    changed, and no key. *)
Theorem CreateInvitation_invites w u vk f x v pk vvk :
  quiet w → shared (store w) u vk f x → recipient_ok (store w) v pk vvk → fresh w 2 →
  ∃ w' box nu ne ab md cs,
    run local (CreateInvitation u f (Username v)) w = (w', Ok (drawn_uuid w 0)) ∧
    view_rep (store w) u vk f x nu ne ab md cs ∧
    view_rep (store w') u vk f (vw_invite v (drawn_uuid w 0) box x) nu ne ab md cs ∧
    Keystore (store w') = Keystore (store w) ∧
    (∀ id, id ≠ ne_AccessBoxStructureUUID ne → id ≠ bb_BoxUUID box → id ≠ drawn_uuid w 0 →
       Datastore (store w') !! id = Datastore (store w) !! id) ∧ settled w w'.
Proof.
  intros Hq (nu & ne & ab & md & cs & Hx) Hrc Hfr.
  destruct (create_writes w u vk f x v pk vvk nu ne ab md cs) as (w' & box & Hr & Hv & [HK HD] & Hs); [done..|].
  exists w', box, nu, ne, ab, md, cs. split_and!; try done.
  intros id ? ? ?. apply HD. rewrite !not_elem_of_cons. split_and!; try done. apply not_elem_of_nil.
Qed.


(** ** Accepting *)

Definition vw_accept (v : User) (g : string) (ptr : UUID) (x : view) : view :=
  mkView (vw_content x) (vw_version x) (vw_epoch x) (vw_boxes x) ((v, g) :: vw_members x)
    (filter (λ p, p.2 ≠ ptr) (vw_pending x)).

Lemma elem_of_pending ptr (ps : list (User * UUID)) p :
  p ∈ filter (λ p, p.2 ≠ ptr) ps ↔ p.2 ≠ ptr ∧ p ∈ ps.
Proof. by rewrite list_elem_of_filter. Qed.

Lemma pending_sublist (P : User * UUID → Prop) `{∀ p, Decision (P p)} (ps : list (User * UUID)) :
  NoDup ps.*2 → NoDup (filter P ps).*2.
Proof. intros Hnd. eapply sublist_NoDup; [exact Hnd|]. apply fmap_sublist, sublist_filter. Qed.

(** The owner's file is untouched by changes elsewhere. *)
Lemma owns_frame s s' u f nu ne ab md cs boxes :
  owns s u f nu ne ab md cs boxes → Keystore s' = Keystore s →
  (∀ id, ¬ apart (core nu ne ab cs) boxes id → Datastore s' !! id = Datastore s !! id) →
  owns s' u f nu ne ab md cs boxes.
Proof.
  intros Ho HK HS.
  assert (∀ id, id ∈ core nu ne ab cs → Datastore s' !! id = Datastore s !! id) as HC.
  { intros id Hid. apply HS. by intros [? _]. }
  eapply owns_rebox; [exact Ho|done|by auto| |].
  - eapply opens_ext; [|by eapply ow_structure]. apply HC. unfold core. rewrite !elem_of_cons. auto 10.
  - intros k box Hk. split_and!.
    + by eapply ow_names.
    + eapply opens_ext; [|by eapply ow_box]. apply HS. intros [_ Hb]. by eapply Hb.
    + by eapply ow_apart.
    + intros k' box' Hk'. by eapply ow_inj.
Qed.

(** The writes of an acceptance: an entry at a free place, the invitation
    gone. *)
Lemma accept_view s s' u vk f x v g ptr nu' box ek mk b nu ne ab md cs :
  view_rep s u vk f x nu ne ab md cs → (v, ptr) ∈ vw_pending x →
  vw_boxes x !! Username v = Some box →
  getNameSpaceEntryUUID (Username v) g = Ok nu' → nu' ≠ uuid_Nil → Datastore s !! nu' = None →
  deriveNamespaceEntryKeys (u_NamespaceRoot v) g = Ok (ek, mk) → key16 ek → key16 mk →
  openEnvelope namespaceEntryObjectType nu' ek mk dec_NamespaceEntry zero_NamespaceEntry b =
    Ok (entry_for (ab_FileID ab) box) →
  s' = mkStore (delete ptr (<[nu' := b]> (Datastore s))) (Keystore s) →
  view_rep s' u vk f (vw_accept v g ptr x) nu ne ab md cs.
Proof.
  intros [Huo Ho Hc Hv Hep Hm Hi Hnd Hna] Hp Hbox Hn Hnil Hfree Hk Hek Hmk Hopen ->.
  destruct (Hi _ _ Hp) as (box0 & bytes & _ & Hap & _ & Hst & _).
  assert (nu' ≠ ptr) as Hnp by congruence.
  assert (∀ id, Datastore s !! id ≠ None → id ≠ ptr →
    delete ptr (<[nu' := b]> (Datastore s)) !! id = Datastore s !! id) as HS.
  { intros id Hid Hne. rewrite lookup_delete_ne, lookup_insert_ne; [done|congruence|done]. }
  split; cbn [vw_content vw_version vw_epoch vw_boxes vw_members vw_pending vw_accept]; try done.
  - by eapply (user_ok_ext s).
  - eapply owns_frame; [exact Ho|done|]. intros id Hid. apply HS; [|by intros ->].
    intros Hnone. apply Hid. by eapply fresh_apart.
  - intros v' g' [[= -> ->]|Hin]%elem_of_cons.
    + exists nu', box, ek, mk. split_and!; try done; [by eapply fresh_apart|].
      split; [done..|]. exists b. split; [|done]. cbn.
      by rewrite lookup_delete_ne, lookup_insert_eq by done.
    + eapply member_ext; [by apply Hm|done|]. intros nu2 Ha Hst2 Hn2. split; [|done].
      apply HS; [done|]. intros ->. eapply Hna; [exact Hin| |exact Hn2].
      by apply (list_elem_of_fmap_2 snd _ _ Hp).
  - intros v' ptr' [Hne Hin]%elem_of_pending. eapply invited_ext; [by apply Hi|done|].
    intros Ha Hst2. split; [by apply HS|done].
  - by apply pending_sublist.
  - intros v' g' ptr' Hin ([v2 ptr2] & -> & [Hne Hin2]%elem_of_pending)%list_elem_of_fmap.
    apply elem_of_cons in Hin as [[= -> ->]|Hin].
    + destruct (Hi _ _ Hin2) as (? & ? & _ & _ & _ & Hst2 & _). cbn. congruence.
    + eapply Hna; [exact Hin|]. by apply (list_elem_of_fmap_2 snd _ _ Hin2).
Qed.

Lemma accept_joins w u vk f x v g ptr nu' :
  quiet w → shared (store w) u vk f x → (v, ptr) ∈ vw_pending x →
  key16 (u_NamespaceRoot v) → getNameSpaceEntryUUID (Username v) g = Ok nu' →
  nu' ≠ uuid_Nil → Datastore (store w) !! nu' = None →
  ∃ w', run local (AcceptInvitation (Some v) (Username u) ptr g) w = (w', Ok ()) ∧
    shared (store w') u vk f (vw_accept v g ptr x) ∧ Datastore (store w') !! ptr = None ∧
    settled w w'.
Proof.
  intros Hq (nu & ne & ab & md & cs & Hx) Hp Hroot Hn Hnil Hfree.
  pose proof (vr_owns _ _ _ _ _ _ _ _ _ _ Hx) as Ho.
  pose proof (vr_user _ _ _ _ _ _ _ _ _ _ Hx) as [_ Hds Hvk].
  destruct (vr_pending _ _ _ _ _ _ _ _ _ _ Hx _ _ Hp)
    as (box & bytes & Hbox & Hap & Hptr & Hst & Hinv).
  destruct (deriveNamespaceEntryKeys_ok _ g Hroot) as (ek & mk & Hk & Hek & Hmk).
  pose proof (ow_box _ _ _ _ _ _ _ _ _ Ho _ _ Hbox) as Hob.
  assert (record_wf box) as Hwf by (by destruct Hob).
  assert (ab_FileID ab ≠ uuid_Nil) as Hfid.
  { rewrite (rs_file _ _ _ _ _ _ (ow_resolves _ _ _ _ _ _ _ _ _ Ho)).
    apply (rs_entry_wf _ _ _ _ _ _ (ow_resolves _ _ _ _ _ _ _ _ _ Ho)). }
  unfold AcceptInvitation. rewrite (run_lift _ _ v) by done.
  operation w (Ok ()) (λ s (_ : nat), Datastore s !! ptr = None ∧
    shared s u vk f (vw_accept v g ptr x)); [|by exists w'; destruct HP].
  intros w1 txn Hw1 (Hs1 & Ht1 & Hd1).
  set (ns := mkResourceID NamespaceResource (uuid_String nu')).
  destruct (run_acquire w1 txn [] Fencing.Background ns ExclusiveLock)
    as (w2 & Hw2 & (Hs2 & Ht2 & Hd2) & Hc2 & Hrun2); [done|apply not_elem_of_nil|by right|done|].
  destruct (run_acquire w2 txn [ns] Fencing.Background (fileResourceID (ab_FileID ab)) SharedLock)
    as (w3 & Hw3 & (Hs3 & Ht3 & Hd3) & Hc3 & Hrun3); [done| |by left|done|].
  { apply not_elem_of_cons. split; [done|apply not_elem_of_nil]. }
  assert (store w2 = store w) as Hs by (by rewrite Hs2).
  assert (store w3 = store w) as Hs' by (by rewrite Hs3).
  destruct (protect_run 1 enc_NamespaceEntry dec_NamespaceEntry zero_NamespaceEntry
    (entry_for (ab_FileID ab) box) namespaceEntryObjectType nu' ek mk w3)
    as (b & Hb & Hopen); [done..|apply namespace_entry_codec|].
  eexists _, _. split.
  { rewrite (run_lift _ _ ns) by (by apply namespaceResourceID_name).
    erewrite run_step by exact Hrun2. erewrite run_step by done.
    rewrite (run_lift _ _ nu') by done. erewrite run_step by done.
    unfold UserlibObjectStore_Get. rewrite Hs, Hfree.
    rewrite run_guard by (apply bool_decide_false; by intros [? ?]).
    rewrite (run_lift _ _ (ek, mk)) by done.
    erewrite run_step by (eapply (openInvitation_run _ u v vk ptr bytes (ab_FileID ab) box);
      [done|by rewrite Hs|done|by rewrite Hs|done..]).
    erewrite run_step by exact Hrun3.
    unfold validateInvitationAccessUnderLock.
    erewrite run_step.
    2:{ erewrite run_step by (apply load_run; [done|rewrite Hs'; exact Hob]).
        rewrite run_guard by (by apply bool_decide_false; auto).
        erewrite run_step by (apply verifyFileStatus_run;
          [eapply bw_status, fr_wf, Ho|rewrite Hs'; eapply fr_status, Ho]).
        reflexivity. }
    erewrite run_step by exact Hb. apply run_commit. by repeat constructor. }
  split; [by split; apply Hw3|]. split; [|by rewrite <-Hc2, <-Hc3].
  cbn [store set_store advance]. rewrite Hs'. split; [apply lookup_delete_eq|].
  exists nu, ne, ab, md, cs. by eapply accept_view.
Qed.

(** C11. [AcceptInvitation] of a waiting invitation under a free name makes the
    recipient a member: the invitation is consumed, the file, the other
    members and the other invitations are as they were. *)
Theorem AcceptInvitation_joins w u vk f x v g ptr nu' :
  quiet w → shared (store w) u vk f x → (v, ptr) ∈ vw_pending x →
  key16 (u_NamespaceRoot v) → getNameSpaceEntryUUID (Username v) g = Ok nu' →
  nu' ≠ uuid_Nil → Datastore (store w) !! nu' = None →
  ∃ w', run local (AcceptInvitation (Some v) (Username u) ptr g) w = (w', Ok ()) ∧
    shared (store w') u vk f (vw_accept v g ptr x) ∧ Datastore (store w') !! ptr = None ∧
    settled w w'.
Proof. apply accept_joins. Qed.


(** ** Writing together *)

Definition vw_write (content : string) (x : view) : view :=
  mkView content (vw_version x + 1) (vw_epoch x) (vw_boxes x) (vw_members x) (vw_pending x).

(** What does not belong to the file stays, and stays outside it. *)
Lemma published_frame s s' nu ne ab cs md' cs' id :
  published s s' ab cs md' cs' → id ∉ core nu ne ab cs → Datastore s !! id ≠ None →
  Datastore s' !! id = Datastore s !! id ∧ (id ∉ core nu ne ab cs').
Proof.
  intros [_ _ Hids HS _] Hid Hst. unfold core in *. rewrite !not_elem_of_cons in *.
  split; [apply HS; tauto|]. split_and!; try tauto. intros [?|?]%Hids; tauto.
Qed.

(** Whoever publishes new chunks, every reader sees them. *)
Lemma published_view s s' u vk f x nu ne ab md cs md' cs' :
  view_rep s u vk f x nu ne ab md cs → published s s' ab cs md' cs' →
  md_Version md' = (md_Version md + 1)%N →
  view_rep s' u vk f (vw_write (content_of cs') x) nu ne ab md' cs'.
Proof.
  intros [Huo Ho Hc Hv Hep Hm Hi Hnd Hna] Hp Hv'.
  pose proof (ow_distinct _ _ _ _ _ _ _ _ _ Ho) as Hd.
  assert (∀ id, id ∉ core nu ne ab cs → Datastore s !! id ≠ None → id ∉ core nu ne ab cs') as Hc1
    by (intros; by eapply published_frame).
  assert (∀ id, id ∉ core nu ne ab cs → Datastore s !! id ≠ None →
    Datastore s' !! id = Datastore s !! id) as Hc2 by (intros; by eapply published_frame).
  destruct Hp as [HK Hrep Hids HS _].
  assert (∀ id, id ∈ core nu ne ab cs → id ≠ ab_MetadataUUID ab → id ∉ cs.*1 →
    Datastore s' !! id = Datastore s !! id) as Hc3.
  { intros id Hid Hi1 Hi2. apply HS; [by eapply core_stored|done..]. }
  assert (∀ id, id ∈ [nu; ne_AccessBoxUUID ne; ne_AccessBoxStructureUUID ne] →
    Datastore s' !! id = Datastore s !! id) as Hc4.
  { intros id Hid. unfold core in *. rewrite !NoDup_cons, !not_elem_of_cons in Hd.
    apply Hc3; set_solver. }
  pose proof (opens_stored (T := AccessBox)) as Hos.
  split; cbn [vw_content vw_version vw_epoch vw_boxes vw_members vw_pending vw_write]; try done.
  - by eapply user_ok_ext.
  - destruct Ho. split; try done.
    + eapply resolves_ext; [..|done]; apply Hc4; set_solver.
    + eapply opens_ext; [|done]. apply Hc4. set_solver.
    + intros k box Hk. eapply opens_ext; [|by eapply ow_box0].
      apply Hc2; [by eapply ow_apart0|by eapply Hos, ow_box0].
    + pose proof (fr_distinct _ _ _ _ Hrep) as Hd'. unfold core in *.
      assert (∀ id, id ∉ cs.*1 → Datastore s !! id ≠ None → id ∉ cs'.*1) as Hx
        by (intros id ? ? [?|?]%Hids; tauto).
      assert (∀ id, id ∈ [nu; ne_AccessBoxUUID ne; ne_AccessBoxStructureUUID ne] → id ∉ cs'.*1) as Hy.
      { intros id Hid. rewrite !NoDup_cons, !not_elem_of_cons in Hd.
        apply Hx; [set_solver|]. eapply core_stored; [by split|]. unfold core. set_solver. }
      rewrite !NoDup_cons, !not_elem_of_cons in *.
      pose proof (Hy nu ltac:(set_solver)). pose proof (Hy (ne_AccessBoxUUID ne) ltac:(set_solver)).
      pose proof (Hy (ne_AccessBoxStructureUUID ne) ltac:(set_solver)). tauto.
    + intros k box Hk. apply Hc1; [by eapply ow_apart0|by eapply Hos, ow_box0].
  - by rewrite Hv, Hv'.
  - intros v g Hin. eapply member_ext; [by apply Hm|done|]. intros id [Ha Hb] Hst _.
    split; [by apply Hc2|]. split; [by apply Hc1|done].
  - intros v ptr Hin. eapply invited_ext; [by apply Hi|done|]. intros [Ha Hb] Hst.
    split; [by apply Hc2|]. split; [by apply Hc1|done].
Qed.

(** The owner or a member. *)
Lemma shared_resolves s u vk f x nu ne ab md cs v g :
  view_rep s u vk f x nu ne ab md cs → (v, g) = (u, f) ∨ (v, g) ∈ vw_members x →
  ∃ nu' ne', resolves s v g nu' ne' ab.
Proof.
  intros Hx [[= -> ->]|Hin].
  - exists nu, ne. apply (vr_owns _ _ _ _ _ _ _ _ _ _ Hx).
  - destruct (member_resolves _ _ _ _ _ _ _ _ _ _ _ (vr_owns _ _ _ _ _ _ _ _ _ _ Hx)
      (vr_members _ _ _ _ _ _ _ _ _ _ Hx _ _ Hin)) as (nu' & box & Hr & _). eauto.
Qed.

(** Collaboration: an append or an overwrite by the owner or by any member,
    under that user's own name for the file, changes the one file all of them
    share: the owner and every member read the new bytes at the next version,
    and the recipients, members and waiting invitations are unchanged. *)
Theorem writes_are_shared w u vk f X v g ctx x :
  quiet w → live ctx → fresh w 1 → (vw_version X < max_uint64)%N →
  shared (store w) u vk f X → (v, g) = (u, f) ∨ (v, g) ∈ vw_members X →
  (slen x ≠ 0%nat → ∃ w', run local (AppendToFileContext v ctx g x) w = (w', Ok ()) ∧
     shared (store w') u vk f (vw_write (vw_content X +:+ bytes_of x) X) ∧ settled w w') ∧
  (∃ w', run local (StoreFileContext v ctx g x) w = (w', Ok ()) ∧
     shared (store w') u vk f (vw_write (bytes_of x) X) ∧ settled w w').
Proof.
  intros Hq Hl Hfr Hv (nu & ne & ab & md & cs & Hx) Hw.
  destruct (shared_resolves _ _ _ _ _ _ _ _ _ _ _ _ Hx Hw) as (nu' & ne' & Hr).
  pose proof (ow_rep _ _ _ _ _ _ _ _ _ (vr_owns _ _ _ _ _ _ _ _ _ _ Hx)) as Hrep.
  rewrite (vr_version _ _ _ _ _ _ _ _ _ _ Hx) in Hv. split.
  - intros Hlen. destruct (append_publishes w v g ctx x nu' ne' ab md cs)
      as (w' & md' & u0 & Hrun & Hp & Hv' & Hs); try done.
    exists w'. split; [done|]. split; [|done].
    rewrite (vr_content _ _ _ _ _ _ _ _ _ _ Hx), <-(content_of_cons u0).
    exists nu, ne, ab, md', ((u0, x) :: cs). by eapply published_view.
  - destruct (overwrite_publishes w v g ctx x nu' ne' ab md cs)
      as (w' & md' & u0 & Hrun & Hp & Hv' & Hs); try done.
    exists w'. split; [done|]. split; [|done].
    change (bytes_of x) with (content_of [] +:+ bytes_of x). rewrite <-(content_of_cons u0).
    exists nu, ne, ab, md', [(u0, x)]. by eapply published_view.
Qed.


(** [resolveFile] finds the current epoch. *)
Lemma shared_epoch ctx w u vk f x :
  shared (store w) u vk f x → ∃ ne ab,
    run local (resolveFile ctx (Some u) f) w = (w, Ok (ne, ab)) ∧ ab_EpochID ab = vw_epoch x.
Proof.
  intros (nu & ne & ab & md & cs & Hx). exists ne, ab.
  pose proof (vr_owns _ _ _ _ _ _ _ _ _ _ Hx) as Ho.
  split; [|symmetry; apply (vr_epoch _ _ _ _ _ _ _ _ _ _ Hx)]. unfold resolveFile.
  erewrite run_step by (eapply loadNamespaceEntry_run; [eapply resolves_names, Ho|done]).
  erewrite run_step by (eapply validate_run; [apply Ho|eapply fr_wf, Ho|eapply fr_status, Ho|done]).
  done.
Qed.

End share.
