(* ===== verification/RevokeThms.v ===== *)
(** * Revoking access

    [RevokeAccess] moves the file to a new epoch: new content under a new
    root, the owner's box, the structure and the surviving branch boxes sealed
    again, the revoked branch and the old epoch's objects deleted. *)

From S2P Require Import Prelude Json JsonThms Libs LockManager LockManagerInv.
From S2P Require Import LockManagerSeq Fencing SaferTypes Effects Client Sharing LocalEnv.
From S2P Require Import FileModel FileThms CreateThms ShareThms.
Import Json JsonThms LM LMSeq.
Open Scope string_scope.

#[local] Arguments drawn_uuid : simpl never.

Section revoke.
Context `{UuidLib} `{Userlib} `{!UuidNew} `{!UuidLaws} `{!UserlibLaws}.

(** ** The new epoch *)

(** The access box of the epoch drawn at [w]. *)
Definition next_box (w : World) (ab : AccessBox) : AccessBox :=
  mkAccessBox (ab_FileID ab) (drawn_uuid w 0) (drawn_uuid w 2)
    (Some (RandomBytes 16 (tape w (drawn w + 3)%nat)))
    (Some (RandomBytes 16 (tape w (drawn w + 4)%nat)))
    (Some (RandomBytes 16 (tape w (drawn w + 1)%nat)))
    (ab_AccessBoxStructureUUID ab) (ab_StatusUUID ab) (ab_OwnerVerifyKeyName ab).

Definition next_metadata (w : World) (ab : AccessBox) (md : Metadata) : Metadata :=
  mkMetadata (ab_FileID ab) (drawn_uuid w 0) (md_Version md) (drawn_uuid w 5) 1.

Definition next_chunk (w : World) (ab : AccessBox) (content : string) : Chunk :=
  mkChunk (ab_FileID ab) (drawn_uuid w 0) 0 uuid_Nil (Some content).

(** The content and the metadata of the new epoch, sealed. *)
Record rotated (w : World) (ab : AccessBox) (md : Metadata) (content b1 b2 : string) : Prop := {
  rt_chunk : ∃ ek mk, deriveChunkKeys (ab_FileRoot (next_box w ab)) (drawn_uuid w 5) = Ok (ek, mk) ∧
    key16 ek ∧ key16 mk ∧
    openEnvelope chunkObjectType (drawn_uuid w 5) ek mk dec_Chunk zero_Chunk b1
      = Ok (next_chunk w ab content);
  rt_meta : openEnvelope metadataObjectType (drawn_uuid w 2)
    (ab_MetadataEncKey (next_box w ab)) (ab_MetadataMACKey (next_box w ab))
    dec_Metadata zero_Metadata b2 = Ok (next_metadata w ab md) }.

Lemma rotateEpoch_run w ab md content :
  drawn_uuid w 2 ≠ uuid_Nil → drawn_uuid w 5 ≠ uuid_Nil → (md_Version md ≤ max_uint64)%N →
  ∃ b1 b2, run local (rotateEpoch ab md content) w = (Nat.iter 8 advance w,
      Ok (next_box w ab, [MPut (drawn_uuid w 5) b1; MPut (drawn_uuid w 2) b2])) ∧
    rotated w ab md content b1 b2.
Proof.
  intros Hn2 Hn5 Hv.
  destruct (deriveChunkKeys_ok (Some (RandomBytes 16 (tape w (drawn w + 1)%nat))) (drawn_uuid w 5))
    as (ek & mk & Hk & Hek & Hmk); [apply key16_random|].
  destruct (protect_at 6 1 enc_Chunk dec_Chunk zero_Chunk (next_chunk w ab content)
    chunkObjectType (drawn_uuid w 5) ek mk w) as (b1 & Hb1 & Ho1);
    [done..|by apply chunk_codec|].
  destruct (protect_at 7 1 enc_Metadata dec_Metadata zero_Metadata (next_metadata w ab md)
    metadataObjectType (drawn_uuid w 2) (ab_MetadataEncKey (next_box w ab))
    (ab_MetadataMACKey (next_box w ab)) w) as (b2 & Hb2 & Ho2);
    [done|done|apply key16_random..|done|by apply metadata_codec|].
  exists b1, b2. split; [|by split; [exists ek, mk|]].
  unfold rotateEpoch. change (run local ?p w) with (run local p (Nat.iter 0 advance w)).
  repeat first [erewrite run_step by apply run_draw_uuid
               |erewrite run_step by apply run_draw_bytes].
  rewrite (run_lift _ _ (ek, mk)) by done.
  erewrite run_step by exact Hb1. erewrite run_step by exact Hb2. done.
Qed.

(** ** The surviving branches *)

(** The writes of [rewrapSurvivors]: one per surviving branch, sealing the new
    access box. *)
Record rewrapped (boxes : gmap string BranchBoxRecord) (ab' : AccessBox) (name : string)
    (order : list string) (ms : list Mutation) : Prop := {
  rp_objects : Forall is_object_write ms;
  rp_puts k box : k ∈ order → k ≠ name → boxes !! k = Some box → ∃ b,
    MPut (bb_BoxUUID box) b ∈ ms ∧
    openEnvelope accessBoxObjectType (bb_BoxUUID box) (bb_BoxEncKey box) (bb_BoxMACKey box)
      dec_AccessBox zero_AccessBox b = Ok ab';
  rp_targets id : id ∈ targets ms → ∃ k box,
    k ∈ order ∧ k ≠ name ∧ boxes !! k = Some box ∧ id = bb_BoxUUID box;
  rp_nodup : NoDup (targets ms) }.

Lemma rewrapSurvivors_run boxes ab' name order w :
  (∀ k box, boxes !! k = Some box → record_wf box) →
  (∀ k k' box box', boxes !! k = Some box → boxes !! k' = Some box' →
     bb_BoxUUID box = bb_BoxUUID box' → k = k') →
  valid_utf8 (ab_OwnerVerifyKeyName ab') = true → NoDup order → ∀ n,
  ∃ m ms, run local (rewrapSurvivors boxes ab' name order) (Nat.iter n advance w) =
      (Nat.iter m advance w, Ok ms) ∧ rewrapped boxes ab' name order ms.
Proof.
  intros Hwf Hinj Hutf. induction order as [|k order IH]; intros Hnd n.
  { exists n, []. split; [done|]. split; [constructor|set_solver|set_solver|apply NoDup_nil_2]. }
  apply NoDup_cons in Hnd as [Hk Hnd]. cbn [rewrapSurvivors].
  assert ((k = name ∨ boxes !! k = None) → ∀ ms, rewrapped boxes ab' name order ms →
    rewrapped boxes ab' name (k :: order) ms) as Hskip.
  { intros Hc ms [Ho Hp Ht Hn]. split; [done| | |done].
    - intros k' box [->|Hin]%elem_of_cons Hne Hb; [|by eapply Hp]. destruct Hc; congruence.
    - intros id (k' & box & ? & ?)%Ht. exists k', box. set_solver. }
  destruct (decide (k = name)) as [->|Hne].
  { destruct (IH Hnd n) as (m & ms & Hrun & Hr). exists m, ms. auto. }
  destruct (boxes !! k) as [box|] eqn:Hbox.
  2:{ destruct (IH Hnd n) as (m & ms & Hrun & Hr). exists m, ms. auto. }
  destruct (Hwf _ _ Hbox) as [Hu Hek Hmk].
  destruct (protect_at n 1 enc_AccessBox dec_AccessBox zero_AccessBox ab' accessBoxObjectType
    (bb_BoxUUID box) (bb_BoxEncKey box) (bb_BoxMACKey box) w) as (b & Hb & Hopen);
    [done..|by apply access_box_codec|].
  destruct (IH Hnd (S n)) as (m & ms & Hrun & [Ho Hp Ht Hn]).
  exists m, (MPut (bb_BoxUUID box) b :: ms). split.
  { erewrite run_step by exact Hb. erewrite run_step by exact Hrun. done. }
  split.
  - by constructor.
  - intros k' box' [->|Hin]%elem_of_cons Hne' Hb'.
    + rewrite Hbox in Hb'. injection Hb' as <-. exists b. split; [by left|done].
    + destruct (Hp _ _ Hin Hne' Hb') as (b' & ? & ?). exists b'. split; [by right|done].
  - intros id [->|Hin]%elem_of_cons.
    + exists k, box. split_and!; try done. by left.
    + destruct (Ht _ Hin) as (k' & box' & ? & ?). exists k', box'. set_solver.
  - apply NoDup_cons. split; [|done]. intros (k' & box' & Hin & _ & Hb' & Heq)%Ht.
    by rewrite (Hinj _ _ _ _ Hbox Hb' Heq) in Hk.
Qed.

(** ** What is published *)

(** The bytes [republish] writes for the owner's box, the structure and the
    status. *)
Record republished (u : User) (vk : PublicKeyType) (ne : NamespaceEntry) (ab' : AccessBox)
    (boxes' : gmap string BranchBoxRecord) (b3 b4 b5 : string) : Prop := {
  pb_box : openEnvelope accessBoxObjectType (ne_AccessBoxUUID ne) (ne_AccessBoxEncKey ne)
    (ne_AccessBoxMACKey ne) dec_AccessBox zero_AccessBox b3 = Ok ab';
  pb_structure : openEnvelope accessBoxStructureObjectType (ne_AccessBoxStructureUUID ne)
    (ne_AccessBoxStructureEncKey ne) (ne_AccessBoxStructureMACKey ne)
    dec_AccessBoxStructure zero_AccessBoxStructure b4 =
    Ok (mkAccessBoxStructure (ab_FileID ab') (ab_EpochID ab') (Some boxes'));
  pb_status : ∃ st, Unmarshal dec_FileStatus zero_FileStatus b5 = Some st ∧
    checkFileStatus ab' st vk = Ok () }.

Lemma map_keys_NoDup (boxes : gmap string BranchBoxRecord) : NoDup (map_to_list boxes).*1.
Proof. apply NoDup_fst_map_to_list. Qed.

Lemma republish_run n w w0 u vk f nu ne ab md cs boxes name :
  owns (store w0) u f nu ne ab md cs boxes → ds_pair (u_SignPrivate u) vk →
  ∃ m ms b3 b4 b5, run local (republish u ne ab (next_box w ab)
      (mkAccessBoxStructure (ab_FileID ab) (ab_EpochID ab) (Some boxes)) name)
      (Nat.iter n advance w) = (Nat.iter m advance w,
      Ok (MPut (ne_AccessBoxUUID ne) b3 :: ms ++
        [MPut (ne_AccessBoxStructureUUID ne) b4; MPut (ab_StatusUUID ab) b5])%list) ∧
    rewrapped boxes (next_box w ab) name (map_to_list boxes).*1 ms ∧
    republished u vk ne (next_box w ab) (delete name boxes) b3 b4 b5.
Proof.
  intros Ho Hds. set (ab' := next_box w ab).
  assert (valid_utf8 (ab_OwnerVerifyKeyName ab') = true) as Hutf
    by exact (owner_box_codec _ _ _ _ _ _ _ _ _ Ho).
  pose proof (ow_resolves _ _ _ _ _ _ _ _ _ Ho) as Hr.
  destruct (protect_at n 1 enc_AccessBox dec_AccessBox zero_AccessBox ab' accessBoxObjectType
    (ne_AccessBoxUUID ne) (ne_AccessBoxEncKey ne) (ne_AccessBoxMACKey ne) w)
    as (b3 & Hb3 & Ho3); [done|apply Hr..|done|by apply access_box_codec|].
  destruct (rewrapSurvivors_run boxes ab' name (map_to_list boxes).*1 w) with (n := S n)
    as (m & ms & Hrun & Hrw).
  { intros k box Hk. by destruct (ow_box _ _ _ _ _ _ _ _ _ Ho _ _ Hk). }
  { by eapply ow_inj. }
  { done. }
  { apply map_keys_NoDup. }
  destruct (ow_structure _ _ _ _ _ _ _ _ _ Ho) as [Hsu Hsek Hsmk _].
  destruct (protect_at m 3 enc_AccessBoxStructure dec_AccessBoxStructure zero_AccessBoxStructure
    (mkAccessBoxStructure (ab_FileID ab') (ab_EpochID ab') (Some (delete name boxes)))
    accessBoxStructureObjectType (ne_AccessBoxStructureUUID ne)
    (ne_AccessBoxStructureEncKey ne) (ne_AccessBoxStructureMACKey ne) w)
    as (b4 & Hb4 & Ho4); [done..| |].
  { apply structure_codec. intros k box [_ Hk]%lookup_delete_Some. by eapply ow_names. }
  destruct (createFileStatus_ok u (ab_StatusUUID ab) ab' vk Hds eq_refl)
    as (st & Hst & Hchk & Hown).
  exists (S m), ms, b3, b4, (print (enc_FileStatus st)). split; [|split; [done|]].
  - unfold republish. erewrite run_step by exact Hb3. erewrite run_step by done.
    change (recipientBoxes _) with boxes. erewrite run_step by exact Hrun.
    erewrite run_step by exact Hb4. rewrite (run_lift _ _ st) by exact Hst.
    by rewrite (run_lift _ _ (print (enc_FileStatus st))) by done.
  - split; try done. exists st. split; [|done]. apply (Unmarshal_print 2); [done|].
    apply file_status_codec. by rewrite Hown.
Qed.

(** ** The store after a revocation *)

(** Every write of the commit, in order. *)
Definition revocation (w : World) (ne : NamespaceEntry) (ab : AccessBox)
    (cs : list (UUID * slice)) (rev : BranchBoxRecord) (ms : list Mutation)
    (b1 b2 b3 b4 b5 : string) : list Mutation :=
  [MPut (drawn_uuid w 5) b1; MPut (drawn_uuid w 2) b2] ++
  (MPut (ne_AccessBoxUUID ne) b3 :: ms ++
    [MPut (ne_AccessBoxStructureUUID ne) b4; MPut (ab_StatusUUID ab) b5]) ++
  [MDelete (bb_BoxUUID rev); MDelete (ab_MetadataUUID ab)] ++ (MDelete <$> cs.*1).

Lemma targets_deletes us : targets (MDelete <$> us) = us.
Proof. induction us as [|u us IH]; [done|]. cbn. by f_equal. Qed.

Lemma targets_revocation w ne ab cs rev ms b1 b2 b3 b4 b5 :
  targets (revocation w ne ab cs rev ms b1 b2 b3 b4 b5) ≡ₚ
    drawn_uuid w 5 :: drawn_uuid w 2 :: bb_BoxUUID rev :: ne_AccessBoxUUID ne ::
    ab_StatusUUID ab :: ab_MetadataUUID ab :: ne_AccessBoxStructureUUID ne ::
    cs.*1 ++ targets ms.
Proof.
  unfold revocation. rewrite !targets_app, targets_deletes.
  change (targets (?m :: ?ms)) with (omap target (m :: ms)). cbn [omap list_omap target].
  change (omap target ms) with (targets ms). change (omap target ?l) with (targets l).
  rewrite targets_app. cbn. solve_Permutation.
Qed.

Lemma revocation_NoDup w s u f nu ne ab md cs boxes name rev ms b1 b2 b3 b4 b5 ab' :
  owns s u f nu ne ab md cs boxes → boxes !! name = Some rev →
  rewrapped boxes ab' name (map_to_list boxes).*1 ms →
  Datastore s !! drawn_uuid w 2 = None → Datastore s !! drawn_uuid w 5 = None →
  drawn_uuid w 5 ≠ drawn_uuid w 2 →
  NoDup (targets (revocation w ne ab cs rev ms b1 b2 b3 b4 b5)).
Proof.
  intros Ho Hrev Hrw Hn2 Hn5 H25. rewrite targets_revocation.
  destruct (fresh_apart _ _ _ _ _ _ _ _ _ _ Ho Hn2) as [Hc2 Hb2].
  destruct (fresh_apart _ _ _ _ _ _ _ _ _ _ Ho Hn5) as [Hc5 Hb5].
  pose proof (ow_distinct _ _ _ _ _ _ _ _ _ Ho) as Hnd.
  pose proof (ow_apart _ _ _ _ _ _ _ _ _ Ho _ _ Hrev) as Har.
  assert (∀ id, id ∈ core nu ne ab cs → id ∉ targets ms) as Hcm.
  { intros id Hid (k & box & _ & _ & Hb & ->)%(rp_targets _ _ _ _ _ Hrw).
    by eapply ow_apart in Hid. }
  assert (∀ id, (∀ k box, boxes !! k = Some box → id ≠ bb_BoxUUID box) → id ∉ targets ms) as Hbm.
  { intros id Hid (k & box & _ & _ & Hb & ->)%(rp_targets _ _ _ _ _ Hrw). by eapply Hid. }
  assert (bb_BoxUUID rev ∉ targets ms) as Hrm.
  { intros (k & box & _ & Hk & Hb & Heq)%(rp_targets _ _ _ _ _ Hrw). apply Hk. symmetry.
    by eapply ow_inj. }
  pose proof (Hbm _ Hb2). pose proof (Hbm _ Hb5). pose proof (rp_nodup _ _ _ _ _ Hrw).
  pose proof (Hb2 _ _ Hrev). pose proof (Hb5 _ _ Hrev).
  assert (∀ id, id ∈ cs.*1 → id ∈ core nu ne ab cs) as Hcs.
  { intros id Hid. unfold core. rewrite !elem_of_cons. auto 10. }
  assert ((ne_AccessBoxUUID ne ∉ targets ms) ∧ (ab_StatusUUID ab ∉ targets ms) ∧
    (ab_MetadataUUID ab ∉ targets ms) ∧ ne_AccessBoxStructureUUID ne ∉ targets ms) as (? & ? & ? & ?).
  { split_and!; apply Hcm; unfold core; rewrite !elem_of_cons; auto 10. }
  unfold core in Hc2, Hc5, Har, Hnd.
  rewrite !NoDup_cons, !not_elem_of_cons in *. rewrite !not_elem_of_app, NoDup_app.
  destruct Hnd as (_ & (? & ? & ? & ?) & (? & ? & ?) & (? & ?) & ? & ?).
  split_and!; try tauto; auto; try naive_solver.
Qed.


(** A revocation writes two new objects; the rest was there. *)
Lemma revocation_targets w s u f nu ne ab md cs boxes name rev ms b1 b2 b3 b4 b5 ab' id :
  owns s u f nu ne ab md cs boxes → boxes !! name = Some rev →
  rewrapped boxes ab' name (map_to_list boxes).*1 ms →
  id ∈ targets (revocation w ne ab cs rev ms b1 b2 b3 b4 b5) →
  Datastore s !! id ≠ None ∨ id = drawn_uuid w 5 ∨ id = drawn_uuid w 2.
Proof.
  intros Ho Hrev Hrw. rewrite targets_revocation.
  assert (∀ k box, boxes !! k = Some box → Datastore s !! bb_BoxUUID box ≠ None) as Hb
    by (intros; by eapply opens_stored, ow_box).
  assert (∀ i, i ∈ core nu ne ab cs → Datastore s !! i ≠ None) as Hc
    by (intros; by eapply core_stored).
  unfold core in Hc. setoid_rewrite elem_of_cons in Hc. rewrite !elem_of_cons, elem_of_app.
  intros [->|[->|[->|[->|[->|[->|[->|[Hin|(k & box & _ & _ & Hk & ->)%(rp_targets _ _ _ _ _ Hrw)]]]]]]]];
    [by right; left|by right; right|left; by eapply Hb|left; apply Hc; set_solver..|left; by eapply Hb].
Qed.

Definition vw_revoke (epoch : UUID) (name : string) (x : view) : view :=
  mkView (vw_content x) (vw_version x) epoch (delete name (vw_boxes x))
    (filter (λ p, Username p.1 ≠ name) (vw_members x))
    (filter (λ p, Username p.1 ≠ name) (vw_pending x)).

(** The commit of a revocation and the store it leaves. *)
Record revoked (w : World) (s s' : UserlibStore) (u : User) (vk : PublicKeyType) (f : string)
    (x : view) (name : string) (nu : UUID) (ne : NamespaceEntry) (ab : AccessBox) (md : Metadata)
    (cs : list (UUID * slice)) (rev : BranchBoxRecord) : Prop := {
  rv_keys : Keystore s' = Keystore s;
  rv_frame id : Datastore s !! id ≠ None → apart (core nu ne ab cs) (vw_boxes x) id →
    Datastore s' !! id = Datastore s !! id;
  rv_name : Datastore s' !! nu = Datastore s !! nu;
  rv_gone : Datastore s' !! bb_BoxUUID rev = None;
  rv_dom id : Datastore s' !! id ≠ None →
    Datastore s !! id ≠ None ∨ id = drawn_uuid w 5 ∨ id = drawn_uuid w 2;
  rv_content : ∃ b1 b2, rotated w ab md (vw_content x) b1 b2 ∧
    Datastore s' !! drawn_uuid w 5 = Some b1 ∧ Datastore s' !! drawn_uuid w 2 = Some b2;
  rv_published : ∃ b3 b4 b5,
    republished u vk ne (next_box w ab) (delete name (vw_boxes x)) b3 b4 b5 ∧
    Datastore s' !! ne_AccessBoxUUID ne = Some b3 ∧
    Datastore s' !! ne_AccessBoxStructureUUID ne = Some b4 ∧
    Datastore s' !! ab_StatusUUID ab = Some b5;
  rv_survivors k box : k ≠ name → vw_boxes x !! k = Some box → ∃ b,
    Datastore s' !! bb_BoxUUID box = Some b ∧
    openEnvelope accessBoxObjectType (bb_BoxUUID box) (bb_BoxEncKey box) (bb_BoxMACKey box)
      dec_AccessBox zero_AccessBox b = Ok (next_box w ab) }.

Lemma revocation_store w s u vk f x name nu ne ab md cs rev ms b1 b2 b3 b4 b5 :
  owns s u f nu ne ab md cs (vw_boxes x) → vw_boxes x !! name = Some rev →
  rewrapped (vw_boxes x) (next_box w ab) name (map_to_list (vw_boxes x)).*1 ms →
  rotated w ab md (vw_content x) b1 b2 →
  republished u vk ne (next_box w ab) (delete name (vw_boxes x)) b3 b4 b5 →
  Datastore s !! drawn_uuid w 2 = None → Datastore s !! drawn_uuid w 5 = None →
  drawn_uuid w 5 ≠ drawn_uuid w 2 →
  revoked w s (mkStore (applied (revocation w ne ab cs rev ms b1 b2 b3 b4 b5) (Datastore s))
    (Keystore s)) u vk f x name nu ne ab md cs rev.
Proof.
  intros Ho Hrev Hrw Hrt Hpb Hn2 Hn5 H25.
  set (all := revocation w ne ab cs rev ms b1 b2 b3 b4 b5).
  assert (NoDup (targets all)) as Hnd by by eapply revocation_NoDup.
  assert (∀ id v, MPut id v ∈ all → applied all (Datastore s) !! id = Some v) as Hput
    by (intros; by apply applied_put).
  assert (∀ id, id ≠ drawn_uuid w 5 → id ≠ drawn_uuid w 2 →
    (id ∉ core nu ne ab cs ∨ id = nu) →
    (∀ k box, vw_boxes x !! k = Some box → id ≠ bb_BoxUUID box) →
    applied all (Datastore s) !! id = Datastore s !! id) as Hother.
  { intros id Hi5 Hi2 Hc Hb. apply applied_other. unfold all. rewrite targets_revocation.
    pose proof (Hb _ _ Hrev).
    assert (id ∉ targets ms) as Hm.
    { intros (k & box & _ & _ & Hk & ->)%(rp_targets _ _ _ _ _ Hrw). by eapply Hb. }
    pose proof (ow_distinct _ _ _ _ _ _ _ _ _ Ho) as Hd. unfold core in Hd, Hc.
    rewrite NoDup_cons, !not_elem_of_cons in Hd. rewrite !not_elem_of_cons in Hc.
    rewrite !not_elem_of_cons, not_elem_of_app. destruct Hc as [? | ->]; tauto. }
  split; cbn [Datastore Keystore]; try done.
  - intros id Hst [Hc Hb]. apply Hother; [congruence|congruence|by left|done].
  - assert (nu ∈ core nu ne ab cs) as Hnu by by left.
    pose proof (core_stored _ _ _ _ _ _ _ _ _ _ Ho Hnu).
    apply Hother; [congruence|congruence|by right|]. intros k box Hk ->.
    by eapply ow_apart in Hnu.
  - apply applied_delete; [done|]. unfold all, revocation. set_solver.
  - intros id Hid. destruct (decide (id ∈ targets all)) as [Hin|Hout].
    + eapply revocation_targets; [exact Ho|exact Hrev|exact Hrw|exact Hin].
    + left. by rewrite applied_other in Hid.
  - exists b1, b2. split; [done|]. split; apply Hput; unfold all, revocation; set_solver.
  - exists b3, b4, b5. split; [done|].
    split_and!; apply Hput; unfold all, revocation; set_solver.
  - intros k box Hk Hb. destruct (rp_puts _ _ _ _ _ Hrw k box) as (b & Hin & Hopen); [|done..|].
    { apply list_elem_of_fmap. exists (k, box). split; [done|]. by apply elem_of_map_to_list. }
    exists b. split; [|done]. apply Hput. unfold all, revocation. set_solver.
Qed.

Lemma revoked_rep w s s' u vk f x name nu ne ab md cs rev :
  view_rep s u vk f x nu ne ab md cs → revoked w s s' u vk f x name nu ne ab md cs rev →
  fresh w 6 → store w = s →
  file_rep s' (next_box w ab) (next_metadata w ab md)
    [(drawn_uuid w 5, Some (vw_content x))].
Proof.
  intros Hx Hrv Hfr <-. pose proof (fresh_nil _ _ Hfr) as Hnil.
  pose proof (vr_owns _ _ _ _ _ _ _ _ _ _ Hx) as Ho.
  pose proof (ow_rep _ _ _ _ _ _ _ _ _ Ho) as Hf. pose proof (fr_wf _ _ _ _ Hf) as Hwf.
  pose proof (fr_version _ _ _ _ Hf) as Hver.
  destruct (rv_content _ _ _ _ _ _ _ _ _ _ _ _ _ _ Hrv) as (b1 & b2 & [Hck Hmt] & Hb1 & Hb2).
  destruct (rv_published _ _ _ _ _ _ _ _ _ _ _ _ _ _ Hrv)
    as (b3 & b4 & b5 & [_ _ (st & Hst & Hchk)] & _ & _ & Hb5).
  split; cbn [md_FileID md_EpochID md_Version md_ChunkCount md_TailUUID next_metadata next_box
    ab_FileID ab_EpochID length]; try done; try lia.
  - destruct Hwf. split; cbn; try apply key16_random; try (apply Hnil; lia); done.
  - split. exists b5, st, vk. split; [done|]. split; [done|]. split; [|done].
    cbn [next_box ab_OwnerVerifyKeyName].
    rewrite (rv_keys _ _ _ _ _ _ _ _ _ _ _ _ _ _ Hrv), (ow_key _ _ _ _ _ _ _ _ _ Ho).
    apply (vr_user _ _ _ _ _ _ _ _ _ _ Hx).
  - split; cbn; [apply Hnil; lia|apply key16_random..|]. by exists b2.
  - cbn [chain]. split; [done|]. destruct Hck as (ek & mk & Hk & ? & ? & Hopen).
    exists ek, mk, uuid_Nil. split; [done|]. split; [|done].
    split; [apply Hnil; lia|done..|]. by exists b1.
  - assert (ab_StatusUUID ab ∈ core nu ne ab cs) as Hin by (unfold core; rewrite !elem_of_cons; auto).
    pose proof (core_stored _ _ _ _ _ _ _ _ _ _ Ho Hin) as Hst'.
    pose proof (fresh_store _ _ Hfr 2 ltac:(lia)). pose proof (fresh_store _ _ Hfr 5 ltac:(lia)).
    assert (drawn_uuid w 2 ≠ drawn_uuid w 5).
    { pose proof (fresh_nodup _ _ Hfr) as Hnd. cbn in Hnd.
      rewrite !NoDup_cons, !not_elem_of_cons in Hnd. tauto. }
    cbn. rewrite !NoDup_cons, !not_elem_of_cons.
    split_and!; try apply not_elem_of_nil; try apply NoDup_nil_2; congruence.
Qed.


Lemma revoked_owns w s s' u vk f x name nu ne ab md cs rev :
  view_rep s u vk f x nu ne ab md cs → revoked w s s' u vk f x name nu ne ab md cs rev →
  fresh w 6 → store w = s →
  owns s' u f nu ne (next_box w ab) (next_metadata w ab md)
    [(drawn_uuid w 5, Some (vw_content x))] (delete name (vw_boxes x)).
Proof.
  intros Hx Hrv Hfr Hs. pose proof (revoked_rep _ _ _ _ _ _ _ _ _ _ _ _ _ _ Hx Hrv Hfr Hs) as Hrep.
  pose proof (vr_owns _ _ _ _ _ _ _ _ _ _ Hx) as Ho.
  pose proof (ow_resolves _ _ _ _ _ _ _ _ _ Ho) as Hr.
  destruct (rv_published _ _ _ _ _ _ _ _ _ _ _ _ _ _ Hrv)
    as (b3 & b4 & b5 & [Hp3 Hp4 _] & Hb3 & Hb4 & _).
  pose proof (fresh_store _ _ Hfr 2 ltac:(lia)) as Hn2. rewrite Hs in Hn2.
  pose proof (fresh_store _ _ Hfr 5 ltac:(lia)) as Hn5. rewrite Hs in Hn5.
  destruct (fresh_apart _ _ _ _ _ _ _ _ _ _ Ho Hn2) as [Hc2 Hx2].
  destruct (fresh_apart _ _ _ _ _ _ _ _ _ _ Ho Hn5) as [Hc5 Hx5].
  split; try done; try apply Ho.
  - destruct Hr as [Hn (ek & mk & Hk & He) Hw Hbox Hf]. split; try done.
    + exists ek, mk. split; [done|]. eapply opens_ext; [|exact He].
      by eapply rv_name.
    + destruct Hbox. split; try done. by exists b3.
  - destruct (ow_structure _ _ _ _ _ _ _ _ _ Ho). split; try done. by exists b4.
  - intros k box [_ Hk]%lookup_delete_Some. by eapply ow_names.
  - intros k box [Hne Hk]%lookup_delete_Some.
    destruct (rv_survivors _ _ _ _ _ _ _ _ _ _ _ _ _ _ Hrv k box) as (b & Hb & Hopen); [done..|].
    destruct (ow_box _ _ _ _ _ _ _ _ _ Ho _ _ Hk). split; try done. by exists b.
  - pose proof (ow_distinct _ _ _ _ _ _ _ _ _ Ho) as Hnd.
    pose proof (fr_distinct _ _ _ _ Hrep) as Hnd'.
    unfold core in *. cbn in *. rewrite !NoDup_cons, !not_elem_of_cons in *.
    pose proof (not_elem_of_nil (A:=UUID)). split_and!; try apply NoDup_nil_2; naive_solver.
  - intros k box [Hne Hk]%lookup_delete_Some.
    pose proof (ow_apart _ _ _ _ _ _ _ _ _ Ho _ _ Hk) as Ha.
    pose proof (Hx2 _ _ Hk). pose proof (Hx5 _ _ Hk). unfold core in *. cbn.
    rewrite !not_elem_of_cons in *. pose proof (not_elem_of_nil (A:=UUID)). naive_solver.
  - intros k k' box box' [_ Hk]%lookup_delete_Some [_ Hk']%lookup_delete_Some.
    by eapply ow_inj.
Qed.

(** What does not belong to the file stays, and stays outside it. *)
Lemma revoked_frame w s s' u vk f x name nu ne ab md cs rev id :
  revoked w s s' u vk f x name nu ne ab md cs rev → fresh w 6 → store w = s →
  apart (core nu ne ab cs) (vw_boxes x) id → Datastore s !! id ≠ None →
  Datastore s' !! id = Datastore s !! id ∧
  apart (core nu ne (next_box w ab) [(drawn_uuid w 5, Some (vw_content x))])
    (delete name (vw_boxes x)) id.
Proof.
  intros Hrv Hfr Hs Ha Hst. split; [by eapply rv_frame|]. destruct Ha as [Ha Hb]. subst s.
  pose proof (fresh_store _ _ Hfr 2 ltac:(lia)). pose proof (fresh_store _ _ Hfr 5 ltac:(lia)).
  split; [|intros k box [_ Hk]%lookup_delete_Some; by eapply Hb].
  unfold core in *. cbn. rewrite !not_elem_of_cons in *.
  split_and!; try tauto; try apply not_elem_of_nil; congruence.
Qed.

(** The abstract effect: one recipient fewer, nothing else. *)
Lemma revoked_view w s s' u vk f x name nu ne ab md cs rev :
  view_rep s u vk f x nu ne ab md cs → revoked w s s' u vk f x name nu ne ab md cs rev →
  fresh w 6 → store w = s →
  view_rep s' u vk f (vw_revoke (drawn_uuid w 0) name x) nu ne (next_box w ab)
    (next_metadata w ab md) [(drawn_uuid w 5, Some (vw_content x))].
Proof.
  intros Hx Hrv Hfr Hs. pose proof (revoked_owns _ _ _ _ _ _ _ _ _ _ _ _ _ _ Hx Hrv Hfr Hs) as Ho'.
  destruct Hx as [Huo Ho Hc Hv Hep Hm Hi Hnd Hna].
  pose proof (λ id, revoked_frame _ _ _ _ _ _ _ _ _ _ _ _ _ _ id Hrv Hfr Hs) as Hframe.
  split; cbn [vw_content vw_version vw_epoch vw_boxes vw_members vw_pending vw_revoke]; try done.
  - eapply user_ok_ext; [by eapply rv_keys|done].
  - intros v g [Hne Hin]%list_elem_of_filter. eapply member_ext; [by apply Hm| |auto].
    by rewrite lookup_delete_ne by (by apply not_eq_sym).
  - intros v ptr [Hne Hin]%list_elem_of_filter. eapply invited_ext; [by apply Hi| |auto].
    by rewrite lookup_delete_ne by (by apply not_eq_sym).
  - by apply pending_sublist.
  - intros v g ptr [_ Hin]%list_elem_of_filter ([v2 p2] & -> & [_ Hin2]%list_elem_of_filter)%list_elem_of_fmap.
    eapply Hna; [exact Hin|]. by apply (list_elem_of_fmap_2 snd _ _ Hin2).
Qed.


(** ** Being locked out *)

(** [s''] is [s'] with some of the objects deleted since [s] back in place, as
    a storage provider that keeps deleted objects could arrange. *)
Definition restores (s s' s'' : UserlibStore) : Prop :=
  Keystore s'' = Keystore s' ∧ ∀ id, Datastore s'' !! id = Datastore s' !! id ∨
    Datastore s' !! id = None ∧ Datastore s'' !! id = Datastore s !! id.

Lemma restores_some s s' s'' id b :
  restores s s' s'' → Datastore s' !! id = Some b → Datastore s'' !! id = Some b.
Proof. intros [_ Hr] Hb. destruct (Hr id) as [->|[? _]]; [done|congruence]. Qed.

(** The status of the next epoch refuses a box of the previous one. *)
Lemma stale_status ab ab' st vk :
  checkFileStatus ab' st vk = Ok () → ab_StatusUUID ab' = ab_StatusUUID ab →
  ab_FileID ab' = ab_FileID ab → ab_EpochID ab ≠ ab_EpochID ab' →
  checkFileStatus ab st vk = Err (EMsg "file status epoch mismatch").
Proof.
  intros Hc Hs Hf He. unfold checkFileStatus in *. invert_result.
  rewrite Hs in *. match goal with Hk : bool_decide (KeyType _ ≠ _) = false |- _ => rewrite Hk end.
  cbn [mbind result_bind fail_if].
  repeat match goal with Hm : ?r = Ok ?y |- context [?r] => rewrite Hm; cbn [mbind result_bind] end.
  match goal with Hk : bool_decide (fb_FileID _ ≠ _) = false |- _ => rewrite <-Hf, Hk end.
  cbn [mbind result_bind fail_if].
  match goal with Hk : bool_decide (fb_EpochID _ ≠ _) = false |- _ =>
    apply bool_decide_eq_false in Hk; apply dec_stable in Hk; rewrite Hk end.
  rewrite (bool_decide_true (ab_EpochID ab' ≠ _)); [reflexivity|]. by apply not_eq_sym.
Qed.

(** Neither reading nor appending gets past the access check. *)
Definition locked_out (v : User) (g : string) (w : World) : Prop :=
  ∀ ctx x, live ctx → ∃ e w1 w2,
    e ∈ ["required datastore object is missing"; "file status epoch mismatch"] ∧
    run local (LoadFileContext v ctx g) w = (w1, Err (EMsg e)) ∧ store w1 = store w ∧
    run local (AppendToFileContext v ctx g x) w = (w2, Err (EMsg e)) ∧ store w2 = store w.

Lemma refused_locked_out v g w nu ne e :
  quiet w → names (store w) v g nu ne →
  e ∈ ["required datastore object is missing"; "file status epoch mismatch"] →
  (∀ ctx w', store w' = store w →
     run local (validateFileAccessUnderLock ctx ne) w' = (w', Err (EMsg e))) →
  locked_out v g w.
Proof.
  intros Hq Hn He Hv ctx x Hl.
  assert (∃ w', run local (LoadFileContext v ctx g) w = (w', Err (EMsg e)) ∧ store w' = store w)
    as (w1 & Hr1 & Hs1).
  { unfold LoadFileContext.
    operation w (Err (A := slice) (EMsg e)) (λ s (_ : nat), s = store w); [|by exists w'].
    intros w1 txn Hw1 (Hs1 & _ & _).
    destruct (run_locked w1 txn v g nu ne ctx SharedLock SharedLock)
      as (w2 & L & Hw2 & (Hs2 & _ & _) & Hc2 & Hrun); [done|done|by rewrite Hs1|by left|by left|].
    exists w2, L. rewrite Hrun, run_bind, Hv by (by rewrite Hs2). split_and!; try done. by rewrite Hs2. }
  assert (∃ w', run local (AppendToFileContext v ctx g x) w = (w', Err (EMsg e)) ∧
    store w' = store w) as (w2 & Hr2 & Hs2).
  { unfold AppendToFileContext.
    operation w (Err (A := unit) (EMsg e)) (λ s (_ : nat), s = store w); [|by exists w'].
    intros w2 txn Hw2 (Hs2 & _ & _).
    destruct (run_locked w2 txn v g nu ne ctx SharedLock ExclusiveLock)
      as (w3 & L & Hw3 & (Hs3 & _ & _) & Hc3 & Hrun); [done|done|by rewrite Hs2|by left|by right|].
    exists w3, L. rewrite Hrun. erewrite run_step by done.
    rewrite run_bind, Hv by (by rewrite Hs3). split_and!; try done. by rewrite Hs3. }
  by exists e, w1, w2.
Qed.


Lemma revoked_locked_out w s s' u vk f x name nu ne ab md cs rev v g w2 :
  view_rep s u vk f x nu ne ab md cs → revoked w s s' u vk f x name nu ne ab md cs rev →
  vw_boxes x !! name = Some rev → vw_epoch x ≠ drawn_uuid w 0 →
  (v, g) ∈ vw_members x → Username v = name → quiet w2 → restores s s' (store w2) →
  locked_out v g w2.
Proof.
  intros Hx Hrv Hrev Hep Hin Hv Hq Hres. pose proof (vr_owns _ _ _ _ _ _ _ _ _ _ Hx) as Ho.
  destruct (vr_members _ _ _ _ _ _ _ _ _ _ Hx _ _ Hin) as (nu' & box & ek & mk & Hb & Ha & Hn & Hk & He).
  rewrite Hv, Hrev in Hb. injection Hb as <-.
  pose proof (ow_box _ _ _ _ _ _ _ _ _ Ho _ _ Hrev) as [Hu Hek Hmk (b & Hbytes & Hopen)].
  assert (names (store w2) v g nu' (entry_for (ab_FileID ab) rev)) as Hnames.
  { split; [done| |].
    - exists ek, mk. split; [done|]. pose proof He as [? ? ? (b' & Hb' & Ho')]. split; [done..|].
      exists b'. split; [|done]. eapply restores_some; [done|].
      rewrite (rv_frame _ _ _ _ _ _ _ _ _ _ _ _ _ _ Hrv); [done|by eapply opens_stored|done].
    - split; try done. cbn. rewrite (rs_file _ _ _ _ _ _ (ow_resolves _ _ _ _ _ _ _ _ _ Ho)).
      apply (rs_entry_wf _ _ _ _ _ _ (ow_resolves _ _ _ _ _ _ _ _ _ Ho)). }
  destruct (Datastore (store w2) !! bb_BoxUUID rev) as [b'|] eqn:Hb'.
  - eapply (refused_locked_out _ _ _ _ _ "file status epoch mismatch"); [done|done|set_solver|].
    intros ctx w' Hs'. rewrite (validate_status _ _ ab); [|cbn; split; try done|done|].
    + destruct (rv_published _ _ _ _ _ _ _ _ _ _ _ _ _ _ Hrv)
        as (b3 & b4 & b5 & [_ _ (st & Hst & Hchk)] & _ & _ & Hb5).
      pose proof (restores_some _ _ _ _ _ Hres Hb5) as Hstatus.
      rewrite run_bind. unfold verifyFileStatus.
      rewrite run_guard by (apply bool_decide_false; eapply bw_status, fr_wf, Ho).
      erewrite run_step by done. unfold UserlibObjectStore_Get. rewrite Hs', Hstatus.
      rewrite (run_lift _ _ b5), (run_lift _ _ st) by (done || by rewrite Hst).
      erewrite run_step by done. unfold UserlibKeyStore_Get.
      rewrite Hs', (ow_key _ _ _ _ _ _ _ _ _ Ho). destruct Hres as [HK _].
      rewrite HK, (rv_keys _ _ _ _ _ _ _ _ _ _ _ _ _ _ Hrv).
      rewrite (uo_key _ _ _ (vr_user _ _ _ _ _ _ _ _ _ _ Hx)), (run_lift _ _ vk) by done.
      rewrite (stale_status _ (next_box w ab)); [done|done|done|done|].
      rewrite <-(vr_epoch _ _ _ _ _ _ _ _ _ _ Hx). exact Hep.
    + exists b'. rewrite Hs'. split; [done|]. destruct Hres as [_ Hr].
      pose proof (rv_gone _ _ _ _ _ _ _ _ _ _ _ _ _ _ Hrv) as Hgone.
      destruct (Hr (bb_BoxUUID rev)) as [Heq|[_ Heq]]; congruence.
    + eapply fr_wf, Ho.
  - eapply (refused_locked_out _ _ _ _ _ "required datastore object is missing");
      [done|done|set_solver|].
    intros ctx w' Hs'. unfold validateFileAccessUnderLock. rewrite run_bind, load_missing; try done.
    by rewrite Hs'.
Qed.

(** ** RevokeAccess *)

(** The part of a revocation that runs under the lock of the file. *)
Definition revoke_locked (u : User) (ne : NamespaceEntry) (name : string) (ctx : Fencing.Ctx)
    : M unit :=
  ctx ← withFenceGrants ctx;
  currentAccessBox ← validateFileAccessUnderLock ctx ne;
  structure ← loadOwnerAccessBoxStructure ctx ne currentAccessBox;
  revokedRecord ← lift (of_option "recipient is not a direct share"
    (recipientBoxes structure !! name));
  metadata ← loadMetadata ctx currentAccessBox;
  '(fileContent, oldChunkUUIDs) ← loadFileContentAndChunkUUIDs ctx currentAccessBox metadata;
  '(newAccessBox, contentWrites) ← rotateEpoch currentAccessBox metadata fileContent;
  boxWrites ← republish u ne currentAccessBox newAccessBox structure name;
  runAtomicStorage ctx (contentWrites ++ boxWrites ++
    [MDelete (bb_BoxUUID revokedRecord); MDelete (ab_MetadataUUID currentAccessBox)] ++
    (MDelete <$> oldChunkUUIDs))%list.

Lemma RevokeAccess_locked u f name : RevokeAccess u f name = (
  txn ← allocateTxn;
  withOperationGuard txn (
    nsResource ← lift (namespaceResourceID (Username u) f);
    _ ← acquire Fencing.Background nsResource SharedLock;
    namespaceEntry ← loadNamespaceEntry Fencing.Background (Some u) f;
    _ ← guard_ (negb (ne_IsOwner namespaceEntry)) "only the file owner can revoke access";
    _ ← acquire Fencing.Background (fileResourceID (ne_FileID namespaceEntry)) ExclusiveLock;
    revoke_locked u namespaceEntry name Fencing.Background)).
Proof. reflexivity. Qed.

Lemma revoke_locked_run w u vk f x name rev nu ne ab md cs ctx :
  view_rep (store w) u vk f x nu ne ab md cs → vw_boxes x !! name = Some rev → fresh w 6 →
  ∃ w', run local (revoke_locked u ne name ctx) w = (w', Ok ()) ∧ same_locks w w' ∧
    (drawn w + 8 ≤ drawn w')%nat ∧
    revoked w (store w) (store w') u vk f x name nu ne ab md cs rev.
Proof.
  intros Hx Hrev Hfr. pose proof (vr_owns _ _ _ _ _ _ _ _ _ _ Hx) as Ho.
  pose proof (ow_rep _ _ _ _ _ _ _ _ _ Ho) as Hf.
  pose proof (fresh_nil _ _ Hfr) as Hnil. pose proof (fresh_store _ _ Hfr) as Hnew.
  destruct (rotateEpoch_run w ab md (content_of cs)) as (b1 & b2 & Hrot & Hrt);
    [apply Hnil; lia|apply Hnil; lia|apply Hf|].
  destruct (republish_run 8 w w u vk f nu ne ab md cs (vw_boxes x) name)
    as (m & ms & b3 & b4 & b5 & Hpub & Hrw & Hpb); [done|apply (vr_user _ _ _ _ _ _ _ _ _ _ Hx)|].
  eexists. split.
  { unfold revoke_locked. erewrite run_step by done.
    erewrite run_step by (eapply validate_run; [apply Ho|eapply fr_wf, Ho|eapply fr_status, Ho|done]).
    erewrite run_step by (by eapply loadStructure_run).
    change (recipientBoxes _) with (vw_boxes x). rewrite (run_lift _ _ rev) by (by rewrite Hrev).
    erewrite run_step by (by eapply loadMetadata_run).
    erewrite run_step2 by (by eapply loadFileContent_run).
    erewrite run_step2 by exact Hrot. erewrite run_step by exact Hpub.
    apply run_commit. apply Forall_app. split; [by repeat constructor|].
    apply Forall_app. split; [constructor; [done|]; apply Forall_app; split;
      [apply Hrw|by repeat constructor]|].
    apply Forall_app. split; [by repeat constructor|]. by apply Forall_fmap, Forall_true. }
  pose proof (run_drawn (republish u ne ab (next_box w ab)
    (mkAccessBoxStructure (ab_FileID ab) (ab_EpochID ab) (Some (vw_boxes x))) name)
    (Nat.iter 8 advance w)) as Hd.
  rewrite Hpub in Hd. cbn [fst] in Hd. destruct (advance_data 8 w) as (_ & _ & Hd8 & _).
  destruct (advance_data m w) as (Hs4 & _ & Hdm & Hlm & Hgd & Hc4).
  generalize dependent (Nat.iter m advance w). intros w4 _ Hd Hs4 Hdm Hlm Hgd Hc4.
  generalize dependent (Nat.iter 8 advance w). intros w8 _ Hd Hd8.
  split; [by split|]. cbn [drawn set_store store]. split; [lia|]. rewrite Hs4.
  apply revocation_store; try done; [|apply Hnew; lia|apply Hnew; lia|].
  - by rewrite (vr_content _ _ _ _ _ _ _ _ _ _ Hx).
  - pose proof (fresh_nodup _ _ Hfr) as Hnd. cbn in Hnd.
    rewrite !NoDup_cons, !not_elem_of_cons in Hnd. apply not_eq_sym. tauto.
Qed.

(** Without a branch for [name] nothing happens. *)
Lemma revoke_locked_unshared w u vk f x name nu ne ab md cs ctx :
  view_rep (store w) u vk f x nu ne ab md cs → vw_boxes x !! name = None →
  run local (revoke_locked u ne name ctx) w = (w, Err (EMsg "recipient is not a direct share")).
Proof.
  intros Hx Hrev. pose proof (vr_owns _ _ _ _ _ _ _ _ _ _ Hx) as Ho.
  unfold revoke_locked. erewrite run_step by done.
  erewrite run_step by (eapply validate_run; [apply Ho|eapply fr_wf, Ho|eapply fr_status, Ho|done]).
  erewrite run_step by (by eapply loadStructure_run).
  change (recipientBoxes _) with (vw_boxes x). by rewrite Hrev.
Qed.

Lemma revoke_revokes w u vk f x name rev :
  quiet w → shared (store w) u vk f x → vw_boxes x !! name = Some rev →
  fresh w 6 → vw_epoch x ≠ drawn_uuid w 0 →
  ∃ w', run local (RevokeAccess u f name) w = (w', Ok ()) ∧
    shared (store w') u vk f (vw_revoke (drawn_uuid w 0) name x) ∧ settled w w' ∧
    ∀ v g w2, (v, g) ∈ vw_members x → Username v = name → quiet w2 →
      restores (store w) (store w') (store w2) → locked_out v g w2.
Proof.
  intros Hq (nu & ne & ab & md & cs & Hx) Hrev Hfr Hep.
  pose proof (vr_owns _ _ _ _ _ _ _ _ _ _ Hx) as Ho.
  pose proof (ow_rep _ _ _ _ _ _ _ _ _ Ho) as Hf.
  unfold RevokeAccess. operation w (Ok ()) (λ s (_ : nat), ∃ w0, same_data w w0 ∧
    revoked w0 (store w) s u vk f x name nu ne ab md cs rev).
  2:{ destruct HP as (w0 & Hsd & Hrv). pose proof Hsd as (Hs & _ & _).
      exists w'. split; [done|]. rewrite <-(drawn_same _ _ 0 Hsd) in *.
      split; [do 5 eexists; eapply revoked_view; [done..|by eapply fresh_same|done]|]. split; [done|].
      intros v g w2 Hin Hv Hq2 Hres. by eapply revoked_locked_out. }
  intros w1 txn Hw1 Hsd1. set (ns := mkResourceID NamespaceResource (uuid_String nu)).
  destruct (run_acquire w1 txn [] Fencing.Background ns SharedLock)
    as (w2 & Hw2 & Hsd2 & Hc2 & Hrun2); [done|apply not_elem_of_nil|by left|done|].
  destruct (run_acquire w2 txn [ns] Fencing.Background (fileResourceID (ne_FileID ne)) ExclusiveLock)
    as (w3 & Hw3 & Hsd3 & Hc3 & Hrun3); [done| |by right|done|].
  { apply not_elem_of_cons. split; [done|apply not_elem_of_nil]. }
  pose proof (same_data_trans _ _ _ Hsd1 Hsd2) as Hsd12.
  pose proof (same_data_trans _ _ _ Hsd12 Hsd3) as Hsd13.
  pose proof Hsd12 as (Hs2 & _ & _). pose proof Hsd13 as (Hs3 & _ & _).
  assert (fresh w3 6) as Hfr3 by by eapply fresh_same.
  destruct (revoke_locked_run w3 u vk f x name rev nu ne ab md cs Fencing.Background)
    as (w4 & Hrun4 & Hl4 & _ & Hrv); [by rewrite Hs3|done..|].
  eexists w4, _. split.
  { rewrite (run_lift _ _ ns) by apply namespaceResourceID_name, (ow_resolves _ _ _ _ _ _ _ _ _ Ho).
    erewrite run_step by exact Hrun2.
    erewrite run_step by (eapply loadNamespaceEntry_run; [eapply resolves_names, Ho|done]).
    rewrite run_guard by (by rewrite (ow_owner _ _ _ _ _ _ _ _ _ Ho)).
    erewrite run_step by exact Hrun3. exact Hrun4. }
  split; [by eapply same_locks_working|]. split; [exists w3; by rewrite <-Hs3|].
  destruct Hl4 as (_ & _ & ->). by rewrite Hc3.
Qed.

(** C6. [RevokeAccess] by the owner of a direct share: the file moves to the
    drawn epoch with its bytes and version unchanged, exactly that recipient's
    branch, membership and invitations are gone, the owner and the survivors
    still read the file; and the revoked members can neither read nor append,
    even if every object the revocation deleted is put back. *)
Theorem RevokeAccess_revokes w u vk f x name rev :
  quiet w → shared (store w) u vk f x → vw_boxes x !! name = Some rev →
  fresh w 6 → vw_epoch x ≠ drawn_uuid w 0 →
  ∃ w', run local (RevokeAccess u f name) w = (w', Ok ()) ∧
    shared (store w') u vk f (vw_revoke (drawn_uuid w 0) name x) ∧ settled w w' ∧
    ∀ v g w2, (v, g) ∈ vw_members x → Username v = name → quiet w2 →
      restores (store w) (store w') (store w2) → locked_out v g w2.
Proof. apply revoke_revokes. Qed.

End revoke.
