(* ===== verification/ClientRuns.v ===== *)
(** * Concrete runs of the client

    Alice's first file, in the toy instance of the libraries: the theorems on
    files and accounts applied to worlds in which their hypotheses hold. *)

From S2P Require Import Prelude Json JsonThms Libs LockManager LockManagerInv.
From S2P Require Import LockManagerSeq Fencing SaferTypes Effects Client Sharing LocalEnv.
From S2P Require Import Protocol FileModel FileThms CreateThms AccountThms.
Import Json JsonThms LM LMSeq Toy.
Open Scope string_scope.

Definition ctx0 : Fencing.Ctx := Fencing.Background.
Definition alice : User := mkUser "alice" (Some (RandomBytes 16 7%N)) () ().
Definition notes_uuid : UUID :=
  match getNameSpaceEntryUUID "alice" "notes" with Ok u => u | Err _ => uuid_Nil end.

(** Alice's verification key is registered; nothing is stored. *)
Definition world0 : World :=
  mkWorld (mkStore ∅ {[ getVerifyKeyName "alice" := "DS" ]}) NewLockManager 0 None N.of_nat 0 ([], false).

Definition world1 : World := (run local (StoreFileContext alice ctx0 "notes" (Some "hi")) world0).1.

Lemma world0_quiet : quiet world0.
Proof. split; [apply alone_new|done]. Qed.

Lemma alice_ok : user_ok (store world0) alice "DS".
Proof. split; [by vm_compute|by exists 0%N|by vm_compute]. Qed.

Lemma world0_draws i : (i < 14)%nat →
  drawn_uuid world0 i ≠ uuid_Nil ∧ drawn_uuid world0 i ≠ notes_uuid.
Proof. intros Hi. do 14 (destruct i as [|i]; [split; by vm_compute|]). lia. Qed.

Lemma world0_fresh : fresh world0 14.
Proof.
  split.
  - apply (bool_decide_unpack _). by vm_compute.
  - intros i Hi. by apply world0_draws.
  - intros i _. apply lookup_empty.
Qed.

Lemma StoreFile_creates_witness :
  ∃ w' ne ab md cid, run local (StoreFileContext alice ctx0 "notes" (Some "hi")) world0 = (w', Ok ()) ∧
    created (store w') alice "notes" (Some "hi") notes_uuid ne ab md [(cid, Some "hi")] ∧
    has_file (store w') alice "notes" "hi" 1 ∧
    Keystore (store w') = Keystore (store world0) ∧
    (∀ id, (id ∉ [notes_uuid; ne_AccessBoxUUID ne; ab_StatusUUID ab; ab_MetadataUUID ab;
        ne_AccessBoxStructureUUID ne; cid]) → Datastore (store w') !! id = Datastore (store world0) !! id) ∧
    settled world0 w'.
Proof.
  apply (StoreFile_creates world0 alice "notes" ctx0 (Some "hi") notes_uuid "DS").
  - apply world0_quiet.
  - reflexivity.
  - apply alice_ok.
  - vm_compute. reflexivity.
  - vm_compute. discriminate.
  - reflexivity.
  - apply world0_fresh.
  - intros i Hi. by apply world0_draws.
Defined.

(** What the first file leaves behind. *)
Lemma world1_file : quiet world1 ∧ has_file (store world1) alice "notes" "hi" 1.
Proof.
  destruct (store_creates world0 alice "notes" ctx0 (Some "hi") notes_uuid "DS")
    as (w' & Hr & (ne & ab & md & cs & Hc) & _ & Hs).
  - apply world0_quiet.
  - reflexivity.
  - apply alice_ok.
  - vm_compute. reflexivity.
  - vm_compute. discriminate.
  - reflexivity.
  - apply world0_fresh.
  - intros i Hi. by apply world0_draws.
  - unfold world1. rewrite Hr. split; [by apply Hs|exact (created_has_file _ _ _ _ _ _ _ _ _ Hc)].
Qed.

Lemma world1_fresh : fresh world1 1.
Proof.
  split.
  - apply (bool_decide_unpack _). by vm_compute.
  - intros i Hi. assert (i = 0%nat) as -> by lia. by vm_compute.
  - intros i Hi. assert (i = 0%nat) as -> by lia. by vm_compute.
Qed.

Lemma LoadFile_reads_witness :
  ∃ w', run local (LoadFileContext alice ctx0 "notes") world1 = (w', Ok (Some "hi")) ∧
    store w' = store world1 ∧ settled world1 w'.
Proof.
  destruct world1_file as [Hq Hf].
  apply (LoadFile_reads world1 alice "notes" ctx0 "hi" 1); [exact Hq|reflexivity|exact Hf].
Defined.

Lemma AppendToFile_appends_witness :
  ∃ w', run local (AppendToFileContext alice ctx0 "notes" (Some " there")) world1 = (w', Ok ()) ∧
    has_file (store w') alice "notes" "hi there" 2 ∧ settled world1 w'.
Proof.
  destruct world1_file as [Hq Hf].
  apply (AppendToFile_appends world1 alice "notes" ctx0 (Some " there") "hi" 1);
    [exact Hq|reflexivity|exact world1_fresh|discriminate|reflexivity|exact Hf].
Defined.

Lemma StoreFile_overwrites_witness :
  ∃ w', run local (StoreFileContext alice ctx0 "notes" (Some "bye")) world1 = (w', Ok ()) ∧
    has_file (store w') alice "notes" "bye" 2 ∧ settled world1 w'.
Proof.
  destruct world1_file as [Hq Hf].
  apply (StoreFile_overwrites world1 alice "notes" ctx0 (Some "bye") "hi" 1);
    [exact Hq|reflexivity|exact world1_fresh|reflexivity|exact Hf].
Defined.

(** Bob signs up in an empty world. *)
Definition world_empty : World :=
  mkWorld (mkStore ∅ ∅) NewLockManager 0 None N.of_nat 0 ([], false).

Definition bob_uuid : UUID :=
  match getUserUUID "bob" with Ok u => u | Err _ => uuid_Nil end.

Lemma InitUser_GetUser_witness :
  ∃ w' u, run local (InitUser "bob" "pw") world_empty = (w', Ok u) ∧
    Username u = "bob" ∧ user_ok (store w') u "DS" ∧
    Keystore (store w') !! getPKEKeyName "bob" = Some "PKE" ∧
    run local (GetUser "bob" "pw") w' = (w', Ok u).
Proof.
  apply (InitUser_GetUser world_empty "bob" "pw" bob_uuid "PKE" () () "DS").
  - discriminate.
  - split; [vm_compute; reflexivity|reflexivity|reflexivity|reflexivity|by vm_compute].
  - reflexivity.
  - reflexivity.
Defined.

(** ** The locking protocol, on a run *)

Definition store_notes : operation := OpStoreFile alice ctx0 "notes" (Some "hi").

Lemma strict_two_phase_witness :
  ∃ c, accept (op_ctx store_notes) Start (trace local (perform store_notes) world0) = Some (Ended c) ∧
    ends_well (mutates store_notes) c (run local (perform store_notes) world0).2.
Proof. apply (strict_two_phase local world0 store_notes). Defined.
