(* ===== verification/LockedOps.v ===== *)
(** * Operations under the lock of one file

    From what an operation computes when it runs alone under the lock of a
    file (files FileThms, RevokeThms) to its [wp] in the interleavings of file
    Pool: the shape of the locked parts, a world to run them in, and the rules
    for the steps before the lock. *)

From S2P Require Import Prelude Json Libs LockManager Fencing SaferTypes Effects.
From S2P Require Import Client Sharing LocalEnv Pool FileModel FileThms CreateThms ShareThms.
From S2P Require Import Protocol RevokeThms.
Import LM.
Open Scope string_scope.

(** ** Programs that only read and draw *)

Create HintDb reads.

Section shapes.
Context `{UuidLib} `{Userlib} `{!UuidNew}.

Definition is_read (e : event) : bool :=
  match e with EDraw | EGrants | EGet _ _ | EKeyGet _ _ | ERange _ => true | _ => false end.

Fixpoint reads {A} (p : prog A) : Prop :=
  match p with
  | Ret _ => True
  | Vis e k => is_read e = true ∧ ∀ r, reads (k r)
  end.

(** The commit of an operation, and nothing after it. *)
Definition commits {B} (e : event) : (resp e → prog (result B)) → Prop :=
  match e with
  | EAtomic _ ms => λ k, Forall is_object_write ms ∧ ∃ b, k (Ok ()) = Ret (Ok b)
  | _ => λ _, False
  end.

(** [wr] programs read and draw, and then fail or commit; the others never
    commit. *)
Fixpoint shape {B} (wr : bool) (p : prog (result B)) : Prop :=
  match p with
  | Ret (Ok _) => wr = false
  | Ret (Err _) => True
  | Vis e k => is_read e = true ∧ (∀ r, shape wr (k r)) ∨ wr = true ∧ commits e k
  end.

Lemma reads_bind {A B} (p : M A) (f : A → M B) :
  reads p → (∀ a, reads (f a)) → reads (p ≫= f).
Proof.
  intros Hp Hf. induction p as [[a|e]|e k IH]; cbn; [apply Hf|done|].
  destruct Hp as [He Hk]. split; [done|]. intros r. by apply IH.
Qed.

Lemma shape_bind {A B} wr (p : M A) (f : A → M B) :
  reads p → (∀ a, shape wr (f a)) → shape wr (p ≫= f).
Proof.
  intros Hp Hf. induction p as [[a|e]|e k IH]; cbn; [apply Hf|done|].
  destruct Hp as [He Hk]. left. split; [done|]. intros r. by apply IH.
Qed.

Lemma reads_shape {B} (p : M B) : reads p → shape false p.
Proof.
  induction p as [[a|e]|e k IH]; cbn; [done|done|]. intros [He Hk]. left. auto.
Qed.

Lemma reads_lift {A} (r : result A) : reads (lift r).
Proof. done. Qed.
Lemma reads_guard b msg : reads (guard_ b msg).
Proof. done. Qed.
Lemma reads_ret {A} (a : A) : reads (mret a : M A).
Proof. done. Qed.
Lemma reads_get ctx id : reads (datastoreGet ctx id).
Proof. done. Qed.
Lemma reads_keyget ctx name : reads (keystoreGet ctx name).
Proof. done. Qed.
Lemma reads_newUUID : reads newUUID.
Proof. done. Qed.
Lemma reads_randomBytes n : reads (randomBytes n).
Proof. done. Qed.
Lemma reads_grants ctx : reads (withFenceGrants ctx).
Proof. done. Qed.

Hint Resolve reads_lift reads_guard reads_ret reads_get reads_keyget reads_newUUID
  reads_randomBytes reads_grants : reads.

Ltac reads :=
  repeat first
    [ progress auto with reads
    | apply reads_bind; [|intros]
    | case_decide
    | match goal with |- reads (let '(_, _) := ?p in _) => destruct p end ].

Lemma reads_load {T} ctx t u ek mk dec (zero : T) :
  reads (loadDatastoreObject ctx t u ek mk dec zero).
Proof. unfold loadDatastoreObject. reads. Qed.

Lemma reads_protect t u j ek mk : reads (protectDatastoreObject t u j ek mk).
Proof. unfold protectDatastoreObject. reads. Qed.

Hint Resolve reads_load reads_protect : reads.

Lemma reads_validate ctx ne : reads (validateFileAccessUnderLock ctx ne).
Proof. unfold validateFileAccessUnderLock, verifyFileStatus. reads. Qed.

Lemma reads_metadata ctx ab : reads (loadMetadata ctx ab).
Proof. unfold loadMetadata. reads. Qed.

Lemma reads_walk ctx ab n cur seen rev ids : reads (walkChunks ctx ab n cur seen rev ids).
Proof.
  revert cur seen rev ids. induction n as [|n IH]; intros; cbn [walkChunks]; reads.
Qed.

Lemma reads_content ctx ab md : reads (loadFileContentAndChunkUUIDs ctx ab md).
Proof.
  unfold loadFileContentAndChunkUUIDs. apply reads_bind; [apply reads_walk|].
  intros [[? ?] ?]. reads.
Qed.

Lemma reads_base fuel old : reads (newBaseChunkUUID fuel old).
Proof. induction fuel as [|fuel IH]; cbn [newBaseChunkUUID]; [done|]. reads. Qed.

Lemma reads_structure ctx ne ab : reads (loadOwnerAccessBoxStructure ctx ne ab).
Proof. unfold loadOwnerAccessBoxStructure. reads. Qed.

Lemma reads_range keys : reads (range keys).
Proof. done. Qed.

Lemma reads_rewrap boxes ab name order : reads (rewrapSurvivors boxes ab name order).
Proof.
  induction order as [|k order IH]; cbn [rewrapSurvivors]; [done|]. case_decide; [done|].
  destruct (boxes !! k); [|done]. reads.
Qed.

Hint Resolve reads_validate reads_metadata reads_content reads_base reads_structure reads_range
  reads_rewrap : reads.

Lemma reads_rotate ab md c : reads (rotateEpoch ab md c).
Proof. unfold rotateEpoch. reads. Qed.

Lemma reads_republish u ne ab ab' st name : reads (republish u ne ab ab' st name).
Proof. unfold republish. reads. Qed.

Hint Resolve reads_rotate reads_republish : reads.

(** ** The operations under the lock of the file *)

Lemma load_shape ctx ne : shape false (load_locked ctx ne).
Proof. apply reads_shape. unfold load_locked. reads. Qed.

Lemma append_empty_shape ctx ne x : slen x = 0%nat → shape false (append_locked ctx ne x).
Proof. 
  intros Hx. apply reads_shape. unfold append_locked.
  repeat (apply reads_bind; [by auto with reads|intros]). by rewrite decide_True.
Qed.

Lemma metadata_shape ctx ne : shape false (
  accessBox ← validateFileAccessUnderLock ctx ne;
  metadata ← loadMetadata ctx accessBox;
  mret (md_Version metadata, md_ChunkCount metadata)).
Proof. apply reads_shape. reads. Qed.

Ltac shape := repeat first
  [ apply shape_bind; [by auto with reads|intros]
  | match goal with |- shape _ (let '(_, _) := ?p in _) => destruct p end ].

Lemma commit_shape ctx ms : Forall is_object_write ms → shape true (runAtomicStorage ctx ms).
Proof. intros Hms. right. split; [done|]. split; [done|]. by exists (). Qed.

Lemma append_shape ctx ne x : slen x ≠ 0%nat → shape true (append_locked ctx ne x).
Proof.
  intros Hx. unfold append_locked. shape. rewrite decide_False by done. unfold appendChunk.
  shape. apply commit_shape. repeat constructor.
Qed.

Lemma overwrite_shape ctx ne x : shape true (overwrite_locked ctx ne x).
Proof.
  unfold overwrite_locked, overwriteExistingFileLocked. shape.
  apply commit_shape, Forall_app. split; [by repeat constructor|].
  by apply Forall_fmap, Forall_true.
Qed.

Lemma shape_yields {A B} wr (P : A → Prop) (p : M A) (f : A → M B) :
  reads p → yields P p → (∀ a, P a → shape wr (f a)) → shape wr (p ≫= f).
Proof.
  intros Hp Hy Hf. induction p as [[a|e]|e k IH]; cbn; [by apply Hf|done|].
  destruct Hp as [He Hk]. left. split; [done|]. intros r. apply IH; [done|]. apply Hy.
Qed.

Lemma revoke_shape u ne name ctx : shape true (revoke_locked u ne name ctx).
Proof.
  unfold revoke_locked. do 5 (apply shape_bind; [by auto with reads|intros]).
  apply shape_bind; [by auto with reads|]. intros [content old].
  eapply (shape_yields _ (λ bw, Forall is_object_write bw.2));
    [by auto with reads|apply yields_rotateEpoch|]. intros [box ws] Hws. cbn in Hws.
  eapply (shape_yields _ (Forall is_object_write));
    [by auto with reads|apply yields_republish|]. intros bws Hbws.
  apply commit_shape, Forall_app. split; [done|]. apply Forall_app. split; [done|].
  apply Forall_app. split; [by repeat constructor|]. by apply Forall_fmap, Forall_true.
Qed.

End shapes.

(** ** What the locked part of an operation does, as [wp] *)

Section locked.
Context `{UuidLib} `{Userlib} `{!UuidNew} {A V : Type}.
Context (J : V → UserlibStore → Prop) (file : ResourceID).
Context (s0 : UserlibStore) (K : nat) (gr : list Fencing.Grant * bool).

(** A world to run the locked part in: it has drawn [D], and what it will
    draw is new; the first draws are distinct. *)
Record ready (s : UserlibStore) (D : list Seed) (w : World) : Prop := {
  rd_store : store w = s;
  rd_granted : granted w = gr;
  rd_drawn : drawn w = length D;
  rd_past i d : reverse D !! i = Some d → tape w i = d;
  rd_good n : good s0 s (tape w n);
  rd_nodup : NoDup ((λ n, uuid_New (tape w n)) <$> seq 0 (S K)) }.

(** What was drawn under the lock so far. *)
Definition drawn_well (s : UserlibStore) (D : list Seed) : Prop :=
  Forall (good s0 s) D ∧ NoDup (uuid_New <$> D).

(** The members of [E] that are not in [D], and how many there are. *)
Lemma rest_length (D E : list Seed) :
  NoDup (uuid_New <$> E) →
  (length E ≤ length D + length (filter (λ e, uuid_New e ∉ uuid_New <$> D) E))%nat.
Proof.
  intros HE. rewrite <-!(length_fmap uuid_New), <-length_app. apply submseteq_length, NoDup_submseteq.
  { done. }
  intros id (e & -> & He)%list_elem_of_fmap. apply elem_of_app.
  destruct (decide (uuid_New e ∈ uuid_New <$> D)) as [|Hn]; [by left|right].
  by apply list_elem_of_fmap_2, list_elem_of_filter.
Qed.

Lemma seq_lookup_NoDup {T} (F : nat → T) (l : list T) n :
  (∀ i, (i < n)%nat → l !! i = Some (F i)) → NoDup l → NoDup (F <$> seq 0 n).
Proof.
  intros HF Hl. apply NoDup_fmap_2_strong; [|apply NoDup_seq].
  intros i j [_ Hi]%elem_of_seq [_ Hj]%elem_of_seq Heq.
  apply (NoDup_lookup l i j (F i) Hl); [by apply HF|]. rewrite Heq. by apply HF.
Qed.

Lemma ready_exists s D : plenty s0 K s → drawn_well s D → ∃ w, ready s D w.
Proof.
  intros (E & HlE & HgE & HnE) [HD HnD].
  set (l := (reverse D ++ filter (λ e, uuid_New e ∉ uuid_New <$> D) E)%list).
  assert (S K ≤ length l)%nat as Hlen.
  { unfold l. rewrite length_app, length_reverse, <-HlE. by apply rest_length. }
  assert (Forall (good s0 s) l) as Hl.
  { apply Forall_app. split; [by apply Forall_reverse|]. apply Forall_forall.
    intros e [_ He]%list_elem_of_filter. by eapply Forall_forall in HgE. }
  assert (NoDup (uuid_New <$> l)) as Hnd.
  { unfold l. rewrite fmap_app. apply NoDup_app. split; [|split].
    - rewrite fmap_reverse. by rewrite reverse_Permutation.
    - intros id Hid (e & -> & [He _]%list_elem_of_filter)%list_elem_of_fmap.
      by rewrite fmap_reverse, elem_of_reverse in Hid.
    - eapply sublist_NoDup; [exact HnE|]. apply fmap_sublist, sublist_filter. }
  destruct (lookup_lt_is_Some_2 l 0 ltac:(lia)) as [d Hd].
  exists (mkWorld s NewLockManager 0 None (λ i, default d (l !! i)) (length D) gr).
  split; cbn [store granted drawn tape]; try done.
  - intros i x Hx. unfold l. by rewrite (lookup_app_l_Some _ _ _ _ Hx).
  - intros n. destruct (l !! n) eqn:En; cbn; by eapply Forall_lookup.
  - eapply (seq_lookup_NoDup _ (uuid_New <$> l)); [|done]. intros i Hi.
    destruct (lookup_lt_is_Some_2 l i ltac:(lia)) as [x Hx]. by rewrite list_lookup_fmap, Hx.
Qed.

Lemma ready_fresh s w : ready s [] w → fresh w (S K).
Proof.
  intros [<- _ Hd _ Hg Hn]. cbn in Hd. split.
  - unfold drawn_uuid. rewrite Hd. exact Hn.
  - intros i _. apply Hg.
  - intros i _. apply Hg.
Qed.

Lemma drawn_well_nil s : drawn_well s [].
Proof. split; [constructor|apply NoDup_nil_2]. Qed.

(** An answer the locked part may get is the answer of a ready world. *)
Lemma read_step v s D e r md' :
  is_read e = true → trans J file s0 K gr (Inside v s D) e r md' → drawn_well s D →
  ∃ D', md' = Inside v s D' ∧ drawn_well s D' ∧
    ∀ w', ready s D' w' → ∃ w, ready s D w ∧ local e w = (w', r).
Proof.
  intros He Htr HD. destruct e; try done; cbn in Htr.
  - destruct Htr as (Hr & Hne & ->). exists (r :: D). split; [done|]. split.
    { destruct HD. split; [by constructor|]. by apply NoDup_cons. }
    intros [s' lm n g tp dr gt] [Hs Hgr Hdr Hp Hg Hn]. cbn [store granted drawn tape length] in *.
    subst. exists (mkWorld s lm n g tp (length D) gr).
    assert (tp (length D) = r) as Hlast.
    { apply (Hp (length D)). rewrite reverse_cons, lookup_app_r by (by rewrite length_reverse).
      by rewrite length_reverse, Nat.sub_diag. }
    split; [|unfold advance; cbn; by rewrite Hlast]. split; cbn [store granted drawn tape]; try done.
    intros i d Hi. apply Hp. rewrite reverse_cons. by apply lookup_app_l_Some.
  - destruct Htr as [-> ->]. exists D. split; [done|]. split; [done|].
    intros w' Hw. exists w'. split; [done|]. cbn. by rewrite (rd_granted _ _ _ Hw).
  - destruct Htr as [-> ->]. exists D. split; [done|]. split; [done|].
    intros w' Hw. exists w'. split; [done|]. cbn. by rewrite (rd_store _ _ _ Hw).
  - destruct Htr as [-> ->]. exists D. split; [done|]. split; [done|].
    intros w' Hw. exists w'. split; [done|]. cbn. by rewrite (rd_store _ _ _ Hw).
  - destruct Htr as [-> ->]. exists D. split; [done|]. split; [done|]. intros w' Hw. by exists w'.
Qed.

(** What the run of the locked part has to establish. *)
Definition locked_post {B} (t : task (A := A) (V := V)) (v : V) (s : UserlibStore) (wr : bool)
    (h : result B → A) (w' : World) (a : result B) : Prop :=
  match a with
  | Err _ => tk_fail t (h a)
  | Ok _ => tk_answer t v (h a) ∧
      if wr then ∃ f, tk_effect t = Some f ∧ J (f v) (store w') ∧
        ∀ id, Datastore (store w') !! id ≠ None → Datastore s !! id ≠ None ∨
          ∃ i, (i < drawn w')%nat ∧ id = uuid_New (tape w' i)
      else tk_effect t = None
  end.

Lemma wp_locked {B} t v s wr (h : result B → A) (p : M B) : ∀ D,
  shape wr p → plenty s0 K s → drawn_well s D →
  (∀ w, ready s D w → locked_post t v s wr h (run local p w).1 (run local p w).2) →
  wp J file s0 K gr t (Inside v s D) (bindP p (λ x, Vis EReleaseAll (λ _, Ret (h x)))).
Proof.
  induction p as [a|e k IH]; intros D Hsh Hd HD Hpost.
  - destruct (ready_exists s D Hd HD) as [w Hw]. specialize (Hpost w Hw). cbn in *.
    split; [done|]. intros _ md' ->. cbn. destruct a as [b|e]; [|by right].
    left. cbn in Hsh. subst wr. by destruct Hpost.
  - destruct Hsh as [[He Hk]|[-> Hc]].
    + cbn. split; [by destruct e|]. intros r md' Htr.
      destruct (read_step v s D e r md' He Htr HD) as (D' & -> & HD' & Hworld).
      apply IH; try done. intros w' Hw'. destruct (Hworld w' Hw') as (w & Hw & Hl).
      specialize (Hpost w Hw). cbn in Hpost. by rewrite Hl in Hpost.
    + destruct e as [| | | | | | | | |ctx ms]; try done. destruct Hc as [Hms [b Hb]].
      destruct (ready_exists s D Hd HD) as [w Hw]. specialize (Hpost w Hw). cbn in Hpost.
      rewrite (rd_store _ _ _ Hw), closure_objects in Hpost by done. rewrite Hb in Hpost.
      cbn in Hpost. destruct Hpost as (Hans & f & Hf & HJ & Hdom).
      split.
      * exists f. eexists. split; [done|]. split; [by apply closure_objects|]. split; [done|].
        intros id Hid. destruct (Hdom id Hid) as [?|(i & Hi & ->)]; [by left|right].
        rewrite (rd_drawn _ _ _ Hw), <-length_reverse in Hi.
        destruct (lookup_lt_is_Some_2 _ _ Hi) as [x Hx]. rewrite (rd_past _ _ _ Hw _ _ Hx).
        apply list_elem_of_fmap_2, elem_of_reverse. by apply list_elem_of_lookup_2 in Hx.
      * intros r md' [-> ->]. rewrite closure_objects by done. cbn. rewrite Hb. cbn.
        split; [done|]. by intros _ md' ->.
Qed.

(** ** Before the lock *)

(** What follows the body of an operation: the release, and its result. *)
Definition release {B} (h : result B → A) (x : result B) : prog A :=
  Vis EReleaseAll (λ _, Ret (h x)).

(** [t] may fail with every error. *)
Definition may_fail {B} (t : task (A := A) (V := V)) (h : result B → A) : Prop :=
  ∀ e, tk_fail t (h (Err e)).

Lemma wp_released {B} t n (h : result B → A) e :
  may_fail t h → wp J file s0 K gr t (Before n) (release h (Err e)).
Proof. intros Hf. split; [done|]. intros _ md' ->. apply Hf. Qed.

Lemma wp_assoc {B C} t (p : prog B) (f : B → prog C) (g : C → prog A) : ∀ md,
  wp J file s0 K gr t md (bindP p (λ x, bindP (f x) g)) → wp J file s0 K gr t md (bindP (bindP p f) g).
Proof.
  induction p as [b|e k IH]; intros md Hw; [done|]. destruct Hw as [Ha Hk].
  split; [done|]. intros r md' Htr. apply IH. by apply Hk.
Qed.

Lemma wp_mono {B} t (p : prog B) (f g : B → prog A) : ∀ md,
  (∀ x md, wp J file s0 K gr t md (f x) → wp J file s0 K gr t md (g x)) →
  wp J file s0 K gr t md (bindP p f) → wp J file s0 K gr t md (bindP p g).
Proof.
  induction p as [b|e k IH]; intros md Hfg Hw; [by apply Hfg|]. destruct Hw as [Ha Hk].
  split; [done|]. intros r md' Htr. apply IH; [done|]. by apply Hk.
Qed.

(** The transaction and the guard of an operation. *)
Lemma wp_operation {B} t (body : M B) (h : result B → A) (g : result B → prog A) :
  (∀ r, g r = Ret (h r)) → may_fail t h →
  (∀ n, wp J file s0 K gr t (Before (Some n)) (bindP body (release h))) →
  wp J file s0 K gr t (Before None) (bindP (txn ← allocateTxn; withOperationGuard txn body) g).
Proof.
  intros Hg Hf Hbody. split; [done|].
  intros [txn|e] md' ->; [|cbn; rewrite Hg; apply Hf].
  split; [done|]. intros r md' [-> ->]. apply wp_assoc.
  eapply wp_mono; [|apply Hbody]. intros x md [Ha Hk]. split; [done|].
  intros r md' Htr. change (wp J file s0 K gr t md' (g x)). rewrite Hg. by apply (Hk r).
Qed.

Lemma wp_lift {B C} t md (r : result C) b (k : C → M B) (F : result B → prog A) :
  r = Ok b → wp J file s0 K gr t md (bindP (k b) F) → wp J file s0 K gr t md (bindP (lift r ≫= k) F).
Proof. by intros ->. Qed.

(** Another lock. *)
Lemma wp_other {B} t n ctx r m (k : unit → M B) (h : result B → A) :
  r ≠ file → may_fail t h →
  wp J file s0 K gr t (Before n) (bindP (k ()) (release h)) →
  wp J file s0 K gr t (Before n) (bindP (acquire ctx r m ≫= k) (release h)).
Proof.
  intros Hr Hf Hk. split; [by intros ?|]. intros [[]|e] md' [(? & _)|[_ ->]]; try done.
  by apply wp_released.
Qed.

(** The lock of the file, and what runs under it. *)
Lemma wp_file {B} t n ctx m wr (k : unit → M B) (h : result B → A) :
  m = tk_mode t → may_fail t h → shape wr (k ()) →
  (∀ v s, J v s → ∀ w, ready s [] w →
     locked_post t v s wr h (run local (k ()) w).1 (run local (k ()) w).2) →
  wp J file s0 K gr t (Before n) (bindP (acquire ctx file m ≫= k) (release h)).
Proof.
  intros -> Hf Hsh Hpost. split; [done|].
  intros r md' [(_ & -> & v & s & HJ & Hd & ->)|[Hr ->]].
  - eapply wp_locked; [done|done|apply drawn_well_nil|]. by apply Hpost.
  - destruct r as [[]|e]; [by destruct Hr|]. by apply wp_released.
Qed.

End locked.

Section entries.
Context `{UuidLib} `{Userlib} `{!UuidNew} `{!UuidLaws} `{!UserlibLaws} {A V : Type}.
Context (J : V → UserlibStore → Prop) (file : ResourceID).
Context (s0 : UserlibStore) (K : nat) (gr : list Fencing.Grant * bool).

(** A read outside the lock. *)
Lemma wp_get {B} t n ctx id (k : option string → M B) (h : result B → A) :
  (∀ v s, J v s →
     wp J file s0 K gr t (Before n) (bindP (k (Datastore s !! id)) (release h))) →
  wp J file s0 K gr t (Before n) (bindP (datastoreGet ctx id ≫= k) (release h)).
Proof. intros Hk. split; [done|]. intros r md' (-> & v & s & HJ & ->). by apply (Hk v s). Qed.

(** Outside the lock of the file its name already resolves. *)
Lemma wp_entry {B} t n ctx u f nu ne (k : NamespaceEntry → M B) (h : result B → A) v1 s1 :
  J v1 s1 → (∀ v s, J v s → names s u f nu ne) →
  wp J file s0 K gr t (Before n) (bindP (k ne) (release h)) →
  wp J file s0 K gr t (Before n) (bindP (loadNamespaceEntry ctx (Some u) f ≫= k) (release h)).
Proof.
  intros HJ Hnames Hk. destruct (Hnames _ _ HJ) as [Hn (ek & mk & Hkeys & Ho) [Hd1 Hd2 Hd3 Hd4]].
  unfold loadNamespaceEntry, loadDatastoreObject, guard_, lift.
  destruct Ho as [Hu Hek Hmk _]. unfold key16 in *.
  cbn [of_option mbind M_bind bindP]. rewrite Hn. cbn [bindP]. rewrite Hkeys. cbn [bindP].
  rewrite Hek, Hmk, !bool_decide_false by done. cbn [fail_if bindP].
  split; [done|]. intros r md' (-> & v & s & HJs & ->).
  destruct (Hnames _ _ HJs) as [_ (ek' & mk' & Hkeys' & [_ _ _ (b & Hb & Hopen)]) _].
  rewrite Hkeys in Hkeys'. injection Hkeys' as <- <-. rewrite Hb. cbn [of_option bindP].
  rewrite Hopen. cbn [bindP]. by rewrite Hd3, Hd4, !bool_decide_false by done.
Qed.

End entries.
