(* ===== verification/ConcurrentThms.v ===== *)
(** * Concurrent operations on one shared file

    Loads, appends, overwrites and metadata reads of one file by its owner and
    its members, and revocations by its owner, each in a goroutine of its own,
    over any locks that satisfy [LockingLaws]: every interleaving is equivalent
    to running, one after the other, exactly the writes and revocations that
    took effect, in an order that respects what had returned before what began.
    The bodies of the operations are those of files Client and Sharing; the
    argument about interleavings is that of file Pool. *)

From S2P Require Import Prelude Json Libs LockManager Fencing SaferTypes Effects.
From S2P Require Import Client Sharing LocalEnv Pool FileModel FileThms CreateThms ShareThms.
From S2P Require Import RevokeThms LockedOps.
Import LM.
Open Scope string_scope.

Section calls.
Context `{UuidLib} `{Userlib} `{!UuidNew} `{!UuidLaws} `{!UserlibLaws}.

(** ** The calls *)

Inductive request :=
  | RLoad
  | RMetadata
  | RAppend (x : slice)
  | RStore (x : slice)
  | RRevoke (name : string).

Inductive reply :=
  | Nothing
  | Content (c : slice)
  | Snapshot (version chunkCount : N).

Record call := mkCall {
  cl_user : User;
  cl_name : string;
  cl_ctx : Fencing.Ctx;
  cl_request : request }.

(** The goroutine of a call. *)
Definition serve (q : call) : M reply :=
  match cl_request q with
  | RLoad => c ← LoadFileContext (cl_user q) (cl_ctx q) (cl_name q); mret (Content c)
  | RMetadata => m ← ReadFileMetadata (cl_user q) (cl_name q); mret (Snapshot m.1 m.2)
  | RAppend x => _ ← AppendToFileContext (cl_user q) (cl_ctx q) (cl_name q) x; mret Nothing
  | RStore x => _ ← StoreFileContext (cl_user q) (cl_ctx q) (cl_name q) x; mret Nothing
  | RRevoke name => _ ← RevokeAccess (cl_user q) (cl_name q) name; mret Nothing
  end.

(** What a call does to the shared file, if anything, and what it returns for
    the file it finds. Which epoch the file is in is left open: [vw_at]. *)
Definition effect_of (r : request) : option (view → view) :=
  match r with
  | RLoad | RMetadata => None
  | RAppend x => if decide (slen x = 0%nat) then None
      else Some (λ X, vw_write (vw_content X +:+ bytes_of x) X)
  | RStore x => Some (λ X, vw_write (bytes_of x) X)
  | RRevoke name => Some (λ X, vw_revoke (vw_epoch X) name X)
  end.

Definition answers (r : request) (X : view) (b : reply) : Prop :=
  match r with
  | RLoad => b = Content (Some (vw_content X))
  | RMetadata => ∃ chunkCount, b = Snapshot (vw_version X) chunkCount
  | _ => b = Nothing
  end.

Definition vw_at (epoch : UUID) (X : view) : view :=
  mkView (vw_content X) (vw_version X) epoch (vw_boxes X) (vw_members X) (vw_pending X).

Definition reads_only (r : request) : bool :=
  match r with RLoad | RMetadata => true | _ => false end.

Section file.
Context (u : User) (vk : PublicKeyType) (f : string) (X0 : view).

(** Who may make a call of the file in state [X]. *)
Definition permitted (X : view) (q : call) : Prop :=
  match cl_request q with
  | RRevoke name => (cl_user q, cl_name q) = (u, f) ∧ is_Some (vw_boxes X !! name)
  | _ => (cl_user q, cl_name q) = (u, f) ∨ (cl_user q, cl_name q) ∈ vw_members X
  end.

Definition task_of (q : call) : task (A := result reply) (V := view) :=
  mkTask (if reads_only (cl_request q) then SharedLock else ExclusiveLock)
    (effect_of (cl_request q))
    (λ X a, permitted X q ∧ ∃ b, a = Ok b ∧ answers (cl_request q) X b)
    (λ a, ∃ e, a = Err e).

(** ** What the store holds *)

Context (nu : UUID) (ne : NamespaceEntry).
Context (s0 : UserlibStore) (gr : list Fencing.Grant * bool).

(** A member of the start who was revoked: the entry is there, the branch box
    is not. *)
Definition lost (s : UserlibStore) (core : list UUID) (boxes : gmap string BranchBoxRecord)
    (v : User) (g : string) : Prop :=
  ∃ nu' box ek mk, vw_boxes X0 !! Username v = Some box ∧ apart core boxes nu' ∧
    getNameSpaceEntryUUID (Username v) g = Ok nu' ∧
    deriveNamespaceEntryKeys (u_NamespaceRoot v) g = Ok (ek, mk) ∧
    opens s namespaceEntryObjectType nu' ek mk dec_NamespaceEntry zero_NamespaceEntry
      (entry_for (ne_FileID ne) box) ∧
    Datastore s !! bb_BoxUUID box = None.

Record holds (X : view) (s : UserlibStore) (epoch : UUID) (ab : AccessBox) (md : Metadata)
    (cs : list (UUID * slice)) : Prop := {
  hd_view : view_rep s u vk f (vw_at epoch X) nu ne ab md cs;
  hd_boxes : vw_boxes X ⊆ vw_boxes X0;
  hd_members v g : (v, g) ∈ vw_members X0 →
    (v, g) ∈ vw_members X ∨ lost s (core nu ne ab cs) (vw_boxes X) v g }.

Definition holds_file (X : view) (s : UserlibStore) : Prop :=
  ∃ epoch ab md cs, holds X s epoch ab md cs.

Definition file_lock : ResourceID := fileResourceID (ne_FileID ne).

Lemma holds_owns X s epoch ab md cs :
  holds X s epoch ab md cs → owns s u f nu ne ab md cs (vw_boxes X).
Proof. intros HX. apply (vr_owns _ _ _ _ _ _ _ _ _ _ (hd_view _ _ _ _ _ _ HX)). Qed.

Lemma holds_rep X s epoch ab md cs : holds X s epoch ab md cs → file_rep s ab md cs.
Proof. intros HX%holds_owns. apply (ow_rep _ _ _ _ _ _ _ _ _ HX). Qed.

Lemma holds_fileID X s epoch ab md cs : holds X s epoch ab md cs → ab_FileID ab = ne_FileID ne.
Proof. intros HX%holds_owns. apply (rs_file _ _ _ _ _ _ (ow_resolves _ _ _ _ _ _ _ _ _ HX)). Qed.

Lemma lost_ext s s' core core' boxes boxes' v g :
  lost s core boxes v g →
  (∀ id, apart core boxes id → Datastore s !! id ≠ None →
     Datastore s' !! id = Datastore s !! id ∧ apart core' boxes' id) →
  (∀ k box, vw_boxes X0 !! k = Some box → Datastore s !! bb_BoxUUID box = None →
     Datastore s' !! bb_BoxUUID box = None) →
  lost s' core' boxes' v g.
Proof.
  intros (nu' & box & ek & mk & Hb & Ha & Hn & Hk & He & Hgone) HS Hdead.
  destruct (HS nu' Ha) as [Heq Ha']; [by eapply opens_stored|].
  exists nu', box, ek, mk. split_and!; try done; [by eapply opens_ext|by eapply Hdead].
Qed.

(** ** Callers *)

(** What a call of [v] under the name [g] meets: an entry that does not
    change, behind it the access box or, once revoked, nothing. *)
Record caller_ok (v : User) (g : string) (nu' : UUID) (ne' : NamespaceEntry) : Prop := {
  co_names X s : holds_file X s → names s v g nu' ne';
  co_file : ne_FileID ne' = ne_FileID ne;
  co_box X s epoch ab md cs : holds X s epoch ab md cs →
    resolves s v g nu' ne' ab ∧ ((v, g) = (u, f) ∨ (v, g) ∈ vw_members X) ∨
    Datastore s !! ne_AccessBoxUUID ne' = None;
  co_owner : (v, g) = (u, f) ∧ ne' = ne ∨ ne_IsOwner ne' = false }.

Lemma owner_caller : caller_ok u f nu ne.
Proof.
  split; [|done| |by left].
  - intros X s (epoch & ab & md & cs & HX%holds_owns). by eapply resolves_names, ow_resolves.
  - intros X s epoch ab md cs HX%holds_owns. left. split; [apply HX|by left].
Qed.

Lemma member_caller v g : holds_file X0 s0 → (v, g) ∈ vw_members X0 → ∃ nu' ne', caller_ok v g nu' ne'.
Proof.
  intros (epoch0 & ab0 & md0 & cs0 & Hst0) Hin.
  pose proof (hd_view _ _ _ _ _ _ Hst0) as Hx0. pose proof (holds_owns _ _ _ _ _ _ Hst0) as Ho0.
  destruct (member_resolves _ _ _ _ _ _ _ _ _ _ _ Ho0 (vr_members _ _ _ _ _ _ _ _ _ _ Hx0 _ _ Hin))
    as (nu' & box & Hr & Hb & _).
  exists nu', (entry_for (ne_FileID ne) box). cbn [vw_boxes vw_at] in Hb.
  rewrite (holds_fileID _ _ _ _ _ _ Hst0) in Hr.
  assert (∀ X s epoch ab md cs, holds X s epoch ab md cs →
    resolves s v g nu' (entry_for (ne_FileID ne) box) ab ∧ (v, g) ∈ vw_members X ∨
    names s v g nu' (entry_for (ne_FileID ne) box) ∧ Datastore s !! bb_BoxUUID box = None) as Hboth.
  { intros X s epoch ab md cs HX. destruct (hd_members _ _ _ _ _ _ HX _ _ Hin) as [HinX|Hlost].
    - left. split; [|done].
      destruct (member_resolves _ _ _ _ _ _ _ _ _ _ _ (holds_owns _ _ _ _ _ _ HX)
        (vr_members _ _ _ _ _ _ _ _ _ _ (hd_view _ _ _ _ _ _ HX) _ _ HinX)) as (nu1 & box1 & Hr1 & Hb1 & _).
      rewrite (holds_fileID _ _ _ _ _ _ HX) in Hr1.
      assert (nu1 = nu') as -> by (destruct Hr, Hr1; congruence).
      pose proof (lookup_weaken _ _ _ _ Hb1 (hd_boxes _ _ _ _ _ _ HX)).
      by assert (box1 = box) as -> by congruence.
    - right. destruct Hlost as (nu1 & box1 & ek & mk & Hb1 & _ & Hn & Hk & He & Hgone).
      assert (nu1 = nu') as -> by (destruct Hr; congruence).
      assert (box1 = box) as -> by congruence.
      split; [|done]. split; [done|by exists ek, mk|apply Hr]. }
  split; [| done | |by right].
  - intros X s (epoch & ab & md & cs & HX).
    destruct (Hboth _ _ _ _ _ _ HX) as [[Hr1 _]|[Hn1 _]]; [by eapply resolves_names|done].
  - intros X s epoch ab md cs HX.
    destruct (Hboth _ _ _ _ _ _ HX) as [[Hr1 ?]|[_ Hn1]]; [left; by split; [|right]|by right].
Qed.

(** ** Under the lock *)

Abbreviation K := 5%nat (only parsing).

(** Revoked callers fail. *)
Lemma validate_gone ctx ne' w :
  entry_wf ne' → Datastore (store w) !! ne_AccessBoxUUID ne' = None →
  run local (validateFileAccessUnderLock ctx ne') w =
    (w, Err (EMsg "required datastore object is missing")).
Proof.
  intros [] Hgone. unfold validateFileAccessUnderLock. by rewrite run_bind, load_missing.
Qed.

Section start.
Hypothesis start : holds_file X0 s0.

(** A new UUID is not that of a branch box, not even of one that is gone. *)
Lemma box_not_new s d k box :
  good s0 s d → vw_boxes X0 !! k = Some box → bb_BoxUUID box ≠ uuid_New d.
Proof.
  destruct start as (epoch & ab & md & cs & HX%holds_owns). intros (_ & _ & Hnew) Hb Heq.
  eapply opens_stored; [by eapply (ow_box _ _ _ _ _ _ _ _ _ HX)|]. by rewrite Heq.
Qed.

(** What the write of new chunks leaves. *)
Lemma holds_published X s s' epoch ab md cs md' cs' d :
  holds X s epoch ab md cs → published s s' ab cs md' cs' →
  md_Version md' = (md_Version md + 1)%N → good s0 s d →
  (∀ id, id ∈ cs'.*1 → id ∈ cs.*1 ∨ id = uuid_New d) →
  holds (vw_write (content_of cs') X) s' epoch ab md' cs'.
Proof.
  intros HX Hp Hv Hd Hids. split; [|apply HX|].
  - eapply (published_view _ _ _ _ _ (vw_at epoch X)); [apply HX|done..].
  - intros v g Hin. destruct (hd_members _ _ _ _ _ _ HX v g Hin) as [?|Hl]; [by left|right].
    eapply lost_ext; [exact Hl|..].
    + intros id [Hid Hbs] Hst. cbn [vw_boxes vw_write].
      destruct (published_frame _ _ nu ne _ _ _ _ _ Hp Hid Hst). by split; [|split].
    + intros k box Hb Hgone. apply dec_stable. intros Hst.
      destruct (pl_dom _ _ _ _ _ _ Hp _ Hst) as [?|[Hc|Hn]%Hids]; [done| |].
      * eapply chain_stored; [apply (holds_rep _ _ _ _ _ _ HX)|exact Hc|done].
      * by eapply box_not_new.
Qed.

(** What a revocation leaves. *)
Lemma holds_revoked w X s s' epoch ab md cs name rev :
  holds X s epoch ab md cs → vw_boxes X !! name = Some rev →
  revoked w s s' u vk f (vw_at epoch X) name nu ne ab md cs rev →
  fresh w 6 → store w = s → (∀ n, good s0 s (tape w n)) →
  holds (vw_revoke (vw_epoch X) name X) s' (drawn_uuid w 0) (next_box w ab)
    (next_metadata w ab md) [(drawn_uuid w 5, Some (vw_content X))].
Proof.
  intros HX Hrev Hrv Hfr Hs Hg.
  pose proof (λ id, revoked_frame _ _ _ _ _ _ _ _ _ _ _ _ _ _ id Hrv Hfr Hs) as Hframe.
  split.
  - eapply (revoked_view _ _ _ _ _ _ (vw_at epoch X)); [apply HX|done..].
  - etrans; [apply delete_subseteq|apply HX].
  - intros v g Hin. cbn [vw_boxes vw_members vw_revoke].
    assert (lost s (core nu ne ab cs) (vw_boxes X) v g → lost s'
      (core nu ne (next_box w ab) [(drawn_uuid w 5, Some (vw_content X))])
      (delete name (vw_boxes X)) v g) as Hlost.
    { intros Hl. eapply lost_ext; [exact Hl|exact Hframe|]. intros k box Hb Hgone.
      apply dec_stable. intros Hst.
      destruct (rv_dom _ _ _ _ _ _ _ _ _ _ _ _ _ _ Hrv _ Hst) as [?|[Hn|Hn]];
        [done|by eapply box_not_new in Hn..]. }
    destruct (hd_members _ _ _ _ _ _ HX v g Hin) as [HinX|Hl]; [|by right; apply Hlost].
    destruct (decide (Username v = name)) as [Hv|Hv].
    2:{ left. by apply list_elem_of_filter. }
    right. destruct (vr_members _ _ _ _ _ _ _ _ _ _ (hd_view _ _ _ _ _ _ HX) _ _ HinX)
      as (nu' & box & ek & mk & Hb & Ha & Hn & Hk & He).
    rewrite (holds_fileID _ _ _ _ _ _ HX) in He. cbn [vw_boxes vw_at] in Hb, Ha.
    assert (box = rev) as -> by congruence.
    destruct (Hframe nu' Ha) as [Heq Ha']; [by eapply opens_stored|].
    exists nu', rev, ek, mk. split_and!; try done.
    + eapply lookup_weaken; [by rewrite Hv|apply HX].
    + by eapply opens_ext.
    + by eapply rv_gone.
Qed.

(** The result of a call from the result of its operation. *)
Definition reply_with {B} (h : B → reply) (r : result B) : result reply :=
  match r with Ok b => Ok (h b) | Err e => Err e end.

Lemma reply_fails {B} q (h : B → reply) : may_fail (task_of q) (reply_with h).
Proof. intros e. by exists e. Qed.

Abbreviation post q X s wr h p w :=
  (locked_post holds_file (task_of q) X s wr (reply_with h) (run local p w).1 (run local p w).2).

(** A write under the lock: it fails, or it publishes [cs']. *)
Lemma write_post q X s w p epoch ab md cs cs' c :
  holds X s epoch ab md cs → ready s0 K gr s [] w → permitted X q →
  ((md_Version md < max_uint64)%N → writes_locked w p ab md cs cs') →
  (md_Version md = max_uint64 → ∃ w' e, run local p w = (w', Err e)) →
  effect_of (cl_request q) = Some (λ X, vw_write (c X) X) → c X = content_of cs' →
  (∀ id, id ∈ cs'.*1 → id ∈ cs.*1 ∨ id = drawn_uuid w 0) →
  answers (cl_request q) X Nothing →
  post q X s true (λ _ : unit, Nothing) p w.
Proof.
  intros HX Hw Hperm Hok Hfull Heff Hc Hids Hans.
  pose proof (holds_rep _ _ _ _ _ _ HX) as Hrep. pose proof (rd_store _ _ _ _ _ _ Hw) as Hs.
  destruct (decide (md_Version md = max_uint64)) as [Hv|Hv].
  - destruct (Hfull Hv) as (w' & e & ->). by exists e.
  - destruct Hok as (w' & md' & Hrun & _ & Hd & Hp & Hv').
    { pose proof (fr_version _ _ _ _ Hrep). lia. }
    rewrite Hrun. rewrite Hs in Hp. split; [by split; [|exists Nothing]|].
    exists (λ X, vw_write (c X) X). split; [done|]. split.
    + exists epoch, ab, md', cs'. rewrite Hc. eapply holds_published; [done..| |exact Hids].
      apply (rd_good _ _ _ _ _ _ Hw).
    + intros id Hid. destruct (pl_dom _ _ _ _ _ _ Hp id Hid) as [?|[?| ->]%Hids]; [by left| |right].
      * left. by eapply chain_stored; [apply Hrep|].
      * exists (drawn w + 0)%nat. split; [cbn; lia|]. cbn.
        pose proof (run_tape p w) as Ht. rewrite Hrun in Ht. cbn in Ht. by rewrite Ht.
Qed.

(** A revocation under the lock. *)
Lemma revoke_post q X s w ctx name :
  holds_file X s → ready s0 K gr s [] w → (cl_user q, cl_name q) = (u, f) →
  cl_request q = RRevoke name →
  post q X s true (λ _ : unit, Nothing) (revoke_locked u ne name ctx) w.
Proof.
  intros (epoch & ab & md & cs & HX) Hw Hq Hreq. pose proof (rd_store _ _ _ _ _ _ Hw) as Hs.
  pose proof (hd_view _ _ _ _ _ _ HX) as Hx. rewrite <-Hs in Hx.
  destruct (vw_boxes X !! name) as [rev|] eqn:Hrev.
  2:{ erewrite revoke_locked_unshared by done. by eexists. }
  pose proof (ready_fresh _ _ _ _ _ Hw) as Hfr.
  destruct (revoke_locked_run w u vk f (vw_at epoch X) name rev nu ne ab md cs ctx)
    as (w' & Hrun & _ & Hd & Hrv); [done..|]. rewrite Hrun, Hs in *.
  split; [|exists (λ X, vw_revoke (vw_epoch X) name X)].
  { split; [|exists Nothing; by rewrite Hreq]. unfold permitted. rewrite Hreq. by eauto. }
  split; [cbn; by rewrite Hreq|]. split.
  - do 4 eexists. eapply (holds_revoked w); [done..|]. apply (rd_good _ _ _ _ _ _ Hw).
  - pose proof (run_tape (revoke_locked u ne name ctx) w) as Ht. rewrite Hrun in Ht. cbn in Ht.
    intros id Hid. destruct (rv_dom _ _ _ _ _ _ _ _ _ _ _ _ _ _ Hrv id Hid) as [?|Hn]; [by left|right].
    destruct Hn as [->| ->]; [exists (drawn w + 5)%nat|exists (drawn w + 2)%nat];
      (split; [cbn; lia|]; cbn; by rewrite Ht).
Qed.

(** ** The operations, up to their lock and under it *)

Section caller.
Context (v : User) (g : string) (nu' : UUID) (ne' : NamespaceEntry).
Hypothesis caller : caller_ok v g nu' ne'.

Abbreviation wp' q md p := (wp holds_file file_lock s0 K gr (task_of q) md p).

Lemma caller_names X s : holds_file X s → names s v g nu' ne'.
Proof. apply caller. Qed.

(** Under the lock the caller finds the file, or no access box. *)
Lemma caller_box X s w : holds_file X s → ready s0 K gr s [] w →
  (∃ epoch ab md cs, holds X s epoch ab md cs ∧ resolves (store w) v g nu' ne' ab ∧
     file_rep (store w) ab md cs ∧ ((v, g) = (u, f) ∨ (v, g) ∈ vw_members X)) ∨
  (∀ ctx, run local (validateFileAccessUnderLock ctx ne') w =
     (w, Err (EMsg "required datastore object is missing"))).
Proof.
  intros (epoch & ab & md & cs & HX) Hw. rewrite <-(rd_store _ _ _ _ _ _ Hw) in *.
  destruct (co_box _ _ _ _ caller _ _ _ _ _ _ HX) as [[Hr Hm]|Hgone].
  - left. exists epoch, ab, md, cs. split_and!; try done. by eapply holds_rep.
  - right. intros ctx. apply validate_gone; [|done].
    eapply nm_wf, caller_names. by exists epoch, ab, md, cs.
Qed.

(** The lock of the namespace entry, the entry, the lock of the file. *)
Lemma wp_namespace {B} q n ctx m (k : M B) h :
  wp' q (Before n) (bindP k (release (reply_with h))) →
  wp' q (Before n) (bindP (
    nsResource ← lift (namespaceResourceID (Username v) g);
    _ ← acquire ctx nsResource m; k) (release (reply_with h))).
Proof.
  intros Hk. eapply wp_lift; [apply namespaceResourceID_name, (caller_names _ _ start)|].
  apply wp_other; [done|apply reply_fails|done].
Qed.

Lemma wp_entry_lock {B} q n ctx m wr (k : NamespaceEntry → M B) h :
  m = tk_mode (task_of q) → shape wr (k ne') →
  (∀ X s, holds_file X s → ∀ w, ready s0 K gr s [] w → post q X s wr h (k ne') w) →
  wp' q (Before n) (bindP (
    namespaceEntry ← loadNamespaceEntry ctx (Some v) g;
    _ ← acquire ctx (fileResourceID (ne_FileID namespaceEntry)) m;
    k namespaceEntry) (release (reply_with h))).
Proof.
  intros Hm Hsh Hpost. eapply wp_entry; [exact start|apply caller_names|].
  rewrite (co_file _ _ _ _ caller). eapply (wp_file _ _ _ _ _ _ _ _ _ wr (λ _, k ne'));
    [done|apply reply_fails|done..].
Qed.

Lemma load_wp ctx : wp' (mkCall v g ctx RLoad) (Before None) (serve (mkCall v g ctx RLoad)).
Proof.
  eapply (wp_operation _ _ _ _ _ _ _ (reply_with Content)); [by intros []|apply reply_fails|].
  intros n. apply wp_namespace.
  eapply (wp_entry_lock _ _ _ _ false (λ ne, load_locked ctx ne)); [done|apply load_shape|].
  intros X s HX w Hw.
  destruct (caller_box X s w HX Hw) as [(epoch & ab & md & cs & HXs & Hr & Hrep & Hm)|Hgone].
  - erewrite load_locked_run by done. split; [|done]. split; [done|]. eexists. split; [done|].
    cbn. by rewrite <-(vr_content _ _ _ _ _ _ _ _ _ _ (hd_view _ _ _ _ _ _ HXs)).
  - unfold load_locked. rewrite run_bind, Hgone. by eexists.
Qed.

Lemma metadata_wp ctx :
  wp' (mkCall v g ctx RMetadata) (Before None) (serve (mkCall v g ctx RMetadata)).
Proof.
  eapply (wp_operation _ _ _ _ _ _ _ (reply_with (λ m, Snapshot m.1 m.2)));
    [by intros []|apply reply_fails|].
  intros n. apply wp_namespace.
  eapply (wp_entry_lock _ _ _ _ false (λ ne, accessBox ← validateFileAccessUnderLock Fencing.Background ne;
    metadata ← loadMetadata Fencing.Background accessBox;
    mret (md_Version metadata, md_ChunkCount metadata))); [done|apply metadata_shape|].
  intros X s HX w Hw.
  destruct (caller_box X s w HX Hw) as [(epoch & ab & md & cs & HXs & Hr & Hrep & Hm)|Hgone].
  - erewrite run_step by (eapply validate_run; [done|apply Hrep|apply Hrep|done]).
    erewrite run_step by (by eapply loadMetadata_run). split; [|done]. split; [done|].
    eexists. split; [done|]. exists (md_ChunkCount md). cbn.
    by rewrite <-(vr_version _ _ _ _ _ _ _ _ _ _ (hd_view _ _ _ _ _ _ HXs)).
  - rewrite run_bind, Hgone. by eexists.
Qed.

Lemma append_wp ctx x :
  wp' (mkCall v g ctx (RAppend x)) (Before None) (serve (mkCall v g ctx (RAppend x))).
Proof.
  eapply (wp_operation _ _ _ _ _ _ _ (reply_with (λ _ : unit, Nothing)));
    [by intros []|apply reply_fails|].
  intros n. apply wp_namespace.
  assert (slen x = 0%nat ∨ slen x ≠ 0%nat) as [Hx0|Hx0] by lia.
  - eapply (wp_entry_lock _ _ _ _ false (λ ne, append_locked ctx ne x));
      [reflexivity|exact (append_empty_shape ctx ne' x Hx0)|]. intros X s HX w Hw.
    unfold append_locked. erewrite run_step by done.
    destruct (caller_box X s w HX Hw) as [(epoch & ab & md & cs & HXs & Hr & Hrep & Hm)|Hgone].
    + erewrite run_step by (eapply validate_run; [done|apply Hrep|apply Hrep|done]).
      erewrite run_step by (by eapply loadMetadata_run). rewrite decide_True by done.
      split; [by split; [|exists Nothing]|]. cbn. by rewrite decide_True.
    + rewrite run_bind, Hgone. by eexists.
  - eapply (wp_entry_lock _ _ _ _ true (λ ne, append_locked ctx ne x));
      [reflexivity|exact (append_shape ctx ne' x Hx0)|]. intros X s HX w Hw.
    destruct (caller_box X s w HX Hw) as [(epoch & ab & md & cs & HXs & Hr & Hrep & Hm)|Hgone].
    + pose proof (fresh_le _ 6 1 (ready_fresh _ _ _ _ _ Hw) ltac:(lia)) as Hfr.
      eapply (write_post _ X s w _ epoch ab md cs ((drawn_uuid w 0, x) :: cs)
        (λ X, vw_content X +:+ bytes_of x)); try done.
      * intros Hv. by eapply append_locked_run.
      * intros Hv. by eapply append_exhausted.
      * cbn. by rewrite decide_False.
      * rewrite content_of_cons.
        by rewrite <-(vr_content _ _ _ _ _ _ _ _ _ _ (hd_view _ _ _ _ _ _ HXs)).
      * intros id [->|?]%elem_of_cons; [by right|by left].
    + unfold append_locked. erewrite run_step by done. rewrite run_bind, Hgone. by eexists.
Qed.

Lemma store_wp ctx x :
  wp' (mkCall v g ctx (RStore x)) (Before None) (serve (mkCall v g ctx (RStore x))).
Proof.
  eapply (wp_operation _ _ _ _ _ _ _ (reply_with (λ _ : unit, Nothing)));
    [by intros []|apply reply_fails|].
  intros n. apply wp_namespace.
  eapply wp_lift; [apply (nm_name _ _ _ _ _ (caller_names _ _ start))|].
  apply wp_get. intros X1 s1 HX1.
  destruct (nm_entry _ _ _ _ _ (caller_names _ _ HX1)) as (? & ? & _ & [_ _ _ (b & Hb & _)]).
  rewrite Hb, decide_True by eauto.
  eapply (wp_entry_lock _ _ _ _ true (λ ne, overwrite_locked ctx ne x));
    [reflexivity|apply overwrite_shape|]. intros X s HX w Hw.
  destruct (caller_box X s w HX Hw) as [(epoch & ab & md & cs & HXs & Hr & Hrep & Hm)|Hgone].
  - pose proof (fresh_le _ 6 1 (ready_fresh _ _ _ _ _ Hw) ltac:(lia)) as Hfr.
    eapply (write_post _ X s w _ epoch ab md cs [(drawn_uuid w 0, x)] (λ X, bytes_of x)); try done.
    + intros Hv. by eapply overwrite_locked_run.
    + intros Hv. by eapply overwrite_exhausted.
    + intros id ->%list_elem_of_singleton. by right.
  - unfold overwrite_locked. erewrite run_step by done. rewrite run_bind, Hgone. by eexists.
Qed.

Lemma revoke_wp ctx name :
  wp' (mkCall v g ctx (RRevoke name)) (Before None) (serve (mkCall v g ctx (RRevoke name))).
Proof.
  unfold serve. cbn [cl_request cl_user cl_name]. rewrite RevokeAccess_locked.
  eapply (wp_operation _ _ _ _ _ _ _ (reply_with (λ _ : unit, Nothing)));
    [by intros []|apply reply_fails|].
  intros n. apply wp_namespace. eapply wp_entry; [exact start|apply caller_names|].
  destruct (co_owner _ _ _ _ caller) as [[[= Hv Hg] ->]|Hno].
  - destruct start as (epoch & ab & md & cs & HX%holds_owns).
    rewrite (ow_owner _ _ _ _ _ _ _ _ _ HX). change (negb true) with false. rewrite guard_false.
    eapply (wp_file _ _ _ _ _ _ _ _ _ true (λ _, revoke_locked v ne name Fencing.Background));
      [reflexivity|apply reply_fails|apply revoke_shape|].
    intros X s HXs w Hw. rewrite Hv. apply revoke_post; try done. cbn. by rewrite Hg.
  - rewrite Hno. change (negb false) with true.
    change (guard_ true "only the file owner can revoke access")
      with (Ret (Err (EMsg "only the file owner can revoke access")) : M unit).
    apply wp_released, reply_fails.
Qed.

End caller.
End start.

(** Every call behaves as its task says. *)
Lemma serve_wp q :
  holds_file X0 s0 →
  (cl_user q, cl_name q) = (u, f) ∨ (cl_user q, cl_name q) ∈ vw_members X0 →
  wp holds_file file_lock s0 K gr (task_of q) (Before None) (serve q).
Proof.
  intros Hst Hq.
  assert (∃ nu' ne', caller_ok (cl_user q) (cl_name q) nu' ne') as (nu' & ne' & Hf).
  { destruct Hq as [[= -> ->]|Hq]; [exists nu, ne; apply owner_caller|by apply member_caller]. }
  destruct q as [v g ctx [| |x|x|name]]; cbn [cl_user cl_name] in Hf;
    [by eapply load_wp|by eapply metadata_wp|by eapply append_wp|by eapply store_wp
    |by eapply revoke_wp].
Qed.

End file.

(** ** Every interleaving *)

(** The file after the calls [log], one after the other. *)
Definition sequential (calls : gmap nat call) (X : view) (log : list nat) : view :=
  foldl (λ X i, match effect_of ∘ cl_request <$> calls !! i with
    | Some (Some e) => e X
    | _ => X
    end) X log.

(** One goroutine per call. *)
Definition spawned (calls : gmap nat call) : gmap nat (thread (result reply)) :=
  (λ q, mkThread None (Runs (serve q))) <$> calls.

(** Call [i] has not begun. *)
Definition not_begun {L} (calls : gmap nat call) (c : pool L (result reply)) (i : nat) : Prop :=
  ∃ q, calls !! i = Some q ∧ pl_threads c !! i = Some (mkThread None (Runs (serve q))).

(** Call [i] has returned [a]. *)
Definition returned {L} (c : pool L (result reply)) (i : nat) (a : result reply) : Prop :=
  ∃ g, pl_threads c !! i = Some (mkThread g (Runs (Ret a))).

Lemma replay_sequential u f calls X log :
  replay (task_of u f <$> calls) X log = sequential calls X log.
Proof.
  unfold replay, sequential. revert X. induction log as [|i log IH]; intros X; [done|].
  cbn [foldl]. rewrite IH. f_equal. unfold effect. rewrite lookup_fmap.
  destruct (calls !! i); cbn; [|done]. by case_match.
Qed.

(** The draws of the run are new to the store and distinct. *)
Record new_draws (seeds : nat → Seed) (limit : nat) (s : UserlibStore) : Prop := {
  nd_nil n : (n < limit)%nat → uuid_New (seeds n) ≠ uuid_Nil;
  nd_new n : (n < limit)%nat → Datastore s !! uuid_New (seeds n) = None;
  nd_inj m n : (m < limit)%nat → (n < limit)%nat → uuid_New (seeds m) = uuid_New (seeds n) → m = n }.

(** The goroutines are about to start. *)
Record about_to_start {L} `{Locking L} (calls : gmap nat call) (members : list (User * string))
    (c : pool L (result reply)) : Prop := {
  as_locks : lk_inv (pl_locks c);
  as_counter : (pl_counter c ≤ max_uint64)%N;
  as_threads : pl_threads c = spawned calls;
  as_callers i q : calls !! i = Some q → (cl_user q, cl_name q) ∈ members }.

Lemma shared_holds s u vk f X nu ne ab md cs :
  view_rep s u vk f X nu ne ab md cs → holds_file u vk f X nu ne X s.
Proof.
  intros Hx. exists (vw_epoch X), ab, md, cs. split; [|done|by left].
  by destruct X.
Qed.

Lemma spawned_ok {L} `{LockingLaws L} seeds gr calls u vk f X c nu ne ab md cs :
  view_rep (pl_store c) u vk f X nu ne ab md cs → about_to_start calls ((u, f) :: vw_members X) c →
  pool_ok (holds_file u vk f X nu ne) (file_lock ne) (pl_store c) 5 gr seeds
    (task_of u f <$> calls) X [] (λ _, False) c [] ∅.
Proof.
  intros Hx [Hl Hcnt Hth Hcall]. pose proof (shared_holds _ _ _ _ _ _ _ _ _ _ Hx) as Hst.
  split; try done.
  - apply NoDup_nil_2.
  - by intros i ?%elem_of_nil.
  - by left.
  - intros i th. rewrite Hth. unfold spawned. rewrite lookup_fmap_Some. intros (q & <- & Hq).
    exists (task_of u f q), (Before None). rewrite lookup_fmap, Hq. split; [done|].
    split; [split; [apply not_elem_of_nil|done]|]. split; [|by left].
    cbn [th_phase phase_ok]. eapply serve_wp; [done|]. apply elem_of_cons, (Hcall _ _ Hq).
Qed.

Lemma not_begun_unstarted {L} calls (c : pool L (result reply)) i :
  not_begun calls c i → unstarted c i.
Proof.
  intros ([v g ctx []] & _ & Hi); eexists; rewrite Hi; reflexivity.
Qed.

(** What is known of call [i] that returned [a], where [log] took effect and
    the calls that began late found at least [floor]. *)
Definition explained (u : User) (f : string) (X : view) (calls : gmap nat call)
    (floor : list nat) (late : Prop) (log : list nat) (i : nat) (a : result reply) : Prop :=
  ∃ q, calls !! i = Some q ∧
  match a with
  | Err _ => i ∉ log
  | Ok b => ∃ pre, permitted u f (sequential calls X pre) q ∧
      answers (cl_request q) (sequential calls X pre) b ∧ (late → floor `prefix_of` pre) ∧
      match effect_of (cl_request q) with
      | Some _ => (pre ++ [i])%list `prefix_of` log
      | None => pre `prefix_of` log
      end
  end.

Lemma placed_explained u f X calls floor late log i a (P : Prop) :
  (∀ i, i ∈ log → ∃ t, (task_of u f <$> calls) !! i = Some t ∧ is_Some (tk_effect t)) →
  (P → late i) →
  (∃ t, (task_of u f <$> calls) !! i = Some t ∧
     placed (task_of u f <$> calls) X floor late log i t a) →
  explained u f X calls floor P log i a.
Proof.
  intros Hw HP (t & Ht & Hcase). apply lookup_fmap_Some in Ht as (q & <- & Hq).
  exists q. split; [done|]. unfold placed, above in Hcase. setoid_rewrite replay_sequential in Hcase.
  destruct Hcase as [(pre & Hpre & Hab & Hperm & b & -> & Hb)|[Hin [[e ->]|
    (He & pre & Hpre & Hab & Hperm & b & -> & Hb)]]]; [|done|].
  - exists pre. split_and!; try done; [by auto|]. destruct (Hw i) as (t & Ht & [e He]).
    { eapply elem_of_prefix; [|exact Hpre]. apply elem_of_app. right. by left. }
    rewrite lookup_fmap, Hq in Ht. injection Ht as <-. cbn in He. by rewrite He.
  - exists pre. split_and!; try done; [by auto|]. cbn in He. by rewrite He.
Qed.

(** Linearizability, the form the properties below use. *)
Lemma calls_linearize {L} `{LockingLaws L} seeds gr limit calls u vk f X c c1 c2 :
  shared (pl_store c) u vk f X → about_to_start calls ((u, f) :: vw_members X) c →
  new_draws seeds limit (pl_store c) →
  rtc (pool_step seeds gr) c c1 → rtc (pool_step seeds gr) c1 c2 →
  (pl_drawn c2 + 6 ≤ limit)%nat →
  ∃ log1 log2 epoch, log1 `prefix_of` log2 ∧ NoDup log2 ∧
    (∀ i, i ∈ log2 → ∃ q e, calls !! i = Some q ∧ effect_of (cl_request q) = Some e) ∧
    shared (pl_store c2) u vk f (vw_at epoch (sequential calls X log2)) ∧
    (∀ i a, returned c1 i a → explained u f X calls [] False log1 i a) ∧
    (∀ i a, returned c2 i a → explained u f X calls log1 (not_begun calls c1 i) log2 i a).
Proof.
  intros (nu & ne & ab & md & cs & Hx) Hst [Hnil Hnew Hinj] Hs1 Hs2 Hlim.
  pose proof (spawned_ok seeds gr calls u vk f X c nu ne ab md cs Hx Hst) as Hok.
  edestruct (linearizable (L := L) (A := result reply) (holds_file u vk f X nu ne))
    as (log1 & log2 & Hpre & Hnd & HJ & Hw & Hf1 & Hf2);
    [exact _| |exact Hnil|exact Hnew|exact Hinj|exact Hok|exact Hs1|exact Hs2|exact Hlim|].
  { intros i t. rewrite lookup_fmap_Some. intros ([v g ctx []] & <- & _); try done; by intros []. }
  rewrite replay_sequential in HJ. destruct HJ as (epoch & ab' & md' & cs' & HX).
  exists log1, log2, epoch. split; [done|]. split; [done|]. split; [|split; [|split]].
  - intros i Hi. destruct (Hw i Hi) as (t & Ht & [e He]).
    apply lookup_fmap_Some in Ht as (q & <- & Hq). by exists q, e.
  - exists nu, ne, ab', md', cs'. apply HX.
  - intros i a [g Hi]. eapply placed_explained; [|by intros []|by eapply Hf1].
    intros j Hj. apply Hw. by eapply elem_of_prefix.
  - intros i a [g Hi]. eapply placed_explained; [exact Hw| |by eapply Hf2].
    apply not_begun_unstarted.
Qed.

(** C7. Operations on one file linearize: however the goroutines of any number
    of loads, metadata reads, appends, overwrites and revocations of one file
    by its owner and its members are interleaved, step by step, over locks that
    satisfy the laws (the lock manager, or the global mutex), there is an order
    [log2] of the writes and revocations that took effect such that the file is
    exactly what they leave, one after the other. A call that returned an error
    is not in it; one that returned success was permitted at its place and
    answers for the file there. The order respects time: for every moment [c1]
    of the run the calls that took effect by then are a prefix [log1], what had
    returned by [c1] is explained by [log1] alone, and a call that begins later
    comes after all of [log1]. *)
Theorem concurrent_calls_linearize {L} `{LockingLaws L} seeds gr limit calls u vk f X c c1 c2 :
  shared (pl_store c) u vk f X → about_to_start calls ((u, f) :: vw_members X) c →
  new_draws seeds limit (pl_store c) →
  rtc (pool_step seeds gr) c c1 → rtc (pool_step seeds gr) c1 c2 →
  (pl_drawn c2 + 6 ≤ limit)%nat →
  ∃ log1 log2 epoch, log1 `prefix_of` log2 ∧ NoDup log2 ∧
    (∀ i, i ∈ log2 → ∃ q e, calls !! i = Some q ∧ effect_of (cl_request q) = Some e) ∧
    shared (pl_store c2) u vk f (vw_at epoch (sequential calls X log2)) ∧
    (∀ i a, returned c1 i a → explained u f X calls [] False log1 i a) ∧
    (∀ i a, returned c2 i a → explained u f X calls log1 (not_begun calls c1 i) log2 i a).
Proof. apply calls_linearize. Qed.

(** ** Revocation takes hold *)

Lemma sequential_snoc calls X log i :
  sequential calls X (log ++ [i]) =
    match effect_of ∘ cl_request <$> calls !! i with
    | Some (Some e) => e (sequential calls X log)
    | _ => sequential calls X log
    end.
Proof. unfold sequential. by rewrite foldl_app. Qed.

(** Nobody joins, and whoever was revoked is out. *)
Lemma sequential_members calls X log v g :
  (v, g) ∈ vw_members (sequential calls X log) →
  ∀ i q name, i ∈ log → calls !! i = Some q → cl_request q = RRevoke name → Username v ≠ name.
Proof.
  induction log as [|j log IH] using rev_ind; [by intros _ ? ? ? ?%elem_of_nil|].
  rewrite sequential_snoc. intros Hin i q name Hi Hq Hr.
  assert ((v, g) ∈ vw_members (sequential calls X log) ∧ (j = i → Username v ≠ name)) as [Hin' Hj].
  { destruct (decide (j = i)) as [->|Hne].
    - rewrite Hq in Hin. cbn in Hin. rewrite Hr in Hin. cbn in Hin.
      by apply list_elem_of_filter in Hin as [? ?].
    - split; [|done]. revert Hin. destruct (calls !! j) as [[? ? ? []]|]; cbn; try done.
      + by case_decide.
      + by intros [_ ?]%list_elem_of_filter. }
  apply elem_of_app in Hi as [Hi|Hi%list_elem_of_singleton]; [by eapply IH|by apply Hj].
Qed.

(** C8. A revocation is final: once [RevokeAccess] has returned success, every
    load, metadata read, append or overwrite of the revoked user that begins
    afterwards fails, whatever else runs at the same time and however it is
    interleaved. *)
Theorem revocation_is_final {L} `{LockingLaws L} seeds gr limit calls u vk f X c c1 c2
    i qi name j qj b a :
  shared (pl_store c) u vk f X → about_to_start calls ((u, f) :: vw_members X) c →
  new_draws seeds limit (pl_store c) →
  rtc (pool_step seeds gr) c c1 → rtc (pool_step seeds gr) c1 c2 →
  (pl_drawn c2 + 6 ≤ limit)%nat →
  calls !! i = Some qi → cl_request qi = RRevoke name → returned c1 i (Ok b) →
  calls !! j = Some qj → Username (cl_user qj) = name → (cl_user qj, cl_name qj) ≠ (u, f) →
  not_begun calls c1 j → returned c2 j a →
  ∃ e, a = Err e.
Proof.
  intros Hsh Hst Hnew Hs1 Hs2 Hlim Hi Hri Hreti Hj Huser Hnot Hlate Hretj.
  destruct (calls_linearize seeds gr limit calls u vk f X c c1 c2)
    as (log1 & log2 & epoch & _ & _ & _ & _ & Hex1 & Hex2); [done..|].
  destruct (Hex1 _ _ Hreti) as (q & Hq & pre & _ & _ & _ & Hpre).
  rewrite Hi in Hq. injection Hq as <-. rewrite Hri in Hpre. cbn in Hpre.
  assert (i ∈ log1) as Hin.
  { eapply elem_of_prefix; [|exact Hpre]. apply elem_of_app. right. by left. }
  destruct (Hex2 _ _ Hretj) as (q & Hq & Hcase). rewrite Hj in Hq. injection Hq as <-.
  destruct a as [b'|e]; [|by exists e].
  destruct Hcase as (pre' & Hperm & _ & Hfloor & _). specialize (Hfloor Hlate).
  destruct qj as [v g ctx r]. cbn [cl_user cl_name cl_request] in *.
  assert ((v, g) ∈ vw_members (sequential calls X pre')) as Hm.
  { unfold permitted in Hperm. destruct r; naive_solver. }
  exfalso. eapply (sequential_members calls X pre'); [exact Hm| |exact Hi|exact Hri|done].
  by eapply elem_of_prefix.
Qed.

(** ** The version counts the writes *)

Definition mutates (r : request) : bool :=
  match r with
  | RAppend x => bool_decide (slen x ≠ 0%nat)
  | RStore _ => true
  | _ => false
  end.

Definition mutation_at (calls : gmap nat call) (i : nat) : bool :=
  match calls !! i with Some q => mutates (cl_request q) | None => false end.

Lemma sequential_version calls X log :
  vw_version (sequential calls X log) =
    (vw_version X + N.of_nat (length (filter (λ i, mutation_at calls i = true) log)))%N.
Proof.
  induction log as [|i log IH] using rev_ind; [cbn; lia|].
  assert (vw_version (sequential calls X (log ++ [i])) =
    vw_version (sequential calls X log) + if mutation_at calls i then 1 else 0)%N as ->.
  { rewrite sequential_snoc. unfold mutation_at. destruct (calls !! i) as [[? ? ? r]|]; cbn; [|lia].
    destruct r as [| |x|x|name]; cbn; try lia.
    case_decide; [rewrite bool_decide_false by tauto|rewrite bool_decide_true by done]; cbn; lia. }
  rewrite IH, filter_app, length_app, filter_cons, filter_nil.
  destruct (mutation_at calls i); [rewrite decide_True by done|rewrite decide_False by done]; cbn; lia.
Qed.

Definition succeeded {L} (c : pool L (result reply)) (i : nat) : bool :=
  match pl_threads c !! i with Some (mkThread _ (Runs (Ret (Ok _)))) => true | _ => false end.

(** How many appends of something and overwrites returned success. *)
Definition successfulWrites {L} (calls : gmap nat call) (c : pool L (result reply)) : nat :=
  length (filter (λ i, mutation_at calls i = true ∧ succeeded c i = true) (elements (dom calls))).

Lemma succeeded_returned {L} (c : pool L (result reply)) i :
  succeeded c i = true ↔ ∃ b, returned c i (Ok b).
Proof.
  unfold succeeded, returned. split.
  - destruct (pl_threads c !! i) as [[g [[[b|e]|e k]|tok k]]|]; try done. intros _. by exists b, g.
  - by intros (b & g & ->).
Qed.

(** C9. The version is an exact count of the writes: when every call of a
    concurrent run has returned, the version of the file has advanced by exactly
    the number of overwrites and of appends of at least one byte that returned
    success; none of them is lost, and none that failed is counted. An append
    of no bytes succeeds without a new version. *)
Theorem version_counts_writes {L} `{LockingLaws L} seeds gr limit calls u vk f X c c2 :
  shared (pl_store c) u vk f X → about_to_start calls ((u, f) :: vw_members X) c →
  new_draws seeds limit (pl_store c) → rtc (pool_step seeds gr) c c2 →
  (pl_drawn c2 + 6 ≤ limit)%nat →
  (∀ i q, calls !! i = Some q → ∃ a, returned c2 i a) →
  ∃ Y, shared (pl_store c2) u vk f Y ∧
    vw_version Y = (vw_version X + N.of_nat (successfulWrites calls c2))%N.
Proof.
  intros Hsh Hst Hnew Hsteps Hlim Hall.
  destruct (calls_linearize seeds gr limit calls u vk f X c c c2)
    as (log1 & log & epoch & _ & Hnd & Hw & HY & _ & Hex); [done..|apply rtc_refl|done|done|].
  eexists. split; [exact HY|]. cbn [vw_version vw_at]. rewrite sequential_version. do 2 f_equal.
  unfold successfulWrites. apply Permutation_length, NoDup_Permutation.
  { by apply NoDup_filter. }
  { apply NoDup_filter, NoDup_elements. }
  intros i. rewrite !list_elem_of_filter, elem_of_elements, elem_of_dom, succeeded_returned.
  unfold mutation_at. destruct (calls !! i) as [q|] eqn:Hq; [|naive_solver].
  destruct (Hall i q Hq) as [a Ha]. destruct (Hex i a Ha) as (q' & Hq' & Hcase).
  rewrite Hq in Hq'. injection Hq' as <-. split.
  - intros [Hm Hin]. split; [|done]. split; [done|]. destruct a as [b|e]; [by exists b|done].
  - intros [[Hm [b Hb]] _]. split; [done|].
    assert (a = Ok b) as -> by (destruct Ha as [g Ha], Hb as [g' Hb]; congruence).
    destruct Hcase as (pre & _ & _ & _ & Hpre). 
    assert (∃ e, effect_of (cl_request q) = Some e) as [e He].
    { destruct (cl_request q); try done; cbn in *; [|by eexists].
      apply bool_decide_eq_true in Hm. rewrite decide_False by done. by eexists. }
    rewrite He in Hpre. eapply elem_of_prefix; [|exact Hpre]. apply elem_of_app. right. by left.
Qed.

End calls.
