(* ===== verification/ShareRuns.v ===== *)
(** * Concrete runs of sharing

    Alice stores a file, invites Bob, Bob accepts and appends, and Alice
    revokes him, in the toy instance of the libraries. *)

From S2P Require Import Prelude Json JsonThms Libs LockManager LockManagerInv.
From S2P Require Import LockManagerSeq Fencing SaferTypes Effects Client Sharing LocalEnv.
From S2P Require Import FileModel FileThms CreateThms ShareThms RevokeThms ClientRuns.
Import Json JsonThms LM LMSeq Toy.
Open Scope string_scope.

Definition bob : User := mkUser "bob" (Some (RandomBytes 16 9%N)) () ().
Definition bobs_uuid : UUID :=
  match getNameSpaceEntryUUID "bob" "shared" with Ok u => u | Err _ => uuid_Nil end.

(** Both users' keys are registered; the toy hash gives both the same name
    for the verification key. *)
Definition share0 : World :=
  mkWorld (mkStore ∅ (<[getPKEKeyName "bob" := "PKE"]> {[ getVerifyKeyName "alice" := "DS" ]}))
    NewLockManager 0 None N.of_nat 0 ([], false).

Definition share1 : World := (run local (StoreFileContext alice ctx0 "notes" (Some "hi")) share0).1.
Definition share2 : World := (run local (CreateInvitation alice "notes" "bob") share1).1.
Definition share3 : World :=
  (run local (AcceptInvitation (Some bob) "alice" (drawn_uuid share1 0) "shared") share2).1.

Lemma fresh_compute w n :
  bool_decide (NoDup (drawn_uuid w <$> seq 0 n)) = true →
  forallb (λ i, bool_decide (drawn_uuid w i ≠ uuid_Nil) &&
    bool_decide (Datastore (store w) !! drawn_uuid w i = None)) (seq 0 n) = true →
  fresh w n.
Proof.
  intros Hn%bool_decide_eq_true Hf. rewrite List.forallb_forall in Hf.
  split; [done|..]; intros i Hi; specialize (Hf i);
    rewrite andb_true_iff, !bool_decide_eq_true in Hf; apply Hf, List.in_seq; lia.
Qed.

Lemma share1_fresh : fresh share1 2.
Proof. apply fresh_compute; by vm_compute. Qed.

Lemma share2_fresh : fresh share2 6.
Proof. apply fresh_compute; by vm_compute. Qed.

Lemma share3_fresh : fresh share3 6.
Proof. apply fresh_compute; by vm_compute. Qed.

Lemma share0_fresh : fresh share0 14.
Proof. apply fresh_compute; by vm_compute. Qed.

Lemma share1_shared : quiet share1 ∧ Keystore (store share1) = Keystore (store share0) ∧
  ∃ epoch, shared (store share1) alice "DS" "notes" (mkView "hi" 1 epoch ∅ [] []).
Proof.
  destruct (store_creates share0 alice "notes" ctx0 (Some "hi") notes_uuid "DS")
    as (w' & Hr & (ne & ab & md & cs & Hc) & HK & Hs).
  - split; [apply alone_new|done].
  - reflexivity.
  - split; [by vm_compute|by exists 0%N|by vm_compute].
  - vm_compute. reflexivity.
  - vm_compute. discriminate.
  - reflexivity.
  - apply share0_fresh.
  - intros i Hi. do 14 (destruct i as [|i]; [by vm_compute|]). lia.
  - assert (share1 = w') as -> by (unfold share1; by rewrite Hr).
    split; [by apply Hs|]. split; [exact HK|]. exists (ab_EpochID ab).
    refine (created_shared _ _ _ _ _ _ _ _ _ _ _ Hc).
    apply (user_ok_ext (store share0)); [exact HK|]. split; [by vm_compute|by exists 0%N|by vm_compute].
Qed.

Lemma bob_ok s : Keystore s = Keystore (store share0) → recipient_ok s bob "PKE" "DS".
Proof.
  intros HK. split; [by vm_compute|by vm_compute|by exists 0%N| |done|]; rewrite HK; by vm_compute.
Qed.

Lemma CreateInvitation_invites_witness : ∃ epoch w' box nu ne ab md cs,
  run local (CreateInvitation alice "notes" "bob") share1 = (w', Ok (drawn_uuid share1 0)) ∧
  view_rep (store share1) alice "DS" "notes" (mkView "hi" 1 epoch ∅ [] []) nu ne ab md cs ∧
  view_rep (store w') alice "DS" "notes"
    (vw_invite bob (drawn_uuid share1 0) box (mkView "hi" 1 epoch ∅ [] [])) nu ne ab md cs ∧
  Keystore (store w') = Keystore (store share1) ∧
  (∀ id, id ≠ ne_AccessBoxStructureUUID ne → id ≠ bb_BoxUUID box → id ≠ drawn_uuid share1 0 →
     Datastore (store w') !! id = Datastore (store share1) !! id) ∧ settled share1 w'.
Proof.
  destruct share1_shared as (Hq & HK & epoch & Hsh). exists epoch.
  exact (CreateInvitation_invites share1 alice "DS" "notes" (mkView "hi" 1 epoch ∅ [] [])
    bob "PKE" "DS" Hq Hsh (bob_ok _ HK) share1_fresh).
Defined.

Lemma share1_counter : txnIDCounter share1 = 1%N.
Proof. by vm_compute. Qed.

Lemma share2_shared : quiet share2 ∧ ∃ epoch box,
  shared (store share2) alice "DS" "notes"
    (vw_invite bob (drawn_uuid share1 0) box (mkView "hi" 1 epoch ∅ [] [])).
Proof.
  destruct share1_shared as (Hq & HK & epoch & Hsh).
  destruct (create_invites share1 alice "DS" "notes" (mkView "hi" 1 epoch ∅ [] []) bob "PKE" "DS"
    Hq Hsh (bob_ok _ HK) share1_fresh) as (w' & box & Hr & Hsh' & _ & Hs).
  change (Username bob) with "bob" in Hr.
  assert (share2 = w') as -> by (unfold share2; by rewrite Hr).
  split; [apply Hs; by rewrite share1_counter|]. by exists epoch, box.
Qed.

Lemma bob_name : getNameSpaceEntryUUID "bob" "shared" = Ok bobs_uuid ∧ bobs_uuid ≠ uuid_Nil ∧
  Datastore (store share2) !! bobs_uuid = None.
Proof. split; [by vm_compute|]. split; [by vm_compute|by vm_compute]. Qed.

Lemma AcceptInvitation_joins_witness : ∃ epoch box w',
  run local (AcceptInvitation (Some bob) "alice" (drawn_uuid share1 0) "shared") share2
    = (w', Ok ()) ∧
  shared (store w') alice "DS" "notes"
    (vw_accept bob "shared" (drawn_uuid share1 0)
      (vw_invite bob (drawn_uuid share1 0) box (mkView "hi" 1 epoch ∅ [] []))) ∧
  Datastore (store w') !! drawn_uuid share1 0 = None ∧ settled share2 w'.
Proof.
  destruct share2_shared as (Hq & epoch & box & Hsh). exists epoch, box.
  destruct bob_name as (Hn & Hz & Hf).
  apply (AcceptInvitation_joins share2 alice "DS" "notes"
    (vw_invite bob (drawn_uuid share1 0) box (mkView "hi" 1 epoch ∅ [] []))
    bob "shared" (drawn_uuid share1 0) bobs_uuid Hq Hsh); [|by vm_compute|done..].
  by left.
Defined.

Lemma share2_counter : txnIDCounter share2 = 2%N.
Proof. by vm_compute. Qed.

(** Bob is a member, and nothing is waiting. *)
Definition bob_view (epoch : UUID) (box : BranchBoxRecord) : view :=
  mkView "hi" 1 epoch {[ "bob" := box ]} [(bob, "shared")] [].

Lemma share3_shared : quiet share3 ∧
  ∃ epoch box, shared (store share3) alice "DS" "notes" (bob_view epoch box).
Proof.
  destruct share2_shared as (Hq & epoch & box & Hsh). destruct bob_name as (Hn & Hz & Hf).
  destruct (accept_joins share2 alice "DS" "notes"
    (vw_invite bob (drawn_uuid share1 0) box (mkView "hi" 1 epoch ∅ [] []))
    bob "shared" (drawn_uuid share1 0) bobs_uuid Hq Hsh) as (w' & Hr & Hsh' & _ & Hs);
    [by left|by vm_compute|done..|].
  change (Username alice) with "alice" in Hr.
  assert (share3 = w') as -> by (unfold share3; by rewrite Hr).
  split; [apply Hs; by rewrite share2_counter|]. exists epoch, box.
  replace (bob_view epoch box) with (vw_accept bob "shared" (drawn_uuid share1 0)
    (vw_invite bob (drawn_uuid share1 0) box (mkView "hi" 1 epoch ∅ [] []))); [done|].
  unfold vw_accept, vw_invite, bob_view. cbn [vw_content vw_version vw_epoch vw_boxes vw_members vw_pending].
  rewrite filter_cons_False by (cbn; tauto). done.
Qed.

(** Bob appends under his own name; Alice reads it under hers. *)
Lemma writes_are_shared_witness : ∃ epoch box,
  (slen (Some "!") ≠ 0%nat → ∃ w',
     run local (AppendToFileContext bob ctx0 "shared" (Some "!")) share3 = (w', Ok ()) ∧
     shared (store w') alice "DS" "notes" (vw_write "hi!" (bob_view epoch box)) ∧
     settled share3 w') ∧
  (∃ w', run local (StoreFileContext bob ctx0 "shared" (Some "!")) share3 = (w', Ok ()) ∧
     shared (store w') alice "DS" "notes" (vw_write "!" (bob_view epoch box)) ∧
     settled share3 w').
Proof.
  destruct share3_shared as (Hq & epoch & box & Hsh). exists epoch, box.
  apply (writes_are_shared share3 alice "DS" "notes" (bob_view epoch box) bob "shared" ctx0
    (Some "!") Hq); [reflexivity| |reflexivity|exact Hsh|by right; left].
  apply fresh_compute; by vm_compute.
Defined.

(** The epoch the file is in, read back from the store. *)
Definition epoch_at (w : World) : UUID :=
  match (run local (resolveFile ctx0 (Some alice) "notes") w).2 with
  | Ok (_, ab) => ab_EpochID ab
  | Err _ => uuid_Nil
  end.

Lemma share3_epoch : epoch_at share3 ≠ drawn_uuid share3 0.
Proof. by vm_compute. Qed.

(** Alice revokes Bob. *)
Lemma RevokeAccess_revokes_witness : ∃ epoch box w',
  run local (RevokeAccess alice "notes" "bob") share3 = (w', Ok ()) ∧
  shared (store w') alice "DS" "notes"
    (vw_revoke (drawn_uuid share3 0) "bob" (bob_view epoch box)) ∧ settled share3 w' ∧
  ∀ v g w2, (v, g) ∈ vw_members (bob_view epoch box) → Username v = "bob" → quiet w2 →
    restores (store share3) (store w') (store w2) → locked_out v g w2.
Proof.
  destruct share3_shared as (Hq & epoch & box & Hsh). exists epoch, box.
  apply (RevokeAccess_revokes share3 alice "DS" "notes" (bob_view epoch box) "bob" box Hq Hsh);
    [by apply lookup_singleton_Some|exact share3_fresh|].
  destruct (shared_epoch ctx0 share3 _ _ _ _ Hsh) as (ne & ab & Hr & He).
  change (vw_epoch (bob_view epoch box)) with epoch in He |- *. rewrite <-He.
  pose proof share3_epoch as Hne. unfold epoch_at in Hne. rewrite Hr in Hne. exact Hne.
Defined.
