(* ===== verification/ConcurrentRuns.v ===== *)
(** * Concrete interleavings

    Alice and Bob work on their shared file at once, in the toy instance of
    the libraries: over the lock manager, where one of them waits, Alice then
    revokes Bob and Bob tries again; and without any coordination, where an
    append is lost. *)

From S2P Require Import Prelude Json JsonThms Libs LockManager LockManagerInv.
From S2P Require Import LockManagerSeq Fencing SaferTypes Effects Client Sharing LocalEnv Pool.
From S2P Require Import Strategies FileModel FileThms CreateThms ShareThms ConcurrentThms.
From S2P Require Import ClientRuns ShareRuns.
Import Json JsonThms LM LMSeq Toy.
Open Scope string_scope.

(** Alice appends, Bob appends under his own name, Alice reads and revokes
    Bob; Bob reads; Alice asks for the version. *)
Definition both : gmap nat call :=
  {[ 0%nat := mkCall alice "notes" ctx0 (RAppend (Some "+a"));
     1%nat := mkCall bob "shared" ctx0 (RAppend (Some "+b"));
     2%nat := mkCall alice "notes" ctx0 RLoad;
     3%nat := mkCall alice "notes" ctx0 (RRevoke "bob");
     4%nat := mkCall bob "shared" ctx0 RLoad;
     5%nat := mkCall alice "notes" ctx0 RMetadata ]}.

(** The draws go on where the setup stopped. *)
Definition seeds3 (n : nat) : Seed := N.of_nat (n + drawn share3).

Definition start3 {L} (l : L) : pool L (result reply) :=
  mkPool (store share3) l 0 0 (spawned both).

(** Both appends take turns, then they and the load run to their end. *)
Definition turns : list nat :=
  (concat (replicate 40 [0%nat; 1%nat]) ++ replicate 60 2%nat ++ replicate 40 1%nat ++ replicate 40 0%nat)%list.

(** The revocation, and after it the calls that begin last. *)
Definition turns_revoke : list nat := (turns ++ replicate 150 3%nat)%list.
Definition turns_late : list nat := (replicate 60 4%nat ++ replicate 60 5%nat)%list.

Definition mid3 : pool LMState (result reply) :=
  schedule seeds3 ([], false) lm_move turns_revoke (start3 NewLockManager).
Definition end3 : pool LMState (result reply) :=
  schedule seeds3 ([], false) lm_move turns_late mid3.

Definition results {L} (c : pool L (result reply)) (i : nat) : option (result reply) :=
  th ← pl_threads c !! i;
  match th_phase th with Runs (Ret a) => Some a | _ => None end.

Lemma results_returned {L} (c : pool L (result reply)) i a :
  results c i = Some a → returned c i a.
Proof.
  unfold results, returned. destruct (pl_threads c !! i) as [[g [[b|e k]|tok k]]|]; try done.
  cbn. intros [= ->]. by exists g.
Qed.

Lemma both_callers i q : both !! i = Some q →
  (cl_user q, cl_name q) ∈ [(alice, "notes"); (bob, "shared")].
Proof.
  unfold both. rewrite !lookup_insert_Some, lookup_singleton_Some. intros Hq.
  destruct_or! Hq; destruct_and? Hq; subst; cbn; set_solver.
Qed.

Lemma share3_tape : tape share3 = N.of_nat.
Proof.
  unfold share3. etransitivity; [apply run_tape|]. unfold share2. etransitivity; [apply run_tape|].
  unfold share1. etransitivity; [apply run_tape|]. reflexivity.
Qed.

Lemma seq_inj {A} (F : nat → A) k m n :
  NoDup (F <$> seq 0 k) → (m < k)%nat → (n < k)%nat → F m = F n → m = n.
Proof.
  intros Hnd Hm Hn Heq. apply (NoDup_lookup _ m n (F m) Hnd);
    rewrite list_lookup_fmap, lookup_seq_lt by done; [done|]. cbn. by rewrite Heq.
Qed.

Lemma seeds3_new : new_draws seeds3 100 (store share3).
Proof.
  assert (fresh share3 100) as [Hnd Hnil Hnew] by (apply fresh_compute; by vm_compute).
  assert (∀ n, uuid_New (seeds3 n) = drawn_uuid share3 n) as Heq.
  { intros n. unfold seeds3, drawn_uuid. by rewrite share3_tape, Nat.add_comm. }
  split.
  - intros n Hn. rewrite Heq. exact (Hnil n Hn).
  - intros n Hn. rewrite Heq. exact (Hnew n Hn).
  - intros m n Hm Hn. rewrite !Heq. exact (seq_inj _ _ m n Hnd Hm Hn).
Qed.

Lemma start3_ready members : members = [(bob, "shared")] →
  about_to_start both ((alice, "notes") :: members) (start3 NewLockManager).
Proof. intros ->. split; [apply rtc_refl|done|reflexivity|apply both_callers]. Qed.

Lemma mid3_steps : rtc (pool_step seeds3 ([], false)) (start3 NewLockManager) mid3.
Proof. apply schedule_steps, lm_move_step. Qed.

Lemma end3_steps : rtc (pool_step seeds3 ([], false)) mid3 end3.
Proof. apply schedule_steps, lm_move_step. Qed.

Lemma end3_drawn : (pl_drawn end3 + 6 ≤ 100)%nat.
Proof. apply (bool_decide_unpack _). vm_compute. exact I. Qed.

(** Over the lock manager the two appends interleave, Bob waits for Alice's
    lock, and both are in the file; after the revocation Bob reads nothing. *)
Example end3_results : (results end3 <$> [0; 1; 2; 3; 4; 5])%nat =
  [Some (Ok Nothing); Some (Ok Nothing); Some (Ok (Content (Some "hi+a+b")));
   Some (Ok Nothing); Some (Err (EMsg "required datastore object is missing"));
   Some (Ok (Snapshot 3 1))].
Proof. vm_compute. reflexivity. Qed.

Lemma end3_finished i : (i < 6)%nat → is_Some (results end3 i).
Proof.
  intros Hi. assert (forallb (λ i, bool_decide (results end3 i ≠ None)) (seq 0 6) = true) as Hall
    by (vm_compute; reflexivity).
  rewrite forallb_forall in Hall. specialize (Hall i). rewrite bool_decide_eq_true in Hall.
  apply not_eq_None_Some, Hall. apply in_seq. lia.
Qed.

Lemma concurrent_calls_linearize_witness : ∃ epoch box log1 log2 epoch',
  log1 `prefix_of` log2 ∧ NoDup log2 ∧
  (∀ i, i ∈ log2 → ∃ q e, both !! i = Some q ∧ effect_of (cl_request q) = Some e) ∧
  shared (pl_store end3) alice "DS" "notes" (vw_at epoch' (sequential both (bob_view epoch box) log2)) ∧
  (∀ i a, returned mid3 i a → explained alice "notes" (bob_view epoch box) both [] False log1 i a) ∧
  (∀ i a, returned end3 i a → explained alice "notes" (bob_view epoch box) both log1
     (not_begun both mid3 i) log2 i a).
Proof.
  destruct share3_shared as (_ & epoch & box & Hsh). exists epoch, box.
  apply (concurrent_calls_linearize seeds3 ([], false) 100 both alice "DS" "notes"
    (bob_view epoch box) (start3 NewLockManager) mid3 end3).
  - exact Hsh.
  - apply start3_ready. reflexivity.
  - exact seeds3_new.
  - exact mid3_steps.
  - exact end3_steps.
  - exact end3_drawn.
Defined.

(** Bob's call is the one that begins after the revocation returned. *)
Lemma revocation_is_final_witness :
  results mid3 3 = Some (Ok Nothing) ∧ not_begun both mid3 4 ∧
  ∃ e, Err (EMsg "required datastore object is missing") = Err (A := reply) e.
Proof.
  assert (results mid3 3 = Some (Ok Nothing)) as Hr by (vm_compute; reflexivity).
  assert (not_begun both mid3 4) as Hn.
  { exists (mkCall bob "shared" ctx0 RLoad). split; [reflexivity|]. unfold mid3.
    rewrite schedule_other; [reflexivity|apply lm_move_step|].
    apply (bool_decide_unpack _). vm_compute. exact I. }
  split; [exact Hr|]. split; [exact Hn|]. destruct share3_shared as (_ & epoch & box & Hsh).
  apply (revocation_is_final seeds3 ([], false) 100 both alice "DS" "notes"
    (bob_view epoch box) (start3 NewLockManager) mid3 end3 3
    (mkCall alice "notes" ctx0 (RRevoke "bob")) "bob" 4 (mkCall bob "shared" ctx0 RLoad) Nothing).
  - exact Hsh.
  - apply start3_ready. reflexivity.
  - exact seeds3_new.
  - exact mid3_steps.
  - exact end3_steps.
  - exact end3_drawn.
  - reflexivity.
  - reflexivity.
  - apply results_returned. exact Hr.
  - reflexivity.
  - reflexivity.
  - discriminate.
  - exact Hn.
  - apply results_returned. vm_compute. reflexivity.
Defined.

Lemma version_counts_writes_witness : ∃ epoch box Y,
  shared (pl_store end3) alice "DS" "notes" Y ∧
  vw_version Y = (vw_version (bob_view epoch box) + N.of_nat (successfulWrites both end3))%N.
Proof.
  destruct share3_shared as (_ & epoch & box & Hsh). exists epoch, box.
  apply (version_counts_writes seeds3 ([], false) 100 both alice "DS" "notes"
    (bob_view epoch box) (start3 NewLockManager) end3).
  - exact Hsh.
  - apply start3_ready. reflexivity.
  - exact seeds3_new.
  - etrans; [exact mid3_steps|exact end3_steps].
  - exact end3_drawn.
  - intros i q Hq.
    assert (is_Some (results end3 i)) as [a Ha].
    { apply end3_finished. unfold both in Hq.
      rewrite !lookup_insert_Some, lookup_singleton_Some in Hq.
      destruct_or! Hq; destruct_and? Hq; subst; lia. }
    exists a. by apply results_returned.
Defined.

(** The strategy without coordination loses updates: there is an
    interleaving of two appends in which both return success and only one of
    them is in the file, while the same schedule over the lock manager keeps
    both. *)
Theorem NoCC_loses_an_append : ∃ c' : pool unit (result reply),
  rtc (pool_step (Locking0 := NoCC) seeds3 ([], false)) (start3 ()) c' ∧
  results c' 0 = Some (Ok Nothing) ∧ results c' 1 = Some (Ok Nothing) ∧
  (run local (LoadFileContext alice ctx0 "notes") (world_of seeds3 ([], false) c')).2
    = Ok (Some "hi+b") ∧
  (run local (LoadFileContext alice ctx0 "notes") (world_of seeds3 ([], false) mid3)).2
    = Ok (Some "hi+a+b").
Proof.
  exists (schedule seeds3 ([], false) no_move turns (start3 ())). split; [|by vm_compute].
  apply (schedule_steps (Locking0 := NoCC)). intros a [] [] st [= <-]. constructor.
Qed.
