(* ===== verification/FenceStore.v ===== *)
(** * The fence store

    The interface the coordinator depends on ([FenceStore] of
    src/client/coordination/grpccoord/server.go), what it relies on as laws,
    and what follows from them. The MongoDB implementation is in MongoFence. *)

From S2P Require Import Prelude Json JsonThms LockManager Fencing.
Open Scope string_scope.
Open Scope N_scope.

(** ** The interface *)

(** A fence document: the token and the owning transaction, if any. *)
Definition fence : Type := N * option string.

Definition max_int64 : N := 9223372036854775807.

Class FenceStore (F : Type) := {
  fence_of : F → string → option fence;
  Allocate : string → string → F → F * result N;
  Invalidate : string → string → F → F * result unit }.

Definition token_of {F} `{FenceStore F} (f : F) (resource : string) : N :=
  from_option fst 0 (fence_of f resource).

(** [owner] is recorded as the owner of [resource]'s fence. *)
Definition owns {F} `{FenceStore F} (f : F) (resource owner : string) : Prop :=
  ∃ t, fence_of f resource = Some (t, Some owner).

(** What the coordinator relies on. A failed call may have been applied. *)
Class FenceLaws (F : Type) `{FenceStore F} : Prop := {
  Allocate_Ok r o f f' t : Allocate r o f = (f', Ok t) →
    t = token_of f r + 1 ∧ fence_of f' r = Some (t, Some o);
  Allocate_Err r o f f' e : Allocate r o f = (f', Err e) →
    fence_of f' r = fence_of f r ∨ fence_of f' r = Some (token_of f r + 1, Some o);
  Allocate_frame r o f r' : r' ≠ r → fence_of (Allocate r o f).1 r' = fence_of f r';
  Invalidate_Ok r o f f' u : Invalidate r o f = (f', Ok u) →
    fence_of f' r =
      match fence_of f r with
      | Some (t, Some o') => Some (t, if decide (o' = o) then None else Some o')
      | d => d
      end;
  Invalidate_Err r o f f' e : Invalidate r o f = (f', Err e) →
    fence_of f' r = fence_of f r ∨
    ∃ t, fence_of f r = Some (t, Some o) ∧ fence_of f' r = Some (t, None);
  Invalidate_frame r o f r' : r' ≠ r → fence_of (Invalidate r o f).1 r' = fence_of f r' }.

Section laws.
Context {F : Type} `{FenceLaws F}.

(** An operation of the store. *)
Inductive fence_step (f : F) : F → Prop :=
  | do_allocate r o : fence_step f (Allocate r o f).1
  | do_invalidate r o : fence_step f (Invalidate r o f).1.

Lemma fence_step_token f f' r : fence_step f f' → token_of f r ≤ token_of f' r.
Proof.
  intros Hs. unfold token_of. destruct Hs as [r' o|r' o]; destruct (decide (r = r')) as [->|Hne].
  - destruct (Allocate r' o f) as [f1 [t|e]] eqn:E; cbn.
    + apply Allocate_Ok in E as [-> ->]. unfold token_of. cbn. lia.
    + apply Allocate_Err in E as [-> | ->]; unfold token_of; cbn; lia.
  - rewrite Allocate_frame by done. done.
  - destruct (Invalidate r' o f) as [f1 [[]|e]] eqn:E; cbn.
    + apply Invalidate_Ok in E as ->. by destruct (fence_of f r') as [[t [o'|]]|]; cbn.
    + apply Invalidate_Err in E as [-> | (t & -> & ->)]; done.
  - rewrite Invalidate_frame by done. done.
Qed.

Lemma token_rtc f f' r : rtc fence_step f f' → token_of f r ≤ token_of f' r.
Proof.
  induction 1 as [|f1 f2 f3 Hs _ IH]; [done|].
  etrans; [by apply fence_step_token|done].
Qed.

(** Tokens only move forward: no sequence of store operations, failed ones
    included, ever lowers a resource's token. *)
Theorem token_monotone f f' r : rtc fence_step f f' → token_of f r ≤ token_of f' r.
Proof. apply token_rtc. Qed.

(** The document a grant must match at commit time: its exact token and its
    owner. *)
Definition current (f : F) (g : Fencing.Grant) : Prop :=
  fence_of f (Fencing.Resource g) = Some (Fencing.grant_Token g, Some (Fencing.OwnerTxn g)).

(** Once a grant is not current it never is again, unless its own transaction
    is given the very same token: tokens do not repeat. *)
Lemma stale_step f f' g :
  fence_step f f' → ¬ current f g → Fencing.grant_Token g ≤ token_of f (Fencing.Resource g) →
  ¬ current f' g ∧ Fencing.grant_Token g ≤ token_of f' (Fencing.Resource g).
Proof.
  intros Hs Hn Hle. split; [|by etrans; [exact Hle|apply fence_step_token]].
  unfold current, token_of in *. destruct Hs as [r o|r o];
    destruct (decide (Fencing.Resource g = r)) as [<-|Hne].
  - destruct (Allocate _ o f) as [f1 [t|e]] eqn:E; cbn.
    + apply Allocate_Ok in E as [-> ->]. intros [= He _]. unfold token_of in He. lia.
    + apply Allocate_Err in E as [-> | ->]; [done|]. intros [= He _]. unfold token_of in He. lia.
  - by rewrite Allocate_frame.
  - destruct (Invalidate _ o f) as [f1 [[]|e]] eqn:E; cbn.
    + apply Invalidate_Ok in E as ->. destruct (fence_of f _) as [[t [o'|]]|]; [|done..].
      case_decide; [done|]. done.
    + apply Invalidate_Err in E as [-> | (t & _ & ->)]; done.
  - by rewrite Invalidate_frame.
Qed.

Lemma stale_rtc f f' g :
  rtc fence_step f f' → ¬ current f g → Fencing.grant_Token g ≤ token_of f (Fencing.Resource g) →
  ¬ current f' g.
Proof.
  intros Hr Hn Hle. cut (¬ current f' g ∧ Fencing.grant_Token g ≤ token_of f' (Fencing.Resource g));
    [naive_solver|]. revert Hn Hle.
  induction Hr as [|f1 f2 f3 Hs _ IH]; intros Hn Hle; [done|].
  destruct (stale_step f1 f2 g Hs Hn Hle). by apply IH.
Qed.

(** A successful [Invalidate] leaves the owner without the fence. *)
Lemma invalidate_kills f f' r o u : Invalidate r o f = (f', Ok u) → ¬ owns f' r o.
Proof.
  intros E. apply Invalidate_Ok in E. intros [t Ho]. rewrite E in Ho.
  destruct (fence_of f r) as [[t' [o'|]]|]; [|done..]. case_decide; naive_solver.
Qed.

(** An owner that does not have the fence is not given it by [Invalidate]. *)
Lemma invalidate_not_owns f r o r' o' :
  ¬ owns f r' o' → ¬ owns (Invalidate r o f).1 r' o'.
Proof.
  intros Hn [t Ho]. apply Hn. destruct (decide (r' = r)) as [->|Hne].
  - destruct (Invalidate r o f) as [f' [u|e]] eqn:E; cbn in Ho.
    + apply Invalidate_Ok in E. rewrite E in Ho.
      destruct (fence_of f r) as [[t1 [o1|]]|] eqn:Ef; [|done..].
      case_decide; simplify_eq. by exists t.
    + apply Invalidate_Err in E as [E|(t1 & _ & E)]; rewrite E in Ho; [by exists t|done].
  - rewrite Invalidate_frame in Ho by done. by exists t.
Qed.

(** [Invalidate] leaves other owners' fences alone. *)
Lemma invalidate_other f r o r' o' t :
  o' ≠ o → fence_of f r' = Some (t, Some o') → fence_of (Invalidate r o f).1 r' = Some (t, Some o').
Proof.
  intros Hne Hf. destruct (decide (r' = r)) as [->|Hr].
  - destruct (Invalidate r o f) as [f' [u|e]] eqn:E; cbn.
    + apply Invalidate_Ok in E. rewrite E, Hf. by rewrite decide_False.
    + apply Invalidate_Err in E as [E|(t1 & E1 & _)]; [by rewrite E|].
      rewrite Hf in E1. naive_solver.
  - by rewrite Invalidate_frame.
Qed.

Lemma current_owns f g : current f g → owns f (Fencing.Resource g) (Fencing.OwnerTxn g).
Proof. intros Hc. by eexists. Qed.

(** A grant that has gone stale stays stale: after its fence was
    invalidated or its token advanced, no later sequence of store operations
    makes it current again. *)
Theorem stale_forever f f' g :
  rtc fence_step f f' → ¬ current f g → Fencing.grant_Token g ≤ token_of f (Fencing.Resource g) →
  ¬ current f' g.
Proof. apply stale_rtc. Qed.

(** Allocating to a new owner fences the previous one off: the old grant is
    not current after a successful [Allocate] of its resource, and the new
    token is larger. *)
Theorem allocate_fences_off f f' g o t :
  current f g → Allocate (Fencing.Resource g) o f = (f', Ok t) →
  Fencing.grant_Token g < t ∧ ¬ current f' g.
Proof.
  intros Hc Ha. apply Allocate_Ok in Ha as [-> Hf']. unfold current, token_of in *.
  rewrite Hc in *. cbn in *. split; [lia|]. rewrite Hf'. intros [= Ht _]. lia.
Qed.

End laws.

(** ** A concrete store

    Documents in a map, and a schedule that says which calls fail, for
    evaluating the coordinator. *)
Module MapFences.

Record db := mkDb { faults : list bool; docs : gmap string (positive * option string) }.

Definition next_fault (d : db) : bool := default false (head (faults d)).

Definition inc (p : option (positive * option string)) : positive :=
  match p with Some (t, _) => Pos.succ t | None => 1%positive end.

#[export] Instance map_fences : FenceStore db := {|
  fence_of d r := (λ p : positive * option string, (N.pos p.1, p.2)) <$> docs d !! r;
  Allocate r o d :=
    if next_fault d then (mkDb (tail (faults d)) (docs d), Err (EMsg "unavailable"))
    else (mkDb (tail (faults d)) (<[r := (inc (docs d !! r), Some o)]> (docs d)),
          Ok (N.pos (inc (docs d !! r))));
  Invalidate r o d :=
    if next_fault d then (mkDb (tail (faults d)) (docs d), Err (EMsg "unavailable"))
    else (mkDb (tail (faults d))
            (match docs d !! r with
             | Some (t, Some o') =>
                 <[r := (t, if decide (o' = o) then None else Some o')]> (docs d)
             | _ => docs d
             end), Ok ()) |}.

#[export] Instance map_laws : FenceLaws db.
Proof.
  split; cbn; unfold token_of; cbn.
  - intros r o d d' t. case_match; [done|]. intros [= <- <-]. cbn.
    rewrite lookup_insert_eq. destruct (docs d !! r) as [[t o']|]; cbn; split; try done. lia.
  - intros r o d d' e. case_match; [|done]. intros [= <- _]. by left.
  - intros r o d r' Hne. case_match; [done|]. cbn. by rewrite lookup_insert_ne.
  - intros r o d d' []. case_match; [done|]. intros [= <-]. cbn.
    destruct (docs d !! r) as [[t [o'|]]|] eqn:E; cbn; [by rewrite lookup_insert_eq|by rewrite E..].
  - intros r o d d' e. case_match; [|done]. intros [= <- _]. by left.
  - intros r o d r' Hne. case_match; [done|]. cbn.
    destruct (docs d !! r) as [[t [o'|]]|]; [by rewrite lookup_insert_ne|done..].
Qed.

Definition empty : db := mkDb [] ∅.
Definition g1 : Fencing.Grant := Fencing.mkGrant "1:f" 1 "t1".
(** Transaction t1 owns the fence of the file f. *)
Definition owned : db := (Allocate "1:f" "t1" empty).1.
(** Then t2 does. *)
Definition taken : db := (Allocate "1:f" "t2" owned).1.

End MapFences.

Import MapFences.

Lemma token_monotone_witness :
  rtc fence_step owned taken ∧ token_of owned "1:f" ≤ token_of taken "1:f".
Proof.
  assert (rtc fence_step owned taken) as Hs.
  { apply rtc_once. change taken with (Allocate "1:f" "t2" owned).1. constructor. }
  split; [exact Hs|]. apply token_monotone. exact Hs.
Defined.

Lemma stale_forever_witness : ¬ current taken g1 ∧ ¬ current (Invalidate "1:f" "t2" taken).1 g1.
Proof.
  assert (¬ current taken g1) as Hn by (vm_compute; intros [=]). split; [exact Hn|].
  apply (stale_forever taken).
  - apply rtc_once. constructor.
  - exact Hn.
  - vm_compute. discriminate.
Defined.

Lemma allocate_fences_off_witness : 1 < 2 ∧ ¬ current taken g1.
Proof. apply (allocate_fences_off owned taken g1 "t2" 2); reflexivity. Defined.
