(* ===== verification/MongoFence.v ===== *)
(** * The MongoDB fence store (src/client/fencing/mongofence/store.go)

    [Allocate], [Invalidate], [InvalidateAll] and [Current] with the filters,
    update documents and options the code builds, over a collection of BSON
    documents. MongoDB and its driver are a parameter ([Collection]); what a
    statement does to the document its filter selects by [_id] is written out
    from the documented meaning of equality filters, [$inc], [$set], upsert and
    [ReturnDocument(After)], and the laws say that a statement that succeeds
    did that, that one that fails did that or nothing, and that no statement
    touches another document. The contract the coordinator relies on is a
    theorem about the code. *)

From S2P Require Import Prelude Json JsonThms LockManager Fencing FenceStore.
Open Scope string_scope.

(** ** Documents *)

Inductive bson :=
  | BNull
  | BString (s : string)
  | BInt64 (z : Z)
  | BDate (t : Z).

#[export] Instance bson_eq_dec : EqDecision bson.
Proof. solve_decision. Defined.

Abbreviation document := (gmap string bson) (only parsing).

(** [bson.M{field: value, ...}] as a filter: every field equals its value; a
    missing field equals null. *)
Definition matches (filter : list (string * bson)) (doc : document) : bool :=
  forallb (λ fv, bool_decide (default BNull (doc !! fv.1) = fv.2)) filter.

(** [bson.M{"$inc": ..., "$set": ...}] *)
Record update := mkUpdate { inc_ : list (string * Z); set_ : list (string * bson) }.

Definition int64_ok (z : Z) : bool :=
  bool_decide (-9223372036854775808 ≤ z)%Z && bool_decide (z ≤ Z.of_N max_int64)%Z.

(** [$inc] counts from 0 where the field is missing; it refuses a field that is
    not a number and a sum that is not an int64. *)
Definition apply_inc (fz : string * Z) (doc : document) : option document :=
  match doc !! fz.1 with
  | None => Some (<[fz.1 := BInt64 fz.2]> doc)
  | Some (BInt64 n) =>
      if int64_ok (n + fz.2) then Some (<[fz.1 := BInt64 (n + fz.2)]> doc) else None
  | Some _ => None
  end.

Definition apply_set (fv : string * bson) (doc : document) : document := <[fv.1 := fv.2]> doc.

(** The [_id] of a document is immutable. *)
Definition apply_update (u : update) (doc : document) : option document :=
  if decide ("_id" ∈ ((inc_ u).*1 ++ (set_ u).*1)%list) then None else
  doc ← foldr (λ fz od, od ≫= apply_inc fz) (Some doc) (inc_ u);
  Some (foldr apply_set doc (set_ u)).

(** What a statement with the filter [filter] and the update [u] makes of the
    document with the filter's [_id]; [None] when the server refuses it. An
    upsert inserts the fields of the filter, then updates them; where the
    [_id] is taken by a document that does not match, it is a duplicate. *)
Definition outcome (filter : list (string * bson)) (u : update) (upsert : bool)
    (found : option document) : option (option document) :=
  match found with
  | Some doc =>
      if matches filter doc then Some <$> apply_update u doc
      else if upsert then None else Some (Some doc)
  | None =>
      if upsert then Some <$> apply_update u (list_to_map filter) else Some None
  end.

(** ** The collection *)

Class Collection (db : Type) := {
  doc_of : db → string → option document;
  FindOneAndUpdate (filter : list (string * bson)) (u : update) (upsert after : bool)
    : db → db * result (option document);
  UpdateOne (filter : list (string * bson)) (u : update) : db → db * result nat;
  FindOne (filter : list (string * bson)) : db → result (option document) }.

(** Filters that fix the [_id]. *)
Class CollectionLaws (db : Type) `{Collection db} : Prop := {
  doc_id (d : db) id doc : doc_of d id = Some doc → doc !! "_id" = Some (BString id);
  FindOneAndUpdate_Ok id f u upsert (d d' : db) r :
    let filter := ("_id", BString id) :: f in
    FindOneAndUpdate filter u upsert true d = (d', Ok r) →
    outcome filter u upsert (doc_of d id) = Some (doc_of d' id) ∧
    (upsert = true → r = doc_of d' id);
  FindOneAndUpdate_Err id f u upsert after (d d' : db) e :
    let filter := ("_id", BString id) :: f in
    FindOneAndUpdate filter u upsert after d = (d', Err e) →
    doc_of d' id = doc_of d id ∨ outcome filter u upsert (doc_of d id) = Some (doc_of d' id);
  FindOneAndUpdate_other id f u upsert after (d : db) id' : id' ≠ id →
    doc_of (FindOneAndUpdate (("_id", BString id) :: f) u upsert after d).1 id' = doc_of d id';
  UpdateOne_Ok id f u (d d' : db) n :
    let filter := ("_id", BString id) :: f in
    UpdateOne filter u d = (d', Ok n) → outcome filter u false (doc_of d id) = Some (doc_of d' id);
  UpdateOne_Err id f u (d d' : db) e :
    let filter := ("_id", BString id) :: f in
    UpdateOne filter u d = (d', Err e) →
    doc_of d' id = doc_of d id ∨ outcome filter u false (doc_of d id) = Some (doc_of d' id);
  UpdateOne_other id f u (d : db) id' : id' ≠ id →
    doc_of (UpdateOne (("_id", BString id) :: f) u d).1 id' = doc_of d id' }.

Section mongofence.
(** [Now] is the clock. *)
Context {db : Type} `{Collection db} (Now : db → Z).

(** ** The code *)

Definition FieldToken : string := "token".
Definition FieldOwnerTxn : string := "owner_txn".
Definition FieldUpdatedAt : string := "updated_at".

Definition errNoDocuments : error := EMsg "mongo: no documents in result".

(** [Decode] of an [int64] field: a missing one is left at 0. *)
Definition decodeToken (doc : document) : result Z :=
  match doc !! FieldToken with
  | Some (BInt64 z) => Ok z
  | None => Ok 0%Z
  | Some _ => Err (EMsg "error decoding key token")
  end.

(** [Decode] of a [*string] field; [None] is nil. *)
Definition decodeOwner (doc : document) : result (option string) :=
  match doc !! FieldOwnerTxn with
  | Some (BString s) => Ok (Some s)
  | Some BNull | None => Ok None
  | Some _ => Err (EMsg "error decoding key owner_txn")
  end.

Definition MongoAllocate (resource ownerTxn : string) (d : db) : db * result N :=
  let '(d', r) := FindOneAndUpdate
    [("_id", BString resource)]
    (mkUpdate [(FieldToken, 1%Z)] [(FieldOwnerTxn, BString ownerTxn); (FieldUpdatedAt, BDate (Now d))])
    true true d in
  (d', match (found ← r; doc ← match found with Some doc => Ok doc | None => Err errNoDocuments end;
              decodeToken doc) with
       | Err e => Err (EWrap ("mongofence: allocating a token for " +:+ resource) e)
       | Ok token =>
           if decide (token ≤ 0)%Z
           then Err (EMsg ("mongofence: allocated a non-positive token " +:+ pretty token
                           +:+ " for " +:+ resource))
           else Ok (Z.to_N token)
       end).

Definition MongoInvalidate (resource ownerTxn : string) (d : db) : db * result unit :=
  let '(d', r) := UpdateOne
    [("_id", BString resource); (FieldOwnerTxn, BString ownerTxn)]
    (mkUpdate [] [(FieldOwnerTxn, BNull); (FieldUpdatedAt, BDate (Now d))]) d in
  (d', match r with
       | Err e => Err (EWrap ("mongofence: invalidating the fence for " +:+ resource) e)
       | Ok _ => Ok ()
       end).

(** Stops at the first failure. *)
Fixpoint InvalidateAll (grants : list Fencing.Grant) (d : db) : db * result unit :=
  match grants with
  | [] => (d, Ok ())
  | g :: grants =>
      let '(d, r) := MongoInvalidate (Fencing.Resource g) (Fencing.OwnerTxn g) d in
      match r with Err e => (d, Err e) | Ok _ => InvalidateAll grants d end
  end.

(** Token, owner and whether there is a document; the conversion of an [int64]
    to [uint64] wraps. *)
Definition Current (resource : string) (d : db) : result (N * string * bool) :=
  match FindOne [("_id", BString resource)] d with
  | Ok None => Ok (0%N, "", false)
  | Ok (Some doc) =>
      match (token ← decodeToken doc; owner ← decodeOwner doc; Ok (token, owner)) with
      | Ok (token, owner) => Ok (Z.to_N (token `mod` 18446744073709551616), default "" owner, true)
      | Err e => Err (EWrap ("mongofence: reading the fence for " +:+ resource) e)
      end
  | Err e => Err (EWrap ("mongofence: reading the fence for " +:+ resource) e)
  end.

(** ** The contract *)

(** The documents the store itself makes: a positive token, and an owner that
    is a string or null. *)
Definition fence_ok (doc : document) : Prop :=
  ∃ t, doc !! FieldToken = Some (BInt64 t) ∧ (0 < t)%Z ∧
    (doc !! FieldOwnerTxn = Some BNull ∨ ∃ o, doc !! FieldOwnerTxn = Some (BString o)).

Definition well_formed (d : db) : Prop := ∀ r doc, doc_of d r = Some doc → fence_ok doc.

(** What a fence document says. *)
Definition fence_in (doc : document) : fence :=
  (match doc !! FieldToken with Some (BInt64 t) => Z.to_N t | _ => 0%N end,
   match doc !! FieldOwnerTxn with Some (BString o) => Some o | _ => None end).

Definition fences_of (d : db) (r : string) : option fence := fence_in <$> doc_of d r.

Definition counter (d : db) (r : string) : N := from_option fst 0%N (fences_of d r).

Context `{!CollectionLaws db}.

(** The upserting increment, on what is there. *)
Lemma allocate_outcome (d : db) r o u found :
  well_formed d →
  u = mkUpdate [(FieldToken, 1%Z)] [(FieldOwnerTxn, BString o); (FieldUpdatedAt, BDate (Now d))] →
  outcome [("_id", BString r)] u true (doc_of d r) = Some found →
  ∃ doc, found = Some doc ∧ fence_ok doc ∧
    doc !! FieldToken = Some (BInt64 (Z.of_N (counter d r + 1))) ∧
    fence_in doc = ((counter d r + 1)%N, Some o).
Proof.
  intros Hw -> Ho. unfold counter, fences_of.
  assert (∀ (base : document) t, base !! FieldToken = Some (BInt64 t) ∨ base !! FieldToken = None ∧ t = 0%Z →
    (0 ≤ t)%Z → ∀ found', Some <$> apply_update (mkUpdate [(FieldToken, 1%Z)]
      [(FieldOwnerTxn, BString o); (FieldUpdatedAt, BDate (Now d))]) base = Some found' →
    ∃ doc, found' = Some doc ∧ doc !! FieldToken = Some (BInt64 (t + 1)) ∧
      doc !! FieldOwnerTxn = Some (BString o)) as Happly.
  { intros base t Hb Ht found'. unfold apply_update, apply_inc. rewrite decide_False by (cbn; set_solver). cbn.
    destruct Hb as [->|[-> ->]]; [destruct (int64_ok (t + 1)); [|done]|]; cbn; intros [= <-];
      eexists; (split; [done|]); unfold apply_set; cbn; by simplify_map_eq. }
  destruct (doc_of d r) as [doc|] eqn:Ed; cbn [outcome] in Ho.
  - assert (matches [("_id", BString r)] doc = true) as Hmatch
      by (unfold matches; cbn; rewrite (doc_id _ _ _ Ed); cbn; by rewrite bool_decide_true).
    rewrite Hmatch in Ho. destruct (Hw _ _ Ed) as (t & Ht & Hpos & _).
    destruct (Happly doc t (or_introl Ht) ltac:(lia) _ Ho) as (doc' & -> & Ht' & Ho').
    assert (from_option fst 0%N (fence_in <$> Some doc) = Z.to_N t) as ->
      by (cbn; unfold fence_in; by rewrite Ht).
    replace (Z.of_N (Z.to_N t + 1)) with (t + 1)%Z by lia.
    exists doc'. split; [done|]. split; [exists (t + 1)%Z; split; [done|]; split; [lia|by right; exists o]|].
    split; [done|]. unfold fence_in. rewrite Ht', Ho'. f_equal. lia.
  - destruct (Happly (list_to_map [("_id", BString r)]) 0%Z) with (found' := found) as (doc' & -> & Ht' & Ho');
      [by right|done|exact Ho|].
    exists doc'. split; [done|]. split; [exists 1%Z; split; [done|]; split; [lia|by right; exists o]|].
    split; [done|]. unfold fence_in. by rewrite Ht', Ho'.
Qed.

(** The fence without the owner [o]. *)
Definition cleared (o : string) (x : option fence) : option fence :=
  match x with
  | Some (t, Some o') => Some (t, if decide (o' = o) then None else Some o')
  | x => x
  end.

(** The conditional clear, on what is there. *)
Lemma clear_outcome (d : db) r o u found :
  well_formed d → u = mkUpdate [] [(FieldOwnerTxn, BNull); (FieldUpdatedAt, BDate (Now d))] →
  outcome [("_id", BString r); (FieldOwnerTxn, BString o)] u false (doc_of d r) = Some found →
  (∀ doc, found = Some doc → fence_ok doc) ∧
  fence_in <$> found = cleared o (fences_of d r).
Proof.
  intros Hw -> Ho. unfold fences_of. destruct (doc_of d r) as [doc|] eqn:Ed; cbn [outcome] in Ho.
  2:{ injection Ho as <-. done. }
  destruct (Hw _ _ Ed) as (t & Ht & Hpos & Hown).
  assert (matches [("_id", BString r); (FieldOwnerTxn, BString o)] doc =
    bool_decide (default BNull (doc !! FieldOwnerTxn) = BString o)) as Hmatch.
  { unfold matches. cbn [forallb fst snd]. rewrite (doc_id _ _ _ Ed). cbn [default].
    rewrite bool_decide_true by done. by rewrite andb_true_r. }
  rewrite Hmatch in Ho.
  assert (fence_in <$> Some doc = Some (Z.to_N t, match doc !! FieldOwnerTxn with
    Some (BString o') => Some o' | _ => None end)) as -> by (cbn; unfold fence_in; by rewrite Ht).
  unfold cleared.
  destruct (bool_decide_reflect (default BNull (doc !! FieldOwnerTxn) = BString o)) as [E|E].
  - assert (doc !! FieldOwnerTxn = Some (BString o)) as -> by (by destruct (doc !! FieldOwnerTxn) as [b|]; cbn in E; congruence).
    rewrite decide_True by done. unfold apply_update in Ho. rewrite decide_False in Ho by (cbn; set_solver).
    cbn in Ho. injection Ho as <-. unfold apply_set. cbn. split.
    + intros ? [= <-]. exists t. simplify_map_eq. split; [done|]. split; [done|]. by left.
    + unfold fence_in. by simplify_map_eq.
  - injection Ho as <-. split; [intros ? [= <-]; by eapply Hw|]. cbn. unfold fence_in. rewrite Ht.
    destruct Hown as [Hown|[o' Hown]]; rewrite Hown in E |- *; [done|].
    rewrite decide_False; [done|]. cbn in E. congruence.
Qed.

(** A statement that failed, or did what it says, on the rest of a well-formed
    collection. *)
Lemma well_formed_step (d d' : db) r :
  well_formed d → (∀ r', r' ≠ r → doc_of d' r' = doc_of d r') →
  (∀ doc, doc_of d' r = Some doc → fence_ok doc) → well_formed d'.
Proof.
  intros Hw Hother Hr r' doc Hdoc. destruct (decide (r' = r)) as [->|Hne]; [by apply Hr|].
  rewrite Hother in Hdoc by done. by eapply Hw.
Qed.

Lemma allocate_well_formed r o (d : db) : well_formed d → well_formed (MongoAllocate r o d).1.
Proof.
  intros Hw. unfold MongoAllocate.
  pose proof (FindOneAndUpdate_other r [] (mkUpdate [(FieldToken, 1%Z)]
    [(FieldOwnerTxn, BString o); (FieldUpdatedAt, BDate (Now d))]) true true d) as Hother.
  destruct (FindOneAndUpdate _ _ true true d) as [d' [found|e]] eqn:E; cbn in Hother |- *;
    apply (well_formed_step d d' r Hw); [auto| |auto|]; intros doc Hdoc.
  - apply FindOneAndUpdate_Ok in E as [E _].
    destruct (allocate_outcome d r o _ _ Hw eq_refl E) as (doc' & Hd' & Hok & _). congruence.
  - apply FindOneAndUpdate_Err in E as [E|E]; [rewrite E in Hdoc; by eapply Hw|].
    destruct (allocate_outcome d r o _ _ Hw eq_refl E) as (doc' & Hd' & Hok & _). congruence.
Qed.

Lemma invalidate_well_formed r o (d : db) : well_formed d → well_formed (MongoInvalidate r o d).1.
Proof.
  intros Hw. unfold MongoInvalidate.
  pose proof (UpdateOne_other r [(FieldOwnerTxn, BString o)] (mkUpdate []
    [(FieldOwnerTxn, BNull); (FieldUpdatedAt, BDate (Now d))]) d) as Hother.
  destruct (UpdateOne _ _ d) as [d' [n|e]] eqn:E; cbn in Hother |- *;
    apply (well_formed_step d d' r Hw); [auto| |auto|]; intros doc Hdoc.
  - apply UpdateOne_Ok in E. by apply (clear_outcome d r o _ _ Hw eq_refl E).
  - apply UpdateOne_Err in E as [E|E]; [rewrite E in Hdoc; by eapply Hw|].
    by apply (clear_outcome d r o _ _ Hw eq_refl E).
Qed.

(** The collection as the coordinator's fence store: every document in it was
    made by the store, which its operations keep. *)
Definition fence_db : Type := { d : db | well_formed d }.

#[export] Instance mongofence_store : FenceStore fence_db := {|
  FenceStore.fence_of f r := fences_of (`f) r;
  FenceStore.Allocate r o f :=
    (exist _ (MongoAllocate r o (`f)).1 (allocate_well_formed r o (`f) (proj2_sig f)),
     (MongoAllocate r o (`f)).2);
  FenceStore.Invalidate r o f :=
    (exist _ (MongoInvalidate r o (`f)).1 (invalidate_well_formed r o (`f) (proj2_sig f)),
     (MongoInvalidate r o (`f)).2) |}.

Lemma allocate_result r o (d : db) :
  well_formed d →
  match (MongoAllocate r o d).2 with
  | Ok t => t = (counter d r + 1)%N ∧ fences_of (MongoAllocate r o d).1 r = Some (t, Some o)
  | Err _ => fences_of (MongoAllocate r o d).1 r = fences_of d r ∨
      fences_of (MongoAllocate r o d).1 r = Some ((counter d r + 1)%N, Some o)
  end.
Proof.
  intros Hw. unfold MongoAllocate. destruct (FindOneAndUpdate _ _ true true d) as [d' [found|e]] eqn:E; cbn.
  - apply FindOneAndUpdate_Ok in E as [E Hr]. rewrite Hr by done.
    destruct (allocate_outcome d r o _ _ Hw eq_refl E) as (doc & -> & _ & Ht & Hin).
    unfold decodeToken. cbn -[Z.le Z.of_N N.add]. rewrite Ht. cbn -[Z.le Z.of_N N.add].
    rewrite decide_False by lia. split; [lia|]. unfold fences_of in *.
    destruct (allocate_outcome d r o _ _ Hw eq_refl E) as (doc' & Hd' & _ & _ & Hin').
    rewrite Hd'. cbn. rewrite Hin'. do 2 f_equal. lia.
  - apply FindOneAndUpdate_Err in E as [E|E]; [left; unfold fences_of; by rewrite E|right].
    destruct (allocate_outcome d r o _ _ Hw eq_refl E) as (doc & Hd & _ & _ & Hin).
    unfold fences_of at 1. rewrite Hd. cbn. by rewrite Hin.
Qed.

Lemma invalidate_result r o (d : db) :
  well_formed d →
  match (MongoInvalidate r o d).2 with
  | Ok _ => fences_of (MongoInvalidate r o d).1 r = cleared o (fences_of d r)
  | Err _ => fences_of (MongoInvalidate r o d).1 r = fences_of d r ∨
      fences_of (MongoInvalidate r o d).1 r = cleared o (fences_of d r)
  end.
Proof.
  intros Hw. unfold MongoInvalidate. destruct (UpdateOne _ _ d) as [d' [n|e]] eqn:E; cbn.
  - apply UpdateOne_Ok in E. by apply (clear_outcome d r o _ _ Hw eq_refl) in E as [_ <-].
  - apply UpdateOne_Err in E as [E|E]; [left; unfold fences_of; by rewrite E|right].
    by apply (clear_outcome d r o _ _ Hw eq_refl) in E as [_ <-].
Qed.

Lemma allocate_frame r o (d : db) r' :
  r' ≠ r → fences_of (MongoAllocate r o d).1 r' = fences_of d r'.
Proof.
  intros Hne. unfold MongoAllocate, fences_of.
  pose proof (FindOneAndUpdate_other r [] (mkUpdate [(FieldToken, 1%Z)]
    [(FieldOwnerTxn, BString o); (FieldUpdatedAt, BDate (Now d))]) true true d r' Hne) as Hother.
  destruct (FindOneAndUpdate _ _ true true d) as [d' res]. cbn in *. by rewrite Hother.
Qed.

Lemma invalidate_frame r o (d : db) r' :
  r' ≠ r → fences_of (MongoInvalidate r o d).1 r' = fences_of d r'.
Proof.
  intros Hne. unfold MongoInvalidate, fences_of.
  pose proof (UpdateOne_other r [(FieldOwnerTxn, BString o)] (mkUpdate []
    [(FieldOwnerTxn, BNull); (FieldUpdatedAt, BDate (Now d))]) d r' Hne) as Hother.
  destruct (UpdateOne _ _ d) as [d' res]. cbn in *. by rewrite Hother.
Qed.

(** C29. The MongoDB store keeps the coordinator's contract. On a collection
    whose documents it made itself, which stays so, [Allocate]'s upserting
    [$inc] and [$set] under the filter on [_id] and [Invalidate]'s [$set] under
    the filter on [_id] and [owner_txn] satisfy every law the coordinator's
    theorems assume of a fence store: a token is one above the last and its
    owner is recorded, [Invalidate] clears the fence of exactly the owner it
    names and keeps the token, other fences are untouched, and a call that
    fails has done either nothing or its work. *)
Theorem mongofence_refines : FenceLaws fence_db.
Proof.
  split.
  - intros r o [d Hw] f' t [= <- Ht]. pose proof (allocate_result r o d Hw) as Hr. rewrite Ht in Hr. exact Hr.
  - intros r o [d Hw] f' e [= <- He]. pose proof (allocate_result r o d Hw) as Hr. rewrite He in Hr. exact Hr.
  - intros r o [d Hw] r' Hne. by apply allocate_frame.
  - intros r o [d Hw] f' u [= <- Hu]. pose proof (invalidate_result r o d Hw) as Hr. rewrite Hu in Hr.
    cbn in *. rewrite Hr. unfold cleared. by destruct (fences_of d r) as [[t [o'|]]|].
  - intros r o [d Hw] f' e [= <- He]. pose proof (invalidate_result r o d Hw) as Hr. rewrite He in Hr.
    cbn in *. destruct Hr as [Hr|Hr]; [by left|]. rewrite Hr. unfold cleared.
    destruct (fences_of d r) as [[t [o'|]]|]; [|by left..].
    case_decide; subst; [right; by exists t|by left].
  - intros r o [d Hw] r' Hne. by apply invalidate_frame.
Qed.

End mongofence.

(** ** A concrete collection *)

Module MapCollection.

(** Documents by [_id], each with its own, and a schedule of faults. *)
Record db := mkDb { faults : list bool; docs : gmap string (gmap string bson) }.

Definition stamped (id : string) (doc : document) : document := <["_id" := BString id]> doc.

Definition step (filter : list (string * bson)) (u : update) (upsert : bool) (d : db)
    : db * result (option document) :=
  match faults d with
  | true :: rest => (mkDb rest (docs d), Err (EMsg "unavailable"))
  | _ =>
      match filter with
      | (_, BString id) :: _ =>
          match outcome filter u upsert (stamped id <$> docs d !! id) with
          | Some found => (mkDb (tail (faults d)) (partial_alter (λ _, found) id (docs d)),
                           Ok (stamped id <$> found))
          | None => (d, Err (EMsg "refused"))
          end
      | _ => (d, Err (EMsg "unsupported"))
      end
  end.

#[export] Instance map_collection : Collection db := {|
  doc_of d id := stamped id <$> docs d !! id;
  FindOneAndUpdate filter u upsert after := step filter u upsert;
  UpdateOne filter u d := let '(d', r) := step filter u false d in
    (d', match r with Ok _ => Ok 1%nat | Err e => Err e end);
  FindOne filter d := match filter with
    | (_, BString id) :: _ => Ok (stamped id <$> docs d !! id) | _ => Err (EMsg "unsupported") end |}.

(** An update leaves the [_id] alone. *)
Lemma apply_update_id u doc doc' :
  apply_update u doc = Some doc' → doc' !! "_id" = doc !! "_id".
Proof.
  unfold apply_update. case_decide as Hin; [done|]. rewrite elem_of_app in Hin.
  assert (∀ (l : list (string * Z)) x, ("_id" ∉ l.*1) →
    foldr (λ fz od, od ≫= apply_inc fz) (Some doc) l = Some x → x !! "_id" = doc !! "_id") as Hinc.
  { induction l as [|[f z] l IH]; intros x Hl; cbn; [by intros [= <-]|].
    rewrite fmap_cons, not_elem_of_cons in Hl. destruct Hl as [Hf Hl].
    destruct (foldr _ _ l) as [y|] eqn:E; cbn; [|done]. unfold apply_inc. cbn.
    rewrite <-(IH y Hl eq_refl). repeat case_match; intros [= <-]; by rewrite lookup_insert_ne by done. }
  assert (∀ (l : list (string * bson)) x, ("_id" ∉ l.*1) →
    foldr apply_set x l !! "_id" = x !! "_id") as Hset.
  { induction l as [|[f b] l IH]; intros x Hl; cbn; [done|].
    rewrite fmap_cons, not_elem_of_cons in Hl. destruct Hl as [Hf Hl]. unfold apply_set at 1. cbn.
    by rewrite lookup_insert_ne, IH by done. }
  destruct (foldr _ _ (inc_ u)) as [x|] eqn:E; cbn; [|done]. intros [= <-].
  rewrite Hset by naive_solver. eapply Hinc; [|exact E]. naive_solver.
Qed.

Lemma outcome_stamped id f u upsert o found :
  outcome (("_id", BString id) :: f) u upsert (stamped id <$> o) = Some found →
  stamped id <$> found = found.
Proof.
  intros E. destruct found as [doc|]; [|done]. cbn. f_equal. unfold stamped. apply insert_id.
  destruct o as [doc0|]; cbn [outcome fmap option_fmap option_map] in E.
  - destruct (matches _ (stamped id doc0)).
    + destruct (apply_update u (stamped id doc0)) as [x|] eqn:Ex; [|done]. injection E as <-.
      rewrite (apply_update_id _ _ _ Ex). apply lookup_insert_eq.
    + destruct upsert; [done|]. injection E as <-. apply lookup_insert_eq.
  - destruct upsert; [|done]. destruct (apply_update u _) as [x|] eqn:Ex; [|done]. injection E as <-.
    rewrite (apply_update_id _ _ _ Ex). cbn. apply lookup_insert_eq.
Qed.

Lemma step_spec id f u upsert d d' r :
  step (("_id", BString id) :: f) u upsert d = (d', r) →
  (∀ id', id' ≠ id → docs d' !! id' = docs d !! id') ∧
  match r with
  | Ok found => outcome (("_id", BString id) :: f) u upsert (stamped id <$> docs d !! id) = Some found ∧
      stamped id <$> docs d' !! id = found
  | Err _ => docs d' !! id = docs d !! id
  end.
Proof.
  unfold step. destruct (faults d) as [|[] rest]; [|by intros [= <- <-]|];
    (destruct (outcome _ _ _ _) as [found|] eqn:E; intros [= <- <-]; [|done]); cbn;
    (split; [intros id' Hne; by rewrite lookup_partial_alter_ne|]);
    rewrite lookup_partial_alter_eq; rewrite (outcome_stamped _ _ _ _ _ _ E); done.
Qed.

#[export] Instance map_collection_laws : CollectionLaws db.
Proof.
  split.
  - intros d id doc. cbn. destruct (docs d !! id) as [x|]; cbn; [|done]. intros [= <-]. apply lookup_insert_eq.
  - intros id f u upsert d d' r. cbn. intros E. apply step_spec in E as [_ [E Hf]]. by rewrite E, Hf.
  - intros id f u upsert after d d' e. cbn. intros E. apply step_spec in E as [_ E]. left. by rewrite E.
  - intros id f u upsert after d id' Hne. cbn. destruct (step _ u upsert d) as [d' r] eqn:E. cbn.
    apply step_spec in E as [E _]. by rewrite E.
  - intros id f u d d' n. cbn. destruct (step _ u false d) as [d1 [found|e]] eqn:E; [|done].
    intros [= <- _]. apply step_spec in E as [_ [E Hf]]. by rewrite E, Hf.
  - intros id f u d d' e. cbn. destruct (step _ u false d) as [d1 [found|e1]] eqn:E; [done|].
    intros [= <- _]. apply step_spec in E as [_ E]. left. by rewrite E.
  - intros id f u d id' Hne. cbn. destruct (step _ u false d) as [d1 r] eqn:E. cbn.
    apply step_spec in E as [E _]. by rewrite E.
Qed.

Definition noon (_ : db) : Z := 43200.
Definition empty : db := mkDb [] ∅.

(** The store at work: two grants of a file, then the end of the second. *)
Example mongofence_runs :
  let d1 := (MongoAllocate noon "1:f" "t1" empty).1 in
  let d2 := (MongoAllocate noon "1:f" "t2" d1).1 in
  (MongoAllocate noon "1:f" "t2" d1).2 = Ok 2%N ∧
  (MongoInvalidate noon "1:f" "t1" d2).1 = d2 ∧
  Current "1:f" (MongoInvalidate noon "1:f" "t2" d2).1 = Ok (2%N, "", true).
Proof. vm_compute. done. Qed.

Lemma empty_well_formed : well_formed empty.
Proof. intros r doc. cbn. done. Qed.

End MapCollection.

Import MapCollection.

Lemma mongofence_refines_witness :
  @FenceLaws (fence_db (db := MapCollection.db)) (mongofence_store MapCollection.noon).
Proof. exact (mongofence_refines MapCollection.noon). Defined.
