(* ===== verification/Coordinator.v ===== *)
(** * The lock coordinator (src/client/coordination/grpccoord)

    The transaction registry (transactions.go) and the server (server.go).
    Records are shared through pointers in Go: [*transaction] is an address in
    [heap], and an [Acquire] in progress keeps the address it was given, so a
    transaction that ends meanwhile is the same record it still updates.

    Each section run under one of the server's mutexes, each call into the
    lock manager and each fence-store call is one function on [Server];
    [Acquire] is their composition, and the interleavings of the stages of
    concurrent calls are the relation [srv_step]. Times are nanoseconds. *)

From S2P Require Import Prelude Json JsonThms Libs LockManager Fencing FenceStore.
Import LM.
Open Scope string_scope.
Open Scope N_scope.

Section coordinator.
Context `{UuidLib} {F : Type} `{FenceStore F}.

(** ** Data *)

Inductive lifecycle := txnActive | txnRevoking | txnEnding.

#[global] Instance lifecycle_eq_dec : EqDecision lifecycle.
Proof. solve_decision. Defined.

Definition lifecycle_String (l : lifecycle) : string :=
  match l with txnActive => "active" | txnRevoking => "revoking" | txnEnding => "ending" end.

Record grantRecord := mkGrantRecord {
  gr_resource : ResourceID; gr_mode : LockMode; gr_token : N }.

(** [pending] is the set of request ids with a registered [CancelFunc]. *)
Record transaction := mkTransaction {
  external : UUID;
  internal : TxnID;
  state : lifecycle;
  leaseDeadline : N;
  leaseStarted : bool;
  t_grants : list grantRecord;
  pending : gset N;
  nextReq : N;
  finished : bool;
  finishedAt : N }.

(** [cancelledCtx] is the set of wait contexts whose [CancelFunc] was called.
    [fences] is [None] when the server has no fence store. *)
Record Server := mkServer {
  lm : LMState;
  fences : option F;
  heap : gmap ptr transaction;
  byID : gmap UUID ptr;
  next : N;
  spent : bool;
  fresh_ptr : ptr;
  cancelledCtx : gset (ptr * N);
  retrying : gset UUID;
  leaseDuration : N;
  tombstoneRetention_ : N }.

Definition set_lm' (x : LMState) (s : Server) : Server :=
  mkServer x (fences s) (heap s) (byID s) (next s) (spent s) (fresh_ptr s) (cancelledCtx s)
    (retrying s) (leaseDuration s) (tombstoneRetention_ s).
Definition set_fences (x : option F) (s : Server) : Server :=
  mkServer (lm s) x (heap s) (byID s) (next s) (spent s) (fresh_ptr s) (cancelledCtx s)
    (retrying s) (leaseDuration s) (tombstoneRetention_ s).
Definition set_heap (x : gmap ptr transaction) (s : Server) : Server :=
  mkServer (lm s) (fences s) x (byID s) (next s) (spent s) (fresh_ptr s) (cancelledCtx s)
    (retrying s) (leaseDuration s) (tombstoneRetention_ s).
Definition set_byID (x : gmap UUID ptr) (s : Server) : Server :=
  mkServer (lm s) (fences s) (heap s) x (next s) (spent s) (fresh_ptr s) (cancelledCtx s)
    (retrying s) (leaseDuration s) (tombstoneRetention_ s).
Definition set_spent (s : Server) : Server :=
  mkServer (lm s) (fences s) (heap s) (byID s) (next s) true (fresh_ptr s) (cancelledCtx s)
    (retrying s) (leaseDuration s) (tombstoneRetention_ s).
Definition set_cancelled (x : gset (ptr * N)) (s : Server) : Server :=
  mkServer (lm s) (fences s) (heap s) (byID s) (next s) (spent s) (fresh_ptr s) x
    (retrying s) (leaseDuration s) (tombstoneRetention_ s).
Definition set_retrying (x : gset UUID) (s : Server) : Server :=
  mkServer (lm s) (fences s) (heap s) (byID s) (next s) (spent s) (fresh_ptr s) (cancelledCtx s)
    x (leaseDuration s) (tombstoneRetention_ s).

(** An update of a transaction record through its pointer. *)
Definition update_txn (p : ptr) (f : transaction → transaction) (s : Server) : Server :=
  set_heap (alter f p (heap s)) s.

Definition status (code msg : string) : error := EStatus code msg.

(** ** Durations and configuration *)

Definition second : N := 1000000000.

Definition tombstoneRetention (lease : N) : N :=
  let retention := 10 * lease in
  let retention := if retention <? 5 * second then 5 * second else retention in
  if 300 * second <? retention then 300 * second else retention.

Definition DefaultLeaseDuration : N := 6 * second.

(** [NewServerWithConfig]: the state it builds (the sweeper is [sweep]). *)
Definition NewServer (fences : option F) (lease : N) : Server :=
  let lease := if decide (lease = 0) then DefaultLeaseDuration else lease in
  mkServer NewLockManager fences ∅ ∅ 0 false 1 ∅ ∅ lease (tombstoneRetention lease).

(** ** Requests *)

Definition parseTxnID (raw : string) : result UUID :=
  if decide (raw = "")
  then Err (status "InvalidArgument" "grpccoord: transaction_id is required")
  else match uuid_Parse raw with
  | None => Err (status "InvalidArgument" ("grpccoord: transaction_id " +:+ strconv_Quote raw +:+ " is not a UUID"))
  | Some id =>
      if decide (id = uuid_Nil)
      then Err (status "InvalidArgument" "grpccoord: transaction_id must not be the nil UUID")
      else Ok id
  end.

(** The protocol's enumerations: 0 is UNSPECIFIED. *)
Definition RESOURCE_TYPE_NAMESPACE : N := 1.
Definition RESOURCE_TYPE_FILE : N := 2.
Definition LOCK_MODE_SHARED : N := 1.
Definition LOCK_MODE_EXCLUSIVE : N := 2.

Definition resourceFromProto (r : option (N * string)) : result ResourceID :=
  match r with
  | None => Err (status "InvalidArgument" "grpccoord: resource is required")
  | Some (ty, key) =>
      if decide (key = "")
      then Err (status "InvalidArgument" "grpccoord: resource key is required")
      else if decide (ty = RESOURCE_TYPE_NAMESPACE) then Ok (mkResourceID NamespaceResource key)
      else if decide (ty = RESOURCE_TYPE_FILE) then Ok (mkResourceID FileResource key)
      else Err (status "InvalidArgument" ("grpccoord: unknown resource type "
             +:+ (if decide (ty = 0) then "RESOURCE_TYPE_UNSPECIFIED" else pretty ty)))
  end.

Definition resourceToProto (r : ResourceID) : result (N * string) :=
  if decide (Type_ r = NamespaceResource) then Ok (RESOURCE_TYPE_NAMESPACE, Key r)
  else if decide (Type_ r = FileResource) then Ok (RESOURCE_TYPE_FILE, Key r)
  else Err (EMsg ("grpccoord: unknown resource type " +:+ pretty (Type_ r))).

Definition modeFromProto (m : N) : result LockMode :=
  if decide (m = LOCK_MODE_SHARED) then Ok SharedLock
  else if decide (m = LOCK_MODE_EXCLUSIVE) then Ok ExclusiveLock
  else Err (status "InvalidArgument" ("grpccoord: unknown lock mode "
         +:+ (if decide (m = 0) then "LOCK_MODE_UNSPECIFIED" else pretty m))).

Definition modeToProto (m : LockMode) : result N :=
  if decide (m = SharedLock) then Ok LOCK_MODE_SHARED
  else if decide (m = ExclusiveLock) then Ok LOCK_MODE_EXCLUSIVE
  else Err (EMsg ("grpccoord: unknown lock mode " +:+ LockMode_String m)).

(** ** The registry *)

Definition fenceGrants (t : transaction) : list Fencing.Grant :=
  omap (λ g, if decide (gr_mode g ≠ ExclusiveLock) then None else
    Some (Fencing.mkGrant (Fencing.ResourceKey (Type_ (gr_resource g)) (Key (gr_resource g)))
      (gr_token g) (uuid_String (external t)))) (t_grants t).

Definition grantFor (t : transaction) (resource : ResourceID) : option grantRecord :=
  head (filter (λ g, gr_resource g = resource) (t_grants t)).

Definition errTxnIDsExhausted : error := EMsg "grpccoord: transaction ID space exhausted".

Definition ensure (ext : UUID) (s : Server) : Server * result ptr :=
  match byID s !! ext with
  | Some p =>
      match heap s !! p with
      | None => (s, Err (EMsg "dangling transaction"))
      | Some t =>
          if finished t
          then (s, Err (EMsg ("grpccoord: transaction " +:+ uuid_String ext +:+ " has already ended ("
                 +:+ lifecycle_String (state t) +:+ "); it no longer holds any locks")))
          else if decide (state t ≠ txnActive)
          then (s, Err (EMsg ("grpccoord: transaction " +:+ uuid_String ext +:+ " is "
                 +:+ lifecycle_String (state t))))
          else (s, Ok p)
      end
  | None =>
      if spent s || bool_decide (next s = max_uint64)
      then (set_spent s, Err errTxnIDsExhausted)
      else
        let next' := u64_add (next s) 1 in
        let p := fresh_ptr s in
        let t := mkTransaction ext next' txnActive 0 false [] ∅ 0 false 0 in
        (mkServer (lm s) (fences s) (<[p := t]> (heap s)) (<[ext := p]> (byID s)) next' (spent s)
           (p + 1) (cancelledCtx s) (retrying s) (leaseDuration s) (tombstoneRetention_ s), Ok p)
  end.

Definition lookup_txn (ext : UUID) (s : Server) : option transaction :=
  p ← byID s !! ext; heap s !! p.

Definition finish (ext : UUID) (now : N) (s : Server) : Server :=
  match byID s !! ext with
  | None => s
  | Some p => update_txn p (λ t, mkTransaction (external t) (internal t) (state t)
      (leaseDeadline t) (leaseStarted t) (t_grants t) (pending t) (nextReq t) true now) s
  end.

Definition prunable (now retention : N) (t : transaction) : bool :=
  finished t && (finishedAt t + retention <? now).

Definition prune (now retention : N) (s : Server) : Server :=
  set_byID (filter (λ kp,
    from_option (prunable now retention) false (heap s !! kp.2) = false) (byID s)) s.

Definition startLeaseIfNeeded (p : ptr) (now : N) (s : Server) : Server * N :=
  let deadline := now + leaseDuration s in
  (update_txn p (λ t, mkTransaction (external t) (internal t) (state t) deadline true
     (t_grants t) (pending t) (nextReq t) (finished t) (finishedAt t)) s, deadline).

(** [time.Time{}.UnixNano()]: year 1 is out of range of 64-bit nanoseconds
    since 1970 and wraps. *)
Definition zeroUnixNano : Z := -6795364578871345152.

(** [UnixNano] of a deadline; [None] is the zero time. *)
Definition UnixNano (t : option N) : Z := from_option Z.of_N zeroUnixNano t.

(** The field [leaseDeadline], which is the zero time until the lease starts. *)
Definition leaseTime (t : transaction) : option N :=
  if leaseStarted t then Some (leaseDeadline t) else None.

Definition renew (ext : UUID) (now : N) (s : Server) : Server * result (option N) :=
  match byID s !! ext with
  | None => (s, Err (EMsg ("grpccoord: transaction " +:+ uuid_String ext +:+ " is not known")))
  | Some p =>
      match heap s !! p with
      | None => (s, Err (EMsg "dangling transaction"))
      | Some t =>
          if finished t
          then (s, Err (EMsg ("grpccoord: transaction " +:+ uuid_String ext +:+ " has already ended ("
                 +:+ lifecycle_String (state t) +:+ ")")))
          else if decide (state t ≠ txnActive)
          then (s, Err (EMsg ("grpccoord: transaction " +:+ uuid_String ext +:+ " is "
                 +:+ lifecycle_String (state t))))
          else if negb (leaseStarted t) then (s, Ok None)
          else
            let deadline := now + leaseDuration s in
            (update_txn p (λ t, mkTransaction (external t) (internal t) (state t) deadline
               (leaseStarted t) (t_grants t) (pending t) (nextReq t) (finished t) (finishedAt t)) s,
             Ok (Some deadline))
      end
  end.

Definition recordGrant (p : ptr) (g : grantRecord) (s : Server) : Server :=
  update_txn p (λ t, mkTransaction (external t) (internal t) (state t) (leaseDeadline t)
    (leaseStarted t) (t_grants t ++ [g])%list (pending t) (nextReq t) (finished t)
    (finishedAt t)) s.

Definition registerPending (p : ptr) (s : Server) : Server * N :=
  let id := from_option nextReq 0 (heap s !! p) + 1 in
  (update_txn p (λ t, mkTransaction (external t) (internal t) (state t) (leaseDeadline t)
     (leaseStarted t) (t_grants t) ({[id]} ∪ pending t) id (finished t) (finishedAt t)) s, id).

Definition clearPending (p : ptr) (id : N) (s : Server) : Server :=
  update_txn p (λ t, mkTransaction (external t) (internal t) (state t) (leaseDeadline t)
    (leaseStarted t) (t_grants t) (pending t ∖ {[id]}) (nextReq t) (finished t)
    (finishedAt t)) s.

(** The pointer and the wait contexts to cancel. *)
Definition beginTeardown (ext : UUID) (st : lifecycle) (s : Server)
    : Server * option (ptr * list (ptr * N)) :=
  match byID s !! ext with
  | None => (s, None)
  | Some p =>
      match heap s !! p with
      | None => (s, None)
      | Some t =>
          if finished t || bool_decide (state t ≠ txnActive) then (s, None)
          else (update_txn p (λ t, mkTransaction (external t) (internal t) st (leaseDeadline t)
                  (leaseStarted t) (t_grants t) ∅ (nextReq t) (finished t) (finishedAt t)) s,
                Some (p, (λ id, (p, id)) <$> elements (pending t)))
      end
  end.

Definition expired_txn (now : N) (t : transaction) : bool :=
  negb (finished t) && bool_decide (state t = txnActive) && leaseStarted t
  && (leaseDeadline t <? now).

Definition expired (now : N) (s : Server) : list UUID :=
  omap (λ kp, t ← heap s !! kp.2; if expired_txn now t then Some kp.1 else None)
    (map_to_list (byID s)).

Definition count_txns (f : transaction → bool) (s : Server) : nat :=
  length (filter (λ kp, from_option f false (heap s !! kp.2) = true) (map_to_list (byID s))).

(** Active and revoking transactions, as [Health] reports them. *)
Definition counts (s : Server) : nat * nat :=
  (count_txns (λ t, negb (finished t) && bool_decide (state t ≠ txnRevoking)) s,
   count_txns (λ t, negb (finished t) && bool_decide (state t = txnRevoking)) s).

(** ** Acquire, stage by stage *)

Record AcquireResponse := mkResponse { FencingToken : N; LeaseExpires : Z }.

(** An [Acquire] in progress: its request, its transaction record and its
    request id once registered. *)
Record call := mkCall {
  c_external : UUID; c_txn : ptr; c_resource : ResourceID; c_mode : LockMode; c_req : N }.

(** Parsing and [ensure]. *)
Definition acquire_ensure (txn : string) (res : option (N * string)) (m : N) (s : Server)
    : Server * result call :=
  match parseTxnID txn, resourceFromProto res, modeFromProto m with
  | Err e, _, _ => (s, Err e)
  | Ok _, Err e, _ => (s, Err e)
  | Ok _, Ok _, Err e => (s, Err e)
  | Ok ext, Ok resource, Ok mode =>
      let '(s, r) := ensure ext s in
      (s, match r with
          | Ok p => Ok (mkCall ext p resource mode 0)
          | Err e => Err (status
              (if decide (e = errTxnIDsExhausted) then "ResourceExhausted" else "FailedPrecondition")
              (error_Error e))
          end)
  end.

Definition heldGrant (c : call) (s : Server) : option grantRecord :=
  t ← heap s !! c_txn c; grantFor t (c_resource c).

(** The deadline an idempotent retry is answered with. *)
Definition heldDeadline (c : call) (s : Server) : Z :=
  UnixNano (heap s !! c_txn c ≫= leaseTime).

(** The idempotent retry: [Some] is an immediate return. *)
Definition acquire_held (c : call) (s : Server) : option (result AcquireResponse) :=
  match heldGrant c s with
  | None => None
  | Some g =>
      Some (if decide (gr_mode g ≠ c_mode c)
            then Err (status "FailedPrecondition"
                   ("grpccoord: transaction " +:+ uuid_String (c_external c) +:+ " already holds "
                    +:+ LockMode_String (gr_mode g) +:+ " on " +:+ fmt_v (c_resource c)
                    +:+ "; upgrades are not supported"))
            else Ok (mkResponse (gr_token g) (heldDeadline c s)))
  end.

Definition acquire_register (c : call) (s : Server) : Server * call :=
  let '(s, id) := registerPending (c_txn c) s in
  (s, mkCall (c_external c) (c_txn c) (c_resource c) (c_mode c) id).

(** [s.lm.AcquireContext] under the registered context. [callerErr] is the
    caller's own [ctx.Err()]. *)
Definition acquire_wait (callerErr : option error) (c : call) (s : Server) : Server * outcome :=
  let ctxErr := match callerErr with
    | Some e => Some e
    | None => if decide ((c_txn c, c_req c) ∈ cancelledCtx s) then Some ECanceled else None
    end in
  let txn := from_option internal 0 (heap s !! c_txn c) in
  let '(l, out) := AcquireContext (Some (LM.mkCtx ctxErr true)) txn (c_resource c) (c_mode c) (lm s) in
  (set_lm' l s, out).

(** Calling [CancelFunc]s: the wait contexts are cancelled; the watcher
    goroutines of the lock manager observe it later. *)
Definition cancelAll (cs : list (ptr * N)) (s : Server) : Server :=
  set_cancelled (list_to_set cs ∪ cancelledCtx s) s.

(** [clearPending] and [cancel], which follow every wait. *)
Definition acquire_cleanup (c : call) (s : Server) : Server :=
  cancelAll [(c_txn c, c_req c)] (clearPending (c_txn c) (c_req c) s).

(** [status.FromContextError] *)
Definition FromContextError (e : error) : error :=
  if decide (e = EDeadlineExceeded) then status "DeadlineExceeded" (error_Error e)
  else if decide (e = ECanceled) then status "Canceled" (error_Error e)
  else status "Unknown" (error_Error e).

(** The cleanup, and the answer to a wait that failed; [waitCtx] is consulted
    after [cancel]. *)
Definition acquire_failed (callerErr : option error) (c : call) (e : error) (s : Server)
    : Server * result AcquireResponse :=
  let s := acquire_cleanup c s in
  (s, match callerErr with
      | Some ce => Err (FromContextError ce)
      | None =>
          if decide ((c_txn c, c_req c) ∈ cancelledCtx s)
          then Err (status "Aborted" ("grpccoord: transaction " +:+ uuid_String (c_external c)
                 +:+ " was revoked while waiting for " +:+ fmt_v (c_resource c)))
          else Err (status "FailedPrecondition" (error_Error e))
      end).

Definition stillActive (c : call) (s : Server) : bool :=
  match byID s !! c_external c, heap s !! c_txn c with
  | Some p, Some t => bool_decide (p = c_txn c) && bool_decide (state t = txnActive)
  | _, _ => false
  end.

(** [s.lm.Release]; its error is only logged. *)
Definition releaseOne (c : call) (s : Server) : Server :=
  set_lm' (Release (from_option internal 0 (heap s !! c_txn c)) (c_resource c) (lm s)).1 s.

(** The transaction ended while the lock was waited for. *)
Definition endedWhileQueued : error :=
  status "Aborted" "grpccoord: transaction ended while the request was queued".

(** After a grant: the request is no longer pending and the transaction must
    still accept work; [None] lets the call go on. *)
Definition acquire_check (c : call) (s : Server) : Server * option (result AcquireResponse) :=
  let s := acquire_cleanup c s in
  if stillActive c s then (s, None)
  else (releaseOne c s, Some (Err endedWhileQueued)).

(** The call to the fence store for the durable token of an exclusive grant. *)
Definition acquire_allocate (c : call) (s : Server) : Server * result N :=
  match fences s with
  | Some f =>
      if decide (c_mode c = ExclusiveLock) then
        let '(f, r) := Allocate (Fencing.ResourceKey (Type_ (c_resource c)) (Key (c_resource c)))
          (uuid_String (c_external c)) f in
        (set_fences (Some f) s,
         match r with
         | Ok t => Ok t
         | Err e => Err (status "Unavailable"
             ("grpccoord: could not allocate a fencing token for " +:+ fmt_v (c_resource c)
              +:+ ", refusing the grant: "
              +:+ error_Error e))
         end)
      else (s, Ok 0)
  | None => (s, Ok 0)
  end.

(** Without its token the grant is undone. *)
Definition acquire_token (c : call) (s : Server) : Server * result N :=
  let '(s, r) := acquire_allocate c s in
  match r with Ok t => (s, Ok t) | Err e => (releaseOne c s, Err e) end.

(** [recordGrant] and [startLeaseIfNeeded]. *)
Definition acquire_record (c : call) (token now : N) (s : Server) : Server * AcquireResponse :=
  let s := recordGrant (c_txn c) (mkGrantRecord (c_resource c) (c_mode c) token) s in
  let '(s, deadline) := startLeaseIfNeeded (c_txn c) now s in
  (s, mkResponse token (UnixNano (Some deadline))).

(** The stages after the lock manager granted the request. *)
Definition acquire_granted (c : call) (now : N) (s : Server) : Server * result AcquireResponse :=
  let '(s, stop) := acquire_check c s in
  match stop with
  | Some r => (s, r)
  | None =>
      let '(s, r) := acquire_token c s in
      match r with
      | Err e => (s, Err e)
      | Ok token => let '(s, resp) := acquire_record c token now s in (s, Ok resp)
      end
  end.

(** From the wait on, with no other call interleaved; [None] is a request left
    waiting in the lock manager. *)
Definition acquire_rest (callerErr : option error) (c : call) (now : N) (s : Server)
    : Server * option (result AcquireResponse) :=
  let '(s, out) := acquire_wait callerErr c s in
  match out with
  | Parked => (s, None)
  | Returned (Some e) => let '(s, r) := acquire_failed callerErr c e s in (s, Some r)
  | Returned None => let '(s, r) := acquire_granted c now s in (s, Some r)
  end.

(** [Acquire] with no other call interleaved. *)
Definition Acquire (callerErr : option error) (txn : string) (res : option (N * string)) (m : N)
    (now : N) (s : Server) : Server * option (result AcquireResponse) :=
  let '(s, r) := acquire_ensure txn res m s in
  match r with
  | Err e => (s, Some (Err e))
  | Ok c =>
      match acquire_held c s with
      | Some r => (s, Some r)
      | None =>
          let '(s, c) := acquire_register c s in acquire_rest callerErr c now s
      end
  end.

(** ** Ending and revoking *)

(** [RenewLease] *)
Definition RenewLease (txn : string) (now : N) (s : Server) : Server * result Z :=
  match parseTxnID txn with
  | Err e => (s, Err e)
  | Ok ext =>
      let '(s, r) := renew ext now s in
      (s, match r with
          | Ok d => Ok (UnixNano d)
          | Err e => Err (status "FailedPrecondition" (error_Error e))
          end)
  end.

(** The loop over the fencing grants: the first failure stops it. *)
Fixpoint invalidateFences (gs : list Fencing.Grant) (f : F) : F * result unit :=
  match gs with
  | [] => (f, Ok ())
  | g :: gs =>
      let '(f, r) := Invalidate (Fencing.Resource g) (Fencing.OwnerTxn g) f in
      match r with
      | Err e => (f, Err (EWrap ("invalidating " +:+ Fencing.Grant_String g) e))
      | Ok _ => invalidateFences gs f
      end
  end.

(** [teardown]: fences first; locks and the tombstone only if they are dead. *)
Definition teardown (p : ptr) (now : N) (s : Server) : Server * result nat :=
  match heap s !! p with
  | None => (s, Ok 0%nat)
  | Some t =>
      let '(s, r) := match fences s with
        | None => (s, Ok ())
        | Some f => let '(f, r) := invalidateFences (fenceGrants t) f in (set_fences (Some f) s, r)
        end in
      match r with
      | Err e => (s, Err e)
      | Ok _ =>
          let released := HeldCount (internal t) (lm s) in
          let s := set_lm' (ReleaseAll (internal t) (lm s)).1 s in
          (finish (external t) now s, Ok released)
      end
  end.

(** [scheduleRetry], up to the start of its goroutine. *)
Definition scheduleRetry (p : ptr) (s : Server) : Server :=
  match heap s !! p with
  | None => s
  | Some t => set_retrying ({[external t]} ∪ retrying s) s
  end.

Definition EndTransaction (txn : string) (now : N) (s : Server) : Server * result nat :=
  match parseTxnID txn with
  | Err e => (s, Err e)
  | Ok ext =>
      let '(s, b) := beginTeardown ext txnEnding s in
      match b with
      | None => (s, Ok 0%nat)
      | Some (p, cancels) =>
          let '(s, r) := teardown p now (cancelAll cancels s) in
          match r with
          | Err e => (scheduleRetry p s, Err (status "Unavailable"
              ("grpccoord: could not invalidate fencing state for " +:+ uuid_String ext
               +:+ ", locks are still held and cleanup will retry: "
               +:+ error_Error e)))
          | Ok released => (s, Ok released)
          end
      end
  end.

Definition revoke (ext : UUID) (now : N) (s : Server) : Server :=
  let '(s, b) := beginTeardown ext txnRevoking s in
  match b with
  | None => s
  | Some (p, cancels) =>
      let '(s, r) := teardown p now (cancelAll cancels s) in
      match r with Err _ => scheduleRetry p s | Ok _ => s end
  end.

(** One tick of the retry goroutine of [scheduleRetry]. *)
Definition retry_tick (p : ptr) (now : N) (s : Server) : Server :=
  match heap s !! p with
  | None => s
  | Some t =>
      if decide (external t ∈ retrying s) then
        let '(s, r) := teardown p now s in
        match r with
        | Err _ => s
        | Ok _ => set_retrying (retrying s ∖ {[external t]}) s
        end
      else s
  end.

(** One tick of [sweepLeases]. *)
Definition sweep (now : N) (s : Server) : Server :=
  prune now (tombstoneRetention_ s)
    (foldl (λ s ext, revoke ext now s) s (expired now s)).

(** [Health]: active transactions, held locks, revoking transactions. *)
Definition Health (s : Server) : nat * nat * nat :=
  let '(active, revoking) := counts s in (active, TotalHeldCount (lm s), revoking).

Definition ActiveTransactions (s : Server) : nat :=
  let '(active, revoking) := counts s in (active + revoking)%nat.

(** ** The interleavings of concurrent calls *)

(** Where a goroutine of the server stands: an [Acquire] between two of its
    critical sections (waiting with the lock manager's request id, once
    parked; about to give a lock back and answer an error), or a teardown. A
    teardown keeps the slice of grants it took from the record and its
    position in it. [retry] tells the retry goroutine's teardowns. *)
Inductive stage :=
  | SEnsured (c : call)
  | SHeld (c : call) (g : grantRecord)
  | SRegistered (c : call)
  | SWaiting (c : call) (req : ptr)
  | SFailed (c : call) (e : error)
  | SGranted (c : call)
  | SCleaned (c : call)
  | SChecked (c : call)
  | SUndo (c : call) (e : error)
  | SToken (c : call) (token : N)
  | SRecorded (c : call) (token : N)
  | STeardown (p : ptr) (retry : bool)
  | SInvalidate (p : ptr) (retry : bool) (grants : list Fencing.Grant) (i : nat)
  | SRelease (p : ptr) (retry : bool) (grants : list Fencing.Grant)
  | SFinish (p : ptr) (retry : bool) (grants : list Fencing.Grant).

(** The server, its goroutines, and the responses returned so far. *)
Record config := mkConfig {
  server : Server;
  calls : gmap N stage;
  responses : gmap N (call * result AcquireResponse) }.

Definition call_txn (c : call) (s : Server) : TxnID := from_option internal 0 (heap s !! c_txn c).

(** The stage that follows what the lock manager answered. *)
Definition after_wait (c : call) (req : ptr) (out : outcome) : stage :=
  match out with
  | Parked => SWaiting c req
  | Returned None => SGranted c
  | Returned (Some e) => SFailed c e
  end.

Definition retry_done (p : ptr) (retry : bool) (s : Server) : Server :=
  match heap s !! p with
  | Some t => if retry then set_retrying (retrying s ∖ {[external t]}) s else s
  | None => s
  end.

Inductive srv_step : config → config → Prop :=
  | st_ensure i txn res m s cs rs s' c :
      cs !! i = None → acquire_ensure txn res m s = (s', Ok c) →
      srv_step (mkConfig s cs rs) (mkConfig s' (<[i := SEnsured c]> cs) rs)
  | st_ensure_err txn res m s cs rs s' e :
      acquire_ensure txn res m s = (s', Err e) →
      srv_step (mkConfig s cs rs) (mkConfig s' cs rs)
  | st_upgrade i c e s cs rs :
      cs !! i = Some (SEnsured c) → acquire_held c s = Some (Err e) →
      srv_step (mkConfig s cs rs) (mkConfig s (delete i cs) (<[i := (c, Err e)]> rs))
  | st_held i c g s cs rs :
      cs !! i = Some (SEnsured c) → heldGrant c s = Some g → gr_mode g = c_mode c →
      srv_step (mkConfig s cs rs) (mkConfig s (<[i := SHeld c g]> cs) rs)
  | st_held_answer i c g s cs rs :
      cs !! i = Some (SHeld c g) →
      srv_step (mkConfig s cs rs)
        (mkConfig s (delete i cs) (<[i := (c, Ok (mkResponse (gr_token g) (heldDeadline c s)))]> rs))
  | st_register i c s cs rs s' c' :
      cs !! i = Some (SEnsured c) → acquire_held c s = None → acquire_register c s = (s', c') →
      srv_step (mkConfig s cs rs) (mkConfig s' (<[i := SRegistered c']> cs) rs)
  | st_wait i c e s cs rs s' out :
      cs !! i = Some (SRegistered c) → acquire_wait e c s = (s', out) →
      srv_step (mkConfig s cs rs)
        (mkConfig s' (<[i := after_wait c (next_ptr (lm s') - 1) out]> cs) rs)
  | st_wake i c j w e l out s cs rs :
      cs !! i = Some (SWaiting c j) → waiters (lm s) !! j = Some w → w_awake w = true →
      acquire_iteration w e (lm s) = (l, out) →
      srv_step (mkConfig s cs rs) (mkConfig (set_lm' l s) (<[i := after_wait c j out]> cs) rs)
  | st_watcher_fires j p s cs rs :
      watchers (lm s) !! j = Some p →
      srv_step (mkConfig s cs rs) (mkConfig (set_lm' (watcherFires j p (lm s)) s) cs rs)
  | st_watcher_stops j s cs rs :
      waiters (lm s) !! j = None →
      srv_step (mkConfig s cs rs) (mkConfig (set_lm' (watcherStops j (lm s)) s) cs rs)
  | st_failed i c e ce s cs rs s' r :
      cs !! i = Some (SFailed c e) → acquire_failed ce c e s = (s', r) →
      srv_step (mkConfig s cs rs) (mkConfig s' (delete i cs) (<[i := (c, r)]> rs))
  | st_cleanup i c s cs rs :
      cs !! i = Some (SGranted c) →
      srv_step (mkConfig s cs rs) (mkConfig (acquire_cleanup c s) (<[i := SCleaned c]> cs) rs)
  | st_check i c s cs rs :
      cs !! i = Some (SCleaned c) →
      srv_step (mkConfig s cs rs)
        (mkConfig s (<[i := if stillActive c s then SChecked c else SUndo c endedWhileQueued]> cs) rs)
  | st_allocate i c s cs rs s' r :
      cs !! i = Some (SChecked c) → acquire_allocate c s = (s', r) →
      srv_step (mkConfig s cs rs)
        (mkConfig s' (<[i := match r with Ok t => SToken c t | Err e => SUndo c e end]> cs) rs)
  | st_undo i c e s cs rs :
      cs !! i = Some (SUndo c e) →
      srv_step (mkConfig s cs rs)
        (mkConfig (releaseOne c s) (delete i cs) (<[i := (c, Err e)]> rs))
  | st_record i c t s cs rs :
      cs !! i = Some (SToken c t) →
      srv_step (mkConfig s cs rs)
        (mkConfig (recordGrant (c_txn c) (mkGrantRecord (c_resource c) (c_mode c) t) s)
           (<[i := SRecorded c t]> cs) rs)
  | st_lease i c t now s cs rs s' deadline :
      cs !! i = Some (SRecorded c t) → startLeaseIfNeeded (c_txn c) now s = (s', deadline) →
      srv_step (mkConfig s cs rs)
        (mkConfig s' (delete i cs)
           (<[i := (c, Ok (mkResponse t (UnixNano (Some deadline))))]> rs))
  | st_renew txn now s cs rs :
      srv_step (mkConfig s cs rs) (mkConfig (RenewLease txn now s).1 cs rs)
  | st_begin i ext st s cs rs s' p cancels :
      (* [EndTransaction] and [revoke] *)
      cs !! i = None → st ≠ txnActive → beginTeardown ext st s = (s', Some (p, cancels)) →
      srv_step (mkConfig s cs rs)
        (mkConfig (cancelAll cancels s') (<[i := STeardown p false]> cs) rs)
  | st_retry i p t s cs rs :
      cs !! i = None → heap s !! p = Some t → external t ∈ retrying s →
      srv_step (mkConfig s cs rs) (mkConfig s (<[i := STeardown p true]> cs) rs)
  | st_snapshot i p b t s cs rs :
      cs !! i = Some (STeardown p b) → heap s !! p = Some t →
      srv_step (mkConfig s cs rs)
        (mkConfig s (<[i := SInvalidate p b (fenceGrants t) 0]> cs) rs)
  | st_invalidate i p b gs k g f f' r s cs rs :
      cs !! i = Some (SInvalidate p b gs k) → fences s = Some f → gs !! k = Some g →
      Invalidate (Fencing.Resource g) (Fencing.OwnerTxn g) f = (f', r) →
      srv_step (mkConfig s cs rs)
        (match r with
         | Ok _ => mkConfig (set_fences (Some f') s) (<[i := SInvalidate p b gs (S k)]> cs) rs
         | Err _ => mkConfig (scheduleRetry p (set_fences (Some f') s)) (delete i cs) rs
         end)
  | st_invalidated i p b gs k s cs rs :
      cs !! i = Some (SInvalidate p b gs k) → fences s = None ∨ gs !! k = None →
      srv_step (mkConfig s cs rs) (mkConfig s (<[i := SRelease p b gs]> cs) rs)
  | st_release i p b gs t order s cs rs :
      cs !! i = Some (SRelease p b gs) → heap s !! p = Some t →
      order ≡ₚ heldKeys (internal t) (lm s) →
      srv_step (mkConfig s cs rs)
        (mkConfig (set_lm' (ReleaseAll_in order (internal t) (lm s)).1 s)
           (<[i := SFinish p b gs]> cs) rs)
  | st_finish i p b gs t now s cs rs :
      cs !! i = Some (SFinish p b gs) → heap s !! p = Some t →
      srv_step (mkConfig s cs rs)
        (mkConfig (retry_done p b (finish (external t) now s)) (delete i cs) rs)
  | st_prune now s cs rs :
      srv_step (mkConfig s cs rs) (mkConfig (prune now (tombstoneRetention_ s) s) cs rs).

Definition initial (fences : option F) (lease : N) : config :=
  mkConfig (NewServer fences lease) ∅ ∅.

Definition srv_reachable (cfg : config) : Prop :=
  ∃ fences lease, rtc srv_step (initial fences lease) cfg.

End coordinator.
