(* ===== verification/CoordinatorThms.v ===== *)
(** * Correctness of the lock coordinator

    The registry's invariant over every interleaving of calls, teardowns,
    retries and sweeps; the one-way lifecycle of a transaction; that fences
    die before locks move; and what each RPC does on each of its branches. *)

From S2P Require Import Prelude Json JsonThms Libs LockManager LockManagerInv.
From S2P Require Import LockManagerThms Fencing FenceStore Coordinator.
Import LM LMInv.
Open Scope string_scope.
Open Scope N_scope.

Section thms.
Context `{UuidLib} {F : Type} `{FenceLaws F}.

Implicit Types s : Server (F:=F).

(** ** The invariant *)

Record reg_inv s : Prop := {
  ri_byID ext p : byID s !! ext = Some p → ∃ t, heap s !! p = Some t ∧ external t = ext;
  ri_fresh p t : heap s !! p = Some t → p < fresh_ptr s ∧ 0 < internal t ≤ next s;
  ri_inj p1 p2 t1 t2 : heap s !! p1 = Some t1 → heap s !! p2 = Some t2 →
    internal t1 = internal t2 → p1 = p2;
  ri_max : next s ≤ max_uint64;
  ri_lm : reachable (lm s) }.

(** What never changes in a record, and what changes only one way. *)
Record advances (t t' : transaction) : Prop := {
  ad_external : external t' = external t;
  ad_internal : internal t' = internal t;
  ad_state : state t ≠ txnActive → state t' = state t;
  ad_finished : finished t = true → finished t' = true;
  ad_grants : t_grants t `prefix_of` t_grants t' }.

Lemma advances_refl t : advances t t.
Proof. by split. Qed.

Lemma advances_trans t1 t2 t3 : advances t1 t2 → advances t2 t3 → advances t1 t3.
Proof.
  intros [He Hi Hs Hf Hg] [He' Hi' Hs' Hf' Hg']. split; [congruence..| |auto|by etrans].
  intros Hn. rewrite Hs'; [by apply Hs|]. by rewrite Hs.
Qed.

Definition evolves s s' : Prop :=
  ∀ p t, heap s !! p = Some t → ∃ t', heap s' !! p = Some t' ∧ advances t t'.

Definition fences_evolve (o o' : option F) : Prop :=
  match o, o' with
  | None, None => True
  | Some f, Some f' => rtc fence_step f f'
  | _, _ => False
  end.

Lemma fences_refl o : fences_evolve o o.
Proof. destruct o; [apply rtc_refl|done]. Qed.

Lemma fences_trans o1 o2 o3 :
  fences_evolve o1 o2 → fences_evolve o2 o3 → fences_evolve o1 o3.
Proof. destruct o1, o2, o3; cbn; try done. apply transitivity. Qed.

(** One server function keeps the invariant, advances the records and uses
    the fence store through its operations. *)
Definition sound s s' : Prop :=
  reg_inv s → reg_inv s' ∧ evolves s s' ∧ fences_evolve (fences s) (fences s').

Lemma sound_refl s : sound s s.
Proof. intros Hi. split; [done|]. split; [|apply fences_refl]. intros p t Ht. exists t. eauto using advances_refl. Qed.

Lemma sound_trans s1 s2 s3 : sound s1 s2 → sound s2 s3 → sound s1 s3.
Proof.
  intros H12 H23 Hi. destruct (H12 Hi) as (Hi2 & He2 & Hf2). destruct (H23 Hi2) as (Hi3 & He3 & Hf3).
  split; [done|]. split; [|by eapply fences_trans].
  intros p t (t2 & Ht2 & Ha2)%He2. destruct (He3 _ _ Ht2) as (t3 & Ht3 & Ha3).
  exists t3. split; [done|]. by eapply advances_trans.
Qed.

(** *** Updates of a record *)

Lemma update_sound s p f :
  (∀ t, heap s !! p = Some t → advances t (f t)) → sound s (update_txn p f s).
Proof.
  intros Hf Hi. unfold update_txn. split; [|split; [|apply fences_refl]].
  - destruct Hi as [Hb Hfr Hinj Hmax Hlm]. split; cbn; try done.
    + intros ext q Hq. apply Hb in Hq as (t & Ht & <-).
      destruct (decide (q = p)) as [->|Hne].
      * exists (f t). rewrite lookup_alter_eq, Ht. split; [done|]. by apply ad_external, Hf.
      * exists t. by rewrite lookup_alter_ne.
    + intros q t [(-> & t0 & Ht0 & ->)|(Hne & Ht)]%lookup_alter_Some; [|by eapply Hfr].
      rewrite (ad_internal _ _ (Hf _ Ht0)). by eapply Hfr.
    + assert (∀ q t, alter f p (heap s) !! q = Some t → ∃ t0, heap s !! q = Some t0 ∧
        internal t = internal t0) as Hback.
      { intros q t [(-> & t0 & Ht0 & ->)|(Hne & Ht)]%lookup_alter_Some; [|by exists t].
        exists t0. split; [done|]. by apply ad_internal, Hf. }
      intros p1 p2 t1 t2 (u1 & Hu1 & E1)%Hback (u2 & Hu2 & E2)%Hback Heq.
      eapply Hinj; [done..|congruence].
  - intros q t Hq. cbn. destruct (decide (q = p)) as [->|Hne].
    + exists (f t). rewrite lookup_alter_eq, Hq. eauto.
    + exists t. rewrite lookup_alter_ne by done. eauto using advances_refl.
Qed.

(** Changes that leave the registry alone. *)
Lemma frame_sound s s' :
  heap s' = heap s → byID s' = byID s → next s' = next s → fresh_ptr s' = fresh_ptr s →
  (reachable (lm s) → reachable (lm s')) → fences_evolve (fences s) (fences s') → sound s s'.
Proof.
  intros Hh Hb Hn Hp Hl Hf Hi. split; [|split; [|done]].
  - destruct Hi. split; rewrite ?Hh, ?Hb, ?Hn, ?Hp; auto.
  - intros p t Ht. exists t. rewrite Hh. eauto using advances_refl.
Qed.

Lemma lm_sound s l : (reachable (lm s) → reachable l) → sound s (set_lm' l s).
Proof. intros Hl. apply frame_sound; try done. apply fences_refl. Qed.

Lemma ensure_sound s ext : sound s (ensure ext s).1.
Proof.
  unfold ensure. destruct (byID s !! ext) as [p|] eqn:Hb; [repeat case_match; apply sound_refl|].
  destruct (spent s || bool_decide (next s = max_uint64)) eqn:Hsp; cbn.
  { apply frame_sound; try done. apply fences_refl. }
  apply orb_false_iff in Hsp as [_ Hmax%bool_decide_eq_false].
  intros [Hb' Hfr Hinj Hm Hlm].
  assert (u64_add (next s) 1 = next s + 1) as Hnext.
  { apply u64_add_small. lia. }
  assert (∀ p t, heap s !! p = Some t → p ≠ fresh_ptr s) as Hne
    by (intros p t Ht%Hfr; lia).
  split; [|split; [|apply fences_refl]].
  - split; cbn; rewrite ?Hnext; try done; [| | |lia].
    + intros e p [[<- <-]|[Hn Hp]]%lookup_insert_Some.
      * eexists. by rewrite lookup_insert_eq.
      * apply Hb' in Hp as (t & Ht & <-). exists t.
        rewrite lookup_insert_ne by naive_solver. done.
    + intros p t [[<- <-]|[Hn Hp]]%lookup_insert_Some; cbn; [lia|].
      apply Hfr in Hp. lia.
    + intros p1 p2 t1 t2 [[<- <-]|[Hn1 Hp1]]%lookup_insert_Some
        [[<- <-]|[Hn2 Hp2]]%lookup_insert_Some; cbn; intros E; [done| | |by eapply Hinj].
      * apply Hfr in Hp2. lia.
      * apply Hfr in Hp1. lia.
  - intros p t Ht. exists t. cbn. rewrite lookup_insert_ne by naive_solver.
    eauto using advances_refl.
Qed.

Ltac record_update := intros; by split.

Lemma finish_sound s ext now : sound s (finish ext now s).
Proof. unfold finish. case_match; [|apply sound_refl]. apply update_sound. record_update. Qed.

Lemma prune_sound s now ret : sound s (prune now ret s).
Proof.
  intros [Hb Hfr Hinj Hm Hlm]. split; [|split; [|apply fences_refl]].
  - split; cbn; try done. intros ext p [Hp _]%map_lookup_filter_Some. by apply Hb.
  - intros p t Ht. exists t. eauto using advances_refl.
Qed.

Lemma startLease_sound s p now : sound s (startLeaseIfNeeded p now s).1.
Proof. apply update_sound. record_update. Qed.

Lemma renew_sound s ext now : sound s (renew ext now s).1.
Proof. unfold renew. repeat case_match; try apply sound_refl. apply update_sound. record_update. Qed.

Lemma recordGrant_sound s p g : sound s (recordGrant p g s).
Proof.
  apply update_sound. intros t _. split; try done. cbn. by apply prefix_app_r.
Qed.

Lemma registerPending_sound s p : sound s (registerPending p s).1.
Proof. apply update_sound. record_update. Qed.

Lemma clearPending_sound s p id : sound s (clearPending p id s).
Proof. apply update_sound. record_update. Qed.

Lemma cancelAll_sound s cs : sound s (cancelAll cs s).
Proof. apply frame_sound; try done. apply fences_refl. Qed.

Lemma cleanup_sound s c : sound s (acquire_cleanup c s).
Proof. eapply sound_trans; [apply clearPending_sound|apply cancelAll_sound]. Qed.

Lemma beginTeardown_sound s ext st : st ≠ txnActive → sound s (beginTeardown ext st s).1.
Proof.
  intros Hst. unfold beginTeardown. repeat case_match; try apply sound_refl.
  apply update_sound. intros t' Ht'. simplify_eq.
  match goal with E : _ || _ = false |- _ => apply orb_false_iff in E as [_ Hact%bool_decide_eq_false] end.
  by split.
Qed.

Lemma scheduleRetry_sound s p : sound s (scheduleRetry p s).
Proof.
  unfold scheduleRetry. case_match; [|apply sound_refl].
  apply frame_sound; try done. apply fences_refl.
Qed.

Lemma fences_sound s f f' : fences s = Some f → rtc fence_step f f' → sound s (set_fences (Some f') s).
Proof. intros Hf Hr. apply frame_sound; try done. cbn. by rewrite Hf. Qed.

Lemma release_sound s c : sound s (releaseOne c s).
Proof. apply lm_sound. intros Hl. eapply rtc_r; [done|constructor]. Qed.

Lemma allocate_sound s c : sound s (acquire_allocate c s).1.
Proof.
  unfold acquire_allocate. destruct (fences s) as [f|] eqn:Hf; [|apply sound_refl].
  case_decide; [|apply sound_refl].
  destruct (Allocate _ _ f) as [f' r] eqn:E. cbn.
  eapply fences_sound; [done|]. apply rtc_once.
  replace f' with (Allocate (Fencing.ResourceKey (Type_ (c_resource c)) (Key (c_resource c)))
    (uuid_String (c_external c)) f).1 by (by rewrite E). constructor.
Qed.

Lemma token_sound s c : sound s (acquire_token c s).1.
Proof.
  unfold acquire_token. pose proof (allocate_sound s c) as Hs.
  destruct (acquire_allocate c s) as [s' [t|e]]; [done|].
  eapply sound_trans; [exact Hs|]. apply release_sound.
Qed.

Lemma check_sound s c : sound s (acquire_check c s).1.
Proof.
  unfold acquire_check. case_match; [apply cleanup_sound|].
  eapply sound_trans; [apply cleanup_sound|apply release_sound].
Qed.

Lemma record_sound s c t now : sound s (acquire_record c t now s).1.
Proof.
  eapply sound_trans;
    [apply (recordGrant_sound s (c_txn c) (mkGrantRecord (c_resource c) (c_mode c) t))
    |apply startLease_sound].
Qed.

Lemma wait_sound s e c : sound s (acquire_wait e c s).1.
Proof.
  unfold acquire_wait.
  pose proof (LMThms.reachable_acquire (lm s)) as Hr.
  destruct (AcquireContext _ _ _ _ _) as [l out] eqn:E. cbn. apply lm_sound. intros Hl.
  specialize (Hr (Some (mkCtx (match e with Some e => Some e | None =>
    if decide ((c_txn c, c_req c) ∈ cancelledCtx s) then Some ECanceled else None end) true))
    (from_option internal 0 (heap s !! c_txn c)) (c_resource c) (c_mode c) Hl). by rewrite E in Hr.
Qed.

Lemma ensured_sound s txn res m : sound s (acquire_ensure txn res m s).1.
Proof.
  unfold acquire_ensure. destruct (parseTxnID txn) as [ext|]; [|apply sound_refl].
  destruct (resourceFromProto res); [|apply sound_refl].
  destruct (modeFromProto m); [|apply sound_refl].
  pose proof (ensure_sound s ext) as Hs. by destruct (ensure ext s).
Qed.

Lemma retry_done_sound s p b : sound s (retry_done p b s).
Proof.
  unfold retry_done. repeat case_match; try apply sound_refl.
  apply frame_sound; try done. apply fences_refl.
Qed.

Lemma invalidate_sound s f r o :
  fences s = Some f → sound s (set_fences (Some (Invalidate r o f).1) s).
Proof. intros Hf. eapply fences_sound; [done|]. apply rtc_once. constructor. Qed.

(** Every step of every goroutine is sound. *)
Lemma step_sound cfg cfg' : srv_step cfg cfg' → sound (server cfg) (server cfg').
Proof.
  intros Hs. destruct Hs; cbn;
    repeat match goal with
    | E : ?f = (?s', _) |- context [?s'] => replace s' with (f.1) by (by rewrite E)
    end.
  - apply ensured_sound.
  - apply ensured_sound.
  - apply sound_refl.
  - apply sound_refl.
  - apply sound_refl.
  - match goal with E : acquire_register ?c ?s = _ |- _ => unfold acquire_register in E end.
    cbn. apply registerPending_sound.
  - apply wait_sound.
  - apply lm_sound. intros Hl. eapply rtc_r; [done|]. by eapply step_wake.
  - apply lm_sound. intros Hl. eapply rtc_r; [done|]. by apply step_watch_fires.
  - apply lm_sound. intros Hl. eapply rtc_r; [done|]. by apply step_watch_stops.
  - cbn. apply cleanup_sound.
  - apply cleanup_sound.
  - apply sound_refl.
  - apply allocate_sound.
  - apply release_sound.
  - apply recordGrant_sound.
  - apply startLease_sound.
  - unfold RenewLease. destruct (parseTxnID txn) as [ext|]; [|apply sound_refl].
    pose proof (renew_sound s ext now) as Hs. by destruct (renew ext now s).
  - eapply sound_trans; [by apply beginTeardown_sound|apply cancelAll_sound].
  - apply sound_refl.
  - apply sound_refl.
  - destruct r; cbn; [by apply invalidate_sound|].
    eapply sound_trans; [by apply invalidate_sound|apply scheduleRetry_sound].
  - apply sound_refl.
  - apply lm_sound. intros Hl. eapply rtc_r; [done|]. by apply step_release_all.
  - eapply sound_trans; [apply finish_sound|apply retry_done_sound].
  - apply prune_sound.
Qed.

Lemma initial_inv (f : option F) lease : reg_inv (server (initial f lease)).
Proof. split; cbn; try done. apply rtc_refl. Qed.

Lemma steps_sound cfg cfg' : rtc srv_step cfg cfg' → sound (server cfg) (server cfg').
Proof.
  induction 1 as [cfg|c1 c2 c3 Hs _ IH]; [apply sound_refl|].
  eapply sound_trans; [by apply step_sound|done].
Qed.

Lemma reachable_reg_inv (cfg : config (F:=F)) : srv_reachable cfg → reg_inv (server cfg).
Proof. intros (f & lease & Hr). by apply (steps_sound _ _ Hr), initial_inv. Qed.

(** ** Claims about every interleaving *)

(** C12. Two transactions of the coordinator never hold conflicting locks:
    whoever holds a resource exclusively in the lock manager is one
    transaction record, and no other record holds the resource in any mode.
    Behind it, internal ids are neither shared nor recycled: two records with
    the same internal id are one record, and an id that has ever named a
    record names that record for the rest of the coordinator's life, also
    after the transaction has ended and its tombstone was pruned. *)
Theorem coordinated_exclusion (cfg cfg' : config (F:=F)) p1 p2 t1 t2 r m :
  srv_reachable cfg → rtc srv_step cfg cfg' →
  heap (server cfg) !! p1 = Some t1 → heap (server cfg') !! p2 = Some t2 →
  (internal t1 = internal t2 → p2 = p1 ∧ external t2 = external t1) ∧
  (holds (lm (server cfg')) (internal t1) r = Some ExclusiveLock →
   holds (lm (server cfg')) (internal t2) r = Some m →
   p2 = p1 ∧ m = ExclusiveLock).
Proof.
  intros Hr%reachable_reg_inv Hs H1' H2'.
  destruct (steps_sound _ _ Hs Hr) as (Hr' & He & _).
  destruct (He _ _ H1') as (t1' & H1'' & Ha). rewrite <-(ad_internal _ _ Ha). split.
  - intros Hi. assert (p1 = p2) as <- by (by eapply (ri_inj _ Hr')). split; [done|].
    rewrite H1'' in H2'. injection H2' as <-. apply Ha.
  - intros Hx Hm. destruct (LMThms.exclusive_alone _ _ _ _ _ (ri_lm _ Hr') Hx Hm) as [E ->].
    split; [|done]. by eapply (ri_inj _ Hr').
Qed.

(** What the registry answers a transaction that is over. *)
Definition refused s (ext : UUID) : Prop :=
  (∃ e, ensure ext s = (s, Err e)) ∧ (∀ now, ∃ e, renew ext now s = (s, Err e)) ∧
  (∀ st, beginTeardown ext st s = (s, None)).

Lemma inactive_refused s ext p t :
  byID s !! ext = Some p → heap s !! p = Some t → finished t = true ∨ state t ≠ txnActive →
  refused s ext.
Proof.
  intros Hb Hh Ho. unfold refused, ensure, renew, beginTeardown. rewrite Hb, Hh.
  destruct (finished t) eqn:Hf.
  { split; [by eexists|]. split; [intros; by eexists|done]. }
  destruct Ho as [?|Ho]; [done|].
  rewrite (bool_decide_eq_true_2 _ Ho). cbn. rewrite !decide_True by done.
  split; [by eexists|]. split; [intros; rewrite ?decide_True by done; by eexists|done].
Qed.

(** C17. A transaction that was ended or revoked never comes back: whatever the
    coordinator does afterwards, as long as its tombstone is kept every
    [Acquire], [RenewLease] and teardown under its id is refused and changes
    nothing, and its record keeps its identity. *)
Theorem no_revival (cfg cfg' : config (F:=F)) ext p t :
  srv_reachable cfg → rtc srv_step cfg cfg' →
  byID (server cfg) !! ext = Some p → heap (server cfg) !! p = Some t →
  state t ≠ txnActive →
  (∃ t', heap (server cfg') !! p = Some t' ∧ advances t t') ∧
  (byID (server cfg') !! ext = Some p → refused (server cfg') ext).
Proof.
  intros Hr%reachable_reg_inv Hs Hb Hh Hn.
  destruct (steps_sound _ _ Hs Hr) as (Hi & He & _).
  destruct (He _ _ Hh) as (t' & Ht' & Ha). split; [by exists t'|].
  intros Hb'. eapply inactive_refused; [done..|]. right.
  by rewrite (ad_state _ _ Ha).
Qed.

(** ** Tokens and teardowns *)

Definition in_time (f : F) (g : Fencing.Grant) : Prop :=
  Fencing.grant_Token g ≤ token_of f (Fencing.Resource g).
Definition dead (f : F) (g : Fencing.Grant) : Prop := ¬ current f g ∧ in_time f g.

Lemma in_time_rtc f f' g : rtc fence_step f f' → in_time f g → in_time f' g.
Proof. intros Hr Hg. unfold in_time in *. etrans; [done|by apply token_rtc]. Qed.

Lemma dead_rtc f f' g : rtc fence_step f f' → dead f g → dead f' g.
Proof. intros Hr [Hn Hg]. split; [by eapply stale_rtc|by eapply in_time_rtc]. Qed.

Definition call_key (c : call) : string :=
  Fencing.ResourceKey (Type_ (c_resource c)) (Key (c_resource c)).

(** What a goroutine's position says about the fence store. *)
Definition stage_ok (f : F) (st : stage) : Prop :=
  match st with
  | SToken c token => c_mode c = ExclusiveLock → token ≤ token_of f (call_key c)
  | SInvalidate _ _ gs k => Forall (in_time f) gs ∧ Forall (dead f) (take k gs)
  | SRelease _ _ gs | SFinish _ _ gs => Forall (dead f) gs
  | _ => True
  end.

Lemma stage_ok_rtc f f' st : rtc fence_step f f' → stage_ok f st → stage_ok f' st.
Proof.
  intros Hr. destruct st; cbn; try done.
  - intros Ht Hm. etrans; [by apply Ht|by apply token_rtc].
  - intros [Hg Hd]. split; eapply Forall_impl; eauto using in_time_rtc, dead_rtc.
  - intros Hd. eapply Forall_impl; eauto using dead_rtc.
  - intros Hd. eapply Forall_impl; eauto using dead_rtc.
Qed.

Definition heap_ok (f : F) s : Prop :=
  ∀ p t, heap s !! p = Some t → Forall (in_time f) (fenceGrants t).

Record tok_inv (cfg : config (F:=F)) (f : F) : Prop := {
  ti_heap : heap_ok f (server cfg);
  ti_calls i st : calls cfg !! i = Some st → stage_ok f st }.

(** No grant was recorded. *)
Definition same_grants s s' : Prop :=
  ∀ p t', heap s' !! p = Some t' → t_grants t' = [] ∨
    ∃ t, heap s !! p = Some t ∧ external t' = external t ∧ t_grants t' = t_grants t.

Lemma same_refl s : same_grants s s.
Proof. intros p t Ht. right. by exists t. Qed.

Lemma same_update s p f :
  (∀ t, external (f t) = external t ∧ t_grants (f t) = t_grants t) →
  same_grants s (update_txn p f s).
Proof.
  intros Hf q t' Hq. cbn in Hq.
  apply lookup_alter_Some in Hq as [(-> & t & Ht & ->)|(_ & Ht)]; right; [|by exists t'].
  exists t. destruct (Hf t). done.
Qed.

Lemma same_heap_ok f s s' : same_grants s s' → heap_ok f s → heap_ok f s'.
Proof.
  intros Hs Hh p t' Ht'. unfold fenceGrants. destruct (Hs _ _ Ht') as [->|(t & Ht & -> & ->)].
  - constructor.
  - by apply Hh in Ht.
Qed.

Lemma heap_ok_rtc f f' s : rtc fence_step f f' → heap_ok f s → heap_ok f' s.
Proof. intros Hr Hh p t Ht. eapply Forall_impl; [by eapply Hh|]. eauto using in_time_rtc. Qed.

Ltac same_tac := repeat case_match; cbn; try apply same_refl; try (by apply same_update);
  try match goal with |- same_grants ?s _ => exact (same_refl s) end.

Lemma ensured_same s txn res m : same_grants s (acquire_ensure txn res m s).1.
Proof.
  unfold acquire_ensure. destruct (parseTxnID txn) as [ext|]; [|apply same_refl].
  destruct (resourceFromProto res); [|apply same_refl].
  destruct (modeFromProto m); [|apply same_refl].
  destruct (ensure ext s) as [s' r] eqn:E. cbn. unfold ensure in E.
  repeat case_match; simplify_eq; try exact (same_refl _); try exact (same_refl s).
  intros p t. cbn. intros [[<- <-]|[_ Hp]]%lookup_insert_Some; [by left|right; by exists t].
Qed.

Lemma wait_same s e c : same_grants s (acquire_wait e c s).1.
Proof. unfold acquire_wait. same_tac. Qed.

Lemma allocate_same s c : same_grants s (acquire_allocate c s).1.
Proof. unfold acquire_allocate. same_tac. Qed.

Lemma renew_same s ext now : same_grants s (renew ext now s).1.
Proof. unfold renew. same_tac. Qed.

Lemma beginTeardown_same s ext st : same_grants s (beginTeardown ext st s).1.
Proof. unfold beginTeardown. same_tac. Qed.

Lemma finish_same s ext now p b : same_grants s (retry_done p b (finish ext now s)).
Proof.
  assert (same_grants s (finish ext now s)) as Hs by (unfold finish; same_tac).
  unfold retry_done. repeat case_match; done.
Qed.

Lemma scheduleRetry_same s p : same_grants s (scheduleRetry p s).
Proof. unfold scheduleRetry. same_tac. Qed.

Lemma record_heap_ok f s c token :
  heap_ok f s → (c_mode c = ExclusiveLock → token ≤ token_of f (call_key c)) →
  heap_ok f (recordGrant (c_txn c) (mkGrantRecord (c_resource c) (c_mode c) token) s).
Proof.
  intros Hh Ht p t'. cbn.
  intros [(<- & t & Hp & ->)|(_ & Hp)]%lookup_alter_Some; [|by eapply Hh].
  unfold fenceGrants. cbn. rewrite omap_app. apply Forall_app.
  split; [by apply (Hh (c_txn c) t)|].
  cbn. case_decide as Hm; [constructor|]. apply Forall_singleton. apply Ht.
  by destruct (decide (c_mode c = ExclusiveLock)).
Qed.

(** The invariant after a step, once the stage that moved is seen to. *)
Lemma tok_step cs (cfg : config (F:=F)) f f' s' rs :
  tok_inv cfg f → rtc fence_step f f' → same_grants (server cfg) s' →
  (∀ i st, cs !! i = Some st → calls cfg !! i = Some st ∨ stage_ok f' st) →
  tok_inv (mkConfig s' cs rs) f'.
Proof.
  intros [Hh Hc] Hr Hs Hcs. split; cbn.
  - eapply same_heap_ok; [done|]. by eapply heap_ok_rtc.
  - intros i st [Hi|?]%Hcs; [|done]. eapply stage_ok_rtc; [done|]. by eapply Hc.
Qed.

Lemma calls_insert (cs : gmap N stage) i st0 (f : F) i' st :
  stage_ok f st0 → <[i := st0]> cs !! i' = Some st → cs !! i' = Some st ∨ stage_ok f st.
Proof. intros Hok [[_ <-]|[_ ?]]%lookup_insert_Some; auto. Qed.

Lemma calls_delete (cs : gmap N stage) i (f : F) i' st :
  delete i cs !! i' = Some st → cs !! i' = Some st ∨ stage_ok f st.
Proof. intros [_ ?]%lookup_delete_Some. by left. Qed.

Lemma after_wait_ok f c j out : stage_ok f (after_wait c j out).
Proof. by destruct out as [[]|]. Qed.

Lemma token_stage_ok s c s' t f' :
  acquire_allocate c s = (s', Ok t) → fences s' = Some f' → stage_ok f' (SToken c t).
Proof.
  unfold acquire_allocate. intros E Hf' Hm. destruct (fences s) as [f|] eqn:Hf; [|congruence].
  rewrite decide_True in E by done.
  destruct (Allocate _ _ f) as [f1 [t1|]] eqn:Ea; simplify_eq/=.
  apply Allocate_Ok in Ea as [_ Ea]. unfold token_of, call_key. by rewrite Ea.
Qed.

Lemma step_tok cfg cfg' f f' :
  srv_step cfg cfg' → fences (server cfg) = Some f → fences (server cfg') = Some f' →
  rtc fence_step f f' → tok_inv cfg f → tok_inv cfg' f'.
Proof.
  intros Hs Hf Hf' Hr Hi. destruct Hs; cbn in Hf, Hf';
    repeat match goal with
    | E : ?g ?x = (?s', _) |- tok_inv (mkConfig ?s' _ _) _ =>
        replace s' with ((g x).1) in * by (by rewrite E)
    end.
  - eapply tok_step; [done..|apply ensured_same|]. intros ??. by apply calls_insert.
  - eapply tok_step; [done..|apply ensured_same|]. naive_solver.
  - eapply tok_step; [done..|apply same_refl|]. intros ??. apply calls_delete.
  - eapply tok_step; [done..|apply same_refl|]. intros ??. by apply calls_insert.
  - eapply tok_step; [done..|apply same_refl|]. intros ??. apply calls_delete.
  - eapply tok_step; [done..|by apply same_update|intros ??; by apply calls_insert].
  - eapply tok_step; [done..|apply wait_same|intros ??; apply calls_insert, after_wait_ok].
  - eapply tok_step; [done..|exact (same_refl s)|intros ??; apply calls_insert, after_wait_ok].
  - eapply tok_step; [done..|exact (same_refl s)|naive_solver].
  - eapply tok_step; [done..|exact (same_refl s)|naive_solver].
  - eapply tok_step; [done..|by apply same_update|intros ??; apply calls_delete].
  - eapply tok_step; [done..|by apply same_update|intros ??; by apply calls_insert].
  - eapply tok_step; [done..|apply same_refl|intros ??; apply calls_insert]. by case_match.
  - match goal with E : acquire_allocate ?c ?s = (?s', _) |- _ =>
        pose proof (allocate_same s c) as Hx; rewrite E in Hx end.
    eapply tok_step; [done..|exact Hx|intros ??; apply calls_insert].
    destruct r as [t|e]; [by eapply token_stage_ok|done].
  - eapply tok_step; [done..|exact (same_refl s)|intros ??; apply calls_delete].
  - split; cbn.
    + apply record_heap_ok.
      * eapply heap_ok_rtc; [done|apply Hi].
      * apply (stage_ok_rtc f f' (SToken c t) Hr). by apply (ti_calls _ _ Hi i).
    + intros ?? [[_ <-]|[_ ?]]%lookup_insert_Some; [done|].
      eapply stage_ok_rtc; [done|]. by eapply (ti_calls _ _ Hi).
  - eapply tok_step; [done..|by apply same_update|intros ??; apply calls_delete].
  - eapply tok_step; [done..| |naive_solver]. unfold RenewLease. cbn.
    destruct (parseTxnID txn) as [ext|]; [|apply same_refl].
    pose proof (renew_same s ext now) as Hx. by destruct (renew ext now s).
  - eapply tok_step; [done..| |intros ??; by apply calls_insert].
    match goal with E : beginTeardown ?e ?st ?s = (?s', _) |- _ =>
      pose proof (beginTeardown_same s e st) as Hx; rewrite E in Hx end. exact Hx.
  - eapply tok_step; [done..|apply same_refl|intros ??; by apply calls_insert].
  - eapply tok_step; [done..|apply same_refl|intros ??; apply calls_insert].
    split; [|by constructor]. simplify_eq. by eapply (ti_heap _ _ Hi).
  - match goal with E : cs !! i = Some _ |- _ => pose proof (ti_calls _ _ Hi i _ E) as [Hg Hd] end.
    simplify_eq.
    destruct r as [u|e]; simplify_eq/=.
    + eapply tok_step; [done..|exact (same_refl s)|intros ??; apply calls_insert].
      split; [eapply Forall_impl; eauto using in_time_rtc|].
      erewrite take_S_r by done. apply Forall_app. split; [eapply Forall_impl; eauto using dead_rtc|].
      apply Forall_singleton. split.
      * intros Hc%current_owns. by eapply invalidate_kills.
      * eapply in_time_rtc; [done|]. by eapply Forall_lookup_1.
    + eapply tok_step; [done..| |intros ??; apply calls_delete].
      apply (scheduleRetry_same (set_fences _ s)).
  - match goal with E : cs !! i = Some _ |- _ => pose proof (ti_calls _ _ Hi i _ E) as [Hg Hd] end.
    simplify_eq.
    eapply tok_step; [done..|exact (same_refl s)|intros ??; apply calls_insert]. cbn.
    match goal with O : _ ∨ _ |- _ => destruct O as [?|Hk%lookup_ge_None]; [congruence|] end.
    rewrite take_ge in Hd by done. done.
  - eapply tok_step; [done..|exact (same_refl s)|intros ??; apply calls_insert].
    simplify_eq. by apply (ti_calls _ _ Hi i (SRelease p b gs)).
  - eapply tok_step; [done..|apply finish_same|intros ??; apply calls_delete].
  - eapply tok_step; [done..|exact (same_refl s)|naive_solver].
Qed.

Lemma initial_tok (f : F) lease : tok_inv (initial (Some f) lease) f.
Proof.
  split; cbn.
  - intros p t. cbn. by rewrite lookup_empty.
  - intros i st. by rewrite lookup_empty.
Qed.

(** Steps keep the token invariant, with the store's state of each end. *)
Lemma steps_tok cfg cfg' :
  rtc srv_step cfg cfg' → reg_inv (server cfg) →
  (∀ f, fences (server cfg) = Some f → tok_inv cfg f) →
  ∀ f', fences (server cfg') = Some f' → tok_inv cfg' f'.
Proof.
  induction 1 as [cfg|c1 c2 c3 Hs _ IH]; intros Hi Ht; [done|].
  destruct (step_sound _ _ Hs Hi) as (Hi2 & _ & Hf). apply IH; [done|].
  intros f2 Hf2. rewrite Hf2 in Hf. destruct (fences (server c1)) as [f1|] eqn:Hf1; [|done].
  eapply step_tok; eauto.
Qed.

Lemma reachable_tok (cfg : config (F:=F)) f :
  srv_reachable cfg → fences (server cfg) = Some f → tok_inv cfg f.
Proof.
  intros (f0 & lease & Hr). eapply (steps_tok _ _ Hr); [apply initial_inv|].
  intros f1 E. cbn in E. subst f0. apply initial_tok.
Qed.

(** *** What a teardown covers *)

(** The fencing grants [gs0] are on the record [p], and the teardown that
    goroutine [i] runs on it, once it has read the record, invalidates them. *)
Definition covers (i : N) (p : ptr) (gs0 : list Fencing.Grant) (cfg : config (F:=F)) : Prop :=
  (∃ t, heap (server cfg) !! p = Some t ∧ gs0 ⊆ fenceGrants t) ∧
  match calls cfg !! i with
  | Some (SInvalidate p' _ gs _) | Some (SRelease p' _ gs) => p' = p → gs0 ⊆ gs
  | _ => True
  end.

Lemma fenceGrants_advance t t' : advances t t' → fenceGrants t ⊆ fenceGrants t'.
Proof.
  intros [He _ _ _ [l Hl]]. unfold fenceGrants. rewrite Hl, omap_app, He. set_solver.
Qed.

Lemma after_wait_covers (c : call) j out p (gs0 : list Fencing.Grant) :
  match after_wait c j out with
  | SInvalidate p' _ gs _ | SRelease p' _ gs => p' = p → gs0 ⊆ gs
  | _ => True
  end.
Proof. by destruct out as [[]|]. Qed.

Lemma step_covers i p gs0 cfg cfg' :
  reg_inv (server cfg) → srv_step cfg cfg' → covers i p gs0 cfg → covers i p gs0 cfg'.
Proof.
  intros Hinv Hs [(t & Ht & Hgs) Hi]. destruct (step_sound _ _ Hs Hinv) as (_ & Hev & _). split.
  { destruct (Hev _ _ Ht) as (t' & Ht' & Ha). exists t'. split; [done|].
    etrans; [done|]. by apply fenceGrants_advance. }
  destruct Hs; cbn in *; repeat case_match; cbn in *; simplify_eq; try done;
    repeat match goal with
    | H : <[?j := _]> _ !! i = Some _ |- _ =>
        apply lookup_insert_Some in H as [[-> H]|[? H]]
    | H : delete ?j _ !! i = Some _ |- _ => apply lookup_delete_Some in H as [? H]
    end; simplify_eq; simplify_map_eq; try done;
    try (intros ->; simplify_map_eq; auto; done);
    try (by match goal with H : after_wait ?c ?j ?out = _ |- _ =>
           generalize (after_wait_covers c j out p gs0); rewrite H end).
Qed.

Lemma steps_covers i p gs0 cfg cfg' :
  reg_inv (server cfg) → rtc srv_step cfg cfg' → covers i p gs0 cfg → covers i p gs0 cfg'.
Proof.
  intros Hinv Hs. revert Hinv. induction Hs as [|c1 c2 c3 Hs _ IH]; intros Hinv Hc; [done|].
  apply IH; [by apply (step_sound _ _ Hs)|]. by eapply step_covers.
Qed.

(** C2. Fences die before locks move: when a teardown, graceful, forced or
    retried, is about to release its transaction's locks, no fencing grant
    that was on the transaction's record when the teardown began is accepted
    by the store, and from then on none ever is again, whatever the other
    calls in progress do. *)
Theorem fences_die_before_locks_move (cfg0 cfg cfg' : config (F:=F)) i p b b' t gs f' g :
  srv_reachable cfg0 → calls cfg0 !! i = Some (STeardown p b) →
  heap (server cfg0) !! p = Some t →
  rtc srv_step cfg0 cfg → calls cfg !! i = Some (SRelease p b' gs) →
  rtc srv_step cfg cfg' → fences (server cfg') = Some f' →
  g ∈ t_grants t → gr_mode g = ExclusiveLock →
  ¬ current f' (Fencing.mkGrant (Fencing.ResourceKey (Type_ (gr_resource g)) (Key (gr_resource g)))
                  (gr_token g) (uuid_String (external t))).
Proof.
  intros Hr0 Hi0 Ht Hs0 Hi Hs Hf' Hg Hm.
  assert (srv_reachable cfg) as Hr by (destruct Hr0 as (f0 & lease & ?); exists f0, lease; by etrans).
  destruct (steps_covers i p (fenceGrants t) _ _ (reachable_reg_inv _ Hr0) Hs0) as [_ Hc].
  { split; [by exists t|]. by rewrite Hi0. }
  rewrite Hi in Hc. specialize (Hc eq_refl).
  destruct (steps_sound _ _ Hs (reachable_reg_inv _ Hr)) as (_ & _ & Hf). rewrite Hf' in Hf.
  destruct (fences (server cfg)) as [f|] eqn:Ef; [|done].
  pose proof (ti_calls _ _ (reachable_tok _ _ Hr Ef) _ _ Hi) as Hd. cbn in Hd.
  rewrite Forall_forall in Hd. eapply (dead_rtc _ _ _ Hf), Hd, Hc.
  apply list_elem_of_omap. exists g. by rewrite Hm.
Qed.

End thms.
