(* ===== verification/CoordinatorRpc.v ===== *)
(** * The coordinator's calls, one at a time

    What each RPC of src/client/coordination/grpccoord/server.go does on each
    of its branches when it is not interleaved with another call, and one
    interleaving in which it does not do what it says. *)

From S2P Require Import Prelude Json JsonThms Libs LockManager LockManagerInv.
From S2P Require Import LockManagerThms Fencing FenceStore Coordinator CoordinatorThms.
Import LM LMInv.
Open Scope string_scope.
Open Scope N_scope.

Section rpc.
Context `{UuidLib} {F : Type} `{FenceLaws F}.

Implicit Types s : Server (F:=F).

(** ** Ending *)

(** The transaction [ext] is known, accepting work, and is the record [t]. *)
Definition active s (ext : UUID) (p : ptr) (t : transaction) : Prop :=
  byID s !! ext = Some p ∧ heap s !! p = Some t ∧ finished t = false ∧ state t = txnActive.

(** The record once its teardown has begun. *)
Definition begun (st : lifecycle) (t : transaction) : transaction :=
  mkTransaction (external t) (internal t) st (leaseDeadline t) (leaseStarted t) (t_grants t) ∅
    (nextReq t) (finished t) (finishedAt t).

Lemma beginTeardown_active s ext st p t :
  active s ext p t → ∃ cancels, beginTeardown ext st s =
    (update_txn p (begun st) s, Some (p, cancels)).
Proof.
  intros (Hb & Hh & Hf & Hs). unfold beginTeardown. rewrite Hb, Hh, Hf, Hs.
  rewrite bool_decide_eq_false_2 by naive_solver. cbn. eauto.
Qed.

Lemma beginTeardown_inactive s ext st :
  (∀ p t, ¬ active s ext p t) → beginTeardown ext st s = (s, None).
Proof.
  intros Hn. unfold beginTeardown. destruct (byID s !! ext) as [p|] eqn:Hb; [|done].
  destruct (heap s !! p) as [t|] eqn:Hh; [|done].
  destruct (finished t) eqn:Hf; [done|]. cbn. case_bool_decide as Hs; [done|].
  exfalso. apply (Hn p t). by split_and!.
Qed.

Lemma invalidateFences_spec gs (f : F) :
  let '(f', r) := invalidateFences gs f in
  rtc fence_step f f' ∧
  (∀ r' o', ¬ owns f r' o' → ¬ owns f' r' o') ∧
  (∀ r' o' t, (∀ g, g ∈ gs → Fencing.OwnerTxn g ≠ o') → fence_of f r' = Some (t, Some o') →
     fence_of f' r' = Some (t, Some o')) ∧
  (r = Ok () → Forall (λ g, ¬ owns f' (Fencing.Resource g) (Fencing.OwnerTxn g)) gs).
Proof.
  revert f. induction gs as [|g gs IH]; intros f; cbn; [by split_and!; [apply rtc_refl|..]|].
  pose proof (invalidate_not_owns f (Fencing.Resource g) (Fencing.OwnerTxn g)) as Hno.
  pose proof (invalidate_other f (Fencing.Resource g) (Fencing.OwnerTxn g)) as Hot.
  pose proof (do_invalidate f (Fencing.Resource g) (Fencing.OwnerTxn g)) as Hst.
  destruct (Invalidate _ _ f) as [f1 [u|e]] eqn:E; cbn in *.
  - specialize (IH f1). destruct (invalidateFences gs f1) as [f2 r].
    destruct IH as (Hr & Hn2 & Ho2 & Hall). split_and!.
    + by eapply rtc_l.
    + intros r' o' Hn. by apply Hn2, Hno.
    + intros r' o' t Hg Hf. apply Ho2; [intros g' Hg'; apply Hg; by right|].
      apply Hot; [|done]. symmetry. apply Hg. by left.
    + intros Hr'. constructor; [|by apply Hall]. apply Hn2. by eapply invalidate_kills.
  - split_and!; [by apply rtc_once|done| |done].
    intros r' o' t Hg Hf. apply Hot; [|done]. symmetry. apply Hg. by left.
Qed.

Lemma fenceGrants_owner t g : g ∈ fenceGrants t → Fencing.OwnerTxn g = uuid_String (external t).
Proof.
  unfold fenceGrants. intros (x & _ & Hx)%list_elem_of_omap. by case_decide; simplify_eq.
Qed.

(** [teardown] on its two branches. *)
Lemma teardown_spec s p t now :
  heap s !! p = Some t →
  ∃ fo', fences_evolve (fences s) fo' ∧
    match teardown p now s with
    | (s', Err _) => s' = set_fences fo' s
    | (s', Ok n) =>
        s' = finish (external t) now (set_lm' (ReleaseAll (internal t) (lm s)).1 (set_fences fo' s)) ∧
        n = HeldCount (internal t) (lm s) ∧
        (∀ f f', fences s = Some f → fo' = Some f' →
          (∀ g, g ∈ fenceGrants t → ¬ owns f' (Fencing.Resource g) (Fencing.OwnerTxn g)) ∧
          ∀ r o k, o ≠ uuid_String (external t) → fence_of f r = Some (k, Some o) →
            fence_of f' r = Some (k, Some o))
    end.
Proof.
  intros Hp. unfold teardown. rewrite Hp. destruct (fences s) as [f|] eqn:Hf.
  - pose proof (invalidateFences_spec (fenceGrants t) f) as Hs.
    destruct (invalidateFences _ f) as [f' [[]|e]]; destruct Hs as (Hr & _ & Ho & Hall);
      exists (Some f'); (split; [done|]); cbn; [|done].
    split; [done|]. split; [done|]. intros ?? [= <-] [= <-]. split.
    + intros g Hg. by apply (proj1 (Forall_forall _ _) (Hall eq_refl)).
    + intros r o k Hne. apply Ho. intros g ->%fenceGrants_owner. congruence.
  - exists None. split; [done|]. cbn. destruct s; cbn in Hf; subst. done.
Qed.

Lemma active_or s ext : (∃ p t, active s ext p t) ∨ (∀ p t, ¬ active s ext p t).
Proof.
  unfold active. destruct (byID s !! ext) as [p|]; [|right; naive_solver].
  destruct (heap s !! p) as [t|] eqn:Hh; [|right; intros ?? ([= <-] & ? & _); congruence].
  destruct (decide (finished t = false ∧ state t = txnActive)) as [[? ?]|Hn].
  - left. by exists p, t.
  - right. intros ?? ([= <-] & Ht & ?). rewrite Hh in Ht. injection Ht as <-. naive_solver.
Qed.

Lemma end_inactive s txn ext now :
  parseTxnID txn = Ok ext → (∀ p t, ¬ active s ext p t) → EndTransaction txn now s = (s, Ok 0%nat).
Proof. intros Hp Hn. unfold EndTransaction. by rewrite Hp, beginTeardown_inactive. Qed.

Definition finished_at (now : N) (t : transaction) : transaction :=
  mkTransaction (external t) (internal t) (state t) (leaseDeadline t) (leaseStarted t)
    (t_grants t) (pending t) (nextReq t) true now.

(** What [EndTransaction] does to an active transaction: [s1] is the state
    with the record ending and some of its fences invalidated. *)
Lemma end_active s txn ext p t now :
  reg_inv s → parseTxnID txn = Ok ext → active s ext p t →
  ∃ fo can, fences_evolve (fences s) fo ∧
    let s1 := set_fences fo (cancelAll can (update_txn p (begun txnEnding) s)) in
    (∃ e, EndTransaction txn now s = (set_retrying ({[ext]} ∪ retrying s) s1, Err e)) ∨
    (EndTransaction txn now s =
       (update_txn p (finished_at now) (set_lm' (ReleaseAll (internal t) (lm s)).1 s1),
        Ok (HeldCount (internal t) (lm s))) ∧
     (∀ f f', fences s = Some f → fo = Some f' →
        (∀ g, g ∈ fenceGrants t → ¬ owns f' (Fencing.Resource g) (uuid_String ext)) ∧
        ∀ r o k, o ≠ uuid_String ext → fence_of f r = Some (k, Some o) →
          fence_of f' r = Some (k, Some o))).
Proof.
  intros Hi Hp Ha. unfold EndTransaction. rewrite Hp.
  destruct (beginTeardown_active s ext txnEnding p t Ha) as [can ->].
  destruct Ha as (Hb & Hh & Hf & Hs).
  assert (external t = ext) as Hext by (destruct (ri_byID _ Hi _ _ Hb) as (? & ? & ?); congruence).
  set (s1 := cancelAll can (update_txn p (begun txnEnding) s)) in *.
  assert (heap s1 !! p = Some (begun txnEnding t)) as Hh1 by (cbn; by rewrite lookup_alter_eq, Hh).
  destruct (teardown_spec s1 p _ now Hh1) as (fo & Hev & Ht). exists fo, can. split; [exact Hev|].
  destruct (teardown p now s1) as [s2 [n|e]]; [right|left].
  - destruct Ht as (-> & -> & Hall). cbn in *. split.
    + unfold finish. cbn. by rewrite Hext, Hb.
    + intros f f' Hfs Hfo. destruct (Hall f f' Hfs Hfo) as [Hg Ho]. rewrite Hext in Ho.
      split; [|exact Ho]. intros g Hg'. specialize (Hg g Hg').
      by rewrite (fenceGrants_owner t g Hg'), Hext in Hg.
  - eexists. f_equal. subst s2. unfold scheduleRetry. cbn.
    by rewrite lookup_alter_eq, Hh; cbn; rewrite Hext.
Qed.

(** C20. A teardown that cannot kill the fences keeps the locks: when
    [EndTransaction] fails, no lock has moved, the transaction stays in the
    ending state and refuses further work, and its cleanup is scheduled to be
    retried. *)
Theorem EndTransaction_fail_closed s txn ext now s' e :
  reg_inv s → parseTxnID txn = Ok ext → EndTransaction txn now s = (s', Err e) →
  lm s' = lm s ∧ refused s' ext ∧ ext ∈ retrying s' ∧
  ∃ p t, byID s' !! ext = Some p ∧ heap s' !! p = Some t ∧ state t = txnEnding ∧ finished t = false.
Proof.
  intros Hi Hp He. destruct (active_or s ext) as [(p & t & Ha)|Hn];
    [|by rewrite (end_inactive s txn ext now Hp Hn) in He].
  destruct (end_active s txn ext p t now Hi Hp Ha) as (fo & can & _ & [[e' E]|[E _]]);
    rewrite E in He; [injection He as <- _|done].
  destruct Ha as (Hb & Hh & Hf & Hs). cbn.
  assert (alter (begun txnEnding) p (heap s) !! p = Some (begun txnEnding t)) as Hh'
    by (by rewrite lookup_alter_eq, Hh).
  split; [done|]. split; [|split; [set_solver|by exists p, (begun txnEnding t)]].
  eapply (inactive_refused _ ext p (begun txnEnding t)); cbn; [done..|by right].
Qed.

(** C21. [EndTransaction] of an active transaction, when it succeeds: it reports
    the number of locks held, exactly the transaction's locks are released,
    its record is a tombstone that refuses further work, it owns none of the
    fences of its exclusive grants, and every fence another transaction owns
    is untouched. *)
Theorem EndTransaction_releases s txn ext p t now s' n :
  reg_inv s → parseTxnID txn = Ok ext → active s ext p t →
  EndTransaction txn now s = (s', Ok n) →
  n = HeldCount (internal t) (lm s) ∧
  (∀ u r, holds (lm s') u r = if decide (u = internal t) then None else holds (lm s) u r) ∧
  refused s' ext ∧
  ∀ f, fences s = Some f → ∃ f', fences s' = Some f' ∧
    (∀ g, g ∈ fenceGrants t → ¬ owns f' (Fencing.Resource g) (uuid_String ext)) ∧
    ∀ r o k, o ≠ uuid_String ext → fence_of f r = Some (k, Some o) →
      fence_of f' r = Some (k, Some o).
Proof.
  intros Hi Hp Ha He.
  destruct (end_active s txn ext p t now Hi Hp Ha) as (fo & can & Hev & [[e' E]|[E Hall]]);
    rewrite E in He; [done|injection He as <- <-].
  destruct Ha as (Hb & Hh & Hf & Hs).
  destruct (LMThms.release_all_holds (lm s) (heldKeys (internal t) (lm s)) (internal t)
    (ri_lm _ Hi) ltac:(done)) as (l & El & _ & Hh').
  split; [done|]. split; [|split].
  - cbn. unfold ReleaseAll. rewrite El. exact Hh'.
  - apply (inactive_refused _ ext p (finished_at now (begun txnEnding t))); cbn; [done| |by left].
    by rewrite !lookup_alter_eq, Hh.
  - intros f Hfs. cbn. rewrite Hfs in Hev. destruct fo as [f'|]; [|done].
    exists f'. split; [done|]. by apply Hall.
Qed.

(** [EndTransaction] is idempotent: after it has run once, whatever it
    answered, running it again succeeds, reports nothing released and changes
    nothing. *)
Theorem EndTransaction_idempotent s txn now now' :
  reg_inv s → is_ok (parseTxnID txn) = true →
  let s' := (EndTransaction txn now s).1 in EndTransaction txn now' s' = (s', Ok 0%nat).
Proof.
  intros Hi Hok. destruct (parseTxnID txn) as [ext|] eqn:Hp; [clear Hok|done].
  destruct (active_or s ext) as [(p & t & Ha)|Hn].
  - apply (end_inactive _ txn ext); [done|].
    destruct (end_active s txn ext p t now Hi Hp Ha) as (fo & can & _ & [[e' ->]|[-> _]]);
      destruct Ha as (Hb & Hh & _); intros p' t' (Hb' & Hh' & Hf' & Hs'); cbn in *;
      rewrite Hb in Hb'; injection Hb' as <-; rewrite !lookup_alter_eq, Hh in Hh';
      injection Hh' as <-; done.
  - rewrite (end_inactive s txn ext now Hp Hn). by apply (end_inactive _ txn ext).
Qed.

(** ** Acquiring *)

Lemma ensured_frame s txn res m :
  let s' := (acquire_ensure txn res m s).1 in
  lm s' = lm s ∧ fences s' = fences s ∧ leaseDuration s' = leaseDuration s.
Proof.
  unfold acquire_ensure. destruct (parseTxnID txn) as [ext|]; [|done].
  destruct (resourceFromProto res); [|done]. destruct (modeFromProto m); [|done].
  unfold ensure. repeat case_match; simplify_eq/=; done.
Qed.

(** A request that gets past [ensure] has an active transaction. *)
Lemma ensured_active s txn res m s' c :
  reg_inv s → acquire_ensure txn res m s = (s', Ok c) →
  ∃ ext r mode, parseTxnID txn = Ok ext ∧ resourceFromProto res = Ok r ∧ modeFromProto m = Ok mode ∧
    c = mkCall ext (c_txn c) r mode 0 ∧ ∃ t, active s' ext (c_txn c) t.
Proof.
  intros Hi. unfold acquire_ensure. destruct (parseTxnID txn) as [ext|] eqn:Hp; [|done].
  destruct (resourceFromProto res) as [r|]; [|done]. destruct (modeFromProto m) as [mode|]; [|done].
  destruct (ensure ext s) as [s1 [p|e]] eqn:E; [|done]. intros [= <- <-].
  exists ext, r, mode. do 4 (split; [done|]). cbn. unfold ensure in E. unfold active.
  destruct (byID s !! ext) as [q|] eqn:Hb.
  - destruct (heap s !! q) as [t|] eqn:Hh; [|done]. destruct (finished t) eqn:Hf; [done|].
    case_decide as Hs; [done|]. injection E as <- <-. exists t. rewrite Hb.
    by split_and!.
  - case_match; [done|]. injection E as <- <-. eexists. cbn. rewrite !lookup_insert_eq. done.
Qed.

Lemma granted_was_free ctx u r mode st st' :
  AcquireContext ctx u r mode st = (st', Returned None) → holds st u r = None.
Proof.
  unfold AcquireContext, holds. destruct ctx as [ctx|]; [|done].
  destruct (decide _); [done|]. destruct (ctx_Err ctx); [done|].
  by destruct (txnLocks st u !! r).
Qed.

(** Undoing a grant gives back exactly what it took. *)
Lemma release_undoes ctx u r mode st st' :
  reachable st → AcquireContext ctx u r mode st = (st', Returned None) →
  ∀ u' r', holds (Release u r st').1 u' r' = holds st u' r'.
Proof.
  intros Hre E u' r'. pose proof (granted_was_free _ _ _ _ _ _ E) as Hfree.
  pose proof (LMThms.acquire_holds st ctx u r mode) as Hh. rewrite E in Hh.
  pose proof (LMThms.reachable_acquire st ctx u r mode Hre) as Hre'. rewrite E in Hre'.
  destruct (releaseLocked_held st' u r mode (reachable_Inv _ Hre')) as (st2 & E2 & _ & Hh2).
  { rewrite Hh. by rewrite decide_True by done. }
  unfold Release. rewrite E2. cbn. rewrite Hh2, Hh.
  destruct (decide (u' = u ∧ r' = r)) as [[-> ->]|Hn]; [done|].
  rewrite decide_False by naive_solver. done.
Qed.

Lemma wait_inv e c s s' out :
  acquire_wait e c s = (s', out) →
  ∃ ctx l, s' = set_lm' l s ∧ AcquireContext ctx (call_txn c s) (c_resource c) (c_mode c) (lm s) = (l, out).
Proof.
  unfold acquire_wait. case_match eqn:E. intros [= <- <-]. eauto.
Qed.

(** After the lock manager's grant: an error undoes it. *)
Lemma granted_error c now s s' e :
  acquire_granted c now s = (s', Err e) →
  lm s' = (Release (call_txn c s) (c_resource c) (lm s)).1.
Proof.
  assert (∀ s0, call_txn c (acquire_cleanup c s0) = call_txn c s0) as Hc.
  { intros s0. unfold call_txn. cbn. rewrite lookup_alter_eq. by destruct (heap s0 !! c_txn c). }
  unfold acquire_granted, acquire_check. destruct (stillActive c _).
  - unfold acquire_token, acquire_allocate. destruct (fences (acquire_cleanup c s)) as [f|]; [|done].
    case_decide; [|done]. destruct (Allocate _ _ f) as [f' [t|e']]; [done|].
    intros [= <- _]. rewrite <-(Hc s). done.
  - intros [= <- _]. rewrite <-(Hc s). done.
Qed.

(** An [Acquire] that fails leaves no lock behind: on every error path,
    bad request, ended transaction, upgrade attempt, cancelled or refused wait,
    transaction ended meanwhile, fence store unavailable, exactly the locks
    held before the call are held after it. *)
Theorem Acquire_error_exact callerErr txn res m now s s' e :
  reg_inv s → Coordinator.Acquire callerErr txn res m now s = (s', Some (Err e)) →
  ∀ u r, holds (lm s') u r = holds (lm s) u r.
Proof.
  intros Hi. unfold Coordinator.Acquire. pose proof (ensured_frame s txn res m) as Hfr.
  pose proof (ensured_sound s txn res m Hi) as (Hi1 & _ & _).
  destruct (acquire_ensure txn res m s) as [s1 [c|e1]]; cbn in Hfr, Hi1;
    destruct Hfr as (<- & _ & _); [|by intros [= <- _]].
  destruct (acquire_held c s1); [by intros [= <- _]|].
  destruct (acquire_register c s1) as [s2 c2] eqn:E2. injection E2 as <- <-. unfold acquire_rest.
  destruct (acquire_wait callerErr _ _) as [s3 out] eqn:E3.
  apply wait_inv in E3 as (ctx & l & -> & E3). cbn in E3.
  pose proof (LMThms.acquire_holds (lm s1) ctx) as Hh.
  destruct out as [[err|]|]; [| |done].
  - intros [= <- _] u r. cbn.
    match type of E3 with AcquireContext _ ?u0 ?r0 ?m0 _ = _ => specialize (Hh u0 r0 m0) end.
    rewrite E3 in Hh. rewrite Hh. by rewrite decide_False by naive_solver.
  - destruct (acquire_granted _ now _) as [s4 r4] eqn:E4. intros [= <- ->] u r.
    apply granted_error in E4. rewrite E4. cbn.
    by apply (release_undoes _ _ _ _ _ _ (ri_lm _ Hi1) E3).
Qed.

(** A retry is answered with the original grant: a transaction that asks
    again for a resource it has been granted gets the same token and the same
    deadline if it asks for the same mode, is refused if it asks for another,
    and in both cases nothing changes. *)
Theorem Acquire_retry callerErr txn res m now s ext r mode p t g :
  parseTxnID txn = Ok ext → resourceFromProto res = Ok r → modeFromProto m = Ok mode →
  active s ext p t → grantFor t r = Some g →
  ∃ ans, Coordinator.Acquire callerErr txn res m now s = (s, Some ans) ∧
    if decide (gr_mode g = mode) then ans = Ok (mkResponse (gr_token g) (UnixNano (leaseTime t)))
    else is_ok ans = false.
Proof.
  intros Hp Hr Hm (Hb & Hh & Hf & Hs) Hg. unfold Coordinator.Acquire, acquire_ensure.
  rewrite Hp, Hr, Hm. unfold ensure. rewrite Hb, Hh, Hf, Hs. rewrite decide_False by naive_solver.
  unfold acquire_held, heldGrant. cbn. rewrite Hh. cbn. rewrite Hg.
  eexists. split; [done|]. destruct (decide (gr_mode g = mode)) as [Hd|Hd].
  - rewrite decide_False by naive_solver. unfold heldDeadline. cbn. by rewrite Hh.
  - by rewrite decide_True.
Qed.

(** The stages after an exclusive grant, when they succeed. *)
Lemma granted_exclusive c now s s' f t resp :
  active s (c_external c) (c_txn c) t → c_mode c = ExclusiveLock → fences s = Some f →
  acquire_granted c now s = (s', Ok resp) →
  byID s' = byID s ∧ lm s' = lm s ∧
  ∃ t' f', heap s' !! c_txn c = Some t' ∧ internal t' = internal t ∧ fences s' = Some f' ∧
    Allocate (call_key c) (uuid_String (c_external c)) f = (f', Ok (FencingToken resp)) ∧
    mkGrantRecord (c_resource c) ExclusiveLock (FencingToken resp) ∈ t_grants t' ∧
    leaseStarted t' = true ∧ leaseDeadline t' = now + leaseDuration s ∧
    LeaseExpires resp = Z.of_N (leaseDeadline t').
Proof.
  intros (Hb & Hh & Hf & Hs) Hm Hfs. unfold acquire_granted, acquire_check.
  destruct (stillActive c _); [|done]. unfold acquire_token, acquire_allocate. cbn -[acquire_record].
  rewrite Hfs, decide_True by done. destruct (Allocate _ _ f) as [f' [k|e]] eqn:Ea; [|done].
  cbn. intros [= <- <-]. cbn. split; [done|]. split; [done|].
  rewrite !lookup_alter_eq, Hh, Hm. cbn. do 2 eexists. split; [done|]. cbn.
  split_and!; try done. set_solver.
Qed.

Lemma rest_exclusive callerErr c now s s' f t resp :
  active s (c_external c) (c_txn c) t → c_mode c = ExclusiveLock → fences s = Some f →
  acquire_rest callerErr c now s = (s', Some (Ok resp)) →
  ∃ t' f', byID s' !! c_external c = Some (c_txn c) ∧ heap s' !! c_txn c = Some t' ∧
    fences s' = Some f' ∧ holds (lm s') (internal t') (c_resource c) = Some ExclusiveLock ∧
    Allocate (call_key c) (uuid_String (c_external c)) f = (f', Ok (FencingToken resp)) ∧
    mkGrantRecord (c_resource c) ExclusiveLock (FencingToken resp) ∈ t_grants t' ∧
    leaseStarted t' = true ∧ leaseDeadline t' = now + leaseDuration s ∧
    LeaseExpires resp = Z.of_N (leaseDeadline t').
Proof.
  intros Ha Hm Hf. unfold acquire_rest.
  destruct (acquire_wait callerErr c s) as [s3 out] eqn:E3.
  apply wait_inv in E3 as (ctx & l & -> & E3).
  destruct out as [[err|]|]; [by destruct callerErr; cbn; try case_decide| |done].
  destruct (acquire_granted c now _) as [s4 r4] eqn:E4. intros [= <- ->].
  apply (granted_exclusive _ _ _ _ f t) in E4
    as (Hb4 & Hl4 & t4 & f4 & Hh4 & Hin4 & Hf4 & Ea & Hg); [|done..].
  pose proof (LMThms.acquire_holds (lm s) ctx (call_txn c s) (c_resource c) (c_mode c)) as Hh.
  rewrite E3 in Hh. destruct Ha as (Hb & Ht & _).
  assert (call_txn c s = internal t) as Hc by (unfold call_txn; by rewrite Ht).
  exists t4, f4. rewrite Hb4, Hl4, Hin4. cbn. split; [done|]. split; [done|]. split; [done|].
  split; [|done]. by rewrite Hh, Hc, decide_True, Hm.
Qed.

Lemma register_call c s s' c' :
  acquire_register c s = (s', c') →
  c_external c' = c_external c ∧ c_txn c' = c_txn c ∧ c_resource c' = c_resource c ∧
  c_mode c' = c_mode c ∧ fences s' = fences s ∧ leaseDuration s' = leaseDuration s.
Proof. by intros [= <- <-]. Qed.

Lemma registered_active s ext p t c :
  active s ext p t → c_txn c = p →
  ∃ t', active (acquire_register c s).1 ext p t' ∧ internal t' = internal t.
Proof.
  intros (Hb & Hh & Hf & Hs) <-. eexists. unfold active. cbn. rewrite lookup_alter_eq, Hh.
  split; [split; [done|split; [done|by split]]|done].
Qed.

(** A transaction the call created has no grants. *)
Lemma ensured_ungranted s txn res m s' c ext t r :
  reg_inv s → acquire_ensure txn res m s = (s', Ok c) → active s' ext (c_txn c) t →
  c_external c = ext → (∀ p t, active s ext p t → grantFor t r = None) → grantFor t r = None.
Proof.
  intros Hi E Ha <- Hnew. unfold acquire_ensure in E.
  destruct (parseTxnID txn) as [ext|]; [|done]. destruct (resourceFromProto res) as [r'|]; [|done].
  destruct (modeFromProto m) as [mode|]; [|done].
  destruct (ensure ext s) as [s1 [p|e]] eqn:E1; [|done]. injection E as <- <-. cbn in *.
  unfold ensure in E1. destruct (byID s !! ext) as [q|] eqn:Hb.
  - repeat case_match; simplify_eq; by apply (Hnew p).
  - case_match; [done|]. injection E1 as <- <-. destruct Ha as (_ & Hh & _).
    cbn in Hh. rewrite lookup_insert_eq in Hh. by injection Hh as <-.
Qed.

(** C22. An exclusive grant is fenced: on a coordinator with a fence store, an
    [Acquire] that is not interrupted by other calls and grants a lock on a
    resource the transaction held in no mode (a repeated one is answered with
    the token it has) leaves the lock manager's exclusive lock with the
    transaction, the returned token durably current in the fence store under
    the transaction's name and one above the resource's previous token, the
    grant recorded for teardown, and the lease running. *)
Theorem Acquire_exclusive_fenced callerErr txn res now s s' f ext r resp :
  reg_inv s → fences s = Some f →
  parseTxnID txn = Ok ext → resourceFromProto res = Ok r →
  (∀ p t, active s ext p t → grantFor t r = None) →
  Coordinator.Acquire callerErr txn res LOCK_MODE_EXCLUSIVE now s = (s', Some (Ok resp)) →
  ∃ p t f', byID s' !! ext = Some p ∧ heap s' !! p = Some t ∧ fences s' = Some f' ∧
    holds (lm s') (internal t) r = Some ExclusiveLock ∧
    FencingToken resp = token_of f (Fencing.ResourceKey (Type_ r) (Key r)) + 1 ∧
    current f' (Fencing.mkGrant (Fencing.ResourceKey (Type_ r) (Key r)) (FencingToken resp)
                  (uuid_String ext)) ∧
    mkGrantRecord r ExclusiveLock (FencingToken resp) ∈ t_grants t ∧
    leaseStarted t = true ∧ leaseDeadline t = now + leaseDuration s ∧
    LeaseExpires resp = Z.of_N (leaseDeadline t).
Proof.
  intros Hi Hf Hp Hr Hnew. unfold Coordinator.Acquire.
  pose proof (ensured_frame s txn res LOCK_MODE_EXCLUSIVE) as Hfr.
  destruct (acquire_ensure txn res LOCK_MODE_EXCLUSIVE s) as [s1 [c|e1]] eqn:E1; [|done].
  destruct (ensured_active _ _ _ _ _ _ Hi E1) as (ext' & r' & mode & E' & E'' & Em & Ec & t1 & Ha1).
  rewrite Hp in E'. rewrite Hr in E''. injection E' as <-. injection E'' as <-.
  change (Ok ExclusiveLock = Ok mode) in Em. injection Em as <-.
  cbn in Hfr. destruct Hfr as (Hl1 & Hf1 & Hd1). rewrite Hf in Hf1. set (p := c_txn c) in *.
  assert (acquire_held c s1 = None) as ->.
  { unfold acquire_held, heldGrant. destruct Ha1 as (Hb1 & Hh1 & Hf1' & Hs1).
    fold p. rewrite Hh1. cbn. rewrite Ec. cbn. rewrite (ensured_ungranted s txn res _ s1 c ext t1 r Hi E1); try done; by rewrite Ec. }
  destruct (registered_active s1 ext p t1 c Ha1 eq_refl) as (t2 & Ha2 & _).
  destruct (acquire_register c s1) as [s2 c2] eqn:E2. cbn in Ha2. intros E.
  apply register_call in E2 as (Hc1 & Hc2 & Hc3 & Hc4 & Hfr).
  rewrite Ec in Hc1, Hc3, Hc4. cbn in Hc1, Hc3, Hc4. fold p in Hc2. rewrite <-Hc1, <-Hc2 in Ha2.
  destruct Hfr as (Hf2 & Hd2). rewrite <-Hf2 in Hf1.
  destruct (rest_exclusive callerErr c2 now s2 s' f t2 resp Ha2 Hc4 Hf1 E)
    as (t' & f' & Hb' & Hh' & Hf' & Hho & Ea & Hrec & Hls & Hdl & Hle).
  rewrite Hc1, Hc3 in *. apply Allocate_Ok in Ea as [Htok Hcur].
  exists (c_txn c2), t', f'. unfold call_key in *. rewrite Hc3 in *.
  repeat (split; [done|]). split; [|done]. by rewrite Hdl, Hd2, Hd1.
Qed.

(** ** Sweeping expired leases *)

(** [revoke] of an active transaction: its record is revoking, and the only
    locks that can go are its own. *)
Lemma revoke_active s ext now p t :
  reg_inv s → active s ext p t →
  let s' := revoke ext now s in
  byID s' = byID s ∧
  (∃ t', heap s' !! p = Some t' ∧ state t' = txnRevoking) ∧
  (∀ q, q ≠ p → heap s' !! q = heap s !! q) ∧
  (∀ u r, u ≠ internal t → holds (lm s') u r = holds (lm s) u r).
Proof.
  intros Hi Ha. cbn. unfold revoke.
  destruct (beginTeardown_active s ext txnRevoking p t Ha) as [can ->].
  destruct Ha as (Hb & Hh & Hf & Hs).
  assert (external t = ext) as Hext by (destruct (ri_byID _ Hi _ _ Hb) as (? & ? & ?); congruence).
  set (s1 := cancelAll can (update_txn p (begun txnRevoking) s)).
  assert (heap s1 !! p = Some (begun txnRevoking t)) as Hh1 by (cbn; by rewrite lookup_alter_eq, Hh).
  destruct (teardown_spec s1 p _ now Hh1) as (fo & _ & Ht).
  destruct (teardown p now s1) as [s2 [n|e]].
  - destruct Ht as (-> & _ & _). cbn. unfold finish. cbn. rewrite Hext, Hb. cbn.
    rewrite !lookup_alter_eq, Hh. split; [done|]. split; [by eexists|]. split.
    + intros q Hq. by rewrite !lookup_alter_ne.
    + intros u r Hu. destruct (LMThms.release_all_holds (lm s) (heldKeys (internal t) (lm s))
        (internal t) (ri_lm _ Hi) ltac:(done)) as (l & El & _ & Hl).
      unfold ReleaseAll. rewrite El. cbn. by rewrite Hl, decide_False.
  - subst s2. unfold scheduleRetry. cbn. rewrite lookup_alter_eq, Hh. cbn.
    rewrite lookup_alter_eq, Hh. split; [done|]. split; [by eexists|].
    split; [|done]. intros q Hq. by rewrite lookup_alter_ne.
Qed.

Lemma revoke_inactive s ext now : (∀ p t, ¬ active s ext p t) → revoke ext now s = s.
Proof. intros Hn. unfold revoke. by rewrite beginTeardown_inactive. Qed.

Lemma teardown_sound s p now : sound s (teardown p now s).1.
Proof.
  unfold teardown. destruct (heap s !! p) as [t|]; [|apply sound_refl].
  assert (∀ s0, sound s0 (finish (external t) now (set_lm' (ReleaseAll (internal t) (lm s0)).1 s0)))
    as Hfin.
  { intros s0. eapply sound_trans; [|apply finish_sound]. apply lm_sound. intros Hl.
    eapply rtc_r; [done|]. by apply step_release_all. }
  destruct (fences s) as [f|] eqn:Hf; [|apply Hfin].
  pose proof (invalidateFences_spec (fenceGrants t) f) as Hs.
  destruct (invalidateFences _ f) as [f' r]. destruct Hs as (Hr & _).
  pose proof (fences_sound s f f' Hf Hr) as Hs.
  destruct r; cbn; [|done]. eapply sound_trans; [done|apply (Hfin (set_fences (Some f') s))].
Qed.

Lemma revoke_sound s ext now : sound s (revoke ext now s).
Proof.
  unfold revoke. pose proof (beginTeardown_sound s ext txnRevoking ltac:(done)) as H1'.
  destruct (beginTeardown ext txnRevoking s) as [s1 [[p can]|]]; [|done]. cbn in H1'.
  pose proof (teardown_sound (cancelAll can s1) p now) as H2'.
  assert (sound s (teardown p now (cancelAll can s1)).1) as H3'.
  { eapply sound_trans; [exact H1'|]. eapply sound_trans; [apply cancelAll_sound|exact H2']. }
  destruct (teardown p now (cancelAll can s1)) as [s2 [n|e]]; cbn in *; [done|].
  eapply sound_trans; [done|apply scheduleRetry_sound].
Qed.

Lemma revoke_all_sound l now s : sound s (foldl (λ s e, revoke e now s) s l).
Proof.
  revert s. induction l as [|e l IH]; intros s; cbn; [apply sound_refl|].
  eapply sound_trans; [apply revoke_sound|apply IH].
Qed.

Lemma revoke_byID s ext now : reg_inv s → byID (revoke ext now s) = byID s.
Proof.
  intros Hi. destruct (active_or s ext) as [(p & t & Ha)|Hn].
  - by destruct (revoke_active s ext now p t Hi Ha).
  - by rewrite revoke_inactive.
Qed.

(** Revoking other ids leaves a record and its locks alone. *)
Lemma revoke_all_other l now s p t :
  reg_inv s → heap s !! p = Some t → (∀ e, e ∈ l → byID s !! e ≠ Some p) →
  let s' := foldl (λ s e, revoke e now s) s l in
  sound s s' ∧ byID s' = byID s ∧ heap s' !! p = Some t ∧
  ∀ r, holds (lm s') (internal t) r = holds (lm s) (internal t) r.
Proof.
  revert s. induction l as [|e l IH]; intros s Hi Hh Hl; cbn.
  { split; [apply sound_refl|done]. }
  pose proof (revoke_sound s e now) as Hrs. pose proof (revoke_byID s e now Hi) as Hrb.
  destruct (IH (revoke e now s)) as (Hs & Hb & Hh' & Hho).
  - by apply Hrs.
  - destruct (active_or s e) as [(q & u & Ha)|Hn]; [|by rewrite revoke_inactive].
    destruct (revoke_active s e now q u Hi Ha) as (_ & _ & Hq & _). rewrite Hq; [done|].
    intros ->. apply (Hl e); [by left|]. apply Ha.
  - intros e' He'. rewrite Hrb. apply Hl. by right.
  - split; [by eapply sound_trans|]. split; [congruence|]. split; [done|].
    intros r. rewrite Hho. destruct (active_or s e) as [(q & u & Ha)|Hn]; [|by rewrite revoke_inactive].
    destruct (revoke_active s e now q u Hi Ha) as (_ & _ & _ & Hl'). apply Hl'.
    intros E. apply (Hl e); [by left|]. destruct Ha as (Hb' & Hu & _). rewrite Hb'. f_equal.
    by eapply ri_inj.
Qed.

Lemma elem_of_expired s now ext :
  ext ∈ expired now s ↔
  ∃ p t, byID s !! ext = Some p ∧ heap s !! p = Some t ∧ expired_txn now t = true.
Proof.
  unfold expired. rewrite list_elem_of_omap. split.
  - intros ([e p] & Hp%elem_of_map_to_list & Ht). cbn in Ht.
    destruct (heap s !! p) as [t|] eqn:Hh; [|done]. cbn in Ht.
    destruct (expired_txn now t) eqn:E; simplify_eq. by exists p, t.
  - intros (p & t & Hb & Hh & E). exists (ext, p). split; [by apply elem_of_map_to_list|].
    cbn. rewrite Hh. cbn. by rewrite E.
Qed.

(** The sweeper revokes exactly the expired transactions: a transaction
    whose lease has not passed, or that has no lease yet, keeps its record and
    every lock through a sweep; an expired one is revoking after it, and so
    accepts no more work. *)
Theorem sweep_exact s now ext p t :
  reg_inv s → byID s !! ext = Some p → heap s !! p = Some t →
  if expired_txn now t
  then ∃ t', heap (sweep now s) !! p = Some t' ∧ state t' = txnRevoking
  else heap (sweep now s) !! p = Some t ∧
       ∀ r, holds (lm (sweep now s)) (internal t) r = holds (lm s) (internal t) r.
Proof.
  intros Hi Hb Hh. change (heap (sweep now s)) with (heap (foldl (λ s e, revoke e now s) s (expired now s))).
  change (lm (sweep now s)) with (lm (foldl (λ s e, revoke e now s) s (expired now s))).
  assert (∀ e, byID s !! e = Some p → e = ext) as Huniq.
  { intros e He. destruct (ri_byID _ Hi _ _ He) as (t1 & Ht1 & <-).
    destruct (ri_byID _ Hi _ _ Hb) as (t2 & Ht2 & <-). congruence. }
  destruct (expired_txn now t) eqn:E.
  - assert (ext ∈ expired now s) as (l1 & l2 & -> & Hl1)%elem_of_split_first
      by (apply elem_of_expired; by exists p, t).
    rewrite foldl_app. cbn.
    destruct (revoke_all_other l1 now s p t Hi Hh) as (Hs1 & Hb1 & Hh1 & _).
    { intros e He ->%Huniq. done. }
    destruct (Hs1 Hi) as (Hi1 & _). set (s1 := foldl _ s l1) in *.
    assert (active s1 ext p t) as Ha1.
    { unfold expired_txn in E. apply andb_prop in E as [E _]. apply andb_prop in E as [E _].
      apply andb_prop in E as [E1 E2%bool_decide_eq_true]. apply negb_true_iff in E1.
      split; [by rewrite Hb1|]. done. }
    destruct (revoke_active s1 ext now p t Hi1 Ha1) as (_ & (t' & Ht' & Hst') & _).
    destruct (revoke_sound s1 ext now Hi1) as (Hi2 & _).
    destruct (revoke_all_sound l2 now _ Hi2) as (_ & He2 & _). destruct (He2 _ _ Ht') as (t2 & Ht2 & Hadv).
    exists t2. split; [done|]. by rewrite (ad_state _ _ Hadv), Hst'; [|rewrite Hst'].
  - destruct (revoke_all_other (expired now s) now s p t Hi Hh) as (_ & _ & ? & ?); [|done].
    intros e (q & u & Hq & Hu & Eu)%elem_of_expired He. congruence.
Qed.

(** ** Soundness of whole calls *)

Lemma Acquire_sound callerErr txn res m now s :
  sound s (Coordinator.Acquire callerErr txn res m now s).1.
Proof.
  unfold Coordinator.Acquire. pose proof (ensured_sound s txn res m) as H1'.
  destruct (acquire_ensure txn res m s) as [s1 [c|e]]; cbn in H1'; [|done].
  destruct (acquire_held c s1); [done|].
  destruct (acquire_register c s1) as [s2 c2] eqn:E2.
  assert (sound s s2) as Hs2.
  { eapply sound_trans; [exact H1'|]. pose proof (registerPending_sound s1 (c_txn c)) as H2'.
    unfold acquire_register in E2. destruct (registerPending (c_txn c) s1). by injection E2 as <- _. }
  unfold acquire_rest. pose proof (wait_sound s2 callerErr c2) as H3'.
  destruct (acquire_wait callerErr c2 s2) as [s3 out]. cbn in H3'.
  assert (sound s s3) as Hs3 by (by eapply sound_trans).
  destruct out as [[e|]|]; [| |done].
  - eapply sound_trans; [exact Hs3|apply (cleanup_sound s3 c2)].
  - unfold acquire_granted. pose proof (check_sound s3 c2) as H4'.
    destruct (acquire_check c2 s3) as [s4 [r|]]; cbn in H4'; [by eapply sound_trans|].
    pose proof (token_sound s4 c2) as H5'. destruct (acquire_token c2 s4) as [s5 [k|e]]; cbn in H5'.
    + eapply sound_trans; [exact Hs3|]. eapply sound_trans; [exact H4'|].
      eapply sound_trans; [exact H5'|]. apply (record_sound s5 c2 k now).
    + eapply sound_trans; [exact Hs3|]. by eapply sound_trans.
Qed.

Lemma NewServer_inv (f : option F) lease : reg_inv (NewServer f lease).
Proof. apply (initial_inv f lease). Qed.

End rpc.

Section requests.
Context `{UuidLib} {F : Type} `{FenceStore F}.

Implicit Types s : Server (F:=F).

(** ** Requests and tombstones *)

(** The wire encoding of resources and lock modes is faithful: what the
    client encodes the server decodes to the same value, and conversely. *)
Theorem proto_round_trip (r : ResourceID) (q : N * string) (m : N) :
  (resourceToProto r = Ok q → Key r ≠ "" → resourceFromProto (Some q) = Ok r) ∧
  (resourceFromProto (Some q) = Ok r → resourceToProto r = Ok q) ∧
  (∀ w, modeToProto m = Ok w ↔ modeFromProto w = Ok m).
Proof.
  split; [|split].
  - destruct r as [ty k]. unfold resourceToProto, resourceFromProto. cbn.
    repeat case_decide; intros; simplify_eq/=; try case_decide; done.
  - destruct q as [ty k]. unfold resourceFromProto, resourceToProto.
    repeat case_decide; intros; simplify_eq/=; done.
  - intros w. unfold modeToProto, modeFromProto.
    repeat case_decide; split; intros; simplify_eq/=; done.
Qed.

(** A tombstone outlives every stale view of its transaction by seconds:
    whatever the lease, retention is between 5 s and 5 min and at least ten
    leases unless that exceeds 5 min, and pruning keeps every record that is
    not finished or that finished within it. *)
Theorem tombstone_retained lease now s ext p t :
  byID s !! ext = Some p → heap s !! p = Some t →
  (finished t = false ∨ now ≤ finishedAt t + tombstoneRetention lease) →
  byID (prune now (tombstoneRetention lease) s) !! ext = Some p ∧
  5 * second ≤ tombstoneRetention lease ≤ 300 * second ∧
  (10 * lease ≤ 300 * second → 10 * lease ≤ tombstoneRetention lease).
Proof.
  intros Hb Hh Ho. split.
  - cbn. apply map_lookup_filter_Some. split; [done|]. cbn. rewrite Hh. cbn. unfold prunable.
    destruct Ho as [->|Ho]; [done|]. apply andb_false_iff. right. by apply N.ltb_ge.
  - unfold tombstoneRetention, second. repeat case_match; rewrite ?N.ltb_lt, ?N.ltb_ge in *; lia.
Qed.

(** C23. Every wait that fails while the caller is still there is reported as a
    revocation, even when the lock manager refused the request for another
    reason: the context [waitCtx] whose error the handler consults has been
    cancelled by the handler itself just before. *)
Theorem failed_wait_reported_revoked c e s :
  (acquire_failed None c e s).2 =
  Err (status "Aborted" ("grpccoord: transaction " +:+ uuid_String (c_external c)
    +:+ " was revoked while waiting for " +:+ fmt_v (c_resource c))).
Proof. cbn. by rewrite decide_True by set_solver. Qed.

End requests.
