(* ===== verification/CoordinatorRuns.v ===== *)
(** * Concrete runs of the coordinator

    Runs of the coordinator over the map-backed fence store that exercise the
    theorems of CoordinatorThms and CoordinatorRpc, and the interleaving of an
    [Acquire] with an [EndTransaction] of the same transaction. *)

From S2P Require Import Prelude Json JsonThms Libs LockManager LockManagerInv.
From S2P Require Import LockManagerThms Fencing FenceStore Coordinator CoordinatorThms.
From S2P Require Import CoordinatorRpc.
Import LM LMInv Toy MapFences.
Open Scope string_scope.
Open Scope N_scope.

Abbreviation Srv := (Server (F:=MapFences.db)).
Abbreviation Cfg := (config (F:=MapFences.db)).

(** Closed equations are checked by the kernel's virtual machine, without
    reading the states back as terms. *)
Ltac by_compute := match goal with |- ?a = ?b => vm_cast_no_check (eq_refl b) end.

(** Transaction "a", whose UUID prints as 61, and the file "f". *)
Definition uuid_a : @UUID toy_uuid := "a".
Definition txn_a : string := "u61".
Definition file_res : option (N * string) := Some (RESOURCE_TYPE_FILE, "f").
Definition file_f : ResourceID := mkResourceID FileResource "f".
Definition grant_a : Fencing.Grant := Fencing.mkGrant "1:f" 1 "u61".

(** The record at a pointer of a concrete state. *)
Definition blank : transaction := mkTransaction uuid_Nil 0 txnActive 0 false [] ∅ 0 false 0.
Definition record_at (s : Srv) (p : ptr) : transaction := default blank (heap s !! p).

Lemma record_at_eq s p : match heap s !! p with Some _ => true | None => false end = true →
  heap s !! p = Some (record_at s p).
Proof. unfold record_at. by destruct (heap s !! p). Qed.

Definition fresh_srv (faults : list bool) : Srv := NewServer (Some (mkDb faults ∅)) 0.

(** The call before and after it has registered its request. *)
Definition call_0 : call := mkCall uuid_a 1 file_f ExclusiveLock 0.
Definition call_1 : call := mkCall uuid_a 1 file_f ExclusiveLock 1.

Definition ensured : Srv := (acquire_ensure txn_a file_res LOCK_MODE_EXCLUSIVE (fresh_srv [])).1.
Definition registered : Srv := (acquire_register call_0 ensured).1.
Definition waited : Srv := (acquire_wait None call_1 registered).1.
Definition checked : Srv := acquire_cleanup call_1 waited.

Definition cfg_granted : Cfg := mkConfig waited {[ 1 := SGranted call_1 ]} ∅.
Definition cfg_checked : Cfg := mkConfig checked {[ 1 := SChecked call_1 ]} ∅.

Lemma cfg_granted_reachable : srv_reachable cfg_granted.
Proof.
  exists (Some MapFences.empty), 0.
  eapply rtc_l; [eapply (st_ensure 1 txn_a file_res LOCK_MODE_EXCLUSIVE _ _ _ ensured call_0);
    by_compute|].
  eapply rtc_l; [eapply (st_register 1 call_0 _ _ _ registered call_1); by_compute|].
  eapply rtc_l; [eapply (st_wait 1 call_1 None _ _ _ waited (Returned None)); by_compute|].
  apply reflexive_eq. by_compute.
Qed.

Lemma cfg_checked_reachable : srv_reachable cfg_checked.
Proof.
  destruct cfg_granted_reachable as (f & l & Hr). exists f, l. etrans; [exact Hr|].
  eapply rtc_l; [eapply (st_cleanup 1 call_1); by_compute|].
  eapply rtc_l; [eapply (st_check 1 call_1); by_compute|].
  apply reflexive_eq. by_compute.
Qed.

Lemma reach_step (c c' c'' : Cfg) :
  srv_reachable c → srv_step c c'' → c'' = c' → srv_reachable c'.
Proof. intros (f & l & Hr) Hs <-. exists f, l. by eapply rtc_r. Qed.



(** ** The call completes, then its transaction ends *)

Definition tokened : Srv := (acquire_allocate call_1 checked).1.
Definition recorded : Srv := (acquire_record call_1 1 100 tokened).1.
Definition resp_a : AcquireResponse := mkResponse 1 6000000100.
Definition ending : Srv := (beginTeardown uuid_a txnEnding recorded).1.
Definition answered : gmap N (call * result AcquireResponse) := {[ 1 := (call_1, Ok resp_a) ]}.

Definition cfg_recorded : Cfg := mkConfig recorded ∅ answered.
Definition cfg_ending : Cfg := mkConfig ending {[ 2 := STeardown 1 false ]} answered.
Definition db_ending : MapFences.db := default MapFences.empty (fences ending).
Definition db_invalidated : MapFences.db := (FenceStore.Invalidate "1:f" "u61" db_ending).1.
Definition invalidated : Srv := set_fences (Some db_invalidated) ending.
Definition cfg_release : Cfg :=
  mkConfig invalidated {[ 2 := SRelease 1 false [grant_a] ]} answered.

Lemma cfg_recorded_reachable : srv_reachable cfg_recorded.
Proof.
  destruct cfg_checked_reachable as (f & l & Hr). exists f, l. etrans; [exact Hr|].
  eapply rtc_l; [eapply (st_allocate 1 call_1 _ _ _ tokened (Ok 1)); by_compute|].
  eapply rtc_l; [eapply (st_record 1 call_1 1); by_compute|].
  eapply rtc_l; [eapply (st_lease 1 call_1 1 100 _ _ _ recorded 6000000100); by_compute|].
  apply reflexive_eq. by_compute.
Qed.

Lemma cfg_ending_reachable : srv_reachable cfg_ending.
Proof.
  eapply reach_step; [apply cfg_recorded_reachable| |].
  - eapply (st_begin 2 uuid_a txnEnding recorded _ _ ending 1 []); [by_compute|done|by_compute].
  - by_compute.
Qed.

Lemma step_to (c c' c'' : Cfg) : srv_step c c'' → c'' = c' → rtc srv_step c c'.
Proof. intros Hs <-. by apply rtc_once. Qed.

Lemma ending_release : rtc srv_step cfg_ending cfg_release.
Proof.
  trans (mkConfig ending {[ 2 := SInvalidate 1 false [grant_a] 0 ]} answered : Cfg).
  { eapply step_to; [eapply (st_snapshot 2 1 false (record_at ending 1)); by_compute|by_compute]. }
  trans (mkConfig invalidated {[ 2 := SInvalidate 1 false [grant_a] 1 ]} answered : Cfg).
  { eapply step_to; [|by_compute].
    eapply (st_invalidate 2 1 false [grant_a] 0 grant_a db_ending db_invalidated (Ok ())); by_compute. }
  eapply step_to; [|by_compute].
  apply (st_invalidated 2 1 false [grant_a] 1); [by_compute|right; by_compute].
Qed.

Lemma cfg_release_reachable : srv_reachable cfg_release.
Proof.
  destruct cfg_ending_reachable as (f & l & Hr). exists f, l. etrans; [exact Hr|apply ending_release].
Qed.

Lemma coordinated_exclusion_witness :
  (1 = 1 ∧ external (record_at invalidated 1) = external (record_at ending 1)) ∧
  holds (lm invalidated) (internal (record_at ending 1)) file_f = Some ExclusiveLock ∧
  (1 = 1 ∧ ExclusiveLock = ExclusiveLock).
Proof.
  assert (heap ending !! 1 = Some (record_at ending 1)) as He by by_compute.
  assert (heap invalidated !! 1 = Some (record_at invalidated 1)) as Hi by by_compute.
  split; [|split].
  - apply (coordinated_exclusion cfg_ending cfg_release 1 1 (record_at ending 1)
      (record_at invalidated 1) file_f ExclusiveLock cfg_ending_reachable ending_release He Hi); by_compute.
  - by_compute.
  - apply (coordinated_exclusion cfg_ending cfg_release 1 1 (record_at ending 1)
      (record_at invalidated 1) file_f ExclusiveLock cfg_ending_reachable ending_release He Hi); by_compute.
Defined.

Lemma no_revival_witness : refused invalidated uuid_a.
Proof.
  apply (no_revival cfg_release cfg_release uuid_a 1 (record_at invalidated 1)).
  - apply cfg_release_reachable.
  - apply rtc_refl.
  - by_compute.
  - by_compute.
  - vm_compute. discriminate.
  - by_compute.
Defined.

Definition grant_record_a : grantRecord := mkGrantRecord file_f ExclusiveLock 1.

Lemma fences_die_before_locks_move_witness : ¬ current db_invalidated grant_a.
Proof.
  apply (fences_die_before_locks_move cfg_ending cfg_release cfg_release 2 1 false false
    (record_at ending 1) [grant_a] db_invalidated grant_record_a).
  - apply cfg_ending_reachable.
  - by_compute.
  - by_compute.
  - apply ending_release.
  - by_compute.
  - apply rtc_refl.
  - reflexivity.
  - apply (list_elem_of_lookup_2 _ 0). by_compute.
  - reflexivity.
Defined.

(** ** Whole calls *)

Definition acquire_a (faults : list bool) : Srv * option (result AcquireResponse) :=
  Coordinator.Acquire None txn_a file_res LOCK_MODE_EXCLUSIVE 100 (fresh_srv faults).
Definition acquired (faults : list bool) : Srv := (acquire_a faults).1.

Lemma acquired_inv faults : reg_inv (acquired faults).
Proof. apply Acquire_sound, NewServer_inv. Qed.

Definition txn_rec (faults : list bool) : transaction := record_at (acquired faults) 1.

Lemma acquired_active faults :
  faults = [] ∨ faults = [false; true] → active (acquired faults) uuid_a 1 (txn_rec faults).
Proof.
  intros [-> | ->]; (split; [by_compute|]; split; [apply record_at_eq; by_compute|]; split; by_compute).
Qed.

Definition error_of {A} (r : result A) : error := match r with Err e => e | Ok _ => ECanceled end.

Lemma result_pair {A B} (x : A * B) r : x.2 = r → x = (x.1, r).
Proof. destruct x. by intros <-. Qed.

Lemma failed_pair {A B} (x : A * result B) : is_ok x.2 = false → x = (x.1, Err (error_of x.2)).
Proof. by destruct x as [? []]. Qed.

Lemma answered_pair {A B} (x : A * option (result B)) :
  option_map is_ok x.2 = Some false → x = (x.1, Some (Err (error_of (default (Err ECanceled) x.2)))).
Proof. by destruct x as [? [[]|]]. Qed.

(** The fence store fails when the transaction ends. *)
Definition end_failed : Srv * result nat := EndTransaction txn_a 200 (acquired [false; true]).
Definition end_done : Srv * result nat := EndTransaction txn_a 200 (acquired []).

Lemma EndTransaction_fail_closed_witness :
  lm end_failed.1 = lm (acquired [false; true]) ∧ refused end_failed.1 uuid_a ∧
  uuid_a ∈ retrying end_failed.1 ∧
  ∃ p t, byID end_failed.1 !! uuid_a = Some p ∧ heap end_failed.1 !! p = Some t ∧
    state t = txnEnding ∧ finished t = false.
Proof.
  apply (EndTransaction_fail_closed (acquired [false; true]) txn_a uuid_a 200 end_failed.1
    (error_of end_failed.2)); [apply acquired_inv|by_compute|apply failed_pair; by_compute].
Defined.

Lemma EndTransaction_releases_witness :
  1%nat = HeldCount (internal (txn_rec [])) (lm (acquired [])) ∧
  (∀ u r, holds (lm end_done.1) u r =
     if decide (u = internal (txn_rec [])) then None else holds (lm (acquired [])) u r) ∧
  refused end_done.1 uuid_a ∧
  ∀ f, fences (acquired []) = Some f → ∃ f', fences end_done.1 = Some f' ∧
    (∀ g, g ∈ fenceGrants (txn_rec []) → ¬ owns f' (Fencing.Resource g) (uuid_String uuid_a)) ∧
    ∀ r o k, o ≠ uuid_String uuid_a → fence_of f r = Some (k, Some o) →
      fence_of f' r = Some (k, Some o).
Proof.
  apply (EndTransaction_releases (acquired []) txn_a uuid_a 1 (txn_rec []) 200 end_done.1 1).
  - apply acquired_inv.
  - by_compute.
  - apply acquired_active. by left.
  - apply result_pair. by_compute.
Defined.

Lemma EndTransaction_idempotent_witness :
  let s' := (EndTransaction txn_a 200 (acquired [])).1 in EndTransaction txn_a 300 s' = (s', Ok 0%nat).
Proof. apply EndTransaction_idempotent; [apply acquired_inv|by_compute]. Defined.

(** The fence store fails when the token is allocated: the lock is given back. *)
Lemma Acquire_error_exact_witness :
  holds (lm (acquired [true])) 1 file_f = holds (lm (fresh_srv [true])) 1 file_f.
Proof.
  apply (Acquire_error_exact None txn_a file_res LOCK_MODE_EXCLUSIVE 100 (fresh_srv [true])
    (acquire_a [true]).1 (error_of (default (Err ECanceled) (acquire_a [true]).2)));
    [apply NewServer_inv|apply (answered_pair (acquire_a [true])); by_compute].
Defined.

Lemma Acquire_retry_witness : ∃ ans,
  Coordinator.Acquire None txn_a file_res LOCK_MODE_EXCLUSIVE 500 (acquired []) =
    (acquired [], Some ans) ∧
  (if decide (ExclusiveLock = ExclusiveLock) then ans = Ok resp_a else is_ok ans = false).
Proof.
  apply (Acquire_retry None txn_a file_res LOCK_MODE_EXCLUSIVE 500 (acquired []) uuid_a file_f
    ExclusiveLock 1 (txn_rec []) (mkGrantRecord file_f ExclusiveLock 1)); try by_compute.
  apply acquired_active. by left.
Defined.

Lemma Acquire_exclusive_fenced_witness :
  ∃ p t f', byID (acquired []) !! uuid_a = Some p ∧ heap (acquired []) !! p = Some t ∧
    fences (acquired []) = Some f' ∧ holds (lm (acquired [])) (internal t) file_f = Some ExclusiveLock ∧
    FencingToken resp_a = token_of MapFences.empty "1:f" + 1 ∧
    current f' (Fencing.mkGrant "1:f" (FencingToken resp_a) "u61") ∧
    mkGrantRecord file_f ExclusiveLock (FencingToken resp_a) ∈ t_grants t ∧
    leaseStarted t = true ∧ leaseDeadline t = 100 + leaseDuration (fresh_srv []) ∧
    LeaseExpires resp_a = Z.of_N (leaseDeadline t).
Proof.
  apply (Acquire_exclusive_fenced None txn_a file_res 100 (fresh_srv []) (acquired []) MapFences.empty
    uuid_a file_f resp_a).
  - apply NewServer_inv.
  - reflexivity.
  - by_compute.
  - by_compute.
  - intros p t (Hb & _). discriminate Hb.
  - apply (result_pair (acquire_a [])). by_compute.
Defined.

(** The lease expires at 6 000 000 100: a sweep before it changes nothing. *)
Lemma sweep_exact_witness :
  heap (sweep 200 (acquired [])) !! 1 = Some (txn_rec []) ∧
  ∀ r, holds (lm (sweep 200 (acquired []))) (internal (txn_rec [])) r =
       holds (lm (acquired [])) (internal (txn_rec [])) r.
Proof.
  apply (sweep_exact (acquired []) 200 uuid_a 1 (txn_rec []));
    [apply acquired_inv|by_compute|apply record_at_eq; by_compute].
Defined.

Lemma tombstone_retained_witness :
  byID (prune 4000000000 (tombstoneRetention 0) (EndTransaction txn_a 200 (acquired [])).1)
    !! uuid_a = Some 1 ∧
  5 * second ≤ tombstoneRetention 0 ≤ 300 * second ∧
  (10 * 0 ≤ 300 * second → 10 * 0 ≤ tombstoneRetention 0).
Proof.
  apply (tombstone_retained 0 4000000000 (EndTransaction txn_a 200 (acquired [])).1 uuid_a 1
    (record_at (EndTransaction txn_a 200 (acquired [])).1 1)).
  - by_compute.
  - apply record_at_eq. by_compute.
  - right. vm_compute. discriminate.
Defined.

(** ** The call overtaken by the end of its transaction *)

Definition overtaken : Srv := (beginTeardown uuid_a txnEnding checked).1.
Definition overtaken_released : Srv := set_lm' (ReleaseAll_in [file_f] 1 (lm overtaken)).1 overtaken.
Definition overtaken_finished : Srv := finish uuid_a 50 overtaken_released.
Definition late_token : Srv := (acquire_allocate call_1 overtaken_finished).1.
Definition late_record : Srv := (acquire_record call_1 1 100 late_token).1.
Definition cfg_late : Cfg := mkConfig late_record ∅ answered.

Lemma cfg_finished_reachable :
  srv_reachable (mkConfig overtaken_finished {[ 1 := SChecked call_1 ]} ∅ : Cfg).
Proof.
  set (cs st := {[ 1 := SChecked call_1; 2 := st ]} : gmap N stage).
  eapply (reach_step (mkConfig overtaken_released (cs (SFinish 1 false [])) ∅)).
  1: eapply (reach_step (mkConfig overtaken (cs (SRelease 1 false [])) ∅)).
  1: eapply (reach_step (mkConfig overtaken (cs (SInvalidate 1 false [] 0)) ∅)).
  1: eapply (reach_step (mkConfig overtaken (cs (STeardown 1 false)) ∅)).
  1: eapply reach_step; [apply cfg_checked_reachable| |].
  - eapply (st_begin 2 uuid_a txnEnding checked _ _ overtaken 1 []); [by_compute|done|by_compute].
  - by_compute.
  - eapply (st_snapshot 2 1 false (record_at overtaken 1)); by_compute.
  - by_compute.
  - apply (st_invalidated 2 1 false [] 0); [by_compute|right; by_compute].
  - by_compute.
  - eapply (st_release 2 1 false [] (record_at overtaken 1) [file_f]); [by_compute..|].
    replace (heldKeys _ _) with [file_f] by by_compute. done.
  - by_compute.
  - eapply (st_finish 2 1 false [] (record_at overtaken_released 1) 50); by_compute.
  - by_compute.
Qed.

(** C24. An [Acquire] overtaken by the end of its own transaction is granted all
    the same: [stillActive] is checked before the fencing token is allocated
    and the grant recorded, and nothing is checked again. Some reachable state
    has answered the call with a token although the transaction has ended and
    its lock is not held, and the store accepts the token. *)
Theorem overtaken_acquire_is_granted :
  ∃ (cfg : Cfg) resp t f,
    srv_reachable cfg ∧ responses cfg !! 1 = Some (call_1, Ok resp) ∧
    heap (server cfg) !! c_txn call_1 = Some t ∧ finished t = true ∧
    holds (lm (server cfg)) (internal t) (c_resource call_1) = None ∧
    fences (server cfg) = Some f ∧
    current f (Fencing.mkGrant (call_key call_1) (FencingToken resp) (uuid_String (external t))).
Proof.
  exists cfg_late, resp_a, (record_at late_record 1), (default MapFences.empty (fences late_record)).
  split.
  - destruct cfg_finished_reachable as (f & l & Hr). exists f, l. etrans; [exact Hr|].
    eapply rtc_l; [eapply (st_allocate 1 call_1 _ _ _ late_token (Ok 1)); by_compute|].
    eapply rtc_l; [eapply (st_record 1 call_1 1); by_compute|].
    eapply rtc_l; [eapply (st_lease 1 call_1 1 100 _ _ _ late_record 6000000100); by_compute|].
    apply reflexive_eq. by_compute.
  - split; [by_compute|]. split; [by_compute|]. split; [by_compute|]. split; [by_compute|].
    split; [by_compute|unfold current; by_compute].
Qed.
