(* ===== verification/MongoStore.v ===== *)
(** * The MongoDB backend (src/client/storage/mongostore)

    The object store, the key store and the transactions of store.go,
    atomic.go and config.go. MongoDB and its driver are parameters: the
    statements the package issues ([Statements]) and transactions
    ([Transactions]), with the documented behaviour the package relies on as
    laws: snapshot reads, atomic commit, and a commit that fails when a
    document the transaction wrote was changed since its snapshot.

    [WithTransaction] is the driver's loop: other clients of the deployment
    act (relation [other]) between the snapshot and the commit of an attempt,
    and an attempt that fails may be run again. *)

From S2P Require Import Prelude Json Libs LockManager Fencing Effects LocalEnv FenceStore.
From Stdlib Require Import Ascii.
Open Scope string_scope.

(** ** Documents *)

(** [_id] in the [objects], [public_keys] and [lock_fences] collections. *)
Inductive dockey :=
  | DObject (id : string)
  | DKey (name : string)
  | DFence (resource : string).

#[export] Instance dockey_eq_dec : EqDecision dockey.
Proof. solve_decision. Defined.
#[export] Program Instance dockey_countable : Countable dockey :=
  inj_countable' (λ k, match k with
      DObject i => inl i | DKey n => inr (inl n) | DFence r => inr (inr r) end)
    (λ x, match x with
      inl i => DObject i | inr (inl n) => DKey n | inr (inr r) => DFence r end) _.
Next Obligation. by intros []. Qed.

(** [objectDocument], [keyDocument], and the fields of a fence document that
    anything reads. *)
Inductive docval :=
  | VObject (value : string)
  | VKey (key_type public_key : string)
  | VFence (token : Z) (owner_txn : option string).

#[export] Instance docval_eq_dec : EqDecision docval.
Proof. solve_decision. Defined.

(** ** MongoDB *)

(** Statements on something that shows documents: the deployment itself, or
    an open transaction. [InsertOne] answers [false] on a duplicate [_id];
    [UpdateOne_validate] sets [validated_at] where the whole document matches
    and answers the number of documents matched. *)
Class Statements (X : Type) := {
  doc : X → dockey → option docval;
  FindOne : dockey → X → result (option docval);
  ReplaceOne : dockey → docval → X → X * result unit;
  DeleteOne : dockey → X → X * result unit;
  InsertOne : dockey → docval → X → X * result bool;
  UpdateOne_validate : dockey → docval → X → X * result nat }.

Class Transactions (Db Session : Type) := {
  StartTransaction : Db → Session;
  CommitTransaction : Session → Db → Db * result unit;
  snapshot : Session → Db;
  written : Session → dockey → bool }.

(** A statement that changed at most the document [k], to [v]. *)
Definition sets {Db Session} `{Statements Session} `{Transactions Db Session}
    (k : dockey) (v : option docval) (s s' : Session) : Prop :=
  snapshot s' = snapshot s ∧ written s' k = true ∧
  (∀ k', written s k' = true → written s' k' = true) ∧
  ∀ k', doc s' k' = if decide (k' = k) then v else doc s k'.

Class MongoLaws (Db Session : Type) `{Statements Db} `{Statements Session}
    `{Transactions Db Session} : Prop := {
  start_doc d k : doc (StartTransaction d) k = doc d k;
  start_snapshot d : snapshot (StartTransaction d) = d;
  FindOne_Ok (d : Db) k r : FindOne k d = Ok r → r = doc d k;
  ReplaceOne_Ok k v (s s' : Session) u : ReplaceOne k v s = (s', Ok u) → sets k (Some v) s s';
  (** a delete counts as a write of its document also where there is none: of a
      document that is absent, MongoDB need not notice a concurrent insert. What
      the client deletes was written under a UUID drawn for it, and is written
      again, if ever, only under the file lock the deleting operation holds *)
  DeleteOne_Ok k (s s' : Session) u : DeleteOne k s = (s', Ok u) → sets k None s s';
  InsertOne_Ok k v (s s' : Session) : InsertOne k v s = (s', Ok true) →
    doc s k = None ∧ sets k (Some v) s s';
  validate_Ok k v (s s' : Session) n : UpdateOne_validate k v s = (s', Ok (S n)) →
    doc s k = Some v ∧ sets k (Some v) s s';
  (** write conflicts are detected, and a commit is all or nothing even when
      its outcome is reported as an error *)
  commit_Ok s d d' u : CommitTransaction s d = (d', Ok u) →
    (∀ k, written s k = true → doc d k = doc (snapshot s) k) ∧
    ∀ k, doc d' k = if written s k then doc s k else doc d k;
  commit_Err s d d' e : CommitTransaction s d = (d', Err e) →
    d' = d ∨
    (∀ k, written s k = true → doc d k = doc (snapshot s) k) ∧
    ∀ k, doc d' k = if written s k then doc s k else doc d k }.

(** crypto/x509, on the RSA half of a public key; parsing anything else yields
    the name of its Go type. *)
Class X509 `{Userlib} := {
  RsaKey : Type;
  PubKey : PublicKeyType → RsaKey;
  mkPublicKey : string → RsaKey → PublicKeyType;
  MarshalPKIXPublicKey : RsaKey → result string;
  ParsePKIXPublicKey : string → result (RsaKey + string) }.

Class X509Laws `{X509} : Prop := {
  Parse_Marshal k der : MarshalPKIXPublicKey k = Ok der → ParsePKIXPublicKey der = Ok (inl k);
  mkPublicKey_eta k : mkPublicKey (KeyType k) (PubKey k) = k }.

Section stores.
Context `{UuidLib} `{Userlib} `{!X509} {X : Type} `{Statements X}.

(** ** Object store *)

Definition ObjectStore_Get (id : UUID) (x : X) : result (option string) :=
  match FindOne (DObject (uuid_String id)) x with
  | Err e => Err (EWrap ("mongostore: get object " +:+ uuid_String id) e)
  | Ok None => Ok None
  | Ok (Some (VObject v)) => Ok (Some v)
  | Ok (Some _) => Err (EWrap ("mongostore: get object " +:+ uuid_String id) (EMsg "decode"))
  end.

(** A nil payload is stored as an empty one. *)
Definition ObjectStore_Put (id : UUID) (value : slice) (x : X) : X * result unit :=
  let '(x, r) := ReplaceOne (DObject (uuid_String id)) (VObject (bytes_of value)) x in
  (x, match r with
      | Err e => Err (EWrap ("mongostore: put object " +:+ uuid_String id) e)
      | Ok _ => Ok ()
      end).

Definition ObjectStore_Delete (id : UUID) (x : X) : X * result unit :=
  let '(x, r) := DeleteOne (DObject (uuid_String id)) x in
  (x, match r with
      | Err e => Err (EWrap ("mongostore: delete object " +:+ uuid_String id) e)
      | Ok _ => Ok ()
      end).

(** ** Key store *)

Definition encodePublicKey (key : PublicKeyType) : result docval :=
  match MarshalPKIXPublicKey (PubKey key) with
  | Err e => Err (EWrap "encode public key" e)
  | Ok der => Ok (VKey (KeyType key) der)
  end.

Definition decodePublicKey (d : docval) : result PublicKeyType :=
  match d with
  | VKey ty der =>
      match ParsePKIXPublicKey der with
      | Err e => Err (EWrap "decode public key" e)
      | Ok (inr T) => Err (EMsg ("decode public key: got " +:+ T +:+ ", want *rsa.PublicKey"))
      | Ok (inl rsaKey) => Ok (mkPublicKey ty rsaKey)
      end
  | _ => Err (EMsg "decode")
  end.

Definition KeyStore_Get (name : string) (x : X) : result (option PublicKeyType) :=
  match FindOne (DKey name) x with
  | Err e => Err (EWrap ("mongostore: get key " +:+ strconv_Quote name) e)
  | Ok None => Ok None
  | Ok (Some d) =>
      match decodePublicKey d with
      | Err e => Err (EWrap ("mongostore: get key " +:+ strconv_Quote name) e)
      | Ok key => Ok (Some key)
      end
  end.

(** Registration is write-once: the unique index refuses a second insert. *)
Definition KeyStore_Put (name : string) (key : PublicKeyType) (x : X) : X * result unit :=
  match encodePublicKey key with
  | Err e => (x, Err (EWrap ("mongostore: put key " +:+ strconv_Quote name) e))
  | Ok d =>
      let '(x, r) := InsertOne (DKey name) d x in
      (x, match r with
          | Ok true => Ok ()
          | Ok false => Err (EMsg ("mongostore: put key " +:+ strconv_Quote name
                                   +:+ ": that key name is already taken"))
          | Err e => Err (EWrap ("mongostore: put key " +:+ strconv_Quote name) e)
          end)
  end.

(** One storage call of a commit closure. *)
Definition mongo_mutate (m : Mutation) : X → X * result unit :=
  match m with
  | MPut id value => ObjectStore_Put id (Some value)
  | MDelete id => ObjectStore_Delete id
  | MKeyPut name key => KeyStore_Put name key
  end.

(** ** Fencing *)

(** Go's conversion [int64(token)]. *)
Definition int64_of (n : N) : Z :=
  let z := (Z.of_N n `mod` 18446744073709551616)%Z in
  if decide (z < 9223372036854775808)%Z then z else (z - 18446744073709551616)%Z.

(** The loop over the grants: the first that does not match stops it. *)
Fixpoint validateGrants (grants : list Fencing.Grant) (x : X) : X * result unit :=
  match grants with
  | [] => (x, Ok ())
  | grant :: grants =>
      let '(x, r) := UpdateOne_validate (DFence (Fencing.Resource grant))
        (VFence (int64_of (Fencing.grant_Token grant)) (Some (Fencing.OwnerTxn grant))) x in
      match r with
      | Err e => (x, Err (EWrap ("mongostore: validating " +:+ Fencing.Grant_String grant) e))
      | Ok 0%nat => (x, Err (EWrap ("mongostore: " +:+ Fencing.Grant_String grant) EStaleFence))
      | Ok (S _) => validateGrants grants x
      end
  end.

Definition validateFences (ctx : Fencing.Ctx) (x : X) : X * result unit :=
  if Fencing.ValidationSkippedForTest ctx then (x, Ok ())
  else validateGrants (Fencing.GrantsFromContext ctx) x.

(** The callback [RunAtomic] hands to [WithTransaction]. *)
Definition callback (ctx : Fencing.Ctx) (fn : X → X * result unit) (x : X) : X * result unit :=
  let '(x, r) := fn x in
  match r with Err e => (x, Err e) | Ok _ => validateFences ctx x end.

End stores.

(** ** Transactions *)

Section transactions.
Context {Db Session : Type} `{Statements Db} `{Statements Session} `{Transactions Db Session}.
Context (other : Db → Db → Prop).

(** The driver's [WithTransaction], from the state of the deployment at the
    call to its state at the return. *)
Inductive WithTransaction (fn : Session → Session * result unit) : Db → Db → result unit → Prop :=
  | wt_none d d' e : rtc other d d' → WithTransaction fn d d' (Err e)
  | wt_abort d d1 d2 s e :
      rtc other d d1 → fn (StartTransaction d1) = (s, Err e) → rtc other d1 d2 →
      WithTransaction fn d d2 (Err e)
  | wt_commit d d1 d2 d3 d4 s r :
      rtc other d d1 → fn (StartTransaction d1) = (s, Ok ()) → rtc other d1 d2 →
      CommitTransaction s d2 = (d3, r) → rtc other d3 d4 →
      WithTransaction fn d d4 r
  | wt_retry_callback d d1 d2 d3 s e r :
      rtc other d d1 → fn (StartTransaction d1) = (s, Err e) → rtc other d1 d2 →
      WithTransaction fn d2 d3 r → WithTransaction fn d d3 r
  | wt_retry_commit d d1 d2 d3 s e r :
      rtc other d d1 → fn (StartTransaction d1) = (s, Ok ()) → rtc other d1 d2 →
      CommitTransaction s d2 = (d2, Err e) →
      WithTransaction fn d2 d3 r → WithTransaction fn d d3 r.

(** [Store.RunAtomic]; [fn = None] is a nil function, and [inSession] says
    that the context carries a session. *)
Definition MongoRunAtomic (ctx : Fencing.Ctx) (inSession : bool)
    (fn : option (Session → Session * result unit)) (d d' : Db) (r : result unit) : Prop :=
  match fn with
  | None => d' = d ∧ r = Err (EMsg "mongostore: RunAtomic requires a function")
  | Some fn =>
      if inSession
      then d' = d ∧ r = Err (EMsg "mongostore: RunAtomic called inside an existing transaction")
      else (∃ e, rtc other d d' ∧ r = Err (EWrap "mongostore: starting session" e)) ∨
           ∃ r', WithTransaction (callback ctx fn) d d' r' ∧
             r = match r' with Err e => Err (EWrap "mongostore: transaction" e) | Ok _ => Ok () end
  end.

(** [SupportsTransactions]: an empty transaction. *)
Definition SupportsTransactions (ctx : Fencing.Ctx) (inSession : bool) : Db → Db → result unit → Prop :=
  MongoRunAtomic ctx inSession (Some (λ s, (s, Ok ()))).

End transactions.

(** ** Configuration and deadlines *)

(** The deadline [withTimeout] adds, if any: none over the caller's own, none
    inside a transaction. *)
Definition withTimeout (hasDeadline inSession : bool) (timeout : Z) : option Z :=
  if hasDeadline || bool_decide (timeout ≤ 0)%Z || inSession then None else Some timeout.

(** The deadline [RunAtomic] adds. *)
Definition transactionDeadline (hasDeadline : bool) (transactionTimeout : Z) : option Z :=
  if negb hasDeadline && bool_decide (transactionTimeout > 0)%Z then Some transactionTimeout else None.

Record Config := mkConfig {
  cfg_URI : string; cfg_Database : string; cfg_Timeout : Z; cfg_TransactionTimeout : Z }.

Definition second_ns : Z := 1000000000.

Definition withDefaults (c : Config) : Config :=
  mkConfig (cfg_URI c)
    (if decide (cfg_Database c = "") then "safer" else cfg_Database c)
    (if decide (cfg_Timeout c ≤ 0)%Z then (10 * second_ns)%Z else cfg_Timeout c)
    (if decide (cfg_TransactionTimeout c ≤ 0)%Z then (30 * second_ns)%Z else cfg_TransactionTimeout c).

Definition validate (c : Config) : result unit :=
  if decide (cfg_URI c = "") then Err (EMsg "mongostore: SAFER_MONGO_URI is required") else Ok ().

(** [strconv.Atoi] *)
Definition Atoi (s : string) : option Z :=
  match s with
  | String "-"%char r => (λ n, - Z.of_N n)%Z <$> Json.ParseUint 9223372036854775808 r
  | String "+"%char r => Z.of_N <$> Json.ParseUint 9223372036854775807 r
  | _ => Z.of_N <$> Json.ParseUint 9223372036854775807 s
  end.

(** Multiplication of [time.Duration]s wraps. *)
Definition int64_mul (a b : Z) : Z :=
  let z := ((a * b) `mod` 18446744073709551616)%Z in
  if decide (z < 9223372036854775808)%Z then z else (z - 18446744073709551616)%Z.

Section config.
(** [time.ParseDuration] and [os.Getenv] *)
Context (ParseDuration : string → result Z) (Getenv : string → string).

Definition notDuration (name raw : string) (e : error) : error :=
  EWrap (name +:+ "=" +:+ strconv_Quote raw +:+ ": not a duration") e.
Definition notPositive (name raw : string) : error :=
  EMsg (name +:+ "=" +:+ strconv_Quote raw +:+ ": must be positive").

(** [SAFER_MONGO_TIMEOUT]: a duration, or a bare number of seconds. *)
Definition envTimeout : result Z :=
  let raw := Getenv "SAFER_MONGO_TIMEOUT" in
  if decide (raw = "") then Ok 0%Z else
  d ← match ParseDuration raw with
      | Ok d => Ok d
      | Err parseErr =>
          match Atoi raw with
          | None => Err (notDuration "SAFER_MONGO_TIMEOUT" raw parseErr)
          | Some seconds => Ok (int64_mul seconds second_ns)
          end
      end;
  if decide (d ≤ 0)%Z then Err (notPositive "SAFER_MONGO_TIMEOUT" raw) else Ok d.

Definition envTransactionTimeout : result Z :=
  let raw := Getenv "SAFER_MONGO_TXN_TIMEOUT" in
  if decide (raw = "") then Ok 0%Z else
  match ParseDuration raw with
  | Err e => Err (notDuration "SAFER_MONGO_TXN_TIMEOUT" raw e)
  | Ok d => if decide (d ≤ 0)%Z then Err (notPositive "SAFER_MONGO_TXN_TIMEOUT" raw) else Ok d
  end.

(** [None] is [configured = false]. *)
Definition ConfigFromEnv : result (option Config) :=
  let uri := Getenv "SAFER_MONGO_URI" in
  if decide (uri = "") then Ok None else
  timeout ← envTimeout;
  transactionTimeout ← envTransactionTimeout;
  Ok (Some (withDefaults (mkConfig uri (Getenv "SAFER_MONGO_DB") timeout transactionTimeout))).

End config.

(** ** Administration *)

Section administration.
Context `{UuidLib}.

Definition wrapped {A} (what : string) (r : result A) : result A :=
  match r with Ok a => Ok a | Err e => Err (EWrap what e) end.

(** [Store.Ping]; the argument is the driver's answer. *)
Definition Ping (answer : result unit) : result unit := wrapped "mongostore: ping" answer.

(** [Store.ObjectIDs]: what the cursor decodes to one after the other, and
    [cursor.Err()] when it ends. The text of a parse error is left out. *)
Fixpoint cursor_ids (docs : list (result string)) (cursorErr : option error) : result (list UUID) :=
  match docs with
  | [] => match cursorErr with Some e => Err (EWrap "mongostore: list object ids" e) | None => Ok [] end
  | Err e :: _ => Err (EWrap "mongostore: list object ids" e)
  | Ok raw :: docs =>
      id ← of_option ("mongostore: list object ids: bad _id " +:+ strconv_Quote raw) (uuid_Parse raw);
      ids ← cursor_ids docs cursorErr;
      Ok (id :: ids)
  end.

Definition ObjectIDs (Find : result (list (result string) * option error)) : result (list UUID) :=
  '(docs, cursorErr) ← wrapped "mongostore: list object ids" Find; cursor_ids docs cursorErr.

(** [Store.DropDatabase] over the driver's [Database.Drop]. *)
Definition DropDatabase {Db} (Drop : Db → Db * result unit) (d : Db) : Db * result unit :=
  let '(d, r) := Drop d in (d, wrapped "mongostore: drop database" r).

(** The identifiers the object store writes are listed back. *)
Lemma ObjectIDs_lists `{!UuidLaws} (ids : list UUID) :
  ObjectIDs (Ok ((λ id, Ok (uuid_String id)) <$> ids, None)) = Ok ids.
Proof.
  cbn. induction ids as [|id ids IH]; [done|]. cbn. rewrite Parse_String. cbn. by rewrite IH.
Qed.

End administration.
