(* ===== verification/MongoThms.v ===== *)
(** * Correctness of the MongoDB backend

    A commit is all or nothing, and it happens only at a moment when every
    fencing grant of its operation is current; so a writer that has lost its
    lock writes nothing, however its attempts and the rest of the deployment
    interleave. *)

From S2P Require Import Prelude Json Libs LockManager Fencing Effects LocalEnv FenceStore MongoStore.
Open Scope string_scope.

Section mongo.
Context `{UuidLib} `{Userlib} `{!X509}.
Context {Db Session : Type} `{MongoLaws Db Session}.
Context (other : Db → Db → Prop).

(** ** What a closure writes *)

Definition mut_key (m : Mutation) : dockey :=
  match m with
  | MPut id _ | MDelete id => DObject (uuid_String id)
  | MKeyPut name _ => DKey name
  end.

Definition mut_val (m : Mutation) : option docval :=
  match m with
  | MPut _ value => Some (VObject value)
  | MDelete _ => None
  | MKeyPut _ key => match encodePublicKey key with Ok d => Some d | Err _ => None end
  end.

(** The documents after the writes, from the documents before them. *)
Definition apply_mut (v : dockey → option docval) (m : Mutation) (k : dockey) : option docval :=
  if decide (k = mut_key m) then mut_val m else v k.
Definition apply_all (ms : list Mutation) (v : dockey → option docval) : dockey → option docval :=
  foldl apply_mut v ms.

Lemma apply_all_local ms : ∀ v1 v2 k, v1 k = v2 k → apply_all ms v1 k = apply_all ms v2 k.
Proof.
  induction ms as [|m ms IH]; intros v1 v2 k Hk; [done|]. cbn. apply IH.
  unfold apply_mut. by case_decide.
Qed.

Lemma apply_all_other ms : ∀ v k, k ∉ (mut_key <$> ms) → apply_all ms v k = v k.
Proof.
  induction ms as [|m ms IH]; intros v k Hk; [done|]. cbn in Hk.
  apply not_elem_of_cons in Hk as [Hne Hk]. change (apply_all ms (apply_mut v m) k = v k).
  rewrite IH by done. unfold apply_mut.
  by rewrite decide_False.
Qed.

Lemma apply_all_fence ms v r : apply_all ms v (DFence r) = v (DFence r).
Proof.
  apply apply_all_other. intros (m & Hm & _)%list_elem_of_fmap. by destruct m.
Qed.

(** Every key the writes register is new when its turn comes. *)
Definition registers (m : Mutation) (v : dockey → option docval) : Prop :=
  match m with
  | MKeyPut name key => v (DKey name) = None ∧ is_ok (encodePublicKey key) = true
  | _ => True
  end.
Fixpoint registers_all (ms : list Mutation) (v : dockey → option docval) : Prop :=
  match ms with [] => True | m :: ms => registers m v ∧ registers_all ms (apply_mut v m) end.

Lemma registers_all_local ms : ∀ v1 v2,
  (∀ k, k ∈ (mut_key <$> ms) → v1 k = v2 k) → registers_all ms v1 → registers_all ms v2.
Proof.
  induction ms as [|m ms IH]; intros v1 v2 Hk; cbn; [done|]. intros [Hm Hms]. split.
  - destruct m; cbn in *; try done. rewrite <-Hk; [done|by left].
  - eapply IH; [|exact Hms]. intros k Hin. unfold apply_mut. case_decide; [done|].
    apply Hk. by right.
Qed.

(** [s'] continues the transaction [s]. *)
Definition continues (s s' : Session) : Prop :=
  snapshot s' = snapshot s ∧ ∀ k, written s k = true → written s' k = true.

Lemma continues_refl s : continues s s.
Proof. by split. Qed.

Lemma continues_trans s1 s2 s3 : continues s1 s2 → continues s2 s3 → continues s1 s3.
Proof. intros [E1 W1] [E2 W2]. split; [congruence|auto]. Qed.

Lemma sets_continues k v (s s' : Session) : sets k v s s' → continues s s'.
Proof. intros (? & _ & ? & _). by split. Qed.

Lemma mutate_Ok m (s s' : Session) u :
  mongo_mutate m s = (s', Ok u) → sets (mut_key m) (mut_val m) s s' ∧ registers m (doc s).
Proof.
  destruct m as [id v|id|name key]; cbn.
  - unfold ObjectStore_Put. destruct (ReplaceOne _ _ s) as [s1 [u1|]] eqn:E; [|done].
    intros [= <- <-]. by apply ReplaceOne_Ok in E.
  - unfold ObjectStore_Delete. destruct (DeleteOne _ s) as [s1 [u1|]] eqn:E; [|done].
    intros [= <- <-]. by apply DeleteOne_Ok in E.
  - unfold KeyStore_Put. destruct (encodePublicKey key) as [d|]; [|done].
    destruct (InsertOne _ _ s) as [s1 [[]|]] eqn:E; [|done|done].
    intros [= <- <-]. by apply InsertOne_Ok in E as [? E].
Qed.

Lemma closure_Ok ms : ∀ (s s' : Session) u,
  closure mongo_mutate ms s = (s', Ok u) →
  continues s s' ∧ (∀ k, k ∈ (mut_key <$> ms) → written s' k = true) ∧
  (∀ k, doc s' k = apply_all ms (doc s) k) ∧ registers_all ms (doc s).
Proof.
  induction ms as [|m ms IH]; intros s s' u; cbn.
  { intros [= <- <-]. split; [apply continues_refl|]. split; [|done].
    intros k Hk. by apply elem_of_nil in Hk. }
  destruct (mongo_mutate m s) as [s1 [u1|]] eqn:E; [|done]. intros Hc.
  apply mutate_Ok in E as [E Hreg]. destruct (IH _ _ _ Hc) as (Hcont & Hw & Hd & Hregs).
  split; [eapply continues_trans; [by eapply sets_continues|done]|].
  destruct E as (_ & Hwm & _ & Hdm). split; [|split; [|split; [done|]]].
  - intros k [->|Hk]%elem_of_cons; [by apply Hcont|by apply Hw].
  - intros k. rewrite Hd. apply apply_all_local. rewrite Hdm. done.
  - eapply registers_all_local; [|exact Hregs]. intros k _. by rewrite Hdm.
Qed.

(** The fence document a grant must match. *)
Definition fence_doc_of (g : Fencing.Grant) : docval :=
  VFence (int64_of (Fencing.grant_Token g)) (Some (Fencing.OwnerTxn g)).

Lemma validateGrants_Ok gs : ∀ (s s' : Session) u,
  validateGrants gs s = (s', Ok u) →
  continues s s' ∧ (∀ k, doc s' k = doc s k) ∧
  ∀ g, g ∈ gs → written s' (DFence (Fencing.Resource g)) = true ∧
    doc s (DFence (Fencing.Resource g)) = Some (fence_doc_of g).
Proof.
  induction gs as [|g gs IH]; intros s s' u; cbn.
  { intros [= <- <-]. split; [apply continues_refl|]. split; [done|].
    intros g Hg. by apply elem_of_nil in Hg. }
  destruct (UpdateOne_validate _ _ s) as [s1 [[|n]|]] eqn:E; [done| |done]. intros Hv.
  apply validate_Ok in E as (Hdoc & Hset). destruct (IH _ _ _ Hv) as (Hcont & Hd & Hall).
  assert (∀ k, doc s1 k = doc s k) as Hsame.
  { destruct Hset as (_ & _ & _ & Hs). intros k. rewrite Hs. by case_decide; subst. }
  split; [eapply continues_trans; [by eapply sets_continues|done]|].
  split; [intros k; by rewrite Hd|].
  intros g' [->|Hg]%elem_of_cons.
  - split; [|done]. apply Hcont. by destruct Hset as (_ & ? & _).
  - destruct (Hall g' Hg) as [Hw Hdoc']. split; [done|]. by rewrite <-Hsame.
Qed.

(** ** The commit point *)

(** Every grant the operation carries is current in [d]. *)
Definition all_current (ctx : Fencing.Ctx) (d : Db) : Prop :=
  Fencing.ValidationSkippedForTest ctx = false →
  ∀ g, g ∈ Fencing.GrantsFromContext ctx →
    doc d (DFence (Fencing.Resource g)) = Some (fence_doc_of g).

(** The writes took effect, as a whole, between [d1] and [d2]. *)
Definition committed (ctx : Fencing.Ctx) (ms : list Mutation) (d1 d2 : Db) : Prop :=
  all_current ctx d1 ∧ (∀ k, doc d2 k = apply_all ms (doc d1) k) ∧ registers_all ms (doc d1).

(** A commit that takes effect at [d], of a callback that succeeded on the
    snapshot [d0]. *)
Lemma commit_point ctx ms d0 (s : Session) d d' :
  callback ctx (closure mongo_mutate ms) (StartTransaction d0) = (s, Ok ()) →
  (∀ k, written s k = true → doc d k = doc (snapshot s) k) →
  (∀ k, doc d' k = if written s k then doc s k else doc d k) →
  committed ctx ms d d'.
Proof.
  unfold callback. destruct (closure mongo_mutate ms (StartTransaction d0)) as [s1 [u1|]] eqn:Ec; [|done].
  intros Hv Hconf Heff. apply closure_Ok in Ec as ((Hsn1 & _) & Hw1 & Hd1 & Hregs).
  assert (continues s1 s ∧ (∀ k, doc s k = doc s1 k) ∧
    (Fencing.ValidationSkippedForTest ctx = false → ∀ g, g ∈ Fencing.GrantsFromContext ctx →
       written s (DFence (Fencing.Resource g)) = true ∧
       doc s1 (DFence (Fencing.Resource g)) = Some (fence_doc_of g))) as (Hcont & Hd & Hg).
  { unfold validateFences in Hv. destruct (Fencing.ValidationSkippedForTest ctx).
    - injection Hv as <-. split; [apply continues_refl|]. done.
    - apply validateGrants_Ok in Hv as (? & ? & ?). done. }
  destruct Hcont as [Hsn Hmono].
  assert (snapshot s = d0) as Hs0 by (by rewrite Hsn, Hsn1, start_snapshot).
  rewrite Hs0 in Hconf. split; [|split].
  - intros Hskip g Hin. destruct (Hg Hskip g Hin) as [Hw Hdoc].
    rewrite (Hconf _ Hw), <-(start_doc d0), <-Hdoc, Hd1. symmetry. apply apply_all_fence.
  - intros k. rewrite Heff. destruct (written s k) eqn:Hw.
    + rewrite Hd, Hd1. apply apply_all_local. by rewrite start_doc, (Hconf _ Hw).
    + symmetry. apply apply_all_other. intros Hk. by rewrite (Hmono _ (Hw1 _ Hk)) in Hw.
  - eapply registers_all_local; [|exact Hregs]. intros k Hk.
    rewrite start_doc. symmetry. by apply Hconf, Hmono, Hw1.
Qed.

(** ** Whole transactions *)

(** Nothing of the operation happened; or all of it, at one moment. *)
Definition atomic_outcome (ctx : Fencing.Ctx) (ms : list Mutation) (d d' : Db) (r : result unit) : Prop :=
  (rtc other d d' ∧ is_ok r = false) ∨
  ∃ d1 d2, rtc other d d1 ∧ committed ctx ms d1 d2 ∧ rtc other d2 d'.

Lemma atomic_outcome_later ctx ms d d1 d' r :
  rtc other d d1 → atomic_outcome ctx ms d1 d' r → atomic_outcome ctx ms d d' r.
Proof.
  intros Hr [[Hr' Hf]|(d2 & d3 & Hr' & Hc)]; [left|right].
  - split; [by etrans|done].
  - exists d2, d3. split; [by etrans|done].
Qed.

Lemma WithTransaction_outcome ctx ms d d' r :
  WithTransaction other (callback ctx (closure mongo_mutate ms)) d d' r →
  atomic_outcome ctx ms d d' r.
Proof.
  induction 1 as [d d' e Hr|d d1 d2 s e Hr1 Hfn Hr2|d d1 d2 d3 d4 s r Hr1 Hfn Hr2 Hcom Hr4
    |d d1 d2 d3 s e r Hr1 Hfn Hr2 _ IH|d d1 d2 d3 s e r Hr1 Hfn Hr2 Hcom _ IH].
  - by left.
  - left. split; [by etrans|done].
  - apply (atomic_outcome_later _ _ _ d2); [by etrans|]. destruct r as [u|e].
    + apply commit_Ok in Hcom as [Hconf Heff]. right. exists d2, d3.
      split; [apply rtc_refl|]. split; [by eapply commit_point|done].
    + apply commit_Err in Hcom as [->|[Hconf Heff]]; [by left|]. right. exists d2, d3.
      split; [apply rtc_refl|]. split; [by eapply commit_point|done].
  - eapply atomic_outcome_later; [|done]. by etrans.
  - eapply atomic_outcome_later; [|done]. by etrans.
Qed.

Lemma RunAtomic_outcome ctx inSession ms d d' r :
  MongoRunAtomic other ctx inSession (Some (closure mongo_mutate ms)) d d' r →
  atomic_outcome ctx ms d d' r.
Proof.
  unfold MongoRunAtomic. destruct inSession.
  - intros [-> ->]. left. split; [apply rtc_refl|done].
  - intros [(e & Hr & ->)|(r' & Hw & ->)]; [by left|].
    apply WithTransaction_outcome in Hw as [[Hr Hf]|Hc]; [left|by right].
    split; [done|]. by destruct r'.
Qed.

(** C13. A storage transaction is all or nothing and fenced: whatever the other
    clients of the deployment do meanwhile and however often the driver
    retries, either nothing of the operation is ever visible and the call
    reports an error, or all its writes appear together at one moment, and at
    that very moment every fencing grant the operation carries is current. *)
Theorem RunAtomic_atomic_and_fenced ctx inSession ms d d' r :
  MongoRunAtomic other ctx inSession (Some (closure mongo_mutate ms)) d d' r →
  (rtc other d d' ∧ is_ok r = false) ∨
  ∃ d1 d2, rtc other d d1 ∧
    (Fencing.ValidationSkippedForTest ctx = false → ∀ g, g ∈ Fencing.GrantsFromContext ctx →
       doc d1 (DFence (Fencing.Resource g)) = Some (fence_doc_of g)) ∧
    (∀ k, doc d2 k = apply_all ms (doc d1) k) ∧ rtc other d2 d'.
Proof.
  intros [?|(d1 & d2 & Hr1 & (Hc & Hd & _) & Hr2)]%RunAtomic_outcome; [by left|].
  right. by exists d1, d2.
Qed.

(** ** Refinement of the in-memory backend *)

(** The documents that stand for an in-memory store. *)
Record represents (v : dockey → option docval) (st : UserlibStore) : Prop := {
  rp_objects id : v (DObject (uuid_String id)) = VObject <$> (Datastore st !! id);
  rp_keys name : match Keystore st !! name with
    | Some key => ∃ d, encodePublicKey key = Ok d ∧ v (DKey name) = Some d
    | None => v (DKey name) = None
    end }.

Context `{!UuidLaws} `{!X509Laws}.

Lemma uuid_String_inj id1 id2 : uuid_String id1 = uuid_String id2 → id1 = id2.
Proof. intros E. pose proof (Parse_String id1) as Hp. rewrite E, Parse_String in Hp. by injection Hp. Qed.

Lemma object_update v st (id : UUID) o :
  represents v st →
  represents (λ k, if decide (k = DObject (uuid_String id)) then VObject <$> o else v k)
    (mkStore (partial_alter (λ _, o) id (Datastore st)) (Keystore st)).
Proof.
  intros [Ho Hk]. split; cbn.
  - intros id'. destruct (decide (id' = id)) as [->|Hne].
    + by rewrite decide_True, lookup_partial_alter_eq.
    + rewrite decide_False by (intros [= E%uuid_String_inj]; done).
      by rewrite lookup_partial_alter_ne.
  - intros name. rewrite decide_False by done. apply Hk.
Qed.

Lemma mutate_refines m v st :
  represents v st → registers m v →
  ∃ st', mutate m st = (st', Ok ()) ∧ represents (apply_mut v m) st'.
Proof.
  intros Hr. destruct m as [id value|id|name key]; cbn; intros Hreg.
  - eexists. split; [done|]. apply (object_update v st id (Some value) Hr).
  - eexists. split; [done|]. apply (object_update v st id None Hr).
  - destruct Hreg as [Hnew Henc]. destruct (encodePublicKey key) as [d|] eqn:Ek; [|done].
    destruct Hr as [Ho Hk]. unfold UserlibKeyStore_Put.
    pose proof (Hk name) as Hkn. destruct (Keystore st !! name) as [k0|].
    { destruct Hkn as (d0 & _ & Hd0). congruence. }
    eexists. split; [done|]. split; cbn; unfold apply_mut; cbn.
    + intros id. rewrite decide_False by done. apply Ho.
    + intros n. destruct (decide (n = name)) as [->|Hne].
      * rewrite lookup_insert_eq, decide_True, Ek by done. eauto.
      * rewrite lookup_insert_ne, decide_False by congruence. apply Hk.
Qed.

Lemma closure_refines ms : ∀ v st,
  represents v st → registers_all ms v →
  ∃ st', closure mutate ms st = (st', Ok ()) ∧ represents (apply_all ms v) st'.
Proof.
  induction ms as [|m ms IH]; intros v st Hr; cbn; [by eauto|]. intros [Hm Hms].
  destruct (mutate_refines m v st Hr Hm) as (st1 & -> & Hr1).
  by apply IH.
Qed.

Lemma represents_ext v1 v2 st : (∀ k, v1 k = v2 k) → represents v1 st → represents v2 st.
Proof. intros He [Ho Hk]. split; intros; rewrite <-He; auto. apply Hk. Qed.

(** C25. The MongoDB backend refines the in-memory one: as long as its
    documents stand for an in-memory store, a read that succeeds answers what
    the in-memory store answers, and a transaction that reports success did,
    at its commit point, exactly what the in-memory store's [RunAtomic] does,
    which succeeds too. *)
Theorem mongo_refines_userlib (d : Db) st id name o ko ctx inSession ms d' :
  represents (doc d) st →
  (ObjectStore_Get id d = Ok o → UserlibObjectStore_Get id st = Ok o) ∧
  (KeyStore_Get name d = Ok ko → UserlibKeyStore_Get name st = Ok ko) ∧
  (MongoRunAtomic other ctx inSession (Some (closure mongo_mutate ms)) d d' (Ok ()) →
   (∀ d1, rtc other d d1 → represents (doc d1) st) →
   ∃ d2 st', RunAtomic None (closure mutate ms) st = (st', Ok ()) ∧
     represents (doc d2) st' ∧ rtc other d2 d').
Proof.
  intros Hr. pose proof Hr as [Ho Hk]. split; [|split].
  - unfold ObjectStore_Get, UserlibObjectStore_Get. destruct (FindOne _ d) as [od|] eqn:E; [|done].
    apply FindOne_Ok in E. rewrite Ho in E. destruct (Datastore st !! id); subst od; done.
  - unfold KeyStore_Get, UserlibKeyStore_Get. destruct (FindOne _ d) as [od|] eqn:E; [|done].
    apply FindOne_Ok in E. specialize (Hk name). destruct (Keystore st !! name) as [key|].
    + destruct Hk as (v & Henc & Hd). rewrite Hd in E. subst od.
      unfold encodePublicKey in Henc. destruct (MarshalPKIXPublicKey _) as [der|] eqn:Em; [|done].
      injection Henc as <-. cbn. rewrite (Parse_Marshal _ _ Em), mkPublicKey_eta. done.
    + rewrite Hk in E. by subst od.
  - intros [[_ ?]|(d1 & d2 & Hr1 & (_ & Hd & Hregs) & Hr2)]%RunAtomic_outcome Hstable; [done|].
    destruct (closure_refines ms _ st (Hstable _ Hr1) Hregs) as (st' & Hc & Hrep).
    exists d2, st'. split; [exact Hc|]. split; [|done].
    eapply represents_ext; [|exact Hrep]. intros k. by rewrite Hd.
Qed.

(** ** Composition with the fence store *)

(** The fence documents of the deployment, as the coordinator's store sees
    them. *)
Definition fence_of_db (d : Db) (resource : string) : option fence :=
  match doc d (DFence resource) with
  | Some (VFence t o) => Some (Z.to_N t, o)
  | _ => None
  end.

Lemma fence_doc_current (d : Db) g :
  (Fencing.grant_Token g ≤ max_int64)%N →
  doc d (DFence (Fencing.Resource g)) = Some (fence_doc_of g) →
  fence_of_db d (Fencing.Resource g) = Some (Fencing.grant_Token g, Some (Fencing.OwnerTxn g)).
Proof.
  intros Hle Hd. unfold fence_of_db. rewrite Hd. cbn. do 2 f_equal.
  unfold int64_of, max_int64 in *. rewrite Z.mod_small by lia.
  rewrite decide_True by lia. lia.
Qed.

Context `{!FenceStore Db} `{!FenceLaws Db}.

(** The coordinator's store is the same collection, and the rest of the
    deployment changes fence documents only through it. *)
Record shared_fences : Prop := {
  sf_view (d : Db) r : fence_of d r = fence_of_db d r;
  sf_other (d d' : Db) : other d d' → fence_step d d' ∨ ∀ r, fence_of d' r = fence_of d r }.

Lemma stale_other d d' g :
  shared_fences → rtc other d d' → ¬ current d g →
  (Fencing.grant_Token g ≤ token_of d (Fencing.Resource g))%N →
  ¬ current d' g ∧ (Fencing.grant_Token g ≤ token_of d' (Fencing.Resource g))%N.
Proof.
  intros Hsf. induction 1 as [d|d1 d2 d3 Hs _ IH]; [done|]. intros Hn Hle.
  destruct (sf_other Hsf _ _ Hs) as [Hf|Heq].
  - destruct (stale_step _ _ g Hf Hn Hle). by apply IH.
  - apply IH; unfold current, token_of in *; by rewrite Heq.
Qed.

(** C14. A stale writer writes nothing: once one of the grants an operation
    carries has gone stale, its transaction can only report an error, and the
    deployment ends up as if the transaction had never been run. *)
Theorem stale_writer_rejected ctx inSession ms d d' r g :
  shared_fences → Fencing.ValidationSkippedForTest ctx = false →
  g ∈ Fencing.GrantsFromContext ctx → (Fencing.grant_Token g ≤ max_int64)%N →
  ¬ current d g → (Fencing.grant_Token g ≤ token_of d (Fencing.Resource g))%N →
  MongoRunAtomic other ctx inSession (Some (closure mongo_mutate ms)) d d' r →
  is_ok r = false ∧ rtc other d d'.
Proof.
  intros Hsf Hskip Hg Hmax Hn Hle [[? ?]|(d1 & d2 & Hr1 & (Hc & _) & _)]%RunAtomic_outcome; [done|].
  exfalso. destruct (stale_other _ _ _ Hsf Hr1 Hn Hle) as [Hn1 _]. apply Hn1.
  unfold current. rewrite (sf_view Hsf). by apply fence_doc_current, Hc.
Qed.

End mongo.
