(* ===== verification/MongoRuns.v ===== *)
(** * A concrete deployment

    Documents in a map, transactions with a snapshot and a write set, and the
    theorems of MongoThms applied to it: the laws assumed of MongoDB can hold. *)

From S2P Require Import Prelude Json Libs LockManager Fencing Effects LocalEnv FenceStore MongoStore.
From S2P Require Import MongoThms.
Import Toy.
Open Scope string_scope.

Module MapMongo.

Abbreviation Db := (gmap dockey docval) (only parsing).

Record Session := mkSession { base : Db; cur : Db; dirty : gset dockey }.

#[export] Instance db_statements : Statements Db := {|
  doc d k := d !! k;
  FindOne k d := Ok (d !! k);
  ReplaceOne k v d := (<[k := v]> d, Ok ());
  DeleteOne k d := (delete k d, Ok ());
  InsertOne k v d := match d !! k with Some _ => (d, Ok false) | None => (<[k := v]> d, Ok true) end;
  UpdateOne_validate k v d :=
    if decide (d !! k = Some v) then (d, Ok 1%nat) else (d, Ok 0%nat) |}.

Definition touch (k : dockey) (d : Db) (s : Session) : Session :=
  mkSession (base s) d ({[k]} ∪ dirty s).

#[export] Instance session_statements : Statements Session := {|
  doc s k := cur s !! k;
  FindOne k s := Ok (cur s !! k);
  ReplaceOne k v s := (touch k (<[k := v]> (cur s)) s, Ok ());
  DeleteOne k s := (touch k (delete k (cur s)) s, Ok ());
  InsertOne k v s := match cur s !! k with
    | Some _ => (s, Ok false) | None => (touch k (<[k := v]> (cur s)) s, Ok true) end;
  UpdateOne_validate k v s :=
    if decide (cur s !! k = Some v) then (touch k (cur s) s, Ok 1%nat) else (s, Ok 0%nat) |}.

(** First committer wins. *)
#[export] Instance map_transactions : Transactions Db Session := {|
  StartTransaction d := mkSession d d ∅;
  CommitTransaction s d :=
    if decide (set_Forall (λ k, d !! k = base s !! k) (dirty s))
    then (set_fold (λ k acc, partial_alter (λ _, cur s !! k) k acc) d (dirty s), Ok ())
    else (d, Err (EMsg "WriteConflict"));
  snapshot := base;
  written s k := bool_decide (k ∈ dirty s) |}.

Lemma commit_lookup (s : Session) (d : Db) k :
  set_fold (λ k acc, partial_alter (λ _, cur s !! k) k acc) d (dirty s) !! k =
  if bool_decide (k ∈ dirty s) then cur s !! k else d !! k.
Proof.
  set (f := λ k acc, partial_alter (λ _, cur s !! k) k acc).
  assert ((k ∈ dirty s → set_fold f d (dirty s) !! k = cur s !! k) ∧
          (k ∉ dirty s → set_fold f d (dirty s) !! k = d !! k)) as [Hin Hout].
  { apply (set_fold_ind_L (λ r (X : gset dockey),
      (k ∈ X → r !! k = cur s !! k) ∧ (k ∉ X → r !! k = d !! k))); [set_solver|].
    intros k' X r Hk' Hr. destruct (decide (k = k')) as [->|Hne]; unfold f;
      [rewrite lookup_partial_alter_eq|rewrite lookup_partial_alter_ne by done]; set_solver. }
  case_bool_decide; auto.
Qed.

Lemma touch_sets k v d (s : Session) :
  (∀ k', d !! k' = if decide (k' = k) then v else cur s !! k') → sets k v s (touch k d s).
Proof.
  intros Hd. split; [done|]. split; [apply bool_decide_eq_true_2; cbn; set_solver|]. split; [|done].
  intros k' Hk'%bool_decide_eq_true. apply bool_decide_eq_true_2. cbn. set_solver.
Qed.

#[export] Instance map_mongo : MongoLaws Db Session.
Proof.
  split; try done; cbn.
  - intros d k r [= <-]. done.
  - intros k v s s' u [= <- _]. apply touch_sets. intros k'. rewrite lookup_insert.
    repeat case_decide; naive_solver.
  - intros k s s' u [= <- _]. apply touch_sets. intros k'. rewrite lookup_delete.
    repeat case_decide; naive_solver.
  - intros k v s s'. destruct (cur s !! k) eqn:E; [done|]. intros [= <-]. split; [done|].
    apply touch_sets. intros k'. rewrite lookup_insert. repeat case_decide; naive_solver.
  - intros k v s s' n. case_decide as E; [|done]. intros [= <- _]. split; [done|].
    apply touch_sets. intros k'. case_decide; [by subst|done].
  - intros s d d' u. case_decide as Hc; [|done]. intros [= <- _]. split.
    + intros k Hk%bool_decide_eq_true. by apply Hc.
    + intros k. apply commit_lookup.
  - intros s d d' e. case_decide as Hc; [done|]. intros [= <- _]. by left.
Qed.

(** The coordinator's statements on the fence documents of the same database. *)
Definition token_at (d : Db) (r : string) : Z :=
  match d !! DFence r with Some (VFence t _) => t | _ => 0%Z end.

#[export] Instance map_x509 : X509 := {|
  RsaKey := string;
  PubKey k := k;
  mkPublicKey ty k := k;
  MarshalPKIXPublicKey k := Ok k;
  ParsePKIXPublicKey der := Ok (inl der) |}.

#[export] Instance map_x509_laws : X509Laws.
Proof. split; cbn; [by intros k der [= <-]|done]. Qed.

#[export] Instance map_fences : FenceStore Db := {|
  fence_of d r := fence_of_db d r;
  Allocate r o d :=
    let t := (from_option fst 0%N (fence_of_db d r) + 1)%N in
    if decide (t ≤ max_int64)%N then (<[DFence r := VFence (Z.of_N t) (Some o)]> d, Ok t)
    else (d, Err (EMsg "overflow"));
  Invalidate r o d :=
    match d !! DFence r with
    | Some (VFence t (Some o')) =>
        (<[DFence r := VFence t (if decide (o' = o) then None else Some o')]> d, Ok ())
    | _ => (d, Ok ())
    end |}.

#[export] Instance map_fence_laws : FenceLaws Db.
Proof.
  split; cbn; unfold token_of, fence_of_db; cbn.
  - intros r o d d' t. case_decide; [|done]. intros [= <- <-]. split; [done|].
    cbn. by rewrite lookup_insert_eq, N2Z.id.
  - intros r o d d' e. case_decide; [done|]. intros [= <- _]. by left.
  - intros r o d r' Hne. case_decide; [|done]. cbn. by rewrite lookup_insert_ne by congruence.
  - intros r o d d' []. destruct (d !! DFence r) as [[?|? ?|t [o'|]]|] eqn:E;
      intros [= <-]; rewrite ?lookup_insert_eq, ?E; done.
  - intros r o d d' e. repeat case_match; naive_solver.
  - intros r o d r' Hne. destruct (d !! DFence r) as [[?|? ?|t [o'|]]|]; try done. cbn.
    by rewrite lookup_insert_ne by congruence.
Qed.

End MapMongo.

Import MapMongo.

(** The deployment of one writer: everybody else only uses the fence store. *)
Definition only_fences : Db → Db → Prop := fence_step.

Lemma only_fences_shared : shared_fences only_fences.
Proof. split; [done|]. intros d d' Hs. by left. Qed.

Definition fence_a : Fencing.Grant := Fencing.mkGrant "1:f" 1 "a".
Definition ctx_a : Fencing.Ctx := Fencing.WithGrants Fencing.Background [fence_a].
Definition write_u : list Mutation := [MPut ("u" : @UUID toy_uuid) "new"].

(** a holds the fence of f; then b does. *)
Definition db_a : Db := (FenceStore.Allocate "1:f" "a" (∅ : Db)).1.
Definition db_b : Db := (FenceStore.Allocate "1:f" "b" db_a).1.

Definition done_a : Session :=
  (callback ctx_a (closure mongo_mutate write_u) (StartTransaction db_a)).1.
Definition db_written : Db := (CommitTransaction done_a db_a).1.

Lemma a_commits :
  MongoRunAtomic only_fences ctx_a false (Some (closure mongo_mutate write_u)) db_a db_written (Ok ()).
Proof.
  right. exists (Ok ()). split; [|done].
  eapply (wt_commit _ _ db_a db_a db_a db_written db_written done_a (Ok ())); try apply rtc_refl;
    vm_compute; reflexivity.
Qed.

Lemma RunAtomic_atomic_and_fenced_witness :
  (rtc only_fences db_a db_written ∧ is_ok (Ok ()) = false) ∨
  ∃ d1 d2 : Db, rtc only_fences db_a d1 ∧
    (Fencing.ValidationSkippedForTest ctx_a = false → ∀ g, g ∈ Fencing.GrantsFromContext ctx_a →
       doc d1 (DFence (Fencing.Resource g)) = Some (fence_doc_of g)) ∧
    (∀ k, doc d2 k = apply_all write_u (doc d1) k) ∧ rtc only_fences d2 db_written.
Proof. apply (RunAtomic_atomic_and_fenced only_fences ctx_a false write_u). exact a_commits. Defined.

Definition failed_b : Session :=
  (callback ctx_a (closure mongo_mutate write_u) (StartTransaction db_b)).1.
Definition stale_error : error :=
  EWrap ("mongostore: " +:+ Fencing.Grant_String fence_a) EStaleFence.

Lemma stale_writer_rejected_witness :
  is_ok (A:=unit) (Err (EWrap "mongostore: transaction" stale_error)) = false ∧ rtc only_fences db_b db_b.
Proof.
  apply (stale_writer_rejected only_fences ctx_a false write_u db_b db_b
    (Err (EWrap "mongostore: transaction" stale_error)) fence_a).
  - apply only_fences_shared.
  - reflexivity.
  - apply list_elem_of_singleton. reflexivity.
  - vm_compute. discriminate.
  - vm_compute. discriminate.
  - vm_compute. discriminate.
  - right. exists (Err stale_error). split; [|reflexivity].
    eapply (wt_abort _ _ db_b db_b db_b failed_b stale_error); try apply rtc_refl;
      vm_compute; reflexivity.
Defined.

Definition empty_store : UserlibStore := mkStore (∅ : gmap (@UUID toy_uuid) string) ∅.

(** Fence operations leave the objects and the keys alone. *)
Lemma fences_represent (d d' : Db) st :
  rtc only_fences d d' → represents (doc d) st → represents (doc d') st.
Proof.
  induction 1 as [d|d1 d2 d3 Hs _ IH]; [done|]. intros Hr. apply IH.
  assert (∀ k, (∀ r, k ≠ DFence r) → doc d2 k = doc d1 k) as Hsame.
  { intros k Hk. destruct Hs as [r o|r o]; cbn.
    - case_decide; [|done]. cbn. by rewrite lookup_insert_ne by (intros <-; by eapply Hk).
    - repeat case_match; cbn; try done; by rewrite lookup_insert_ne by (intros <-; by eapply Hk). }
  destruct Hr as [Ho Hk]. split.
  - intros id. by rewrite Hsame.
  - intros n. specialize (Hk n). rewrite Hsame by done. exact Hk.
Qed.

Lemma db_a_represents : represents (doc db_a) empty_store.
Proof. apply (fences_represent (∅ : Db)); [apply rtc_once; constructor|]. by split. Qed.

Lemma mongo_refines_userlib_witness :
  ∃ (d2 : Db) st', RunAtomic None (closure mutate write_u) empty_store = (st', Ok ()) ∧
    represents (doc d2) st' ∧ rtc only_fences d2 db_written.
Proof.
  apply (mongo_refines_userlib only_fences db_a empty_store ("u" : @UUID toy_uuid) "" None None
    ctx_a false write_u db_written).
  - apply db_a_represents.
  - exact a_commits.
  - intros d1 Hr. eapply fences_represent; [exact Hr|apply db_a_represents].
Defined.
