(* ===== verification/RemoteGuard.v ===== *)
(** * The coordinator's client (src/client/coordination/grpccoord/client.go)

    The guard a worker's operation holds against the remote coordinator: its
    critical sections as functions, [AcquireContext] and [ReleaseAll] over an
    RPC given as an argument, and the interleavings of the goroutine that uses
    the guard with the heartbeat goroutine that renews its lease ([g_step]).
    Durations and instants are nanoseconds. Transport (grpc.DialContext, the
    stubs) is an argument; log lines are left out. *)

From S2P Require Import Prelude Json Libs LockManager Fencing FenceStore Coordinator MongoStore.
Import LM.
Open Scope string_scope.

Module Remote.
Section remote.
Context `{UuidLib}.

(** ** Configuration *)

Definition minRenewalInterval : Z := 50000000.
Definition DefaultTimeout : Z := 10 * second_ns.
Definition DefaultLease : Z := Z.of_N DefaultLeaseDuration.

Record Config := mkConfig { Address : string; Timeout : Z; RenewInterval : Z }.

(** [None] is [configured = false]. *)
Definition ConfigFromEnv (ParseDuration : string → result Z) (Getenv : string → string)
    : result (option Config) :=
  let address := Getenv "SAFER_COORDINATOR_ADDR" in
  if decide (address = "") then Ok None else
  let raw := Getenv "SAFER_COORDINATOR_TIMEOUT" in
  if decide (raw = "") then Ok (Some (mkConfig address DefaultTimeout 0)) else
  match ParseDuration raw with
  | Err e => Err (notDuration "SAFER_COORDINATOR_TIMEOUT" raw e)
  | Ok d =>
      if decide (d ≤ 0)%Z then Err (notPositive "SAFER_COORDINATOR_TIMEOUT" raw)
      else Ok (Some (mkConfig address d 0))
  end.

Record Backend := mkBackend { timeout : Z; renewInterval : Z }.

(** The coordinator's answer to the Health RPC, as [Backend.Health] reports it. *)
Definition Health (answer : result unit) : result unit :=
  match answer with Err e => Err (EWrap "grpccoord: health" e) | Ok _ => Ok () end.

(** [dial address timeout] is [grpc.DialContext] and [health timeout] the
    coordinator's answer over the new connection. *)
Definition Dial (dial : string → Z → result unit) (health : Z → result unit) (cfg : Config)
    : result Backend :=
  if decide (Address cfg = "") then Err (EMsg "grpccoord: SAFER_COORDINATOR_ADDR is required") else
  let timeout := if decide (Timeout cfg ≤ 0)%Z then DefaultTimeout else Timeout cfg in
  match dial (Address cfg) timeout with
  | Err e => Err (EWrap ("grpccoord: dial " +:+ Address cfg) e)
  | Ok _ =>
      let renewInterval :=
        if decide (RenewInterval cfg ≤ 0)%Z then (DefaultLease / 3)%Z else RenewInterval cfg in
      _ ← Health (health timeout);
      Ok (mkBackend timeout renewInterval)
  end.

(** ** The guard *)

(** [stopped] and [lost] say that the channel is closed; [waitGroup] is the
    counter of [heartbeatDone]; [leaseExpires] is [None] for the zero time. *)
Record remoteGuard := mkGuard {
  txn : UUID;
  acquired : bool;
  ended : bool;
  grants : list Fencing.Grant;
  heartbeatStarted : bool;
  stopped : bool;
  waitGroup : nat;
  leaseExpires : option Z;
  lost : bool }.

(** [Backend.Begin], with the UUID it draws. *)
Definition Begin (id : UUID) : remoteGuard := mkGuard id false false [] false false 0 None false.

Definition noteLeaseDeadline (unixNano : Z) (g : remoteGuard) : remoteGuard :=
  if decide (unixNano ≤ 0)%Z then g
  else mkGuard (txn g) (acquired g) (ended g) (grants g) (heartbeatStarted g) (stopped g)
         (waitGroup g) (Some unixNano) (lost g).

Definition renewalDelay (now : Z) (g : remoteGuard) : Z :=
  match leaseExpires g with
  | None => (DefaultLease / 3)%Z
  | Some deadline =>
      let remaining := (deadline - now)%Z in
      if decide (remaining ≤ 0)%Z then minRenewalInterval
      else Z.max (Z.quot remaining 3) minRenewalInterval
  end.

(** *** Acquire *)

(** The wire form of a request. *)
Definition acquire_request (resource : ResourceID) (mode : LockMode) : result ((N * string) * N) :=
  protoResource ← resourceToProto resource;
  protoMode ← modeToProto mode;
  Ok (protoResource, protoMode).

(** The first critical section: refuse an ended transaction, and remember that
    the coordinator may know this one before the request leaves. *)
Definition acquire_enter (g : remoteGuard) : result remoteGuard :=
  if ended g
  then Err (EMsg ("grpccoord: transaction " +:+ uuid_String (txn g) +:+ " has already ended"))
  else Ok (mkGuard (txn g) true (ended g) (grants g) (heartbeatStarted g) (stopped g)
             (waitGroup g) (leaseExpires g) (lost g)).

(** The grant a response stands for, if it carries a fencing token. *)
Definition fence_grant (id : UUID) (resource : ResourceID) (mode : LockMode) (token : N)
    : list Fencing.Grant :=
  if decide (mode = ExclusiveLock ∧ token ≠ 0%N)
  then [Fencing.mkGrant (Fencing.ResourceKey (Type_ resource) (Key resource)) token (uuid_String id)]
  else [].

(** The second critical section, and whether to start the heartbeat. *)
Definition acquire_record (resource : ResourceID) (mode : LockMode) (token : N) (g : remoteGuard)
    : remoteGuard * bool :=
  let startHeartbeat := negb (heartbeatStarted g) && negb (ended g) in
  (mkGuard (txn g) (acquired g) (ended g)
     (grants g ++ fence_grant (txn g) resource mode token)%list
     (heartbeatStarted g || startHeartbeat) (stopped g)
     (if startHeartbeat then S (waitGroup g) else waitGroup g) (leaseExpires g) (lost g),
   startHeartbeat).

Definition acquireError (resource : ResourceID) (mode : LockMode) (e : error) : error :=
  EWrap ("grpccoord: acquire " +:+ LockMode_String mode +:+ " on " +:+ fmt_v resource) e.

(** [AcquireContext] with no other goroutine between its critical sections.
    [rpc] is the Acquire stub; it answers [None] while the request waits. *)
Definition AcquireContext {S} (rpc : string → option (N * string) → N → S → S * option (result AcquireResponse))
    (resource : ResourceID) (mode : LockMode) (g : remoteGuard) (s : S)
    : S * remoteGuard * option (result unit) :=
  match acquire_request resource mode with
  | Err e => (s, g, Some (Err e))
  | Ok (protoResource, protoMode) =>
      match acquire_enter g with
      | Err e => (s, g, Some (Err e))
      | Ok g =>
          let '(s, answer) := rpc (uuid_String (txn g)) (Some protoResource) protoMode s in
          match answer with
          | None => (s, g, None)
          | Some (Err e) => (s, g, Some (Err (acquireError resource mode e)))
          | Some (Ok response) =>
              let g := noteLeaseDeadline (LeaseExpires response) g in
              (s, (acquire_record resource mode (FencingToken response) g).1, Some (Ok ()))
          end
      end
  end.

(** [FenceGrants]: a copy. *)
Definition FenceGrants (g : remoteGuard) : list Fencing.Grant := grants g.

(** *** The heartbeat *)

(** [status.Code] *)
Definition status_Code (e : error) : string :=
  match e with EStatus code _ => code | _ => "Unknown" end.

Definition markLost (g : remoteGuard) : remoteGuard :=
  mkGuard (txn g) (acquired g) (ended g) (grants g) (heartbeatStarted g) (stopped g)
    (waitGroup g) (leaseExpires g) true.

(** After the RenewLease RPC: the delay the timer is reset to, or [None] when
    the goroutine returns. *)
Definition heartbeat_answer (now : Z) (answer : result Z) (g : remoteGuard)
    : remoteGuard * option Z :=
  match answer with
  | Ok deadline => let g := noteLeaseDeadline deadline g in (g, Some (renewalDelay now g))
  | Err e =>
      if decide (status_Code e = "FailedPrecondition") then (markLost g, None)
      else (g, Some minRenewalInterval)
  end.

(** *** ReleaseAll *)

(** The critical section: [None] is the early return of a second call. *)
Definition release_enter (g : remoteGuard) : option remoteGuard :=
  if ended g then None
  else Some (mkGuard (txn g) (acquired g) true (grants g) (heartbeatStarted g) (stopped g)
               (waitGroup g) (leaseExpires g) (lost g)).

Definition closeStop (g : remoteGuard) : remoteGuard :=
  mkGuard (txn g) (acquired g) (ended g) (grants g) (heartbeatStarted g) true
    (waitGroup g) (leaseExpires g) (lost g).
Definition heartbeatReturns (g : remoteGuard) : remoteGuard :=
  mkGuard (txn g) (acquired g) (ended g) (grants g) (heartbeatStarted g) (stopped g)
    (pred (waitGroup g)) (leaseExpires g) (lost g).

(** [ReleaseAll] with no other goroutine running but the heartbeat, which
    returns when told to. [rpc] is the EndTransaction stub; its error is only
    printed. *)
Definition ReleaseAll {S R} (rpc : string → S → S * result R) (g : remoteGuard) (s : S)
    : S * remoteGuard :=
  match release_enter g with
  | None => (s, g)
  | Some g =>
      let g := if heartbeatStarted g then heartbeatReturns (closeStop g) else g in
      if acquired g then ((rpc (uuid_String (txn g)) s).1, g) else (s, g)
  end.

(** ** Interleavings *)

(** Where the goroutine that uses the guard stands. *)
Inductive op :=
  | OIdle
  | OAcquiring (resource : ResourceID) (mode : LockMode)
  | ONoted (resource : ResourceID) (mode : LockMode) (token : N)
  | OSpawn
  | OStop
  | OWait
  | OEnd
  | OEnding.

(** Where the heartbeat goroutine stands. *)
Inductive beat := BNone | BTimer | BRenewing | BReturned.

(** The RPCs that left, in order. *)
Inductive rpc := RAcquire (resource : ResourceID) (mode : LockMode) | RRenew | REnd.

#[export] Instance rpc_eq_dec : EqDecision rpc.
Proof. solve_decision. Defined.

Record gstate := mkState { guard : remoteGuard; oper : op; heart : beat; sent : list rpc }.

(** After the heartbeat has been dealt with, [ReleaseAll] ends the transaction
    if it was ever announced. *)
Definition after_stop (g : remoteGuard) : op := if acquired g then OEnd else OIdle.

Inductive g_step : gstate → gstate → Prop :=
  | op_send resource mode p g g' b l :
      acquire_request resource mode = Ok p → acquire_enter g = Ok g' →
      g_step (mkState g OIdle b l)
        (mkState g' (OAcquiring resource mode) b (l ++ [RAcquire resource mode])%list)
  | op_failed resource mode g b l :
      g_step (mkState g (OAcquiring resource mode) b l) (mkState g OIdle b l)
  | op_answered resource mode token deadline g b l :
      g_step (mkState g (OAcquiring resource mode) b l)
        (mkState (noteLeaseDeadline deadline g) (ONoted resource mode token) b l)
  | op_record resource mode token g g' start b l :
      acquire_record resource mode token g = (g', start) →
      g_step (mkState g (ONoted resource mode token) b l)
        (mkState g' (if start then OSpawn else OIdle) b l)
  | op_spawn g b l : g_step (mkState g OSpawn b l) (mkState g OIdle BTimer l)
  | rel_enter g g' b l :
      release_enter g = Some g' →
      g_step (mkState g OIdle b l)
        (mkState g' (if heartbeatStarted g' then OStop else after_stop g') b l)
  | rel_stop g b l : g_step (mkState g OStop b l) (mkState (closeStop g) OWait b l)
  | rel_waited g b l :
      waitGroup g = 0%nat → g_step (mkState g OWait b l) (mkState g (after_stop g) b l)
  | rel_send g b l : g_step (mkState g OEnd b l) (mkState g OEnding b (l ++ [REnd])%list)
  | rel_return g b l : g_step (mkState g OEnding b l) (mkState g OIdle b l)
  | beat_stop g o l :
      stopped g = true →
      g_step (mkState g o BTimer l) (mkState (heartbeatReturns g) o BReturned l)
  | beat_suspended g o l : g_step (mkState g o BTimer l) (mkState g o BTimer l)
  | beat_send g o l :
      g_step (mkState g o BTimer l) (mkState g o BRenewing (l ++ [RRenew])%list)
  | beat_answer now r g g' next o l :
      heartbeat_answer now r g = (g', next) →
      g_step (mkState g o BRenewing l)
        (match next with
         | Some _ => mkState g' o BTimer l
         | None => mkState (heartbeatReturns g') o BReturned l
         end).

Definition g_reachable (c : gstate) : Prop :=
  ∃ id, rtc g_step (mkState (Begin id) OIdle BNone []) c.

End remote.
End Remote.
