(* ===== verification/RemoteThms.v ===== *)
(** * Correctness of the coordinator's client

    The guard's protocol over every interleaving with its heartbeat, and how
    the pace of the heartbeat relates to the coordinator's lease. *)

From S2P Require Import Prelude Json Libs LockManager Fencing FenceStore Coordinator RemoteGuard.
From S2P Require Import CoordinatorThms CoordinatorRpc.
Import LM Remote.
Open Scope Z_scope.

Section remote_thms.
Context `{UuidLib}.

(** ** The invariant *)

(** The heartbeat goroutine and the counter that [ReleaseAll] waits for. *)
Definition heart_ok (c : gstate) : Prop :=
  match heart c with
  | BNone =>
      match oper c with
      | OSpawn => heartbeatStarted (guard c) = true ∧ waitGroup (guard c) = 1%nat
      | _ => heartbeatStarted (guard c) = false ∧ waitGroup (guard c) = 0%nat
      end
  | BTimer | BRenewing =>
      oper c ≠ OSpawn ∧ heartbeatStarted (guard c) = true ∧ waitGroup (guard c) = 1%nat
  | BReturned =>
      oper c ≠ OSpawn ∧ heartbeatStarted (guard c) = true ∧ waitGroup (guard c) = 0%nat
  end.

Definition at_rest (b : beat) : Prop := b = BNone ∨ b = BReturned.

(** What has been sent, by where the using goroutine stands. *)
Definition sent_ok (c : gstate) : Prop :=
  let g := guard c in
  match oper c with
  | OAcquiring _ _ | ONoted _ _ _ =>
      ended g = false ∧ acquired g = true ∧ stopped g = false ∧ (REnd ∉ sent c)
  | OSpawn => ended g = false ∧ acquired g = true ∧ stopped g = false ∧ (REnd ∉ sent c)
  | OStop =>
      ended g = true ∧ heartbeatStarted g = true ∧ acquired g = true ∧ (REnd ∉ sent c)
  | OWait => ended g = true ∧ stopped g = true ∧ acquired g = true ∧ (REnd ∉ sent c)
  | OEnd => ended g = true ∧ acquired g = true ∧ at_rest (heart c) ∧ (REnd ∉ sent c)
  | OEnding =>
      ended g = true ∧ at_rest (heart c) ∧ ∃ l, sent c = (l ++ [REnd])%list ∧ (REnd ∉ l)
  | OIdle =>
      if ended g
      then at_rest (heart c) ∧
        (if acquired g then ∃ l, sent c = (l ++ [REnd])%list ∧ (REnd ∉ l) else sent c = [])
      else stopped g = false ∧ (REnd ∉ sent c)
  end.

Record g_inv (c : gstate) : Prop := {
  gi_heart : heart_ok c;
  gi_started : heartbeatStarted (guard c) = true → acquired (guard c) = true;
  gi_silent : acquired (guard c) = false → sent c = [];
  gi_sent : sent_ok c }.

Lemma note_fields n g :
  let g' := noteLeaseDeadline n g in
  txn g' = txn g ∧ acquired g' = acquired g ∧ ended g' = ended g ∧ grants g' = grants g ∧
  heartbeatStarted g' = heartbeatStarted g ∧ stopped g' = stopped g ∧ waitGroup g' = waitGroup g.
Proof. cbn. unfold noteLeaseDeadline. by case_decide. Qed.

(** Only the instant the timer is set to depends on the answer. *)
Lemma answer_fields now r g g' next :
  heartbeat_answer now r g = (g', next) →
  txn g' = txn g ∧ acquired g' = acquired g ∧ ended g' = ended g ∧ grants g' = grants g ∧
  heartbeatStarted g' = heartbeatStarted g ∧ stopped g' = stopped g ∧ waitGroup g' = waitGroup g.
Proof.
  unfold heartbeat_answer. destruct r as [d|e].
  - intros [= <- _]. apply note_fields.
  - case_decide; intros [= <- _]; done.
Qed.

Lemma snoc_not_elem {A} (x y : A) l : (x ∉ l) → x ≠ y → x ∉ (l ++ [y])%list.
Proof. set_solver. Qed.
#[local] Hint Resolve snoc_not_elem : safer.

(** The four parts of the invariant, as facts about the fields. *)
Ltac inv_split := split; unfold heart_ok, sent_ok, at_rest; cbn.

Lemma g_inv_step c c' : g_step c c' → g_inv c → g_inv c'.
Proof.
  intros Hs [Hh Hst Hsi Hse]. destruct Hs as
    [r m p g g' b l _ Hen|r m g b l|r m t d g b l|r m t g g' start b l Hrec|g b l
    |g g' b l Hrel|g b l|g b l Hwg|g b l|g b l|g o l Hstop|g o l|g o l|now r g g' nx o l Hans];
    unfold heart_ok, sent_ok, at_rest in *; cbn [guard oper heart sent] in *.
  - (* op_send *) unfold acquire_enter in Hen. destruct (ended g) eqn:He; [done|]. injection Hen as <-.
    cbn in *. destruct Hse. inv_split; [destruct b; naive_solver|done|done|]. eauto with safer.
  - destruct Hse as (He & Ha & ? & ?). inv_split; [destruct b; naive_solver|done|done|]. by rewrite He.
  - destruct (note_fields d g) as (_ & Ea & Ee & _ & Eh & Es & Ew). inv_split;
      rewrite ?Ea, ?Ee, ?Eh, ?Es, ?Ew; try done; destruct b; naive_solver.
  - injection Hrec as <- <-. destruct Hse as (He & Ha & ? & ?). rewrite He, Ha in *.
    destruct (heartbeatStarted g) eqn:Eh; cbn; inv_split; rewrite ?He, ?Ha, ?Eh; try done;
      destruct b; naive_solver.
  - destruct Hse as (He & Ha & ? & ?). inv_split; [destruct b; naive_solver|done|done|]. by rewrite He.
  - unfold release_enter in Hrel. destruct (ended g) eqn:He; [done|]. injection Hrel as <-. cbn in *.
    destruct Hse as [? ?]. destruct (heartbeatStarted g) eqn:Eh; unfold after_stop; cbn.
    + inv_split; [destruct b; naive_solver|done|done|]. rewrite Hst by done. done.
    + destruct (acquired g) eqn:Ea; inv_split; rewrite ?Eh, ?Ea; try done; destruct b; naive_solver.
  - destruct Hse as (? & ? & ? & ?). inv_split; [destruct b; naive_solver|done|done|done].
  - destruct Hse as (? & ? & Ha & ?). unfold after_stop. rewrite Ha.
    inv_split; [destruct b; naive_solver|done|done|].
    split; [done|]. split; [done|]. split; [|done].
    destruct b; [by left| | |by right]; destruct Hh as (_ & _ & ?); congruence.
  - destruct Hse as (? & Ha & ? & ?). inv_split; [destruct b; naive_solver|done|by rewrite Ha|]. eauto.
  - destruct Hse as (He & ? & l0 & -> & ?). inv_split; [destruct b; naive_solver|done|done|].
    rewrite He. split; [done|]. destruct (acquired g) eqn:Ha; [eauto|].
    specialize (Hsi eq_refl). by destruct l0.
  - destruct Hh as (Ho & Eh & Ew). inv_split; [by rewrite Ew|done|done|].
    destruct o; cbn in *; try destruct (ended g); naive_solver.
  - done.
  - destruct Hh as (Ho & Eh & Ew). inv_split; [done|done|by rewrite Hst|].
    assert ((REnd ∉ l) → REnd ∉ (l ++ [RRenew])%list) by auto with safer.
    destruct o; cbn in *; try destruct (ended g); naive_solver.
  - destruct (answer_fields _ _ _ _ _ Hans) as (_ & Ea & Ee & _ & Eh & Es & Ew).
    destruct Hh as (Ho & Eh' & Ew'). destruct nx; inv_split; rewrite ?Ea, ?Ee, ?Eh, ?Es, ?Ew, ?Ew'; try done;
      destruct o; cbn in *; try destruct (ended g); naive_solver.
Qed.

Lemma g_inv_reachable c : g_reachable c → g_inv c.
Proof.
  intros (id & Hr). eapply (rtc_invariant g_step g_inv); [|exact Hr|].
  - intros x y Hx Hs. by eapply g_inv_step.
  - inv_split; done || (split; [done|]; set_solver).
Qed.

(** ** The protocol towards the coordinator *)

(** C26. Whatever the interleaving with the heartbeat, a guard sends
    EndTransaction at most once and as the last of its RPCs, when no renewal
    is running or can still start; a guard that never asked for a lock sends
    nothing at all; and once [ReleaseAll] has returned, a guard that ever
    asked for one has told the coordinator. *)
Theorem guard_protocol c :
  g_reachable c →
  (REnd ∈ sent c → ended (guard c) = true ∧ (heart c = BNone ∨ heart c = BReturned) ∧
     ∃ l, sent c = (l ++ [REnd])%list ∧ (REnd ∉ l)) ∧
  (acquired (guard c) = false → sent c = []) ∧
  (oper c = OIdle → ended (guard c) = true → sent c ≠ [] → REnd ∈ sent c).
Proof.
  intros [_ _ Hsi Hse]%g_inv_reachable. unfold sent_ok, at_rest in Hse. split; [|split; [done|]].
  - intros Hin. destruct (oper c); try (exfalso; naive_solver).
    + destruct (ended (guard c)); [|naive_solver]. destruct Hse as [? Hse]. split; [done|]. split; [done|].
      destruct (acquired (guard c)); [done|]. rewrite Hse in Hin. by apply elem_of_nil in Hin.
    + naive_solver.
  - intros Ho He Hne. rewrite Ho, He in Hse. destruct (acquired (guard c)); [|naive_solver].
    destruct Hse as (_ & l & -> & _). set_solver.
Qed.

(** ** Release always returns *)

Lemma after_stop_returns g b l : ∃ c', rtc g_step (mkState g (after_stop g) b l) c' ∧ oper c' = OIdle.
Proof.
  unfold after_stop. destruct (acquired g); [|exists (mkState g OIdle b l); by split; [apply rtc_refl|]].
  eexists. split; [eapply rtc_l; [apply rel_send|eapply rtc_once, rel_return]|done].
Qed.

Lemma waited_returns g b l :
  heart_ok (mkState g OWait b l) → stopped g = true →
  ∃ c', rtc g_step (mkState g OWait b l) c' ∧ oper c' = OIdle.
Proof.
  assert (∀ g b, waitGroup g = 0%nat →
    ∃ c', rtc g_step (mkState g OWait b l) c' ∧ oper c' = OIdle) as Hzero.
  { intros g0 b0 Hw. destruct (after_stop_returns g0 b0 l) as (c' & Hr & Ho). exists c'.
    split; [eapply rtc_l; [by apply rel_waited|done]|done]. }
  assert (waitGroup g = 1%nat → stopped g = true →
    ∃ c', rtc g_step (mkState g OWait BTimer l) c' ∧ oper c' = OIdle) as Htimer.
  { intros Hw Hst. destruct (Hzero (heartbeatReturns g) BReturned) as (c' & Hr & Ho); [cbn; by rewrite Hw|].
    exists c'. split; [eapply rtc_l; [by apply beat_stop|done]|done]. }
  unfold heart_ok. cbn. intros Hh Hst. destruct b; [apply Hzero|apply Htimer| |apply Hzero];
    [naive_solver..| |naive_solver].
  destruct Htimer as (c' & Hr & Ho); [naive_solver|done|]. exists c'.
  split; [|done]. eapply rtc_l; [|exact Hr].
  by apply (beat_answer 0 (Err EDeadlineExceeded) g g (Some minRenewalInterval)).
Qed.

(** C27. [ReleaseAll] cannot be stuck: from every reachable state in which it
    has been entered, the heartbeat included, it can run to its return. *)
Theorem release_returns c :
  g_reachable c → ended (guard c) = true → ∃ c', rtc g_step c c' ∧ oper c' = OIdle.
Proof.
  intros [Hh _ _ Hse]%g_inv_reachable He. destruct c as [g o b l]. unfold sent_ok in Hse. cbn in *.
  destruct o as [| | | | | | |]; try (exfalso; destruct Hse; congruence).
  - exists (mkState g OIdle b l). by split; [apply rtc_refl|].
  - destruct (waited_returns (closeStop g) b l) as (c' & Hr & Ho);
      [unfold heart_ok in *; cbn in *; destruct b; naive_solver|done|]. exists c'.
    split; [eapply rtc_l; [apply rel_stop|done]|done].
  - apply waited_returns; [done|naive_solver].
  - destruct Hse as (_ & Ha & _). destruct (after_stop_returns g b l) as (c' & Hr & Ho). exists c'.
    split; [|done]. unfold after_stop in Hr. by rewrite Ha in Hr.
  - eexists. split; [eapply rtc_once, rel_return|done].
Qed.

(** ** The pace of the heartbeat *)

(** C28. The heartbeat keeps a lease alive with two attempts to spare: it never
    waits less than 50 ms, and while the lease has at least 150 ms left, three
    delays fit before the deadline the coordinator announced, so a sweep at
    any of the next three attempts does not list the transaction. With less
    left the delay is exactly 50 ms. *)
Theorem heartbeat_keeps_lease {F} `{FenceStore F} (g : remoteGuard) (now D : Z) :
  leaseExpires g = Some D →
  minRenewalInterval ≤ renewalDelay now g ∧
  (D - now < 150000000 → renewalDelay now g = minRenewalInterval) ∧
  (150000000 ≤ D - now → now + 3 * renewalDelay now g ≤ D ∧
   ∀ (s : Server (F:=F)) ext p t n,
     byID s !! ext = Some p → heap s !! p = Some t → Z.of_N (leaseDeadline t) = D →
     Z.of_N n ≤ now + 3 * renewalDelay now g → ext ∉ expired n s).
Proof.
  intros HD. unfold renewalDelay. rewrite HD.
  assert (0 < D - now → 3 * Z.quot (D - now) 3 ≤ D - now < 3 * Z.quot (D - now) 3 + 3) as Hq.
  { intros Hp. rewrite Z.quot_div_nonneg by lia. pose proof (Z.div_mod (D - now) 3). 
    pose proof (Z.mod_pos_bound (D - now) 3). lia. }
  unfold minRenewalInterval in *. case_decide as Hc; [split; [lia|]; split; lia|].
  split; [lia|]. split; [intros; lia|]. intros Hlong. split; [lia|].
  intros s ext p t n Hb Hh Hd Hn. rewrite elem_of_expired. intros (p' & t' & Hb' & Hh' & Hex).
  rewrite Hb in Hb'. injection Hb' as <-. rewrite Hh in Hh'. injection Hh' as <-.
  unfold expired_txn in Hex. rewrite !andb_true_iff in Hex. destruct Hex as [_ Hlt%N.ltb_lt]. lia.
Qed.

End remote_thms.
