(* ===== verification/RemoteEnv.v ===== *)
(** * A worker of a distributed deployment

    The environment of a client operation in a worker process: locks come
    from the remote coordinator through the guard of RemoteGuard, objects and
    keys from MongoDB, and a commit is a fenced MongoDB transaction. The
    database of the deployment is the one the coordinator keeps its fences in.
    No other client acts while the operation runs, and it takes less than a
    lease, so the heartbeat and the sweeper have nothing to do. *)

From S2P Require Import Prelude Json Libs LockManager LockManagerInv LockManagerSeq Fencing SaferTypes.
From S2P Require Import Effects Client Sharing Protocol LocalEnv FenceStore Coordinator.
From S2P Require Import MongoStore MongoThms RemoteGuard.
Import LM LMSeq.
Open Scope N_scope.

Section remote_env.
Context `{UuidLib} `{Userlib} `{!UuidNew} `{!X509}.
Context {Db Session : Type} `{Statements Db} `{Statements Session} `{Transactions Db Session}.
Context `{!FenceStore Db}.

(** ** The environment *)

(** [txnIDs] are the UUIDs [Begin] draws and [clock] the coordinator's time at
    each RPC. *)
Record Cluster := mkCluster {
  coordinator : Server (F := Db);
  rguard : option Remote.remoteGuard;
  counter : N;
  seeds : nat → Seed;
  seeded : nat;
  txnIDs : nat → UUID;
  begun : nat;
  clock : nat → N;
  ticks : nat }.

Definition set_coordinator (s : Server) (c : Cluster) : Cluster :=
  mkCluster s (rguard c) (counter c) (seeds c) (seeded c) (txnIDs c) (begun c) (clock c) (ticks c).
Definition called (s : Server) (g : Remote.remoteGuard) (c : Cluster) : Cluster :=
  mkCluster s (Some g) (counter c) (seeds c) (seeded c) (txnIDs c) (begun c) (clock c) (S (ticks c)).
Definition now (c : Cluster) : N := clock c (ticks c).

(** One attempt of [RunAtomic], with nobody else at work. *)
Definition transact (ctx : Fencing.Ctx) (ms : list Mutation) (d : Db) : Db * result unit :=
  let '(s, r) := callback ctx (closure mongo_mutate ms) (StartTransaction d) in
  let '(d, r) := match r with Err e => (d, Err e) | Ok _ => CommitTransaction s d end in
  (d, match r with Err e => Err (EWrap "mongostore: transaction" e) | Ok _ => Ok () end).

Lemma transact_RunAtomic other ctx ms d :
  MongoRunAtomic other ctx false (Some (closure mongo_mutate ms)) d
    (transact ctx ms d).1 (transact ctx ms d).2.
Proof.
  unfold transact. destruct (callback _ _ _) as [s [[]|e]] eqn:Ec; cbn; right.
  - destruct (CommitTransaction s d) as [d' r] eqn:Er. exists r.
    split; [by eapply wt_commit; eauto using rtc_refl|done].
  - exists (Err e). split; [by eapply wt_abort; eauto using rtc_refl|done].
Qed.

Definition withDatabase {A} (c : Cluster) (f : Db → result A) : result A :=
  match fences (coordinator c) with Some d => f d | None => Err (EMsg "no database") end.

Definition remote : handler Cluster := λ e,
  match e with
  | EDraw => λ c,
      (mkCluster (coordinator c) (rguard c) (counter c) (seeds c) (S (seeded c)) (txnIDs c)
         (begun c) (clock c) (ticks c), seeds c (seeded c))
  | EAllocTxn => λ c,
      let '(n, r) := allocateTxnID (counter c) [] in
      (mkCluster (coordinator c) (rguard c) n (seeds c) (seeded c) (txnIDs c) (begun c) (clock c)
         (ticks c), r)
  | EBegin _ => λ c,
      (mkCluster (coordinator c) (Some (Remote.Begin (txnIDs c (begun c)))) (counter c) (seeds c)
         (seeded c) (txnIDs c) (S (begun c)) (clock c) (ticks c), Ok ())
  | EAcquire ctx r m => λ c,
      match rguard c with
      | None => (c, Err (EMsg "no guard"))
      | Some g =>
          let '(s, g, answer) := Remote.AcquireContext
            (λ txn res mode, Coordinator.Acquire (ctx_Err (Fencing.lock_ctx ctx)) txn res mode (now c))
            r m g (coordinator c) in
          (called s g c, match answer with Some r => r | None => Err (EMsg "blocked") end)
      end
  | EGrants => λ c, (c, (from_option Remote.FenceGrants [] (rguard c), false))
  | EReleaseAll => λ c,
      match rguard c with
      | None => (c, ())
      | Some g =>
          let '(s, g) := Remote.ReleaseAll (λ txn, EndTransaction txn (now c)) g (coordinator c) in
          (called s g c, ())
      end
  | EGet _ id => λ c, (c, withDatabase c (ObjectStore_Get id))
  | EKeyGet _ name => λ c, (c, withDatabase c (KeyStore_Get name))
  | ERange keys => λ c, (c, keys)
  | EAtomic ctx ms => λ c,
      match fences (coordinator c) with
      | None => (c, Err (EMsg "no database"))
      | Some d =>
          let '(d, r) := transact ctx ms d in
          (set_coordinator (set_fences (Some d) (coordinator c)) c, r)
      end
  end.

(** ** A deployment that is up *)

(** The token a fence document carries; 0 without one. *)
Definition stored (d : Db) (resource : string) : Z :=
  match doc d (DFence resource) with Some (VFence t _) => t | _ => 0%Z end.

(** A fence counts from 0, and it can count [k] further. *)
Definition room (k : N) (d : Db) (resource : string) : Prop :=
  (0 ≤ stored d resource ∧ stored d resource + Z.of_N k ≤ Z.of_N max_int64)%Z.

(** Statements succeed, a public key has an encoding, and the coordinator's
    fence statements are about the fence documents only: an allocation counts
    one further, an invalidation keeps every token. *)
Class Up : Prop := {
  up_marshal key : ∃ der, MarshalPKIXPublicKey (PubKey key) = Ok der;
  up_insert k v (s : Session) : doc s k = None → ∃ s', InsertOne k v s = (s', Ok true);
  up_find (d : Db) k : FindOne k d = Ok (doc d k);
  up_replace k v (s : Session) : ∃ s', ReplaceOne k v s = (s', Ok ());
  up_delete k (s : Session) : ∃ s', DeleteOne k s = (s', Ok ());
  up_validate k v (s : Session) : doc s k = Some v → ∃ s', UpdateOne_validate k v s = (s', Ok 1%nat);
  up_commit s (d : Db) : snapshot s = d → ∃ d', CommitTransaction s d = (d', Ok ());
  up_allocate r o (d : Db) : room 1 d r → ∃ d' t, Allocate r o d = (d', Ok t) ∧ t ≠ 0 ∧
    int64_of t = (stored d r + 1)%Z ∧
    doc d' (DFence r) = Some (VFence (int64_of t) (Some o)) ∧
    ∀ k, k ≠ DFence r → doc d' k = doc d k;
  up_invalidate r o (d : Db) : ∃ d', Invalidate r o d = (d', Ok ()) ∧
    (∀ r', stored d' r' = stored d r') ∧
    ∀ k, (∀ r', k ≠ DFence r') → doc d' k = doc d k }.

Context `{!MongoLaws Db Session} `{!Up} `{!UuidLaws} `{!X509Laws}.

(** ** Storage *)

Lemma encode_up key : is_ok (encodePublicKey key) = true.
Proof. unfold encodePublicKey. by destruct (up_marshal key) as [der ->]. Qed.

Lemma mutate_up m (s : Session) : registers m (doc s) → ∃ s', mongo_mutate m s = (s', Ok ()).
Proof.
  destruct m as [id v|id|name key]; cbn; intros Hr.
  - unfold ObjectStore_Put. destruct (up_replace (DObject (uuid_String id)) (VObject v) s) as [s' E].
    cbn. rewrite E. eauto.
  - unfold ObjectStore_Delete. destruct (up_delete (DObject (uuid_String id)) s) as [s' E].
    rewrite E. eauto.
  - unfold KeyStore_Put. destruct Hr as [Hn He]. destruct (encodePublicKey key) as [v|]; [|done].
    destruct (up_insert (DKey name) v s Hn) as [s' E]. rewrite E. eauto.
Qed.

Lemma closure_up ms : ∀ s : Session,
  registers_all ms (doc s) → ∃ s', closure mongo_mutate ms s = (s', Ok ()).
Proof.
  induction ms as [|m ms IH]; intros s Hm; cbn; [by eauto|].
  destruct Hm as [Hm Hms]. destruct (mutate_up m s Hm) as [s' E]. rewrite E. apply IH.
  apply mutate_Ok in E as [(_ & _ & _ & Hd) _]. eapply registers_all_local; [|exact Hms].
  intros k _. by rewrite Hd.
Qed.

(** Every grant of [gs] is current in [v]. *)
Definition proves (v : dockey → option docval) (gs : list Fencing.Grant) : Prop :=
  ∀ g, g ∈ gs → v (DFence (Fencing.Resource g)) = Some (fence_doc_of g).

Lemma validate_up gs : ∀ s : Session, proves (doc s) gs → ∃ s', validateGrants gs s = (s', Ok ()).
Proof.
  induction gs as [|g gs IH]; intros s Hg; cbn; [by eauto|].
  destruct (up_validate _ _ s (Hg g ltac:(by left))) as [s' E]. unfold fence_doc_of in E. rewrite E.
  apply validate_Ok in E as (Hd & _ & _ & _ & Hs). apply IH. intros g' Hg'.
  rewrite Hs. case_decide as Hk; [|apply Hg; by right].
  rewrite <-Hd, <-Hk. apply Hg. by right.
Qed.

Lemma transact_up ctx ms (d : Db) :
  registers_all ms (doc d) → proves (doc d) (Fencing.GrantsFromContext ctx) →
  ∃ d', transact ctx ms d = (d', Ok ()) ∧ ∀ k, doc d' k = apply_all ms (doc d) k.
Proof.
  intros Hms Hg. destruct (closure_up ms (StartTransaction d)) as [s1 E1].
  { eapply registers_all_local; [|exact Hms]. intros k _. by rewrite start_doc. }
  pose proof (closure_Ok _ _ _ _ E1) as ((Hsn & _) & _ & Hd1 & _).
  assert (∃ s2, callback ctx (closure mongo_mutate ms) (StartTransaction d) = (s2, Ok ()) ∧
    snapshot s2 = d) as (s2 & E2 & Hs2).
  { unfold callback. rewrite E1. unfold validateFences.
    destruct (Fencing.ValidationSkippedForTest ctx).
    { exists s1. split; [done|]. by rewrite Hsn, start_snapshot. }
    destruct (validate_up (Fencing.GrantsFromContext ctx) s1) as [s2 E2].
    { intros g Hin. rewrite Hd1, apply_all_fence, start_doc. by apply Hg. }
    exists s2. split; [done|]. apply validateGrants_Ok in E2 as ((-> & _) & _).
    by rewrite Hsn, start_snapshot. }
  destruct (up_commit s2 d Hs2) as [d' E3]. exists d'. unfold transact. rewrite E2, E3.
  split; [done|]. apply commit_Ok in E3 as [Hconf Heff].
  by destruct (commit_point _ _ _ _ _ _ E2 Hconf Heff) as (_ & ? & _).
Qed.

Lemma registers_objects ms : ∀ v, Forall is_object_write ms → registers_all ms v.
Proof.
  induction ms as [|m ms IH]; intros v; cbn; [done|]. intros [Hm Hms]%Forall_cons.
  split; [by destruct m|by apply IH].
Qed.

Lemma reads_represent (d : Db) st id :
  represents (doc d) st → ObjectStore_Get id d = UserlibObjectStore_Get id st.
Proof.
  intros [Ho _]. unfold ObjectStore_Get, UserlibObjectStore_Get. rewrite up_find, Ho.
  by destruct (Datastore st !! id).
Qed.

Lemma keys_represent (d : Db) st name :
  represents (doc d) st → KeyStore_Get name d = UserlibKeyStore_Get name st.
Proof.
  intros [_ Hk]. unfold KeyStore_Get, UserlibKeyStore_Get. rewrite up_find. specialize (Hk name).
  destruct (Keystore st !! name) as [key|]; [|by rewrite Hk].
  destruct Hk as (v & Henc & ->). unfold encodePublicKey in Henc.
  destruct (MarshalPKIXPublicKey _) as [der|] eqn:Em; [|done]. injection Henc as <-. cbn.
  by rewrite (Parse_Marshal _ _ Em), mkPublicKey_eta.
Qed.

(** ** The coordinator, used by one transaction *)

(** Nobody uses the coordinator, and [n] internal identifiers are spent. *)
Record idle (n : N) (s : Server (F := Db)) : Prop := {
  id_alone : alone (lm s) 0 [];
  id_spent : spent s = false;
  id_next : next s ≤ n;
  id_ctx : ∀ q i, (q, i) ∈ cancelledCtx s → q < fresh_ptr s }.

(** The record [t] of the transaction [ext] is active, it alone uses the lock
    manager, and it has asked for [L]. *)
Record serving (n : N) (s : Server (F := Db)) (ext : UUID) (p : ptr) (t : transaction)
    (L : list ResourceID) : Prop := {
  sv_id : byID s !! ext = Some p;
  sv_rec : heap s !! p = Some t;
  sv_external : external t = ext;
  sv_active : state t = txnActive;
  sv_open : finished t = false;
  sv_alone : alone (lm s) (internal t) L;
  sv_grants : ∀ g, g ∈ t_grants t → gr_resource g ∈ L;
  sv_wait : ∀ i, (p, i) ∈ cancelledCtx s → i ≤ nextReq t;
  sv_ctx : ∀ q i, (q, i) ∈ cancelledCtx s → q < fresh_ptr s;
  sv_fresh : p < fresh_ptr s;
  sv_spent : spent s = false;
  sv_next : next s ≤ n }.

(** Before the first request there is no record. *)
Definition ready (n : N) (s : Server) (ext : UUID) (L : list ResourceID) : Prop :=
  (L = [] ∧ n < max_uint64 ∧ idle n s ∧ byID s !! ext = None) ∨
  ∃ p t, serving (n + 1) s ext p t L.

Lemma ensure_up n s ext L :
  ready n s ext L →
  ∃ s' p t, ensure ext s = (s', Ok p) ∧ serving (n + 1) s' ext p t L ∧ fences s' = fences s ∧
    ∀ e, e ≠ ext → byID s' !! e = byID s !! e.
Proof.
  intros [(-> & Hn & [Ha Hsp Hnx Hc] & Hb)|(p & t & Hs)]; unfold ensure.
  - rewrite Hb, Hsp. cbn. rewrite bool_decide_false by lia.
    eexists _, (fresh_ptr s), _. split; [done|]. split; [|split; [done|]].
    2: { intros e He. cbn. by rewrite lookup_insert_ne. }
    split; cbn; rewrite ?lookup_insert_eq; try done; try lia.
    + by apply (alone_any _ 0).
    + by intros g ?%elem_of_nil.
    + intros i Hi%Hc. lia.
    + intros q i Hi%Hc. lia.
    + rewrite u64_add_small; [lia|unfold max_uint64 in *; lia].
  - exists s, p, t. destruct Hs as [Hid Hr He Hact Ho]. rewrite Hid, Hr, Ho, decide_False by (rewrite Hact; naive_solver).
    done.
Qed.


(** A registered request of a transaction nobody else competes with. *)
Lemma wait_up n s ext p t L r m :
  serving n s ext p t L → (r ∉ L) → LMInv.valid_mode m →
  let s1 := (registerPending p s).1 in
  ∃ l, acquire_wait None (mkCall ext p r m (nextReq t + 1)) s1 = (set_lm' l s1, Returned None) ∧
    alone l (internal t) (r :: L).
Proof.
  intros Hs Hr Hm s1. subst s1. unfold acquire_wait, registerPending. rewrite (sv_rec _ _ _ _ _ _ Hs).
  cbn -[AcquireContext N.add].
  rewrite decide_False by (intros Hc%(sv_wait _ _ _ _ _ _ Hs); lia).
  rewrite lookup_alter_eq, (sv_rec _ _ _ _ _ _ Hs). cbn -[AcquireContext N.add].
  destruct (acquire_alone _ _ _ r m (LM.mkCtx None true) (sv_alone _ _ _ _ _ _ Hs) Hr Hm eq_refl)
    as (l & E & Ha). exists l. by rewrite E.
Qed.

(** What the database gains from a granted request. *)
Definition fenced (ext : UUID) (r : ResourceID) (m : LockMode) (token : N) (d d' : Db) : Prop :=
  if decide (m = ExclusiveLock)
  then token ≠ 0 ∧
    int64_of token = (stored d (Fencing.ResourceKey (Type_ r) (Key r)) + 1)%Z ∧
    doc d' (DFence (Fencing.ResourceKey (Type_ r) (Key r))) =
      Some (VFence (int64_of token) (Some (uuid_String ext))) ∧
    ∀ k, k ≠ DFence (Fencing.ResourceKey (Type_ r) (Key r)) → doc d' k = doc d k
  else token = 0 ∧ d' = d.

Lemma rest_up n s ext p t L r m d now_ :
  serving n s ext p t L → (r ∉ L) → LMInv.valid_mode m → fences s = Some d →
  room 1 d (Fencing.ResourceKey (Type_ r) (Key r)) →
  ∃ s' t' d' token deadline,
    (let '(s, c) := acquire_register (mkCall ext p r m 0) s in acquire_rest None c now_ s) =
      (s', Some (Ok (mkResponse token deadline))) ∧
    serving n s' ext p t' (r :: L) ∧ fences s' = Some d' ∧ fenced ext r m token d d' ∧
    byID s' = byID s.
Proof.
  intros Hs Hr Hm Hd Hroom. pose proof Hs as [Hid Hrec He Hact Hop _ Hg Hw Hc Hfr Hsp Hn].
  destruct (wait_up _ _ _ _ _ _ r m Hs Hr Hm) as (l & Hwait & Ha).
  unfold acquire_register. cbn [c_txn c_external c_resource c_mode].
  unfold registerPending in *. rewrite Hrec in *. cbn [from_option fst] in *.
  unfold acquire_rest. rewrite Hwait. set (s1 := set_lm' l _). unfold acquire_granted, acquire_check.
  assert (stillActive (mkCall ext p r m (nextReq t + 1)) (acquire_cleanup (mkCall ext p r m (nextReq t + 1)) s1) = true) as ->.
  { unfold stillActive, acquire_cleanup, clearPending. cbn. rewrite Hid, !lookup_alter_eq, Hrec. cbn.
    by rewrite Hact, !bool_decide_true. }
  set (s2 := acquire_cleanup _ s1).
  assert (∃ d' token, acquire_token (mkCall ext p r m (nextReq t + 1)) s2 =
    (set_fences (Some d') s2, Ok token) ∧ fenced ext r m token d d') as (d' & token & -> & Hf).
  { unfold acquire_token, acquire_allocate. replace (fences s2) with (Some d) by done. cbn [c_mode c_resource c_external].
    unfold fenced. case_decide as Hx.
    - destruct (up_allocate (Fencing.ResourceKey (Type_ r) (Key r)) (uuid_String ext) d Hroom)
        as (d' & tok & -> & Hrest).
      by exists d', tok.
    - exists d, 0. split; [|done]. unfold set_fences. by rewrite <-Hd. }
  unfold acquire_record, startLeaseIfNeeded, recordGrant. cbn [c_txn c_resource c_mode].
  eexists _, _, d', token, _. split; [reflexivity|]. split; [|done].
  split; cbn -[N.add]; rewrite ?lookup_alter_eq, ?Hrec; cbn -[N.add]; try done.
  - intros g [Hin|Hin]%elem_of_app; [right; by apply Hg|].
    apply list_elem_of_singleton in Hin. subst g. by left.
  - intros i [[Hi|Hi]%elem_of_union|Hi]%elem_of_union.
    + apply elem_of_singleton in Hi. injection Hi as ->. cbn -[N.add]; lia.
    + by apply elem_of_empty in Hi.
    + apply Hw in Hi. cbn -[N.add]; lia.
  - intros q i [[Hi|Hi]%elem_of_union|Hi]%elem_of_union.
    + apply elem_of_singleton in Hi. by injection Hi as -> _.
    + by apply elem_of_empty in Hi.
    + by eapply Hc.
Qed.


(** A resource that can be asked for over the wire. *)
Definition named (r : ResourceID) : Prop :=
  (Type_ r = NamespaceResource ∨ Type_ r = FileResource) ∧ Key r ≠ "".

Lemma request_up r m :
  named r → LMInv.valid_mode m →
  ∃ pr pm, Remote.acquire_request r m = Ok (pr, pm) ∧
    resourceFromProto (Some pr) = Ok r ∧ modeFromProto pm = Ok m.
Proof.
  intros [Ht Hk] Hm. destruct r as [ty key]. cbn in *. unfold Remote.acquire_request, resourceToProto, modeToProto. cbn.
  destruct Ht as [-> | ->], Hm as [-> | ->]; cbn; (do 2 eexists); (split; [reflexivity|]); cbn;
    by rewrite decide_False.
Qed.

Lemma parse_up ext : ext ≠ uuid_Nil → parseTxnID (uuid_String ext) = Ok ext.
Proof.
  intros Hn. unfold parseTxnID. by rewrite decide_False, Parse_String, decide_False by (done || apply String_nonempty).
Qed.

(** The Acquire RPC. *)
Lemma Acquire_up n s ext L r m d pr pm now_ :
  ready n s ext L → ext ≠ uuid_Nil → (r ∉ L) → LMInv.valid_mode m → fences s = Some d →
  room 1 d (Fencing.ResourceKey (Type_ r) (Key r)) →
  resourceFromProto (Some pr) = Ok r → modeFromProto pm = Ok m →
  ∃ s' p t' d' token deadline,
    Coordinator.Acquire None (uuid_String ext) (Some pr) pm now_ s =
      (s', Some (Ok (mkResponse token deadline))) ∧
    serving (n + 1) s' ext p t' (r :: L) ∧ fences s' = Some d' ∧ fenced ext r m token d d' ∧
    ∀ e, e ≠ ext → byID s' !! e = byID s !! e.
Proof.
  intros Hre Hn Hr Hm Hd Hroom Hpr Hpm. destruct (ensure_up _ _ _ _ Hre) as (s1 & p & t & He & Hs & Hf & Hby).
  destruct (rest_up _ _ _ _ _ _ r m d now_ Hs Hr Hm) as (s' & t' & d' & tok & dl & E & Hs' & Hd' & Hfe & Hb');
    [congruence|done|].
  exists s', p, t', d', tok, dl. split; [|split_and!; [done..|]; intros e Hne; rewrite Hb'; by apply Hby].
  unfold Coordinator.Acquire, acquire_ensure. rewrite (parse_up _ Hn), Hpr, Hpm, He.
  assert (acquire_held (mkCall ext p r m 0) s1 = None) as ->; [|exact E].
  unfold acquire_held, heldGrant. cbn. rewrite (sv_rec _ _ _ _ _ _ Hs). cbn.
  assert (grantFor t r = None) as ->; [|done].
  unfold grantFor. rewrite filter_none; [done|]. intros g Hg <-. apply Hr.
  by apply (sv_grants _ _ _ _ _ _ Hs).
Qed.

(** *** The end of the transaction *)

Lemma invalidate_up gs : ∀ d : Db,
  ∃ d', invalidateFences gs d = (d', Ok ()) ∧ (∀ r, stored d' r = stored d r) ∧
    ∀ k, (∀ r, k ≠ DFence r) → doc d' k = doc d k.
Proof.
  induction gs as [|g gs IH]; intros d; cbn; [by eauto|].
  destruct (up_invalidate (Fencing.Resource g) (Fencing.OwnerTxn g) d) as (d1 & -> & Ht1 & Hd1).
  destruct (IH d1) as (d2 & E2 & Ht2 & Hd2). exists d2. split; [done|].
  split; [intros r; by rewrite Ht2|]. intros k Hk. by rewrite Hd2, Hd1.
Qed.

Lemma End_up n s ext p t L d now_ :
  serving n s ext p t L → ext ≠ uuid_Nil → fences s = Some d →
  ∃ d', fences (EndTransaction (uuid_String ext) now_ s).1 = Some d' ∧
    byID (EndTransaction (uuid_String ext) now_ s).1 = byID s ∧
    (∀ r, stored d' r = stored d r) ∧
    (∀ k, (∀ r, k ≠ DFence r) → doc d' k = doc d k) ∧
    idle n (EndTransaction (uuid_String ext) now_ s).1.
Proof.
  intros [Hid Hrec He Hact Hop Ha Hg Hw Hc Hfr Hsp Hn] Hnil Hd.
  unfold EndTransaction. rewrite (parse_up _ Hnil). unfold beginTeardown. rewrite Hid, Hrec, Hop, Hact.
  rewrite bool_decide_false by naive_solver. cbn [orb]. unfold teardown. cbn -[fenceGrants].
  rewrite lookup_alter_eq, Hrec. cbn -[fenceGrants]. rewrite Hd.
  destruct (invalidate_up (fenceGrants (mkTransaction (external t) (internal t) txnEnding (leaseDeadline t)
    (leaseStarted t) (t_grants t) ∅ (nextReq t) (finished t) (finishedAt t))) d) as (d' & -> & Htok & Hdocs).
  exists d'. unfold finish. cbn. rewrite He, Hid. cbn. do 4 (split; [done|]).
  split; cbn; [by eapply release_alone|done|done|].
  intros q i [Hi|Hi]%elem_of_union; [|by eapply Hc].
  apply elem_of_list_to_set, list_elem_of_fmap in Hi as (j & [= -> _] & _). done.
Qed.

End remote_env.
