(* ===== verification/RemoteRefines.v ===== *)
(** * Distributed and local operations agree

    An operation of the client run by a worker of the distributed deployment
    (RemoteEnv) does to the deployment's objects what the same operation does
    to the in-memory store under the process-local lock manager (LocalEnv),
    and returns the same result: a simulation along the protocol of Protocol,
    through the guard, the coordinator, its lock manager, the fence store and
    the fenced transaction. *)

From S2P Require Import Prelude Json Libs LockManager LockManagerInv LockManagerSeq Fencing SaferTypes.
From S2P Require Import Effects Client Sharing Protocol LocalEnv FenceStore Coordinator.
From S2P Require Import MongoStore MongoThms FileModel FileThms RemoteGuard RemoteEnv.
Import LM LMSeq.
Open Scope N_scope.

Section refines.
Context `{UuidLib} `{Userlib} `{!UuidNew} `{!X509} `{!UuidLaws} `{!X509Laws}.
Context {Db Session : Type} `{Statements Db} `{Statements Session} `{Transactions Db Session}.
Context `{!FenceStore Db} `{!MongoLaws Db Session} `{!Up (Session := Session)}.

Abbreviation remote' := (remote (Session := Session)).

(** ** The relation *)

Record sync (w : World) (c : Cluster) (d : Db) : Prop := {
  sy_db : fences (coordinator c) = Some d;
  sy_store : represents (doc d) (store w);
  sy_counter : counter c = txnIDCounter w;
  sy_seeds : seeds c = tape w;
  sy_seeded : seeded c = drawn w }.

(** The next [k] transaction identifiers the worker draws. *)
Definition ids (c : Cluster (Db := Db)) (k : nat) : list UUID := txnIDs c <$> seq (begun c) k.

(** They are new ones. *)
Record ahead (k : nat) (c : Cluster (Db := Db)) : Prop := {
  ah_new e : e ∈ ids c k → e ≠ uuid_Nil ∧ byID (coordinator c) !! e = None;
  ah_distinct : NoDup (ids c k) }.

(** [k] operations can still be run. *)
Record budget (k : nat) (w : World) (c : Cluster (Db := Db)) (d : Db) : Prop := {
  bu_ids : ahead k c;
  bu_counter : txnIDCounter w + N.of_nat k ≤ max_uint64;
  bu_room r : room (N.of_nat k) d r }.

Definition set_granted (x : list Fencing.Grant * bool) (w : World) : World :=
  mkWorld (store w) (saferLockManager w) (txnIDCounter w) (guard w) (tape w) (drawn w) x.

Lemma idle_mono m s : idle m s → idle (m + 1) (s : Server (F := Db)).
Proof. intros [? ? ? ?]. split; [done..|lia|done]. Qed.

Lemma room_mono j k (d : Db) r : j ≤ k → room k d r → room j d r.
Proof. unfold room. lia. Qed.

Lemma ids_S c k : ids c (S k) = txnIDs c (begun c) :: (txnIDs c <$> seq (S (begun c)) k).
Proof. done. Qed.

Lemma ids_prefix c k : ids c k ⊆ ids c (S k).
Proof. unfold ids. rewrite seq_S, fmap_app. set_solver. Qed.

Lemma ahead_pred k c : ahead (S k) c → ahead k c.
Proof.
  intros [Hn Hd]. split; [intros e He; by apply Hn, ids_prefix|].
  unfold ids in *. rewrite seq_S, fmap_app in Hd. by apply NoDup_app in Hd as [? _].
Qed.

(** The coordinator may have learnt of a transaction that is not one of the
    next. *)
Lemma ahead_called k (c c' : Cluster) :
  txnIDs c' = txnIDs c → begun c' = begun c →
  (∀ e, e ∈ ids c k → byID (coordinator c') !! e = byID (coordinator c) !! e) →
  ahead k c → ahead k c'.
Proof.
  intros Ht Hb Hby [Hn Hd]. unfold ids in *. split; unfold ids; rewrite Ht, Hb; [|done].
  intros e He. rewrite Hby by done. by apply Hn.
Qed.

Lemma budget_same k w w' c c' d d' :
  txnIDCounter w' = txnIDCounter w → (∀ r, stored d' r = stored d r) → ahead k c' →
  budget k w c d → budget k w' c' d'.
Proof. intros Hc Hs Ha [_ Hc' Hr]. split; [done|by rewrite Hc|]. intros r. unfold room. rewrite Hs. apply Hr. Qed.

Lemma budget_pred k w c d : budget (S k) w c d → budget k w c d.
Proof.
  intros [Ha Hc Hr]. split; [by apply ahead_pred|lia|]. intros r. eapply room_mono; [|apply Hr]. lia.
Qed.

Lemma budget_granted k w c d x : budget k w c d → budget k (set_granted x w) c d.
Proof. intros [Ha Hc Hr]. split; [exact Ha|exact Hc|exact Hr]. Qed.

(** The caller's context: alive, and not carrying grants of its own. *)
Context (ctx0 : Fencing.Ctx).
Context (Hlive : ctx_Err (Fencing.lock_ctx ctx0) = None) (Hbare : Fencing.grants ctx0 = None).

(** At most [n] internal identifiers of the coordinator are spent when the
    operation starts, and [more] operations are to follow it. *)
Context (n : N) (more : nat).

(** The guard of the transaction [ext], which has asked for [L]. *)
Record holding (c : Cluster (Db := Db)) (d : Db) (ext : UUID) (g : Remote.remoteGuard)
    (L : list ResourceID) : Prop := {
  ho_guard : rguard c = Some g;
  ho_txn : Remote.txn g = ext;
  ho_nonnil : ext ≠ uuid_Nil;
  ho_open : Remote.ended g = false;
  ho_server :
    if Remote.acquired g
    then ∃ p t, serving (n + 1) (coordinator c) ext p t L
    else L = [] ∧ n < max_uint64 ∧ idle n (coordinator c) ∧ byID (coordinator c) !! ext = None;
  ho_room : ∀ r, (r ∉ L) → room (N.of_nat more + 1) d (Fencing.ResourceKey (Type_ r) (Key r));
  ho_last : ext ∉ ids c more;
  ho_proves : proves (doc d) (Remote.grants g);
  ho_named : ∀ x, x ∈ Remote.grants g →
    ∃ r, r ∈ L ∧ Fencing.Resource x = Fencing.ResourceKey (Type_ r) (Key r) }.

Definition in_step (ph : phase) (w : World) (c : Cluster) : Prop :=
  ∃ d, sync w c d ∧
  match ph with
  | Start =>
      budget (S more) w c d ∧ alone (saferLockManager w) 0 [] ∧ idle n (coordinator c) ∧ n < max_uint64
  | Allocated _ =>
      budget (S more) (set_counter (txnIDCounter w - 1) w) c d ∧ 1 ≤ txnIDCounter w ∧
        alone (saferLockManager w) 0 [] ∧ idle n (coordinator c) ∧ n < max_uint64
  | Holding locks fen _ =>
      budget more w c d ∧
      ∃ txn ext g L, working w txn L ∧ (∀ r, r ∈ L → r ∈ locks.*1) ∧ holding c d ext g L ∧
        ∀ x, fen = Some x → x.2 = false ∧ x.1 ⊆ Remote.grants g
  | Refused => False
  | Ended _ => budget more w c d ∧ alone (saferLockManager w) 0 [] ∧ idle (n + 1) (coordinator c)
  end.

(** ** One interaction *)

Lemma draw_step ph w c ph' :
  in_step ph w c → Protocol.next ctx0 ph EDraw (local EDraw w).2 = Some ph' →
  (remote' EDraw c).2 = (local EDraw w).2 ∧ in_step ph' (local EDraw w).1 (remote' EDraw c).1.
Proof.
  intros (d & [Hd Hr Hc Hs Hn] & Hph) [= <-]. cbn. split; [by rewrite Hs, Hn|].
  exists d. split; [split; cbn; congruence|].
  assert (∀ k w0, budget k w0 c d → budget k (set_counter (txnIDCounter w0) (advance w))
    (remote' EDraw c).1 d) as Hbu by (by intros k w0 [[? ?] ? ?]; split; [split|..]).
  destruct ph as [|t|locks fen com| |com]; try done.
  - destruct Hph as [?%Hbu ?]. done.
  - destruct Hph as [?%Hbu ?]. done.
  - destruct Hph as (?%Hbu & txn & ext & g & L & [? ?] & ? & [? ? ? ? ? ? ? ? ?] & ?). split; [done|].
    exists txn, ext, g, L. split; [by split|]. split; [done|]. split; [by split|done].
  - destruct Hph as [?%Hbu ?]. done.
Qed.

Lemma begin_step t w c :
  in_step (Allocated t) w c →
  in_step (Holding [] None None) (local (EBegin t) w).1 (remote' (EBegin t) c).1.
Proof.
  intros (d & [Hd Hr Hc Hs Hn] & [[Hnew Hdist] Hcnt Hroom] & Hone & Ha & Hi & Hn'). exists d. cbn. split; [by split|].
  rewrite ids_S in Hnew, Hdist. apply NoDup_cons in Hdist as [Hlast Hdist]. cbn in Hcnt. split.
  { split; [split|cbn; lia|intros r; eapply room_mono; [|apply Hroom]; lia]; [|done].
    intros e He. by apply Hnew; right. }
  destruct (Hnew (txnIDs c (begun c))) as [Hnil Hby]; [by left|].
  exists t, (txnIDs c (begun c)), (Remote.Begin (txnIDs c (begun c))), []. split.
  { split; [by apply (alone_any _ 0)|done]. }
  split; [done|]. split; [|done].
  split; try done; cbn; try (by intros x ?%elem_of_nil).
  intros r _. eapply room_mono; [|apply Hroom]. lia.
Qed.

Lemma represents_docs (v v' : dockey → option docval) st :
  (∀ k, (∀ r, k ≠ DFence r) → v' k = v k) → represents v st → represents v' st.
Proof.
  intros Hv [Ho Hk]. split; [intros id|intros name]; rewrite Hv by done; [apply Ho|apply Hk].
Qed.

Lemma fenced_docs ext r m token (d d' : Db) k :
  fenced ext r m token d d' → k ≠ DFence (Fencing.ResourceKey (Type_ r) (Key r)) → doc d' k = doc d k.
Proof. unfold fenced. case_decide; [intros (_ & _ & _ & Hk)|intros (_ & ->)]; auto. Qed.

(** A grant uses up one token of its own resource at most. *)
Lemma fenced_room ext r m token (d d' : Db) k r' :
  fenced ext r m token d d' →
  room (k + 1) d (Fencing.ResourceKey (Type_ r) (Key r)) → room k d r' → room k d' r'.
Proof.
  unfold room, stored. intros Hf Hr Hr'.
  destruct (decide (r' = Fencing.ResourceKey (Type_ r) (Key r))) as [->|Hne].
  - unfold fenced in Hf. case_decide; [|by destruct Hf as [_ ->]].
    destruct Hf as (_ & Ht & Hd & _). rewrite Hd, Ht. unfold stored. lia.
  - by rewrite (fenced_docs _ _ _ _ _ _ _ Hf) by congruence.
Qed.

(** The grants a guard holds stay provable when it is granted another lock. *)
Lemma fenced_proves ext r m token (d d' : Db) (gs : list Fencing.Grant) (L : list ResourceID) :
  fenced ext r m token d d' → (r ∉ L) → proves (doc d) gs →
  (∀ x, x ∈ gs → ∃ r', r' ∈ L ∧ Fencing.Resource x = Fencing.ResourceKey (Type_ r') (Key r')) →
  proves (doc d') (gs ++ Remote.fence_grant ext r m token)%list.
Proof.
  intros Hf Hr Hp Hn g [Hg|Hg]%elem_of_app.
  - rewrite (fenced_docs _ _ _ _ _ _ _ Hf); [by apply Hp|]. intros [= E].
    destruct (Hn g Hg) as (r' & Hin & E'). rewrite E' in E.
    apply Fencing.ResourceKey_inj in E as [Et Ek]. apply Hr. destruct r, r'. by cbn in *; subst.
  - unfold Remote.fence_grant in Hg. case_decide as Hx; [|by apply elem_of_nil in Hg].
    apply list_elem_of_singleton in Hg. subst g. destruct Hx as [-> _].
    unfold fenced in Hf. destruct Hf as (_ & _ & Hdoc & _). exact Hdoc.
Qed.

Lemma holding_ready c (d : Db) ext g L :
  holding c d ext g L → ready n (coordinator c) ext L.
Proof. intros [_ _ _ _ Hs _ _ _ _]. destruct (Remote.acquired g); [by right|by left]. Qed.

(** A guard on its way through a granted request. *)
Lemma enter_fields g :
  Remote.ended g = false →
  ∃ g1, Remote.acquire_enter g = Ok g1 ∧ Remote.txn g1 = Remote.txn g ∧
    ∀ dl r m token, let g2 := (Remote.acquire_record r m token (Remote.noteLeaseDeadline dl g1)).1 in
      Remote.txn g2 = Remote.txn g ∧ Remote.acquired g2 = true ∧ Remote.ended g2 = false ∧
      Remote.grants g2 = (Remote.grants g ++ Remote.fence_grant (Remote.txn g) r m token)%list.
Proof.
  intros He. unfold Remote.acquire_enter. rewrite He. eexists. split; [done|]. split; [done|].
  intros dl r m token. unfold Remote.noteLeaseDeadline. by case_decide.
Qed.

(** The remote half of a lock request. *)
Lemma remote_acquire c (d : Db) ext g L r m :
  fences (coordinator c) = Some d → holding c d ext g L → (r ∉ L) → named r → LMInv.valid_mode m →
  ∃ s g' d' token, remote' (EAcquire ctx0 r m) c = (called s g' c, Ok ()) ∧
    fences s = Some d' ∧ fenced ext r m token d d' ∧
    holding (called s g' c) d' ext g' (r :: L) ∧
    Remote.grants g ⊆ Remote.grants g' ∧ ∀ e, e ≠ ext → byID s !! e = byID (coordinator c) !! e.
Proof.
  intros Hd Hh Hr Hnm Hm. pose proof (holding_ready _ _ _ _ _ Hh) as Hre.
  destruct Hh as [Hg Ht Hnil Hop _ Hroom Hlast Hpr Hna].
  destruct (request_up r m Hnm Hm) as (pr & pm & Hreq & Hpr' & Hpm).
  assert (room 1 d (Fencing.ResourceKey (Type_ r) (Key r))) as Hroom1
    by (eapply room_mono; [|by apply Hroom]; lia).
  destruct (Acquire_up n _ ext L r m d pr pm (now c) Hre Hnil Hr Hm Hd Hroom1 Hpr' Hpm)
    as (s & p & t & d' & token & dl & E & Hs & Hf & Hfen & Hby).
  destruct (enter_fields g Hop) as (g1 & Hen & Htx & Hfields). destruct (Hfields dl r m token) as (E1 & E2 & E3 & E4).
  cbn -[Coordinator.Acquire Remote.acquire_record]. rewrite Hg, Hlive. unfold Remote.AcquireContext.
  rewrite Hreq, Hen, Htx, Ht, E. cbn [LeaseExpires FencingToken].
  eexists s, _, d', token. split; [reflexivity|]. split; [done|]. split; [done|].
  rewrite Ht in E1, E4. split; [|split; [rewrite E4; set_solver|done]].
  split; cbn -[Remote.acquire_record]; rewrite ?E1, ?E2, ?E3, ?E4; try done.
  - by exists p, t.
  - intros r' [Hne Hr']%not_elem_of_cons. pose proof (Hroom r' Hr') as Hro. unfold room, stored in *.
    rewrite (fenced_docs _ _ _ _ _ _ _ Hfen); [done|]. intros [= [Et Ek]%Fencing.ResourceKey_inj].
    apply Hne. destruct r, r'. by cbn in *; subst.
  - by eapply fenced_proves.
  - intros x [Hx|Hx]%elem_of_app.
    + destruct (Hna x Hx) as (r' & ? & ?). exists r'. split; [by right|done].
    + exists r. split; [by left|]. unfold Remote.fence_grant in Hx. case_decide; [|by apply elem_of_nil in Hx].
      apply list_elem_of_singleton in Hx. by subst x.
Qed.

Lemma acquire_step locks fen w c r m :
  in_step (Holding locks fen None) w c → may_acquire locks r = true →
  m = SharedLock ∨ m = ExclusiveLock →
  (local (EAcquire ctx0 r m) w).2 = Ok () ∧ (remote' (EAcquire ctx0 r m) c).2 = Ok () ∧
  in_step (Holding (locks ++ [(r, m)])%list fen None) (local (EAcquire ctx0 r m) w).1
    (remote' (EAcquire ctx0 r m) c).1.
Proof.
  intros (d & [Hd Hr Hc Hs Hn] & Hbu & txn & ext & g & L & Hw & HL & Hh & Hfen) Hmay Hm.
  assert (named r ∧ r ∉ L) as [Hnm HrL].
  { unfold may_acquire in Hmay. apply andb_true_iff in Hmay as [Hk%bool_decide_eq_true Hty].
    destruct locks as [|[ns m1] [|]]; [| |done].
    - apply bool_decide_eq_true in Hty. split; [by split; [left|]|]. intros Hin%HL. by apply elem_of_nil in Hin.
    - apply andb_true_iff in Hty as [Hns%bool_decide_eq_true Hty%bool_decide_eq_true].
      split; [by split; [right|]|]. intros Hin%HL. apply list_elem_of_singleton in Hin. cbn in Hin. subst r.
      by rewrite Hns in Hty. }
  destruct (run_acquire w txn L ctx0 r m Hw HrL Hm Hlive) as (w' & Hw' & (E1 & E2 & E3) & E4 & Hrun).
  assert (local (EAcquire ctx0 r m) w = (w', Ok ())) as ->.
  { cbn [run acquire] in Hrun. by destruct (local (EAcquire ctx0 r m) w). }
  destruct (remote_acquire c d ext g L r m Hd Hh HrL Hnm Hm)
    as (s & g' & d' & token & -> & Hd' & Hf & Hh' & Hsub & Hby). cbn.
  split; [done|]. split; [done|]. exists d'. split; [|split].
  - split; cbn; try congruence. rewrite E1. eapply represents_docs; [|exact Hr].
    intros k Hk. by eapply fenced_docs.
  - destruct Hbu as [Ha Hcn Hro]. split; [|by rewrite E4|].
    + eapply ahead_called; [..|exact Ha]; [done|done|]. intros e He. cbn. apply Hby. intros ->.
      by apply (ho_last _ _ _ _ _ Hh).
    + intros r'. eapply fenced_room; [exact Hf|by apply (ho_room _ _ _ _ _ Hh)|done].
  - exists txn, ext, g', (r :: L). split; [done|]. split.
    { intros r' [->|Hin]%elem_of_cons; rewrite fmap_app; set_solver. }
    split; [done|]. intros x Hx. destruct (Hfen x Hx). split; [done|]. by etrans.
Qed.

Lemma release_step locks fen com w c :
  in_step (Holding locks fen com) w c →
  in_step (Ended com) (local EReleaseAll w).1 (remote' EReleaseAll c).1.
Proof.
  intros (d & [Hd Hr Hc Hs Hn] & Hbu & txn & ext & g & L & [Ha Hgw] & _ & [Hg Ht Hnil Hop Hsv _ _ _ _] & _).
  cbn -[ReleaseAll EndTransaction]. rewrite Hgw, Hg. cbn -[ReleaseAll EndTransaction].
  unfold Remote.ReleaseAll, Remote.release_enter. rewrite Hop. cbn -[ReleaseAll EndTransaction].
  set (g2 := if Remote.heartbeatStarted g then _ else _).
  assert (Remote.acquired g2 = Remote.acquired g ∧ Remote.txn g2 = ext) as [-> ->]
    by (subst g2; by destruct (Remote.heartbeatStarted g)).
  assert (alone (ReleaseAll txn (saferLockManager w)).1 0 []) as Ha' by (by eapply release_alone).
  destruct (Remote.acquired g).
  - destruct Hsv as (p & t & Hsv). destruct (End_up _ _ _ _ _ _ d (now c) Hsv Hnil Hd) as (d' & Hd' & Hby & Htok & Hdocs & Hi).
    exists d'. split; [split; cbn -[ReleaseAll EndTransaction]; try done; by eapply represents_docs|].
    split; [|by split]. eapply budget_same; [..|exact Hbu]; [done|done|].
    eapply ahead_called; [..|apply Hbu]; [done|done|]. intros e _. cbn -[EndTransaction]. by rewrite Hby.
  - destruct Hsv as (-> & ? & Hi & ?). exists d. split; [by split|].
    split; [|split; [done|by apply idle_mono]]. eapply budget_same; [..|exact Hbu]; [done|done|].
    by eapply ahead_called; [..|apply Hbu].
Qed.

Lemma get_step ph w c ctx id :
  in_step ph w c → (remote' (EGet ctx id) c).2 = (local (EGet ctx id) w).2.
Proof.
  intros (d & [Hd Hr _ _ _] & _). cbn. unfold withDatabase. rewrite Hd. by apply reads_represent.
Qed.

Lemma keyget_step ph w c ctx name :
  in_step ph w c → (remote' (EKeyGet ctx name) c).2 = (local (EKeyGet ctx name) w).2.
Proof.
  intros (d & [Hd Hr _ _ _] & _). cbn. unfold withDatabase. rewrite Hd. by apply keys_represent.
Qed.

(** The grants on the context of a commit are among the guard's. *)
Lemma fenced_ctx_grants gs :
  Fencing.GrantsFromContext (fenced_ctx ctx0 (gs, false)) ⊆ gs.
Proof.
  unfold fenced_ctx, Fencing.WithGrants, Fencing.GrantsFromContext. cbn.
  case_decide; cbn; [rewrite Hbare; apply list_subseteq_nil|done].
Qed.

Lemma commit_step locks x w c ms :
  in_step (Holding locks (Some x) None) w c → Forall is_object_write ms →
  (local (EAtomic (fenced_ctx ctx0 x) ms) w).2 = Ok () ∧
  (remote' (EAtomic (fenced_ctx ctx0 x) ms) c).2 = Ok () ∧
  in_step (Holding locks (Some x) (Some true)) (local (EAtomic (fenced_ctx ctx0 x) ms) w).1
    (remote' (EAtomic (fenced_ctx ctx0 x) ms) c).1.
Proof.
  intros (d & [Hd Hr Hc Hs Hn] & Hbu & txn & ext & g & L & [Ha Hgw] & HL & Hh & Hfen) Hms.
  destruct (Hfen x eq_refl) as [Hx Hsub]. destruct x as [gs b]. cbn in Hx, Hsub. subst b.
  destruct Hh as [Hg Ht Hnil Hop Hsv Hroom Hlast Hpr Hna].
  destruct (transact_up (fenced_ctx ctx0 (gs, false)) ms d (registers_objects ms _ Hms)) as (d' & E & Hdocs).
  { intros y Hy%fenced_ctx_grants. by apply Hpr, Hsub. }
  destruct (closure_refines ms (doc d) (store w) Hr (registers_objects ms _ Hms)) as (st' & Ecl & Hr').
  cbn -[fenced_ctx]. rewrite Hd, E, Ecl. cbn -[fenced_ctx]. split; [done|]. split; [done|].
  assert (∀ r, stored d' r = stored d r) as Hst by (intros r; unfold stored; by rewrite Hdocs, apply_all_fence).
  exists d'. split; [|split].
  - split; try done. eapply represents_ext; [|exact Hr']. intros k. by rewrite Hdocs.
  - eapply budget_same; [..|exact Hbu]; [done|done|]. by eapply ahead_called; [..|apply Hbu].
  - exists txn, ext, g, L. split; [by split|]. split; [done|]. split; [|done].
    split; try done.
    + cbn. destruct (Remote.acquired g).
      * destruct Hsv as (p & t & [? ? ? ? ? ? ? ? ? ? ? ?]). exists p, t. by split.
      * destruct Hsv as (? & ? & [? ? ? ?] & ?). split; [done|]. split; [done|]. split; [by split|done].
    + intros r Hr0. pose proof (Hroom r Hr0) as Hro. unfold room in *. by rewrite Hst.
    + intros y Hy. rewrite Hdocs, apply_all_fence. by apply Hpr.
Qed.

(** ** Whole runs *)

Definition is_grants (e : event) : bool := match e with EGrants => true | _ => false end.

Lemma local_granted e w x :
  is_grants e = false → local e (set_granted x w) = (set_granted x (local e w).1, (local e w).2).
Proof. destruct e; try done; intros _; cbn -[AcquireContext ReleaseAll]; by repeat case_match. Qed.

(** Any interaction but the reading of the grants. *)
Lemma event_step ph e w c ph' :
  in_step ph w c → is_grants e = false → Protocol.next ctx0 ph e (local e w).2 = Some ph' →
  (remote' e c).2 = (local e w).2 ∧ in_step ph' (local e w).1 (remote' e c).1.
Proof.
  intros Hin He Hnext. destruct e as [| |t|ctx r m| | |ctx id|ctx name|keys|ctx ms]; [by eapply draw_step|..].
  - (* EAllocTxn *) destruct ph; try done.
    destruct Hin as (d & [Hd Hr Hc Hs Hn] & [[Hnew Hdist] Hcnt Hroom] & Ha & Hi & Hlt).
    unfold allocateTxnID in *. cbn -[u64_add] in *. rewrite Hc.
    rewrite decide_False in * by lia. rewrite u64_add_small in * by lia.
    injection Hnext as <-. split; [done|]. exists d. split; [by split|].
    split; [|split; [cbn; lia|done]]. split; [by split|cbn; lia|done].
  - (* EBegin *) destruct ph; try done. cbn in Hnext. case_decide; [|done]. subst t.
    injection Hnext as <-. split; [done|]. by apply begin_step.
  - (* EAcquire *) destruct ph as [| |locks fen [|]| |]; try done. cbn [Protocol.next] in Hnext.
    destruct (may_acquire locks r) eqn:Hmay; [|done].
    destruct (bool_decide_reflect (ctx = ctx0)) as [->|]; [|done].
    destruct (_ || _) eqn:Hmode; [|done]. rewrite orb_true_iff, !bool_decide_eq_true in Hmode. cbn [andb] in Hnext.
    destruct (acquire_step locks fen w c r m Hin Hmay Hmode) as (El & Er & Hin').
    destruct (local (EAcquire ctx0 r m) w) as [w1 rl], (remote' (EAcquire ctx0 r m) c) as [c1 rr].
    cbn [fst snd] in *. subst rl rr. injection Hnext as <-. split; [reflexivity|exact Hin'].
  - done.
  - (* EReleaseAll *) destruct ph; try done; [|by destruct Hin as (? & _ & [])].
    cbn [Protocol.next] in Hnext. injection Hnext as <-.
    split; [by destruct (remote' _ _).2, (local _ _).2|]. by eapply release_step.
  - destruct ph; try done. cbn in Hnext. case_match; [|done]. injection Hnext as <-.
    split; [by eapply get_step|exact Hin].
  - destruct ph; try done. cbn in Hnext. case_match; [|done]. injection Hnext as <-.
    split; [by eapply keyget_step|exact Hin].
  - injection Hnext as <-. done.
  - (* EAtomic *) destruct ph as [| |locks fen [|]| |]; try done. cbn [Protocol.next] in Hnext.
    destruct (may_commit ctx0 locks fen ctx ms) eqn:Hmay; [|done]. unfold may_commit in Hmay.
    destruct locks as [|[ns m1] [|[f m2] [|]]]; try done. destruct fen as [x|]; [|done].
    rewrite !andb_true_iff, !bool_decide_eq_true in Hmay. destruct Hmay as [[_ ->] Hms].
    destruct (commit_step _ x w c ms Hin Hms) as (El & Er & Hin').
    destruct (local (EAtomic (fenced_ctx ctx0 x) ms) w) as [w1 rl],
      (remote' (EAtomic (fenced_ctx ctx0 x) ms) c) as [c1 rr].
    cbn [fst snd] in *. subst rl rr. injection Hnext as <-. split; [reflexivity|exact Hin'].
Qed.

(** For which answers to the reading of the grants a claim has to hold. *)
Definition works (ph : phase) (G : list Fencing.Grant * bool → Prop) : Prop :=
  match ph with
  | Start | Allocated _ | Holding _ None _ => ∃ x, G x
  | Holding _ (Some y) _ => G y
  | Refused | Ended _ => ∀ x, G x
  end.

Lemma works_step ph e r ph' (G : list Fencing.Grant * bool → Prop) :
  is_grants e = false → Protocol.next ctx0 ph e r = Some ph' → works ph' G → works ph G.
Proof.
  intros He Hn Hw. assert (∃ x, G x) as Hex.
  { destruct ph' as [| |locks [y|] com| |com]; cbn in Hw; [done|done|by exists y|done|..];
      exists ([], false); apply Hw. }
  destruct ph as [| |locks [y|] com| |com]; [exact Hex|exact Hex| |exact Hex|..];
    destruct e; cbn in Hn |- *; repeat case_match; simplify_eq; cbn in Hw; try done; apply Hw.
Qed.

Definition agree {A} (p : prog A) (Q : phase → A → Prop) (w : World) (c : Cluster)
    (x : list Fencing.Grant * bool) : Prop :=
  ∃ c' ph', run remote' p c = (c', (run local p (set_granted x w)).2) ∧
    in_step ph' (run local p (set_granted x w)).1 c' ∧ Q ph' (run local p (set_granted x w)).2.

Lemma in_step_granted ph w c x : in_step ph w c → in_step ph (set_granted x w) c.
Proof.
  intros (d & [? ? ? ? ?] & Hph). exists d. split; [by split|]. destruct ph; try done;
    destruct Hph as [Hb Hph]; (split; [by apply (budget_granted _ _ _ _ x) in Hb|]); try done.
  destruct Hph as (txn & ext & g & L & [? ?] & Hrest). exists txn, ext, g, L. by split; [split|].
Qed.

Lemma simulate {A} (p : prog A) : ∀ ph Q w c,
  safe ctx0 p ph Q → in_step ph w c → works ph (agree p Q w c).
Proof.
  induction p as [a|e k IH]; intros ph Q w c Hs Hin.
  { assert (∀ x, agree (Ret a) Q w c x) as Hall.
    { intros x. exists c, ph. split; [done|]. split; [by apply in_step_granted|done]. }
    destruct ph as [| |? [|] ?| |]; cbn; try apply Hall; by exists ([], false). }
  destruct (is_grants e) eqn:He.
  - destruct e; try done. cbn in Hs.
    destruct ph as [| |locks [|] [|]| |]; try (by specialize (Hs ([], false))).
    set (x := (from_option Remote.FenceGrants [] (rguard c), false)). specialize (Hs x).
    exists x. destruct (IH x _ _ w c Hs) as (c' & ph' & E & Hin' & HQ).
    + destruct Hin as (d & Hsy & Hbu & txn & ext & g & L & Hw & HL & Hh & _). exists d. do 2 (split; [done|]).
      exists txn, ext, g, L. split; [done|]. split; [done|]. split; [done|].
      intros y [= <-]. subst x. by rewrite (ho_guard _ _ _ _ _ Hh).
    + exists c', ph'. cbn [run local]. done.
  - specialize (Hs (local e w).2). destruct (Protocol.next ctx0 ph e (local e w).2) as [ph1|] eqn:Hn; [|done].
    destruct (event_step ph e w c ph1 Hin He Hn) as [Hresp Hin1].
    eapply works_step; [exact He|exact Hn|].
    assert (∀ x, agree (k (local e w).2) Q (local e w).1 (remote' e c).1 x →
      agree (Vis e k) Q w c x) as Hag.
    { intros x (c' & ph' & E & Hi & HQ). exists c', ph'. cbn [run].
      rewrite (local_granted _ _ _ He). destruct (remote' e c) as [c1 r1]. cbn in Hresp, E. subst r1. done. }
    specialize (IH (local e w).2 ph1 Q (local e w).1 (remote' e c).1 Hs Hin1).
    destruct ph1 as [| |? [|] ?| |]; cbn in *; naive_solver.
Qed.

End refines.

(** ** Calls without locks *)

(** [InitUser] and [GetUser] take no lock: they draw, read and commit once, and
    the commit registers only key names the call has found free. *)
Section unlocked.
Context `{UuidLib} `{Userlib} `{!UuidNew}.

(** The key names a commit registers. *)
Definition registered (ms : list Mutation) : list string :=
  omap (λ m, match m with MKeyPut name _ => Some name | _ => None end) ms.

Fixpoint unlocked {A} (free : list string) (p : prog A) : Prop :=
  match p with
  | Ret _ => True
  | Vis e k =>
      match e as e return (resp e → prog A) → Prop with
      | EDraw => λ k, ∀ r, unlocked free (k r)
      | EGet _ _ => λ k, ∀ r, unlocked free (k r)
      | EKeyGet _ name => λ k, ∀ r, unlocked (match r with Ok None => name :: free | _ => free end) (k r)
      | EAtomic ctx ms => λ k, Fencing.grants ctx = None ∧ registered ms ⊆ free ∧
          NoDup (registered ms) ∧ ∀ r, unlocked [] (k r)
      | _ => λ _, False
      end k
  end.

(** A run of draws alone. *)
Fixpoint draws {A} (p : prog A) : Prop :=
  match p with
  | Ret _ => True
  | Vis e k => match e as e return (resp e → prog A) → Prop with
               | EDraw => λ k, ∀ r, draws (k r) | _ => λ _, False end k
  end.

Lemma unlocked_draws {A B} (p : M A) (f : A → M B) free :
  draws p → (∀ a, unlocked free (f a)) → unlocked free (p ≫= f).
Proof.
  intros Hp Hf. unfold mbind, M_bind. induction p as [[a|e]|e k IH]; cbn in *; [apply Hf|done|].
  destruct e; try done. intros r. by apply IH.
Qed.

Lemma unlocked_lift {A B} (r : result A) (f : A → M B) free :
  (∀ a, unlocked free (f a)) → unlocked free (lift r ≫= f).
Proof. intros Hf. by apply unlocked_draws. Qed.

Lemma draws_bind {A B} (p : M A) (f : A → M B) : draws p → (∀ a, draws (f a)) → draws (p ≫= f).
Proof.
  intros Hp Hf. unfold mbind, M_bind. induction p as [[a|e]|e k IH]; cbn in *; [apply Hf|done|].
  destruct e; try done. intros r. by apply IH.
Qed.

Lemma draws_emacAccount a id ek mk : draws (emacAccount a id ek mk).
Proof. unfold emacAccount. repeat (apply draws_bind; [done|intros ?]). done. Qed.

Lemma GetUser_unlocked ctx username password free : unlocked free (GetUserContext ctx username password).
Proof.
  unfold GetUserContext. do 2 (apply unlocked_lift; intros ?). intros r.
  destruct r as [found|e]; [|done]. apply unlocked_lift. intros ?. apply unlocked_lift. intros [ek mk].
  apply unlocked_lift. by intros ?.
Qed.

Lemma InitUser_unlocked ctx username password :
  Fencing.grants ctx = None → getPKEKeyName username ≠ getVerifyKeyName username →
  unlocked [] (InitUserContext ctx username password).
Proof.
  intros Hctx Hne. unfold InitUserContext. do 2 (apply unlocked_lift; intros ?).
  intros account. destruct account as [account|]; [|done].
  intros pke. destruct pke as [pke|]; [|done]. intros verify. destruct verify as [verify|]; [|done].
  destruct account as [account|]; [done|]. destruct pke as [pke|]; [done|].
  destruct verify as [verify|]; [done|].
  apply unlocked_lift. intros _. apply unlocked_draws; [done|]. intros s.
  apply unlocked_lift. intros [pkePublic pkePrivate]. apply unlocked_draws; [done|]. intros s'.
  apply unlocked_lift. intros [signPrivate verifyPublic]. apply unlocked_draws; [done|]. intros root.
  apply unlocked_lift. intros [ek mk]. apply unlocked_draws; [apply draws_emacAccount|]. intros enc.
  cbn. split; [done|]. split; [set_solver|]. split.
  - apply NoDup_cons. split; [|apply NoDup_singleton]. by rewrite list_elem_of_singleton.
  - by intros [].
Qed.

End unlocked.

(** ** The deployment and the process-local program *)

Section claims.
Context `{UuidLib} `{Userlib} `{!UuidNew} `{!X509} `{!UuidLaws} `{!X509Laws} `{!UserlibLaws}.
Context {Db Session : Type} `{Statements Db} `{Statements Session} `{Transactions Db Session}.
Context `{!FenceStore Db} `{!MongoLaws Db Session} `{!Up (Session := Session)}.

Abbreviation remote' := (remote (Session := Session)).

(** An idle deployment whose documents are the objects and keys of [w], and a
    worker with the same counter and the same randomness ahead, which can run
    [k] more operations: identifiers of every kind are left and new. *)
Record mirrors (k : nat) (w : World) (c : Cluster (Db := Db)) : Prop := {
  mi_alone : alone (saferLockManager w) 0 [];
  mi_data : ∃ d, sync w c d ∧ budget k w c d;
  mi_idle : idle (Coordinator.next (coordinator c)) (coordinator c);
  mi_next : Coordinator.next (coordinator c) + N.of_nat k ≤ max_uint64 }.

(** Nobody holds or waits for a lock, and the documents are those of [st]. *)
Definition rests_on (c : Cluster (Db := Db)) (st : UserlibStore) : Prop :=
  ∃ d, fences (coordinator c) = Some d ∧ represents (doc d) st ∧ alone (lm (coordinator c)) 0 [].

Lemma mirrors_rests k w c : mirrors k w c → rests_on c (store w).
Proof. intros [_ (d & [Hd Hr _ _ _] & _) [Ha _ _ _] _]. by exists d. Qed.

Lemma mirrors_quiet k w c : mirrors (S k) w c → quiet w.
Proof. intros [Ha (d & _ & [_ Hc _]) _ _]. split; [done|lia]. Qed.

Lemma mirrors_pred k w c : mirrors (S k) w c → mirrors k w c.
Proof.
  intros [Ha (d & Hs & Hb) Hi Hn]. split; [done| |done|lia].
  exists d. split; [done|by apply budget_pred].
Qed.

Lemma mirrors_granted k w c x : mirrors k w c → mirrors k (set_granted x w) c.
Proof.
  intros [Ha (d & [? ? ? ? ?] & Hb) Hi Hn]. split; [done| |done|done].
  exists d. split; [by split|by apply budget_granted].
Qed.

Lemma run_remote {A} ctx m (p : M A) k w c :
  ctx_Err (Fencing.lock_ctx ctx) = None → Fencing.grants ctx = None → mirrors (S k) w c →
  safe ctx p Start (Protocol.finished m) →
  ∃ x c', run remote' p c = (c', (run local p (set_granted x w)).2) ∧
    mirrors k (run local p (set_granted x w)).1 c'.
Proof.
  intros Hl Hb [Ha (d & Hs & Hbu) Hi Hnx] Hp. set (n := Coordinator.next (coordinator c)) in *.
  destruct (simulate (Session := Session) ctx Hl Hb n k p Start _ w c Hp)
    as (x & c' & ph & E & (d' & Hs' & Hin) & com & -> & _).
  { exists d. do 2 (split; [done|]). split; [done|]. split; [done|lia]. }
  destruct Hin as (Hbu' & Ha' & Hi'). exists x, c'. split; [exact E|]. destruct Hi' as [? ? Hle ?].
  split; [done|by exists d'|by split|]. lia.
Qed.

(** What the unlocked calls do to the two environments. *)
Lemma registers_free ms : ∀ v,
  (∀ name, name ∈ registered ms → v (DKey name) = None) → NoDup (registered ms) →
  (∀ key, is_ok (encodePublicKey key) = true) → registers_all ms v.
Proof.
  induction ms as [|m ms IH]; intros v Hv Hnd He; cbn; [done|].
  assert (∀ name, name ∈ registered ms → name ∈ registered (m :: ms)) as Hsub
    by (intros name Hin; destruct m; cbn; [done|done|by right]).
  split.
  - destruct m as [| |name key]; cbn; [done|done|]. split; [apply Hv; by left|apply He].
  - apply IH; [| |done].
    + intros name Hin. unfold apply_mut. rewrite decide_False; [by apply Hv, Hsub|].
      intros Hk. destruct m as [id val|id|name' key]; cbn in Hk; simplify_eq. cbn in Hnd.
      by apply NoDup_cons in Hnd as [? _].
    + destruct m; cbn in Hnd; [done|done|]. by apply NoDup_cons in Hnd as [_ ?].
Qed.

Lemma bare_grants (ctx : Fencing.Ctx) : Fencing.grants ctx = None → Fencing.GrantsFromContext ctx = [].
Proof. intros Hc. unfold Fencing.GrantsFromContext. by rewrite Hc. Qed.

Lemma run_unlocked {A} (p : prog A) : ∀ free k w c,
  mirrors k w c → unlocked free p → (∀ name, name ∈ free → Keystore (store w) !! name = None) →
  ∃ c', run remote' p c = (c', (run local p w).2) ∧ mirrors k (run local p w).1 c'.
Proof.
  induction p as [a|e ko IH]; intros free k w c Hm Hp Hfree; [by exists c|].
  pose proof Hm as [Ha (d & [Hd Hr Hc Hs Hn] & Hbu) Hi Hnx].
  destruct e as [| | | | | |ctx id|ctx name| |ctx ms]; try done.
  - (* EDraw *)
    assert ((remote' EDraw c).2 = (local EDraw w).2) as E by (cbn; by rewrite Hs, Hn).
    destruct (IH (local EDraw w).2 free k (local EDraw w).1 (remote' EDraw c).1) as (c' & Er & Hm'); [|apply Hp|done|].
    + split; [done| |done|done]. exists d. split; [split; cbn; congruence|].
      destruct Hbu as [[? ?] ? ?]. split; [by split|done|done].
    + exists c'. split; [|exact Hm']. rewrite <-E in Er at 1. exact Er.
  - (* EGet *)
    assert (remote' (EGet ctx id) c = (c, (local (EGet ctx id) w).2)) as E.
    { cbn. unfold withDatabase. rewrite Hd. f_equal. by apply reads_represent. }
    destruct (IH (local (EGet ctx id) w).2 free k w c Hm (Hp _) Hfree) as (c' & Er & Hm').
    exists c'. cbn [run]. rewrite E. split; [exact Er|exact Hm'].
  - (* EKeyGet *)
    assert (remote' (EKeyGet ctx name) c = (c, (local (EKeyGet ctx name) w).2)) as E.
    { cbn. unfold withDatabase. rewrite Hd. f_equal. by apply keys_represent. }
    destruct (IH (local (EKeyGet ctx name) w).2 _ k w c Hm (Hp _)) as (c' & Er & Hm').
    { cbn. unfold UserlibKeyStore_Get. intros n'. destruct (Keystore (store w) !! name) eqn:En; [apply Hfree|].
      intros [->|Hin]%elem_of_cons; [done|by apply Hfree]. }
    exists c'. cbn [run]. rewrite E. split; [exact Er|exact Hm'].
  - (* EAtomic *)
    destruct Hp as (Hctx & Hsub & Hnd & Hk).
    assert (registers_all ms (doc d)) as Hreg.
    { apply registers_free; [|done|apply encode_up]. intros name Hin.
      pose proof (rp_keys _ _ Hr name) as Hkey. by rewrite Hfree in Hkey by (by apply Hsub). }
    destruct (transact_up ctx ms d Hreg) as (d' & E & Hdocs).
    { intros g Hg. rewrite bare_grants in Hg by done. by apply elem_of_nil in Hg. }
    destruct (closure_refines ms (doc d) (store w) Hr Hreg) as (st' & Ecl & Hr').
    destruct (IH (Ok ()) [] k (set_store st' w) (set_coordinator (set_fences (Some d') (coordinator c)) c))
      as (c' & Er & Hm'); [|apply Hk|by intros name ?%elem_of_nil|].
    + destruct Hi as [? ? ? ?]. split; [done| |by split|done]. exists d'. split.
      * split; try done. eapply represents_ext; [|exact Hr']. intros key. by rewrite Hdocs.
      * eapply budget_same; [..|exact Hbu]; [done| |by eapply ahead_called; [..|apply Hbu]].
        intros r. unfold stored. by rewrite Hdocs, apply_all_fence.
    + exists c'. cbn [run remote local]. rewrite Hd, E. unfold RunAtomic. rewrite Ecl.
      split; [exact Er|exact Hm'].
Qed.

(** The calls of the client package: the seven locking operations, signing up
    and logging in. *)
Inductive client_call :=
  | Locking (o : operation)
  | CallInitUser (ctx : Fencing.Ctx) (username password : string)
  | CallGetUser (ctx : Fencing.Ctx) (username password : string).

Definition call_answer (q : client_call) : Type :=
  match q with Locking o => answer o | _ => User end.

Definition call_perform (q : client_call) : M (call_answer q) :=
  match q with
  | Locking o => perform o
  | CallInitUser ctx username password => InitUserContext ctx username password
  | CallGetUser ctx username password => GetUserContext ctx username password
  end.

Definition call_ctx (q : client_call) : Fencing.Ctx :=
  match q with Locking o => op_ctx o | CallInitUser ctx _ _ | CallGetUser ctx _ _ => ctx end.

(** The truncated hashes that name the two keys of a new account differ. *)
Definition names_apart (q : client_call) : Prop :=
  match q with
  | CallInitUser _ username _ => getPKEKeyName username ≠ getVerifyKeyName username
  | _ => True
  end.

Lemma call_remote (q : client_call) k w c :
  ctx_Err (Fencing.lock_ctx (call_ctx q)) = None → Fencing.grants (call_ctx q) = None →
  names_apart q → mirrors (S k) w c →
  ∃ x c', run remote' (call_perform q) c = (c', (run local (call_perform q) (set_granted x w)).2) ∧
    mirrors k (run local (call_perform q) (set_granted x w)).1 c'.
Proof.
  intros Hl Hb Hq Hm. destruct q as [o|ctx username password|ctx username password].
  - eapply run_remote; [done..|]. by apply perform_safe.
  - exists (granted w). destruct (run_unlocked (InitUserContext ctx username password) [] (S k)
      (set_granted (granted w) w) c) as (c' & E & Hm');
      [by apply mirrors_granted|by apply InitUser_unlocked|by intros name ?%elem_of_nil|].
    exists c'. split; [exact E|by apply mirrors_pred].
  - exists (granted w). destruct (run_unlocked (GetUserContext ctx username password) [] (S k)
      (set_granted (granted w) w) c) as (c' & E & Hm');
      [by apply mirrors_granted|apply GetUser_unlocked|by intros name ?%elem_of_nil|].
    exists c'. split; [exact E|by apply mirrors_pred].
Qed.

(** C5. Distributed and local runs agree. Take a worker whose deployment is up
    (no statement and no call fails, [Up]) and idle (nobody else holds, waits
    for or takes a lock meanwhile), whose documents are the objects and keys of
    an in-memory store, and a live caller's context without grants of its own.
    Then every call of the client package, each of the seven locking operations
    on every argument, [InitUser] (unless the two truncated hashes that name a
    user's keys collide) and [GetUser], run through the remote guard, the
    coordinator, its lock manager and fencing tokens and the fenced MongoDB
    transaction, returns exactly what it returns against the process-local lock
    manager and the in-memory store: the same value, be it the bytes of
    [LoadFile], the UUID of [CreateInvitation], the metadata or the user, or
    the same error. It leaves in MongoDB the objects and keys it leaves in
    memory, and no lock; and the deployment mirrors the in-memory world again,
    with identifiers for one operation fewer, so that calls can follow one
    another. *)
Theorem remote_refines_local (q : client_call) k w c :
  ctx_Err (Fencing.lock_ctx (call_ctx q)) = None → Fencing.grants (call_ctx q) = None →
  names_apart q → mirrors (S k) w c →
  ∃ x c', run remote' (call_perform q) c = (c', (run local (call_perform q) (set_granted x w)).2) ∧
    rests_on c' (store (run local (call_perform q) (set_granted x w)).1) ∧
    mirrors k (run local (call_perform q) (set_granted x w)).1 c'.
Proof.
  intros Hl Hb Hq Hm. destruct (call_remote q k w c Hl Hb Hq Hm) as (x & c' & E & Hm').
  exists x, c'. split; [exact E|]. split; [by eapply mirrors_rests|exact Hm'].
Qed.

(** Files work across the deployment: when MongoDB holds a file of the user,
    a worker's [LoadFile] returns its bytes, and a worker's [AppendToFile]
    succeeds and leaves in MongoDB the file with the bytes appended and the
    version advanced by one, and no lock. *)
Theorem distributed_file u f ctx y content version w c :
  ctx_Err (Fencing.lock_ctx ctx) = None → Fencing.grants ctx = None → mirrors 1 w c →
  fresh w 1 → slen y ≠ 0%nat → (version < max_uint64)%N →
  has_file (store w) u f content version →
  (∃ c', run remote' (LoadFileContext u ctx f) c = (c', Ok (Some content)) ∧
     rests_on c' (store w)) ∧
  ∃ c' st', run remote' (AppendToFileContext u ctx f y) c = (c', Ok ()) ∧
    rests_on c' st' ∧ has_file st' u f (content +:+ bytes_of y) (version + 1).
Proof.
  intros Hl Hb Hm Hfr Hy Hv Hf. pose proof (mirrors_quiet _ _ _ Hm) as Hq.
  assert (∀ x, quiet (set_granted x w)) as Hqx by (intros x; destruct Hq; by split).
  split.
  - destruct (run_remote ctx false (LoadFileContext u ctx f) 0 w c Hl Hb Hm) as (x & c' & E & Hr%mirrors_rests);
      [by apply Load_safe|].
    destruct (load_reads (set_granted x w) u f ctx content version) as (w' & E' & Hst & _); [done..|].
    rewrite E' in E, Hr. exists c'. split; [done|]. cbn in Hr. by rewrite Hst in Hr.
  - destruct (run_remote ctx (bool_decide (slen y ≠ 0%nat)) (AppendToFileContext u ctx f y) 0 w c Hl Hb Hm)
      as (x & c' & E & Hr%mirrors_rests); [by apply Append_safe|].
    destruct (append_appends (set_granted x w) u f ctx y content version) as (w' & E' & Hf' & _);
      [apply Hqx|done|by eapply (fresh_same w)|done..|].
    rewrite E' in E, Hr. by exists c', (store w').
Qed.

End claims.
