(* ===== verification/RemoteRuns.v ===== *)
(** * A concrete deployment at work

    The map-backed deployment of MongoRuns with a coordinator and a worker in
    which Alice's file of ClientRuns is stored: the hypotheses of the theorems
    on the remote guard and on distributed operations can hold. *)

From S2P Require Import Prelude Json JsonThms Libs LockManager LockManagerInv LockManagerSeq Fencing SaferTypes.
From S2P Require Import Effects Client Sharing Protocol LocalEnv FileModel FileThms ClientRuns FenceStore.
From S2P Require Import Coordinator MongoStore MongoThms MongoRuns RemoteGuard RemoteThms RemoteEnv RemoteRefines.
Import LM LMSeq Toy MapMongo.
Open Scope string_scope.

Lemma int64_of_small (t : N) : (t ≤ max_int64)%N → int64_of t = Z.of_N t.
Proof.
  intros Ht. unfold int64_of, max_int64 in *. rewrite Z.mod_small by lia. by rewrite decide_True by lia.
Qed.

#[export] Instance map_up : Up (Db := Db) (Session := Session).
Proof.
  split; cbn; eauto.
  - intros k v s Hv. rewrite Hv. eauto.
  - intros k v s Hv. rewrite decide_True by done. eauto.
  - intros s d <-. rewrite decide_True by (by intros k _). eauto.
  - intros r o d [Hpos Hroom].
    assert (from_option fst 0 (fence_of_db d r) = Z.to_N (stored d r)) as ->.
    { unfold fence_of_db, stored. cbn. by destruct (d !! DFence r) as [[?|? ?|t o']|]. }
    rewrite decide_True by lia. eexists _, _. split; [done|]. split; [lia|].
    rewrite int64_of_small by lia. split; [lia|]. split.
    + by rewrite lookup_insert_eq.
    + intros k Hk. by rewrite lookup_insert_ne.
  - intros r o d. destruct (d !! DFence r) as [[?|? ?|t [o'|]]|] eqn:E; eexists; (split; [done|]); try done.
    split.
    + intros r'. unfold stored. cbn. destruct (decide (r' = r)) as [->|Hne].
      * by rewrite lookup_insert_eq, E.
      * by rewrite lookup_insert_ne by congruence.
    + intros k Hk. by rewrite lookup_insert_ne by (intros <-; by eapply Hk).
Qed.

(** The documents of an in-memory store. *)
Definition object_key (id : @UUID toy_uuid) : dockey := DObject (uuid_String id).

#[export] Instance object_key_inj : Inj (=) (=) object_key.
Proof.
  intros x y E. unfold object_key in E. assert (uuid_String x = uuid_String y) as Es by congruence.
  pose proof (Parse_String x) as Hx. rewrite Es, Parse_String in Hx. by injection Hx.
Qed.
#[export] Instance DKey_inj : Inj (=) (=) DKey.
Proof. by intros x y [= ->]. Qed.

Definition db_of (st : UserlibStore) : Db :=
  kmap object_key (VObject <$> Datastore st) ∪ kmap DKey ((λ k, VKey k k) <$> Keystore st).

Lemma keys_stored (o : option string) :
  match o with
  | Some key => ∃ d, Ok (A := docval) (VKey key key) = Ok d ∧ (λ k, VKey k k) <$> o = Some d
  | None => (λ k, VKey k k) <$> o = None
  end.
Proof. destruct o; cbn; eauto. Qed.

Lemma db_of_represents st : represents (doc (db_of st)) st.
Proof.
  split; cbn; unfold db_of.
  - intros id. change (DObject _) with (object_key id). rewrite lookup_union, lookup_kmap, lookup_fmap by apply _.
    assert (kmap DKey ((λ k, VKey k k) <$> Keystore st) !! object_key id = None) as ->
      by (apply lookup_kmap_None; [apply _|done]).
    apply (right_id_L None union).
  - intros name. rewrite lookup_union_r by (apply lookup_kmap_None; [apply _|]; done).
    rewrite lookup_kmap, lookup_fmap by apply _. apply keys_stored.
Qed.

Lemma db_of_room k st r : (k ≤ max_int64)%N → room k (db_of st) r.
Proof.
  intros Hk. assert (stored (db_of st) r = 0%Z) as E.
  { unfold stored. cbn. unfold db_of. rewrite lookup_union_r, (proj2 (lookup_kmap_None _ _ _)); [done|..];
    try apply _; try done. apply lookup_kmap_None; [apply _|]. done. }
  unfold room. rewrite E. lia.
Qed.

Definition no_ids (n : nat) : @UUID toy_uuid := "txn" +:+ pretty n.

Definition cluster_of (w : World) : Cluster (Db := Db) :=
  mkCluster (NewServer (Some (db_of (store w))) 0) None (txnIDCounter w) (tape w) (drawn w) no_ids 0
    (λ n, N.of_nat n) 0.

Lemma no_ids_inj n m : no_ids n = no_ids m → n = m.
Proof. unfold no_ids. intros E%(inj (String.append _)). by apply (inj pretty) in E. Qed.

Lemma cluster_mirrors k w :
  quiet w → (txnIDCounter w + N.of_nat k ≤ max_uint64)%N → (N.of_nat k ≤ max_int64)%N →
  mirrors k w (cluster_of w).
Proof.
  intros [Hq _] Hc Hk. split; [done| | |].
  - exists (db_of (store w)). split; [split; try done; apply db_of_represents|].
    split; [|done|intros r; by apply db_of_room]. split.
    + intros e (n & -> & _)%list_elem_of_fmap. done.
    + unfold ids. apply NoDup_fmap_2; [|apply NoDup_seq]. intros n m. apply no_ids_inj.
  - split; [apply alone_new|done|done|]. by intros q i ?%elem_of_empty.
  - cbn. unfold max_int64, max_uint64 in *. lia.
Qed.

Definition load_notes : client_call := Locking (OpLoadFile alice ctx0 "notes").
Definition sign_up : client_call := CallInitUser ctx0 "bob" "pw".

Lemma world1_counter : txnIDCounter world1 = 1%N.
Proof. by vm_compute. Qed.

Lemma world1_mirrored k : (k ≤ 2)%nat → mirrors k world1 (cluster_of world1).
Proof.
  intros Hk. apply cluster_mirrors; [apply world1_file|rewrite world1_counter|];
    unfold max_int64, max_uint64; lia.
Qed.

(** Alice's file is read, and Bob signs up, in the deployment as in memory. *)
Lemma remote_refines_local_witness :
  (∃ x c', run (remote (Session := Session)) (call_perform load_notes) (cluster_of world1) =
      (c', (run local (call_perform load_notes) (set_granted x world1)).2) ∧
    rests_on c' (store (run local (call_perform load_notes) (set_granted x world1)).1) ∧
    mirrors 1 (run local (call_perform load_notes) (set_granted x world1)).1 c') ∧
  ∃ x c', run (remote (Session := Session)) (call_perform sign_up) (cluster_of world1) =
      (c', (run local (call_perform sign_up) (set_granted x world1)).2) ∧
    rests_on c' (store (run local (call_perform sign_up) (set_granted x world1)).1) ∧
    mirrors 1 (run local (call_perform sign_up) (set_granted x world1)).1 c'.
Proof.
  split.
  - apply (remote_refines_local load_notes 1 world1 (cluster_of world1));
      [reflexivity|reflexivity|exact I|]. by apply world1_mirrored.
  - apply (remote_refines_local sign_up 1 world1 (cluster_of world1));
      [reflexivity|reflexivity|by vm_compute|]. by apply world1_mirrored.
Defined.

Lemma distributed_file_witness :
  (∃ c', run (remote (Session := Session)) (LoadFileContext alice ctx0 "notes") (cluster_of world1) =
      (c', Ok (Some "hi")) ∧ rests_on c' (store world1)) ∧
  ∃ c' st', run (remote (Session := Session)) (AppendToFileContext alice ctx0 "notes" (Some " there"))
      (cluster_of world1) = (c', Ok ()) ∧
    rests_on c' st' ∧ has_file st' alice "notes" "hi there" 2.
Proof.
  destruct world1_file as [Hq Hf].
  apply (distributed_file alice "notes" ctx0 (Some " there") "hi" 1 world1 (cluster_of world1));
    [reflexivity|reflexivity|by apply world1_mirrored; lia|exact world1_fresh|discriminate|reflexivity|exact Hf].
Defined.

(** ** A guard with a heartbeat *)

Definition guard_0 : Remote.remoteGuard := Remote.Begin ("a" : @UUID toy_uuid).
Definition res_f : ResourceID := mkResourceID FileResource "f".
Definition guard_1 : Remote.remoteGuard := Remote.mkGuard ("a" : @UUID toy_uuid) true false [] false false 0 None false.
Definition guard_2 : Remote.remoteGuard := Remote.noteLeaseDeadline 6000000000 guard_1.
Definition guard_3 : Remote.remoteGuard := (Remote.acquire_record res_f ExclusiveLock 1 guard_2).1.
Definition guard_4 : Remote.remoteGuard :=
  Remote.mkGuard ("a" : @UUID toy_uuid) true true (Remote.grants guard_3) true false 1 (Some 6000000000%Z) false.
Definition beating : Remote.gstate :=
  Remote.mkState guard_3 Remote.OIdle Remote.BTimer [Remote.RAcquire res_f ExclusiveLock].
Definition ending : Remote.gstate :=
  Remote.mkState guard_4 Remote.OStop Remote.BRenewing [Remote.RAcquire res_f ExclusiveLock; Remote.RRenew].
Definition ended : Remote.gstate :=
  Remote.mkState (Remote.heartbeatReturns (Remote.closeStop guard_4)) Remote.OIdle Remote.BReturned
    [Remote.RAcquire res_f ExclusiveLock; Remote.RRenew; Remote.REnd].

Lemma beating_reachable : Remote.g_reachable beating.
Proof.
  exists ("a" : @UUID toy_uuid).
  eapply rtc_l; [by apply (Remote.op_send res_f ExclusiveLock (RESOURCE_TYPE_FILE, "f", LOCK_MODE_EXCLUSIVE) guard_0 guard_1)|].
  eapply rtc_l; [apply (Remote.op_answered res_f ExclusiveLock 1 6000000000)|].
  eapply rtc_l; [by apply (Remote.op_record res_f ExclusiveLock 1 guard_2 guard_3 true)|].
  eapply rtc_once. apply Remote.op_spawn.
Qed.

Lemma ending_reachable : Remote.g_reachable ending.
Proof.
  destruct beating_reachable as [id Hr]. exists id. etrans; [exact Hr|].
  eapply rtc_l; [apply Remote.beat_send|].
  eapply rtc_once. by apply (Remote.rel_enter guard_3 guard_4).
Qed.

Lemma ended_reachable : Remote.g_reachable ended.
Proof.
  destruct ending_reachable as [id Hr]. exists id. etrans; [exact Hr|].
  eapply rtc_l; [apply Remote.rel_stop|].
  eapply rtc_l; [by apply (Remote.beat_answer 0 (Err EDeadlineExceeded) _ (Remote.closeStop guard_4)
    (Some Remote.minRenewalInterval))|].
  eapply rtc_l; [by apply Remote.beat_stop|].
  eapply rtc_l; [by apply Remote.rel_waited|].
  eapply rtc_l; [apply Remote.rel_send|].
  eapply rtc_once. apply Remote.rel_return.
Qed.

Lemma guard_protocol_witness :
  (Remote.REnd ∈ Remote.sent ended → Remote.ended (Remote.guard ended) = true ∧
     (Remote.heart ended = Remote.BNone ∨ Remote.heart ended = Remote.BReturned) ∧
     ∃ l, Remote.sent ended = (l ++ [Remote.REnd])%list ∧ (Remote.REnd ∉ l)) ∧
  (Remote.acquired (Remote.guard ended) = false → Remote.sent ended = []) ∧
  (Remote.oper ended = Remote.OIdle → Remote.ended (Remote.guard ended) = true →
     Remote.sent ended ≠ [] → Remote.REnd ∈ Remote.sent ended).
Proof. apply (guard_protocol ended). apply ended_reachable. Defined.

Lemma release_returns_witness :
  ∃ c', rtc Remote.g_step ending c' ∧ Remote.oper c' = Remote.OIdle.
Proof. apply (release_returns ending); [apply ending_reachable|reflexivity]. Defined.

Lemma heartbeat_keeps_lease_witness :
  (Remote.minRenewalInterval ≤ Remote.renewalDelay 0 guard_2)%Z ∧
  (0 + 3 * Remote.renewalDelay 0 guard_2 ≤ 6000000000)%Z.
Proof.
  destruct (heartbeat_keeps_lease (F := Db) guard_2 0 6000000000) as (Hmin & _ & Hlong); [reflexivity|].
  split; [exact Hmin|]. apply Hlong. discriminate.
Defined.
