(* ===== verification/Worker.v ===== *)
(** * The worker service (src/cmd/worker)

    The gRPC handlers over the client's operations (service.go), the admission
    limiter that bounds the expensive authentication sections (authlimit.go),
    the readiness state (health.go, and [shutdown] of main.go) and the start-up
    configuration (config.go). Its [run] is in file Processes; spans,
    metrics and log lines are left out. *)

From S2P Require Import Prelude Json Libs LockManager Fencing SaferTypes Effects Client.
From S2P Require Import LocalEnv FileModel FileThms FenceStore Coordinator MongoStore RemoteGuard.
Import LM.
Open Scope string_scope.

Module Worker.
Section worker.
Context `{UuidLib} `{Userlib} `{!UuidNew}.

(** ** Handlers *)

(** The operations of the client package a handler calls. *)
Inductive ccall :=
  | CInitUser (username password : string)
  | CGetUser (username password : string)
  | CStoreFile (u : User) (filename : string) (content : slice)
  | CAppendToFile (u : User) (filename : string) (content : slice)
  | CLoadFile (u : User) (filename : string).

Definition cresp (c : ccall) : Type :=
  match c with
  | CInitUser _ _ | CGetUser _ _ => User
  | CStoreFile _ _ _ | CAppendToFile _ _ _ => unit
  | CLoadFile _ _ => slice
  end.

Definition client_op (ctx : Fencing.Ctx) (c : ccall) : M (cresp c) :=
  match c with
  | CInitUser username password => InitUserContext ctx username password
  | CGetUser username password => GetUserContext ctx username password
  | CStoreFile u filename content => StoreFileContext u ctx filename content
  | CAppendToFile u filename content => AppendToFileContext u ctx filename content
  | CLoadFile u filename => LoadFileContext u ctx filename
  end.

(** What a handler does: it waits for a slot of the limiter (and learns
    [ctx.Err()] if it gets none), gives it back, and calls the client. *)
Inductive wprog (A : Type) :=
  | WRet (a : A)
  | WAcquire (k : option error → wprog A)
  | WRelease (k : wprog A)
  | WCall (c : ccall) (k : result (cresp c) → wprog A).
Arguments WRet {A} _.
Arguments WAcquire {A} _.
Arguments WRelease {A} _.
Arguments WCall {A} _ _.

Fixpoint wbind {A B} (p : wprog (result A)) (f : A → wprog (result B)) : wprog (result B) :=
  match p with
  | WRet (Ok a) => f a
  | WRet (Err e) => WRet (Err e)
  | WAcquire k => WAcquire (λ e, wbind (k e) f)
  | WRelease k => WRelease (wbind k f)
  | WCall c k => WCall c (λ r, wbind (k r) f)
  end.

(** [translateErr]; [ctxErr] is [ctx.Err()] when it runs. *)
Definition translateErr (ctxErr : option error) (op : string) (err : error) : error :=
  if errors_Is err ECanceled then
    status "Canceled" ("worker: " +:+ op +:+ ": " +:+ error_Error err)
  else if errors_Is err EDeadlineExceeded then
    status "DeadlineExceeded" ("worker: " +:+ op +:+ ": " +:+ error_Error err)
  else match ctxErr with
    | Some e => FromContextError e
    | None => status "FailedPrecondition" ("worker: " +:+ op +:+ ": " +:+ error_Error err)
    end.

Definition invalid {A} (msg : string) : wprog (result A) := WRet (Err (status "InvalidArgument" msg)).

Section handlers.
(** [ctx.Err()] at the moment an error is translated. *)
Context (ctxErr : option error).

Definition reported {A} (op : string) (r : result A) : result A :=
  match r with Ok a => Ok a | Err e => Err (translateErr ctxErr op e) end.

Definition authenticate (username password : string) : wprog (result User) :=
  if decide (username = "") then invalid "worker: username is required" else
  if decide (password = "") then invalid "worker: password is required" else
  WAcquire (λ e,
    match e with
    | Some e => WRet (reported "GetUser" (Err e))
    | None => WCall (CGetUser username password) (λ r, WRelease (WRet (reported "GetUser" r)))
    end).

Definition InitUser (username password : string) : wprog (result unit) :=
  if decide (username = "") then invalid "worker: username is required" else
  if decide (password = "") then invalid "worker: password is required" else
  WAcquire (λ e,
    match e with
    | Some e => WRet (reported "InitUser" (Err e))
    | None => WCall (CInitUser username password) (λ r,
        WRelease (WRet (match reported "InitUser" r with Ok _ => Ok () | Err e => Err e end)))
    end).

Definition StoreFile (username password filename : string) (content : slice) : wprog (result unit) :=
  wbind (authenticate username password) (λ user,
  if decide (filename = "") then invalid "worker: filename is required" else
  WCall (CStoreFile user filename content) (λ r, WRet (reported "StoreFile" r))).

Definition AppendToFile (username password filename : string) (content : slice)
    : wprog (result unit) :=
  wbind (authenticate username password) (λ user,
  if decide (filename = "") then invalid "worker: filename is required" else
  WCall (CAppendToFile user filename content) (λ r, WRet (reported "AppendToFile" r))).

Definition LoadFile (username password filename : string) : wprog (result slice) :=
  wbind (authenticate username password) (λ user,
  if decide (filename = "") then invalid "worker: filename is required" else
  WCall (CLoadFile user filename) (λ r, WRet (reported "LoadFile" r))).

End handlers.

(** The requests of the service, their results reduced to the content. *)
Inductive rpc :=
  | RpcInitUser (username password : string)
  | RpcStoreFile (username password filename : string) (content : slice)
  | RpcAppendToFile (username password filename : string) (content : slice)
  | RpcLoadFile (username password filename : string).

Definition noContent (p : wprog (result unit)) : wprog (result slice) :=
  wbind p (λ _, WRet (Ok None)).

Definition serveRpc (ctxErr : option error) (q : rpc) : wprog (result slice) :=
  match q with
  | RpcInitUser username password => noContent (InitUser ctxErr username password)
  | RpcStoreFile username password f c => noContent (StoreFile ctxErr username password f c)
  | RpcAppendToFile username password f c => noContent (AppendToFile ctxErr username password f c)
  | RpcLoadFile username password f => LoadFile ctxErr username password f
  end.

(** ** A handler by itself *)

(** Run against an environment [h] of the client; [slot] is the answer of the
    limiter. The calls made are kept with their results. *)
Fixpoint wrun {S A} (h : Effects.handler S) (ctx : Fencing.Ctx) (slot : option error) (p : wprog A)
    (st : S) : S * list {c : ccall & result (cresp c)} * A :=
  match p with
  | WRet a => (st, [], a)
  | WAcquire k => wrun h ctx slot (k slot) st
  | WRelease k => wrun h ctx slot k st
  | WCall c k =>
      let '(st1, r) := run h (client_op ctx c) st in
      let '(st2, cs, a) := wrun h ctx slot (k r) st1 in
      (st2, existT c r :: cs, a)
  end.

Lemma wrun_bind {S A B} (h : Effects.handler S) ctx slot (p : wprog (result A))
    (f : A → wprog (result B)) st :
  wrun h ctx slot (wbind p f) st =
    let '(st1, cs, r) := wrun h ctx slot p st in
    match r with
    | Ok a => let '(st2, cs', r') := wrun h ctx slot (f a) st1 in (st2, (cs ++ cs')%list, r')
    | Err e => (st1, cs, Err e)
    end.
Proof.
  revert st. induction p as [[a|e]|k IH|k IH|c k IH]; intros st; cbn; try done.
  - by destruct (wrun h ctx slot (f a) st) as [[? ?] ?].
  - by destruct (run h (client_op ctx c) st) as [st1 r]; rewrite IH;
      destruct (wrun h ctx slot (k r) st1) as [[st2 cs] [a|e]]; [|done];
      destruct (wrun h ctx slot (f a) st2) as [[? ?] ?].
Qed.

(** ** Admission *)

(** The semaphore channel: its capacity and how many slots are taken. *)
Record authLimiter := mkLimiter { lim_cap : nat; lim_sem : nat }.

Definition newAuthLimiter (n : Z) : authLimiter :=
  let n := if decide (n ≤ 0)%Z then 1%Z else n in mkLimiter (Z.to_nat n) 0.

(** [a.sem <- struct{}{}]: [None] while the channel is full. *)
Definition acquire_slot (a : authLimiter) : option authLimiter :=
  if decide (lim_sem a < lim_cap a)%nat then Some (mkLimiter (lim_cap a) (S (lim_sem a))) else None.

(** [<-a.sem]: [None] while the channel is empty. *)
Definition release_slot (a : authLimiter) : option authLimiter :=
  match lim_sem a with O => None | S n => Some (mkLimiter (lim_cap a) n) end.

(** The sections the limiter is for. *)
Definition expensive (c : ccall) : bool :=
  match c with CInitUser _ _ | CGetUser _ _ => true | _ => false end.

(** One process: the limiter and the handlers that have started. *)
Record service := mkService { sv_limiter : authLimiter; sv_handlers : gmap nat (wprog (result slice)) }.

(** What the goroutines of the handlers do; a call of the client may return
    anything. *)
Inductive work : service → service → Prop :=
  | wk_acquire i k a s :
      sv_handlers s !! i = Some (WAcquire k) → acquire_slot (sv_limiter s) = Some a →
      work s (mkService a (<[i := k None]> (sv_handlers s)))
  | wk_release i k a s :
      sv_handlers s !! i = Some (WRelease k) → release_slot (sv_limiter s) = Some a →
      work s (mkService a (<[i := k]> (sv_handlers s)))
  | wk_call i c k r s :
      sv_handlers s !! i = Some (WCall c k) →
      work s (mkService (sv_limiter s) (<[i := k r]> (sv_handlers s))).

Inductive service_step : service → service → Prop :=
  | st_arrive i ctxErr q s :
      sv_handlers s !! i = None →
      service_step s (mkService (sv_limiter s) (<[i := serveRpc ctxErr q]> (sv_handlers s)))
  | st_cancel i k e s :
      sv_handlers s !! i = Some (WAcquire k) →
      service_step s (mkService (sv_limiter s) (<[i := k (Some e)]> (sv_handlers s)))
  | st_work s s' : work s s' → service_step s s'.

Definition started (n : Z) : service := mkService (newAuthLimiter n) ∅.

(** A handler that holds a slot exactly if [held], uses it for every expensive
    call and gives it back before it returns. *)
Fixpoint balanced {A} (held : bool) (p : wprog A) : Prop :=
  match p with
  | WRet _ => held = false
  | WAcquire k => held = false ∧ balanced true (k None) ∧ ∀ e, balanced false (k (Some e))
  | WRelease k => held = true ∧ balanced false k
  | WCall c k => (expensive c = true → held = true) ∧ ∀ r, balanced held (k r)
  end.

Lemma balanced_bind {A B} held (p : wprog (result A)) (f : A → wprog (result B)) :
  balanced held p → (∀ a, balanced false (f a)) → balanced held (wbind p f).
Proof.
  intros Hp Hf. revert held Hp. induction p as [[a|e]|k IH|k IH|c k IH]; intros held Hp; cbn in *.
  - subst. apply Hf.
  - done.
  - destruct Hp as (-> & Hn & He). auto.
  - destruct Hp as [-> Hk]. auto.
  - destruct Hp as [Hc Hk]. auto.
Qed.

Lemma authenticate_balanced ctxErr username password :
  balanced false (authenticate ctxErr username password).
Proof. unfold authenticate. by repeat case_decide. Qed.

Lemma serveRpc_balanced ctxErr q : balanced false (serveRpc ctxErr q).
Proof.
  destruct q; cbn [serveRpc]; unfold noContent; try (apply balanced_bind; [|done]);
    [unfold InitUser; by repeat case_decide|..];
    apply balanced_bind; try apply authenticate_balanced; intros u; by case_decide.
Qed.

(** The slots taken are those of the handlers in [held]. *)
Record admitted (cap : nat) (held : gset nat) (s : service) : Prop := {
  ad_cap : lim_cap (sv_limiter s) = cap;
  ad_sem : lim_sem (sv_limiter s) = size held;
  ad_le : (size held ≤ cap)%nat;
  ad_held i : i ∈ held → is_Some (sv_handlers s !! i);
  ad_balanced i p : sv_handlers s !! i = Some p → balanced (bool_decide (i ∈ held)) p }.

(** Handler [i] moves to [p] and the others keep what they hold. *)
Lemma admitted_move cap held held' s a i p :
  admitted cap held s → lim_cap a = cap → lim_sem a = size held' → (size held' ≤ cap)%nat →
  (∀ j, j ≠ i → j ∈ held' ↔ j ∈ held) → balanced (bool_decide (i ∈ held')) p →
  admitted cap held' (mkService a (<[i := p]> (sv_handlers s))).
Proof.
  intros [_ _ _ Hh Hb] Hc Hs Hle Heq Hp. split; cbn; try done.
  - intros j Hj. destruct (decide (j = i)) as [->|Hne]; [rewrite lookup_insert_eq; eauto|].
    rewrite lookup_insert_ne by done. apply Hh, Heq; done.
  - intros j q [[<- <-]|[Hne Hj]]%lookup_insert_Some; [done|].
    rewrite (bool_decide_ext _ (j ∈ held)) by (by apply Heq). by apply Hb.
Qed.

Lemma admitted_step cap held s s' :
  admitted cap held s → service_step s s' → ∃ held', admitted cap held' s'.
Proof.
  intros Hs Hstep. pose proof Hs as [Hc Hn Hle Hh Hb].
  destruct Hstep as [i ctxErr q s Hi|i k e s Hi|s s' Hw].
  - exists held. eapply admitted_move; try done. rewrite bool_decide_false; [apply serveRpc_balanced|].
    intros Hin%Hh. destruct Hin. congruence.
  - exists held. eapply admitted_move; try done.
    destruct (Hb _ _ Hi) as (Hf & _ & He). rewrite Hf. apply He.
  - destruct Hw as [i k a s Hi Ha|i k a s Hi Ha|i c k r s Hi].
    + destruct (Hb _ _ Hi) as (Hf%bool_decide_eq_false & Hk & _).
      unfold acquire_slot in Ha. case_decide; [|done]. injection Ha as <-.
      exists ({[i]} ∪ held).
      assert (size ({[i]} ∪ held) = S (size held)) as Hsz
        by (rewrite size_union, size_singleton by set_solver; done).
      eapply admitted_move; try done; cbn; [lia|lia|set_solver|].
      by rewrite bool_decide_true by set_solver.
    + destruct (Hb _ _ Hi) as [Ht%bool_decide_eq_true Hk]. unfold release_slot in Ha.
      destruct (lim_sem (sv_limiter s)) as [|n] eqn:En; [done|]. injection Ha as <-.
      exists (held ∖ {[i]}).
      assert (size (held ∖ {[i]}) = n) as Hsz.
      { rewrite size_difference by set_solver. rewrite size_singleton. lia. }
      eapply admitted_move; try done; cbn; [lia|set_solver|].
      by rewrite bool_decide_false by set_solver.
    + exists held. eapply admitted_move; try done. by apply (Hb _ _ Hi).
Qed.

Lemma admitted_started n : admitted (Z.to_nat (Z.max 1 n)) ∅ (started n).
Proof.
  split; cbn; try done.
  - by destruct (decide (n ≤ 0)%Z); f_equal; lia.
  - rewrite size_empty. lia.
Qed.

Lemma admitted_reachable n s :
  rtc service_step (started n) s → ∃ held, admitted (Z.to_nat (Z.max 1 n)) held s.
Proof.
  intros Hr. assert (∃ held, admitted (Z.to_nat (Z.max 1 n)) held (started n)) as Hst
    by (eexists; apply admitted_started).
  induction Hr as [|s1 s2 s3 Hstep _ IH]; [done|]. apply IH.
  destruct Hst as [held Hs]. by eapply admitted_step.
Qed.

(** The handlers inside an expensive call. *)
Definition deriving (p : wprog (result slice)) : Prop :=
  match p with WCall c _ => expensive c = true | _ => False end.
#[global] Instance deriving_dec p : Decision (deriving p).
Proof. destruct p; apply _. Defined.

Definition returned (p : wprog (result slice)) : Prop :=
  match p with WRet _ => True | _ => False end.

(** C31. Admission: in every interleaving of any number of requests, cancelled
    or not, at most [max 1 n] of them are inside [GetUserContext] or
    [InitUserContext]; a release never blocks; as long as some handler has not
    returned, one can go on without a cancellation; and when all have
    returned every slot is free. *)
Theorem admission_bounded n s :
  rtc service_step (started n) s →
  (size (filter (λ x, deriving x.2) (sv_handlers s)) ≤ Z.to_nat (Z.max 1 n))%nat ∧
  (∀ i k, sv_handlers s !! i = Some (WRelease k) → is_Some (release_slot (sv_limiter s))) ∧
  ((∃ i p, sv_handlers s !! i = Some p ∧ ¬ returned p) → ∃ s', work s s') ∧
  ((∀ i p, sv_handlers s !! i = Some p → returned p) → lim_sem (sv_limiter s) = 0%nat).
Proof.
  intros [held [Hc Hn Hle Hh Hb]]%admitted_reachable.
  assert (∀ i k, sv_handlers s !! i = Some (WRelease k) → is_Some (release_slot (sv_limiter s)))
    as Hrel.
  { intros i k Hi. destruct (Hb _ _ Hi) as [Hin%bool_decide_eq_true _].
    unfold release_slot. rewrite Hn. destruct (size held) eqn:E; [|eauto].
    apply size_empty_inv in E. set_solver. }
  split_and!.
  - etrans; [|exact Hle]. rewrite <-size_dom. apply subseteq_size. intros i.
    rewrite elem_of_dom. intros [p [Hi Hd]%map_lookup_filter_Some].
    destruct p as [| | |c k]; try done. destruct (Hb _ _ Hi) as [Hx _].
    exact (bool_decide_eq_true_1 _ (Hx Hd)).
  - done.
  - intros (i & p & Hi & Hp).
    assert (∀ j q, sv_handlers s !! j = Some q → (∀ k, q ≠ WAcquire k) → ¬ returned q →
      ∃ s', work s s') as Hgo.
    { intros j q Hj Hq Hr. destruct q as [a|k|k|c k]; [by destruct Hr|by destruct (Hq k)| |].
      - destruct (Hrel _ _ Hj) as [a Ha]. eexists. by eapply wk_release.
      - destruct (Hb _ _ Hj) as [_ Hk]. eexists.
        eapply (wk_call j c k (Err ECanceled)). done. }
    destruct p as [a|k|k|c k]; [by destruct Hp| |by eapply Hgo|by eapply Hgo].
    destruct (decide (lim_sem (sv_limiter s) < lim_cap (sv_limiter s))%nat) as [Hlt|Hge].
    + eexists. eapply wk_acquire; [done|]. unfold acquire_slot. by rewrite decide_True.
    + destruct (decide (held = ∅)) as [->|[j Hj]%set_choose_L].
      { rewrite size_empty in Hn. rewrite Hn, Hc in Hge. lia. }
      destruct (Hh j Hj) as [q Hq]. apply (Hgo j q Hq).
      * intros k' ->. destruct (Hb _ _ Hq) as [Hf%bool_decide_eq_false _]. done.
      * intros Hr. destruct q as [a| | |]; try done. pose proof (Hb _ _ Hq) as Hf.
        by apply bool_decide_eq_false in Hf.
  - intros Hall. rewrite Hn. apply size_empty_iff. intros j. split; [|set_solver].
    intros Hj. destruct (Hh j Hj) as [q Hq]. pose proof (Hall _ _ Hq) as Hr.
    destruct q as [a| | |]; try done. pose proof (Hb _ _ Hq) as Hf.
    by apply bool_decide_eq_false in Hf.
Qed.


(** ** Who is served *)

Definition credentials (q : rpc) : string * string :=
  match q with
  | RpcInitUser n p | RpcStoreFile n p _ _ | RpcAppendToFile n p _ _ | RpcLoadFile n p _ => (n, p)
  end.

(** The operation a file request asks for, by an authenticated user. *)
Definition file_call (q : rpc) (u : User) : option ccall :=
  match q with
  | RpcInitUser _ _ => None
  | RpcStoreFile _ _ f c => Some (CStoreFile u f c)
  | RpcAppendToFile _ _ f c => Some (CAppendToFile u f c)
  | RpcLoadFile _ _ f => Some (CLoadFile u f)
  end.

Definition file_name (q : rpc) : string :=
  match q with
  | RpcInitUser _ _ => ""
  | RpcStoreFile _ _ f _ | RpcAppendToFile _ _ f _ | RpcLoadFile _ _ f => f
  end.

(** [ctx.Err()] is nil or one of the two sentinels. *)
Definition ctx_error (e : option error) : Prop :=
  e = None ∨ e = Some ECanceled ∨ e = Some EDeadlineExceeded.

(** The codes the service answers with. *)
Definition is_status (e : error) : Prop :=
  ∃ code msg, e = EStatus code msg ∧
    code ∈ ["InvalidArgument"; "Canceled"; "DeadlineExceeded"; "FailedPrecondition"].

Lemma translateErr_status ctxErr op e : ctx_error ctxErr → is_status (translateErr ctxErr op e).
Proof.
  intros Hc. unfold translateErr, is_status, status.
  destruct (errors_Is e ECanceled); [eexists _, _; split; [done|set_solver]|].
  destruct (errors_Is e EDeadlineExceeded); [eexists _, _; split; [done|set_solver]|].
  destruct Hc as [->|[->| ->]]; eexists _, _; (split; [done|set_solver]).
Qed.

Lemma invalid_status msg : is_status (status "InvalidArgument" msg).
Proof. eexists _, _. split; [done|set_solver]. Qed.

(** What authentication does to the environment: at most the one
    [GetUserContext] of the request's credentials. *)
Lemma authenticate_run {S} (h : Effects.handler S) ctx slot ctxErr n p st :
  ctx_error ctxErr →
  (∃ e, wrun h ctx slot (authenticate ctxErr n p) st = (st, [], Err e) ∧ is_status e) ∨
  (n ≠ "" ∧ p ≠ "" ∧ slot = None ∧ ∃ cs,
    wrun h ctx slot (authenticate ctxErr n p) st =
      ((run h (GetUserContext ctx n p) st).1, cs,
       reported ctxErr "GetUser" (run h (GetUserContext ctx n p) st).2)).
Proof.
  intros Hc. unfold authenticate. destruct (decide (n = "")) as [Hn|Hn].
  { left. eexists. split; [done|]. apply invalid_status. }
  destruct (decide (p = "")) as [Hp|Hp].
  { left. eexists. split; [done|]. apply invalid_status. }
  destruct slot as [e|].
  - left. eexists. split; [done|]. by apply translateErr_status.
  - right. split_and!; try done. cbn [wrun].
    destruct (run h (client_op ctx (CGetUser n p)) st) as [st1 r] eqn:E.
    change (run h (GetUserContext ctx n p) st = (st1, r)) in E. rewrite E. by eexists.
Qed.

(** [GetUserContext] only reads. *)
Lemma getUser_world ctx n p w : (run local (GetUserContext ctx n p) w).1 = w.
Proof.
  unfold GetUserContext. cbn. by repeat (case_match; cbn).
Qed.

(** Nothing happens to a request that does not authenticate: if
    [GetUserContext] rejects the credentials of a file request, or the limiter
    gives it no slot, the handler returns a gRPC status error and the store,
    the locks and the transaction counter are as they were. *)
Theorem unauthenticated_no_effect w ctx slot ctxErr q w' cs r :
  ctx_error ctxErr → (∃ u c, file_call q u = Some c) →
  (slot ≠ None ∨ ∀ u, (run local (GetUserContext ctx (credentials q).1 (credentials q).2) w).2 ≠ Ok u) →
  wrun local ctx slot (serveRpc ctxErr q) w = (w', cs, r) →
  w' = w ∧ ∃ e, r = Err e ∧ is_status e.
Proof.
  intros Hc (u0 & c0 & Hfile) Hno Hrun.
  assert (∀ A (k : User → wprog (result A)) n p, credentials q = (n, p) →
    ∃ cs1 e, wrun local ctx slot (wbind (authenticate ctxErr n p) k) w = (w, cs1, Err e) ∧
      is_status e) as Hauth.
  { intros A k n p Hq. rewrite wrun_bind.
    destruct (authenticate_run local ctx slot ctxErr n p w Hc)
      as [(e & -> & He)|(_ & _ & Hslot & cs1 & ->)]; [by eexists _, e|].
    destruct Hno as [?|Hno]; [done|]. rewrite Hq in Hno. rewrite getUser_world.
    destruct (run local (GetUserContext ctx n p) w).2 as [u|e] eqn:E; [by destruct (Hno u)|].
    cbn. eexists _, _. split; [done|]. by apply translateErr_status. }
  destruct q as [|n p f c|n p f c|n p f]; [done|..]; cbn [serveRpc] in Hrun; unfold noContent in Hrun.
  - rewrite wrun_bind in Hrun. unfold StoreFile in Hrun.
    edestruct Hauth as (cs1 & e & Heq & He); [done|]. rewrite Heq in Hrun. simplify_eq. eauto.
  - rewrite wrun_bind in Hrun. unfold AppendToFile in Hrun.
    edestruct Hauth as (cs1 & e & Heq & He); [done|]. rewrite Heq in Hrun. simplify_eq. eauto.
  - unfold LoadFile in Hrun.
    edestruct Hauth as (cs1 & e & Heq & He); [done|]. rewrite Heq in Hrun. simplify_eq. eauto.
Qed.


(** ** Start-up and readiness *)

Definition DefaultReadinessInterval : Z := 5 * second_ns.
Definition DefaultShutdownTimeout : Z := 25 * second_ns.
Definition DefaultAuthConcurrency : Z := 2.

Record Config := mkConfig {
  ListenAddr : string;
  ShutdownTimeout : Z;
  ReadinessInterval : Z;
  AuthConcurrency : Z;
  Mongo : MongoStore.Config;
  Coordinator : Remote.Config }.

(** The values of the flags after [fs.Parse]. *)
Record flags := mkFlags {
  fl_addr : string;
  fl_shutdownTimeout : Z;
  fl_readinessInterval : Z;
  fl_authConcurrency : Z }.

Definition parseConfig (ParseDuration : string → result Z) (Getenv : string → string)
    (parsed : result flags) : result Config :=
  fl ← parsed;
  _ ← fail_if (bool_decide (fl_shutdownTimeout fl ≤ 0)%Z) "worker: -shutdown-timeout must be positive";
  _ ← fail_if (bool_decide (fl_readinessInterval fl ≤ 0)%Z) "worker: -readiness-interval must be positive";
  _ ← fail_if (bool_decide (fl_authConcurrency fl ≤ 0)%Z) "worker: -auth-concurrency must be positive";
  mongo ← match MongoStore.ConfigFromEnv ParseDuration Getenv with
    | Err e => Err (EWrap "worker: mongo configuration" e)
    | Ok None => Err (EMsg ("worker: SAFER_MONGO_URI is required; " +:+
        "a worker with no durable storage cannot run"))
    | Ok (Some c) => Ok c
    end;
  coord ← match Remote.ConfigFromEnv ParseDuration Getenv with
    | Err e => Err (EWrap "worker: coordinator configuration" e)
    | Ok None => Err (EMsg ("worker: SAFER_COORDINATOR_ADDR is required; a worker with no remote coordinator " +:+
        "would fall back to process-local locking, which coordinates with no other replica"))
    | Ok (Some c) => Ok c
    end;
  Ok (mkConfig (fl_addr fl) (fl_shutdownTimeout fl) (fl_readinessInterval fl)
    (fl_authConcurrency fl) mongo coord).

(** The two services of the health server. *)
Record health := mkHealth { readiness : bool; liveness : bool }.

(** One round of [check]: [SERVING] exactly if both dependencies answer. *)
Definition check (mongoErr coordErr : option error) (hs : health) : health :=
  mkHealth (bool_decide (mongoErr = None) && bool_decide (coordErr = None)) (liveness hs).

(** The process: its health server, whether the readiness loop runs and
    whether [shutdown] has begun. *)
Record process := mkProcess { pr_health : health; pr_loop : bool; pr_draining : bool }.

(** [run]: liveness is set once, the loop starts with a check; a signal marks
    the worker unready and drains it, and the deferred [stopReadiness] runs
    when [shutdown] has returned, or when [Serve] has failed without one. *)
Inductive health_step : process → process → Prop :=
  | hs_check mongoErr coordErr p : pr_loop p = true →
      health_step p (mkProcess (check mongoErr coordErr (pr_health p)) true (pr_draining p))
  | hs_shutdown p : pr_loop p = true →
      health_step p (mkProcess (mkHealth false (liveness (pr_health p))) true true)
  | hs_stop p : pr_draining p = true →
      health_step p (mkProcess (pr_health p) false true)
  | hs_serve_failed p : pr_draining p = false →
      health_step p (mkProcess (pr_health p) false false).

Definition booted : process := mkProcess (mkHealth false true) true false.

(** C40. Liveness never fails while the process runs, and a worker that is ready
    has both dependencies. But readiness does not stay off while the worker
    drains: the readiness loop runs until [shutdown] has returned, and its
    next successful check marks the draining worker ready again. *)
Theorem readiness_while_draining :
  (∀ p, rtc health_step booted p → liveness (pr_health p) = true) ∧
  (∀ mongoErr coordErr hs, readiness (check mongoErr coordErr hs) = true ↔
     mongoErr = None ∧ coordErr = None) ∧
  (∃ p, rtc health_step booted p ∧ pr_draining p = true ∧ readiness (pr_health p) = true).
Proof.
  split_and!.
  - assert (liveness (pr_health booted) = true) as Hb by done. intros p Hr. revert Hb.
    induction Hr as [|p1 p2 p3 Hs _ IH]; [done|]. intros Hp. apply IH. by destruct Hs.
  - intros. cbn. rewrite andb_true_iff, !bool_decide_eq_true. done.
  - exists (mkProcess (mkHealth true true) true true). split; [|done].
    eapply rtc_l; [by apply hs_shutdown|]. eapply rtc_l; [|apply rtc_refl].
    by apply (hs_check None None).
Qed.

(** The instance id a worker attaches to its answers; [hostname] is
    [os.Hostname]. *)
Definition instanceID (hostname : result string) (pid : N) : string :=
  let host := match hostname with
    | Ok h => if decide (h = "") then "unknown-host" else h
    | Err _ => "unknown-host"
    end in
  host +:+ "-" +:+ pretty pid.

Context `{!UuidLaws} `{!UserlibLaws}.

(** A served request is the client's operation on the user's file. *)
Lemma worker_serves w ctx ctxErr n p f x u content version :
  quiet w → live ctx → fresh w 1 → (version < max_uint64)%N → slen x ≠ 0%nat →
  n ≠ "" → p ≠ "" → f ≠ "" →
  run local (GetUserContext ctx n p) w = (w, Ok u) →
  has_file (store w) u f content version →
  (∃ w' cs, wrun local ctx None (serveRpc ctxErr (RpcAppendToFile n p f x)) w = (w', cs, Ok None) ∧
     has_file (store w') u f (content +:+ bytes_of x) (version + 1)) ∧
  (∃ w' cs, wrun local ctx None (serveRpc ctxErr (RpcLoadFile n p f)) w = (w', cs, Ok (Some content)) ∧
     store w' = store w).
Proof.
  intros Hq Hl Hfr Hv Hx Hn Hp Hf Hauth Hfile.
  assert (∃ cs, wrun local ctx None (authenticate ctxErr n p) w = (w, cs, Ok u)) as [cs1 Ha].
  { unfold authenticate. rewrite !decide_False by done. cbn [wrun].
    change (run local (client_op ctx (CGetUser n p)) w = (w, Ok u)) in Hauth. rewrite Hauth. by eexists. }
  split.
  - destruct (append_appends w u f ctx x content version) as (w' & Hrun & Hf' & _); try done.
    cbn [serveRpc]. unfold noContent, AppendToFile. rewrite !wrun_bind, Ha.
    rewrite decide_False by done. cbn [wrun].
    change (run local (client_op ctx (CAppendToFile u f x)) w = (w', Ok ())) in Hrun.
    rewrite Hrun. cbn. by eexists _, _.
  - destruct (load_reads w u f ctx content version) as (w' & Hrun & Hs & _); try done.
    cbn [serveRpc]. unfold LoadFile. rewrite wrun_bind, Ha. rewrite decide_False by done. cbn [wrun].
    change (run local (client_op ctx (CLoadFile u f)) w = (w', Ok (Some content))) in Hrun.
    rewrite Hrun. cbn. by eexists _, _.
Qed.


End worker.

Arguments WRet {_ A} _.
Arguments WAcquire {_ A} _.
Arguments WRelease {_ A} _.
Arguments WCall {_ A} _ _.
End Worker.
