(* ===== verification/Startup.v ===== *)
(** * Starting the processes (src/cmd/coordinator, src/cmd/worker)

    The coordinator's flags and its decision about fencing (config.go,
    [openFenceStore] of main.go), and what a process that started is known to
    have. What the process then does is in file Processes. *)

From S2P Require Import Prelude Json Libs LockManager Fencing SaferTypes Effects Client.
From S2P Require Import LocalEnv FenceStore Coordinator MongoStore RemoteGuard Worker.
Open Scope string_scope.

Module CoordinatorMain.

Record Config := mkConfig {
  Address : string;
  LeaseDuration : Z;
  SweepInterval : Z;
  AllowUnfenced : bool }.

(** [parsed] are the values of the flags after [fs.Parse]. *)
Definition parseConfig (parsed : result Config) : result Config :=
  c ← parsed;
  _ ← fail_if (bool_decide (LeaseDuration c ≤ 0)%Z) "coordinator: -lease must be positive";
  _ ← fail_if (bool_decide (SweepInterval c ≤ 0)%Z) "coordinator: -sweep must be positive";
  Ok c.

Section fences.
Context (ParseDuration : string → result Z) (Getenv : string → string).
(** [mongofence.Open] of a database. *)
Context {Store : Type} (Open : string → string → Z → result Store).

(** [Ok None]: the coordinator serves without a fence store. *)
Definition openFenceStore (cfg : Config) : result (option Store) :=
  match MongoStore.ConfigFromEnv ParseDuration Getenv with
  | Err e => Err (EWrap "MongoDB configuration" e)
  | Ok None =>
      if AllowUnfenced cfg then Ok None
      else Err (EMsg ("SAFER_MONGO_URI is not set; a production coordinator refuses to start without a durable " +:+
        "fencing store (pass -allow-unfenced to override for local development or " +:+
        "lock-semantics-only testing -- this gives NO stale-writer protection)"))
  | Ok (Some mongoCfg) =>
      match Open (cfg_URI mongoCfg) (cfg_Database mongoCfg) (cfg_Timeout mongoCfg) with
      | Ok store => Ok (Some store)
      | Err e =>
          if AllowUnfenced cfg then Ok None else Err (EWrap "opening the fence store" e)
      end
  end.

End fences.
End CoordinatorMain.

Import CoordinatorMain.

(** What the environment's MongoDB configuration is once it is accepted. *)
Lemma mongo_config_wf ParseDuration Getenv c :
  MongoStore.ConfigFromEnv ParseDuration Getenv = Ok (Some c) →
  cfg_URI c ≠ "" ∧ cfg_Database c ≠ "" ∧ (0 < cfg_Timeout c)%Z ∧ (0 < cfg_TransactionTimeout c)%Z.
Proof.
  unfold MongoStore.ConfigFromEnv. destruct (decide _) as [|Hu]; [done|].
  destruct (envTimeout _ _) as [t|]; [|done]. cbn.
  destruct (envTransactionTimeout _ _) as [tt|]; [|done]. cbn. intros [= <-].
  unfold withDefaults, second_ns. cbn. split; [done|]. split_and!; case_decide; try done; lia.
Qed.

Lemma coordinator_config_wf ParseDuration Getenv c :
  Remote.ConfigFromEnv ParseDuration Getenv = Ok (Some c) →
  Remote.Address c ≠ "" ∧ (0 < Remote.Timeout c)%Z.
Proof.
  unfold Remote.ConfigFromEnv. destruct (decide _) as [|Ha]; [done|].
  destruct (decide _) as [|Hr]; [by intros [= <-]|].
  destruct (ParseDuration _) as [d|e]; [|done]. destruct (decide (d ≤ 0)%Z); [done|].
  intros [= <-]. cbn. split; [done|lia].
Qed.

(** C39. Processes fail closed: a worker that starts has positive intervals, at
    least one authentication slot, a MongoDB and a coordinator to talk to with
    positive deadlines; a coordinator that starts has positive lease and sweep
    intervals, and serves without durable fences only if it was told to. *)
Theorem startup_fails_closed ParseDuration Getenv {Store} (Open : string → string → Z → result Store)
    parsedWorker parsedCoordinator :
  (∀ c, Worker.parseConfig ParseDuration Getenv parsedWorker = Ok c →
     (0 < Worker.ShutdownTimeout c)%Z ∧ (0 < Worker.ReadinessInterval c)%Z ∧
     (1 ≤ Worker.AuthConcurrency c)%Z ∧
     Worker.lim_cap (Worker.newAuthLimiter (Worker.AuthConcurrency c)) =
       Z.to_nat (Worker.AuthConcurrency c) ∧
     cfg_URI (Worker.Mongo c) ≠ "" ∧ (0 < cfg_Timeout (Worker.Mongo c))%Z ∧
     (0 < cfg_TransactionTimeout (Worker.Mongo c))%Z ∧
     Remote.Address (Worker.Coordinator c) ≠ "" ∧ (0 < Remote.Timeout (Worker.Coordinator c))%Z) ∧
  (∀ c, parseConfig parsedCoordinator = Ok c →
     (0 < LeaseDuration c)%Z ∧ (0 < SweepInterval c)%Z ∧
     (AllowUnfenced c = false → openFenceStore ParseDuration Getenv Open c ≠ Ok None)).
Proof.
  split.
  - intros c. unfold Worker.parseConfig. destruct parsedWorker as [fl|e]; [|done]. cbn.
    destruct (bool_decide_reflect (Worker.fl_shutdownTimeout fl ≤ 0)%Z) as [|H1]; [done|].
    destruct (bool_decide_reflect (Worker.fl_readinessInterval fl ≤ 0)%Z) as [|H2]; [done|].
    destruct (bool_decide_reflect (Worker.fl_authConcurrency fl ≤ 0)%Z) as [|H3]; [done|]. cbn.
    destruct (MongoStore.ConfigFromEnv _ _) as [[mc|]|] eqn:Hm; [|done..]. cbn.
    destruct (Remote.ConfigFromEnv _ _) as [[cc|]|] eqn:Hc; [|done..]. cbn. intros [= <-]. cbn.
    apply mongo_config_wf in Hm. apply coordinator_config_wf in Hc.
    rewrite decide_False by lia. split_and!; try tauto; try lia.
  - intros c. unfold parseConfig. destruct parsedCoordinator as [c0|e]; [|done]. cbn.
    destruct (bool_decide_reflect (LeaseDuration c0 ≤ 0)%Z) as [|H1]; [done|].
    destruct (bool_decide_reflect (SweepInterval c0 ≤ 0)%Z) as [|H2]; [done|]. cbn. intros [= <-].
    split; [lia|]. split; [lia|]. intros Ha. unfold openFenceStore. rewrite Ha.
    by repeat case_match.
Qed.
