(* ===== verification/Loadgen.v ===== *)
(** * The load generator (src/cmd/loadgen: config.go, workload.go)

    Its configuration, the users it sets up, one operation of a caller, the
    concurrent run of all callers as a step relation, the oracle that compares
    the files with the counted appends, and the report. The worker service is
    an environment that may answer anything to any request, whatever it does
    with the files. Clocks and random choices are arguments of the steps; int64 counters are Z: they count steps of the run, and
    [remaining] ends at minus the number of callers. *)

From Stdlib Require Import Ascii SpecFloat.
From S2P Require Import Prelude Json JsonThms Libs.
Import Json JsonThms.
Open Scope string_scope.

Module Loadgen.

(** ** Configuration *)

Definition WorkloadIndependentWrites : string := "independent-writes".
Definition WorkloadSameFileWrites : string := "same-file-writes".
Definition WorkloadReads : string := "reads".
Definition WorkloadMixed : string := "mixed".

Definition valid (w : string) : bool :=
  bool_decide (w ∈ [WorkloadIndependentWrites; WorkloadSameFileWrites; WorkloadReads; WorkloadMixed]).

Record Config := mkConfig {
  Addresses : list string;
  Concurrency : Z;
  Count : Z;
  Duration : Z;
  cfg_Workload : string;
  Users : Z;
  ContentSize : Z }.

(** [strings.Split(s, ",")] *)
Fixpoint split_comma (s : string) : list string :=
  match s with
  | "" => [""]
  | String c r =>
      if decide (c = ","%char) then "" :: split_comma r
      else match split_comma r with
        | [] => [String c ""]
        | a :: l => String c a :: l
        end
  end.

(** The UTF-8 encodings of the runes [unicode.IsSpace] accepts. *)
Definition bytes (l : list N) : string := foldr (λ n s, String (ascii_of_N n) s) "" l.
Definition spaces : list string :=
  bytes <$> ([[9]; [10]; [11]; [12]; [13]; [32]; [194; 133]; [194; 160]; [225; 154; 128]] ++
    ((λ n, [226; 128; n]) <$> [128; 129; 130; 131; 132; 133; 134; 135; 136; 137; 138; 168; 169; 175]) ++
    [[226; 129; 159]; [227; 128; 128]])%list%N.

Fixpoint strip_prefix (p s : string) : option string :=
  match p, s with
  | "", _ => Some s
  | String a p, String b s => if decide (a = b) then strip_prefix p s else None
  | _, _ => None
  end.

Fixpoint first_strip (ps : list string) (s : string) : option string :=
  match ps with
  | [] => None
  | p :: ps => match strip_prefix p s with Some r => Some r | None => first_strip ps s end
  end.

Fixpoint trim_left (fuel : nat) (ps : list string) (s : string) : string :=
  match fuel with
  | O => s
  | S fuel => match first_strip ps s with Some r => trim_left fuel ps r | None => s end
  end.

Definition rev_string (s : string) : string := String.string_of_list_ascii (rev (String.list_ascii_of_string s)).

(** [strings.TrimSpace]: each round removes a byte at least. *)
Definition TrimSpace (s : string) : string :=
  let s := trim_left (String.length s) spaces s in
  rev_string (trim_left (String.length s) (rev_string <$> spaces) (rev_string s)).

(** The values of the flags after [fs.Parse]. *)
Record flags := mkFlags {
  fl_addr : string;
  fl_concurrency : Z;
  fl_count : Z;
  fl_duration : Z;
  fl_workload : string;
  fl_users : Z;
  fl_contentSize : Z }.

Definition parseConfig (parsed : result flags) : result Config :=
  fl ← parsed;
  _ ← fail_if (bool_decide (TrimSpace (fl_addr fl) = "")) "loadgen: -addr is required";
  let addresses := filter (λ a, a ≠ "") (TrimSpace <$> split_comma (fl_addr fl)) in
  _ ← fail_if (bool_decide (addresses = [])) "loadgen: -addr must contain at least one non-empty address";
  _ ← fail_if (bool_decide (fl_concurrency fl ≤ 0)%Z) "loadgen: -concurrency must be positive";
  _ ← fail_if (bool_decide (fl_count fl ≤ 0)%Z && bool_decide (fl_duration fl ≤ 0)%Z)
    "loadgen: either -count or -duration must be positive";
  _ ← fail_if (bool_decide (fl_contentSize fl ≤ 0)%Z) "loadgen: -content-size must be positive";
  let wl := fl_workload fl in
  _ ← fail_if (negb (valid wl)) ("loadgen: unknown -workload " +:+ strconv_Quote wl);
  let userCount :=
    if decide (wl = WorkloadSameFileWrites ∨ wl = WorkloadReads) then 1%Z
    else if decide (fl_users fl ≤ 0)%Z then fl_concurrency fl else fl_users fl in
  Ok (mkConfig addresses (fl_concurrency fl) (fl_count fl) (fl_duration fl) wl userCount
    (fl_contentSize fl)).

(** ** Users *)

Record user := mkUserRec { username : string; password : string; filename : string }.

(** [fmt.Sprintf("loadgen-%d-%d", time.Now().UnixNano(), i)]; [now] is the
    clock, past 1970. *)
Definition newUser (now : N) (i : nat) : user :=
  mkUserRec ("loadgen-" +:+ pretty now +:+ "-" +:+ pretty (N.of_nat i))
    ("password-" +:+ pretty (N.of_nat i)) "loadgen.dat".

Definition zeros (n : Z) : string := Nat.iter (Z.to_nat n) (String "000"%char) "".

Definition callerUser (users : list user) (callerIndex : nat) : option user :=
  users !! (callerIndex mod length users)%nat.

(** A replica's answer to an RPC: its instance header, if it sent one, and
    the content or error. *)
Record reply := mkReply { rp_header : option string; rp_answer : result string }.

Definition record (r : reply) (tally : gmap string Z) : gmap string Z :=
  match rp_header r with
  | Some id => <[id := (default 0 (tally !! id) + 1)%Z]> tally
  | None => tally
  end.

(** [setup]: the first error ends it. [initUser] and [storeFile] are the
    answers to the two RPCs for user [i], [now] the clock when it is made. *)
Fixpoint setup_from (now : nat → N) (initUser storeFile : nat → reply) (i n : nat)
    (tally : gmap string Z) : gmap string Z * result (list user) :=
  match n with
  | O => (tally, Ok [])
  | S n =>
      match rp_answer (initUser i) with
      | Err e => (tally, Err (EWrap ("setup: InitUser " +:+ pretty (N.of_nat i)) e))
      | Ok _ =>
          let tally := record (initUser i) tally in
          match rp_answer (storeFile i) with
          | Err e => (tally, Err (EWrap ("setup: StoreFile " +:+ pretty (N.of_nat i)) e))
          | Ok _ =>
              let tally := record (storeFile i) tally in
              let '(tally, rest) := setup_from now initUser storeFile (S i) n tally in
              (tally, us ← rest; Ok (newUser (now i) i :: us))
          end
      end
  end.

Definition setup (cfg : Config) (now : nat → N) (initUser storeFile : nat → reply)
    : gmap string Z * result (list user) :=
  setup_from now initUser storeFile 0 (Z.to_nat (Users cfg)) ∅.

(** ** One operation *)

Inductive request := AppendRpc (content : string) | LoadRpc.

(** The RPC [runOne] makes; [coin] is [rand.Intn(2) == 0]. *)
Definition runOne_request (cfg : Config) (coin : bool) (content : string) : option request :=
  let w := cfg_Workload cfg in
  if decide (w = WorkloadIndependentWrites ∨ w = WorkloadSameFileWrites) then Some (AppendRpc content)
  else if decide (w = WorkloadReads) then Some LoadRpc
  else if decide (w = WorkloadMixed) then Some (if coin then AppendRpc content else LoadRpc)
  else None.

(** What it makes of the answer. *)
Definition runOne_result (cfg : Config) (initialContent : string) (answer : result string)
    : result unit :=
  match answer with
  | Err e => Err e
  | Ok got =>
      if decide (cfg_Workload cfg = WorkloadReads ∧ got ≠ initialContent)
      then Err (EMsg ("read returned " +:+ pretty (N.of_nat (String.length got)) +:+
        " bytes not matching the file's only ever-written content (" +:+
        pretty (N.of_nat (String.length initialContent)) +:+ " bytes)"))
      else Ok ()
  end.

Definition unknown_workload (cfg : Config) : result unit :=
  Err (EMsg ("loadgen: unknown workload " +:+ strconv_Quote (cfg_Workload cfg))).

(** ** The oracle *)

Definition expected (cfg : Config) (successes : Z) : Z :=
  (ContentSize cfg + successes * ContentSize cfg)%Z.

Definition wrongLength (cfg : Config) (u : user) (successes : Z) (content : string) : string :=
  "user " +:+ username u +:+ ": file is " +:+ pretty (Z.of_nat (String.length content)) +:+
  " bytes, want " +:+ pretty (expected cfg successes) +:+ " (initial " +:+ pretty (ContentSize cfg) +:+
  " + " +:+ pretty successes +:+ " successful append(s) x " +:+ pretty (ContentSize cfg) +:+ " bytes)".

Definition notVerified (u : user) (e : error) : string :=
  "user " +:+ username u +:+ ": could not verify final content: " +:+ error_Error e.

(** [checkOracles]: the users with their counted appends and the answers to
    the verification reads, in order; [seen] are the names already checked.
    It returns the data failures and the verification errors. *)
Fixpoint checkOracles_from (cfg : Config) (seen : gset string)
    (users : list (user * Z * result string)) : list string * list string :=
  match users with
  | [] => ([], [])
  | (u, successes, answer) :: users =>
      if decide (username u ∈ seen) then checkOracles_from cfg seen users else
      let '(bad, unknown) := checkOracles_from cfg ({[username u]} ∪ seen) users in
      match answer with
      | Err e => (bad, notVerified u e :: unknown)
      | Ok content =>
          if decide (Z.of_nat (String.length content) = expected cfg successes) then (bad, unknown)
          else (wrongLength cfg u successes content :: bad, unknown)
      end
  end.

Definition checkOracles (cfg : Config) (users : list (user * Z * result string))
    : list string * list string :=
  if decide (cfg_Workload cfg = WorkloadReads) then ([], []) else checkOracles_from cfg ∅ users.

(** ** The run *)

(** Where a caller's loop is: at its top, inside [runOne], back from it with
    the latency it took, after counting the attempt, after counting its
    outcome, in its deferred merge, gone. *)
Inductive pc :=
  | Top
  | Calling
  | Ran (r : result unit) (opLatency : Z)
  | Attempted (r : result unit) (opLatency : Z)
  | Counted (r : result unit) (opLatency : Z)
  | Merging
  | Finished.

Record caller := mkCaller { cl_pc : pc; cl_local : list Z }.

Record counters := mkCounters {
  remaining : Z;
  attempted : Z;
  succeeded : Z;
  failed : Z;
  firstErrors : list string;
  latencies : list Z }.

(** A user's counter, and the answers its append requests got, in order,
    which the program does not keep. *)
Record account := mkAccount { successfulAppends : Z; ac_asked : list (result string) }.

(** [if err == nil { atomic.AddInt64(&u.successfulAppends, 1) }], after an
    append only. *)
Definition runOne_count (q : request) (answer : result string) (a : account) : account :=
  match q with
  | AppendRpc _ => mkAccount
      (match answer with Ok _ => successfulAppends a + 1 | Err _ => successfulAppends a end)
      (ac_asked a ++ [answer])%list
  | LoadRpc => a
  end.

Record run := mkRun {
  rn_counters : counters;
  rn_callers : list caller;
  rn_tally : gmap string Z;
  rn_accounts : list account }.

(** [recordErr] *)
Definition recordErr (e : error) (errs : list string) : list string :=
  if decide (length errs < 5)%nat then (errs ++ [error_Error e])%list else errs.

Section steps.
Context (cfg : Config).

Definition content : string := zeros (ContentSize cfg).

Definition set_pc (i : nat) (c : caller) (r : run) (k : counters) : run :=
  mkRun k (<[i := c]> (rn_callers r)) (rn_tally r) (rn_accounts r).

(** The top of the loop: [late] is [time.Now().After(deadline)]. *)
Definition take (late : bool) (k : counters) : counters * pc :=
  if decide (Duration cfg > 0)%Z then (k, if late then Merging else Calling)
  else
    let n := (remaining k - 1)%Z in
    (mkCounters n (attempted k) (succeeded k) (failed k) (firstErrors k) (latencies k),
     if decide (n < 0)%Z then Merging else Calling).

Definition count_attempt (k : counters) : counters :=
  mkCounters (remaining k) (attempted k + 1) (succeeded k) (failed k) (firstErrors k) (latencies k).

Definition count_outcome (r : result unit) (k : counters) : counters :=
  match r with
  | Ok _ => mkCounters (remaining k) (attempted k) (succeeded k + 1) (failed k) (firstErrors k) (latencies k)
  | Err _ => mkCounters (remaining k) (attempted k) (succeeded k) (failed k + 1) (firstErrors k) (latencies k)
  end.

Definition record_error (r : result unit) (k : counters) : counters :=
  match r with
  | Ok _ => k
  | Err e => mkCounters (remaining k) (attempted k) (succeeded k) (failed k)
      (recordErr e (firstErrors k)) (latencies k)
  end.

Definition keep_latency (r : result unit) (opLatency : Z) (local : list Z) : list Z :=
  match r with Ok _ => (local ++ [opLatency])%list | Err _ => local end.

Definition merge (local : list Z) (k : counters) : counters :=
  mkCounters (remaining k) (attempted k) (succeeded k) (failed k) (firstErrors k)
    (latencies k ++ local)%list.

(** In [s_call] the service gives any [answer]; [runOne] counts a successful
    append, records the replica and returns. *)
Inductive step : run → run → Prop :=
  | s_take i late local k p r :
      rn_callers r !! i = Some (mkCaller Top local) → take late (rn_counters r) = (k, p) →
      step r (set_pc i (mkCaller p local) r k)
  | s_call i local coin q u a header answer opLatency r :
      rn_callers r !! i = Some (mkCaller Calling local) →
      runOne_request cfg coin content = Some q →
      u = (i mod length (rn_accounts r))%nat → rn_accounts r !! u = Some a →
      step r (mkRun (rn_counters r)
        (<[i := mkCaller (Ran (runOne_result cfg content answer) opLatency) local]> (rn_callers r))
        (record (mkReply header answer) (rn_tally r))
        (<[u := runOne_count q answer a]> (rn_accounts r)))
  | s_unknown i local opLatency r :
      rn_callers r !! i = Some (mkCaller Calling local) →
      (∀ coin, runOne_request cfg coin content = None) →
      step r (set_pc i (mkCaller (Ran (unknown_workload cfg) opLatency) local) r (rn_counters r))
  | s_attempt i local o l r :
      rn_callers r !! i = Some (mkCaller (Ran o l) local) →
      step r (set_pc i (mkCaller (Attempted o l) local) r (count_attempt (rn_counters r)))
  | s_outcome i local o l r :
      rn_callers r !! i = Some (mkCaller (Attempted o l) local) →
      step r (set_pc i (mkCaller (Counted o l) local) r (count_outcome o (rn_counters r)))
  | s_record i local o l r :
      rn_callers r !! i = Some (mkCaller (Counted o l) local) →
      step r (set_pc i (mkCaller Top (keep_latency o l local)) r (record_error o (rn_counters r)))
  | s_merge i local r :
      rn_callers r !! i = Some (mkCaller Merging local) →
      step r (set_pc i (mkCaller Finished local) r (merge local (rn_counters r))).

(** After [setup]. *)
Definition launched (tally : gmap string Z) : run :=
  mkRun (mkCounters (if decide (Duration cfg ≤ 0)%Z then Count cfg else 0) 0 0 0 [] [])
    (replicate (Z.to_nat (Concurrency cfg)) (mkCaller Top [])) tally
    (replicate (Z.to_nat (Users cfg)) (mkAccount 0 [])).

(** [wg.Wait()] returns. *)
Definition joined (r : run) : Prop := Forall (λ c, cl_pc c = Finished) (rn_callers r).

End steps.

(** ** The report *)

(** float64 arithmetic, with its rounding. *)
Definition float64 (n : Z) : spec_float := binary_normalize 53 1024 n 0 false.
Definition mul64 : spec_float → spec_float → spec_float := SFmul 53 1024.
(** [int(x)] *)
Definition trunc64 (x : spec_float) : Z :=
  match x with
  | S754_finite s m e =>
      let n := match e with
        | Z.neg k => (Z.pos m / 2 ^ Z.pos k)%Z
        | _ => (Z.pos m * 2 ^ e)%Z
        end in
      if s then (- n)%Z else n
  | _ => 0%Z
  end.

(** The constants 0.50, 0.95 and 0.99. *)
Definition p50 : spec_float := S754_finite false 4503599627370496 (-53).
Definition p95 : spec_float := S754_finite false 8556839292003942 (-53).
Definition p99 : spec_float := S754_finite false 8917127262193582 (-53).

Definition percentile_index (n : nat) (p : spec_float) : nat :=
  let idx := trunc64 (mul64 p (float64 (Z.of_nat n - 1))) in
  let idx := if decide (idx < 0)%Z then 0%Z else idx in
  let idx := if decide (Z.of_nat n ≤ idx)%Z then (Z.of_nat n - 1)%Z else idx in
  Z.to_nat idx.

Definition percentile (sorted : list Z) (p : spec_float) : Z :=
  match sorted with
  | [] => 0%Z
  | _ => default 0%Z (sorted !! percentile_index (length sorted) p)
  end.

Record Report := mkReport {
  rep_Attempted : Z;
  rep_Succeeded : Z;
  rep_Failed : Z;
  LatencySamples : nat;
  P50Latency : Z;
  P95Latency : Z;
  P99Latency : Z;
  FirstErrors : list string;
  Replicas : gmap string Z;
  OracleFailures : list string;
  VerificationErrors : list string }.

(** [sorted] is [latencies] after [sort.Slice]. *)
Definition report (cfg : Config) (users : list (user * Z * result string)) (sorted : list Z) (r : run)
    : Report :=
  let k := rn_counters r in
  let '(oracleFailures, verificationErrors) := checkOracles cfg users in
  mkReport (attempted k) (succeeded k) (failed k) (length sorted)
    (percentile sorted p50) (percentile sorted p95) (percentile sorted p99)
    (firstErrors k) (rn_tally r) oracleFailures verificationErrors.

(** What makes the process exit with an error. *)
Definition report_failed (rep : Report) : bool :=
  bool_decide (0 < rep_Failed rep)%Z || bool_decide (0 < length (OracleFailures rep))%nat
  || bool_decide (0 < length (VerificationErrors rep))%nat.

End Loadgen.
