(* ===== verification/LoadgenThms.v ===== *)
(** * The load generator: its runs end, count every operation, and what the
    oracle reports

    The run relation of file Loadgen: the number of steps of a run with a fixed
    count is known in advance, the counters of the report add up when the last
    caller has finished, and what the oracle reports of appends that were
    lost, repeated, or applied while their answer was an error. *)

From Stdlib Require Import Sorted.
From S2P Require Import Prelude Json JsonThms Libs Loadgen.
Import Json JsonThms Loadgen.
Open Scope string_scope.

(** ** Configurations *)

Record config_wf (cfg : Config) : Prop := {
  cw_addresses : Addresses cfg ≠ [] ∧ Forall (λ a, a ≠ "") (Addresses cfg);
  cw_concurrency : (0 < Concurrency cfg)%Z;
  cw_work : (0 < Count cfg ∨ 0 < Duration cfg)%Z;
  cw_users : (0 < Users cfg)%Z;
  cw_size : (0 < ContentSize cfg)%Z;
  cw_workload : valid (cfg_Workload cfg) = true;
  cw_shared : cfg_Workload cfg = WorkloadSameFileWrites ∨ cfg_Workload cfg = WorkloadReads →
    Users cfg = 1%Z }.

Lemma parse_wf parsed cfg : parseConfig parsed = Ok cfg → config_wf cfg.
Proof.
  unfold parseConfig. destruct parsed as [fl|e]; [|done]. cbn.
  destruct (bool_decide (TrimSpace (fl_addr fl) = "")); [done|]. cbn.
  destruct (bool_decide_reflect (filter (λ a, a ≠ "") (TrimSpace <$> split_comma (fl_addr fl)) = []))
    as [|Ha]; [done|].
  destruct (bool_decide_reflect (fl_concurrency fl ≤ 0)%Z) as [|Hc]; [done|].
  destruct (bool_decide_reflect (fl_count fl ≤ 0)%Z) as [Hn|Hn];
    destruct (bool_decide_reflect (fl_duration fl ≤ 0)%Z) as [Hd|Hd]; cbn; [done|..];
    (destruct (bool_decide_reflect (fl_contentSize fl ≤ 0)%Z) as [|Hs]; [done|]);
    (destruct (valid (fl_workload fl)) eqn:Hv; [|done]); cbn; intros [= <-]; split; cbn; try done;
    try lia; try (split; [done|]; apply Forall_forall; intros x [Hx _]%list_elem_of_filter; done);
    try (case_decide; [lia|case_decide; lia]); intros Hw; by rewrite decide_True.
Qed.

(** A configuration [parseConfig] accepts is well formed: somewhere to
    dial, at least one caller, one user and one byte per write, a bound on the
    run, a known workload, and one shared user where the workload is about
    sharing; so every caller finds its user and every operation is a known
    request. *)
Theorem parseConfig_wf parsed cfg users i coin :
  parseConfig parsed = Ok cfg → Z.of_nat (length users) = Users cfg →
  config_wf cfg ∧ is_Some (callerUser users i) ∧
  is_Some (runOne_request cfg coin (zeros (ContentSize cfg))).
Proof.
  intros Hp%parse_wf Hu. split; [done|]. split.
  - apply lookup_lt_is_Some_2, Nat.mod_upper_bound. pose proof (cw_users _ Hp). lia.
  - pose proof (cw_workload _ Hp) as Hv. unfold valid in Hv. apply bool_decide_eq_true in Hv.
    unfold runOne_request. repeat (case_decide; [eauto|]). set_solver.
Qed.

(** ** Counting *)

Definition in_flight (c : caller) : nat :=
  match cl_pc c with Calling | Ran _ _ => 1 | _ => 0 end.
Definition undecided (c : caller) : nat :=
  match cl_pc c with Attempted _ _ => 1 | _ => 0 end.
Definition unmerged (c : caller) : nat :=
  match cl_pc c with
  | Counted (Ok _) _ => S (length (cl_local c))
  | Finished => 0
  | _ => length (cl_local c)
  end.
Definition unrecorded (c : caller) : nat :=
  match cl_pc c with Counted (Err _) _ => 1 | _ => 0 end.
Definition exited (c : caller) : nat :=
  match cl_pc c with Merging | Finished => 1 | _ => 0 end.

(** The steps a caller has left, apart from the operations not yet taken. *)
Definition steps_left (c : caller) : nat :=
  match cl_pc c with
  | Finished => 0
  | Merging => 1
  | Top => 2
  | Counted _ _ => 3
  | Attempted _ _ => 4
  | Ran _ _ => 5
  | Calling => 6
  end.

Definition total (f : caller → nat) (r : run) : Z := Z.of_nat (sum_list_with f (rn_callers r)).

Definition measure (r : run) : Z := (5 * Z.max (remaining (rn_counters r)) 0 + total steps_left r)%Z.

Record counted (cfg : Config) (r : run) : Prop := {
  ct_callers : Z.of_nat (length (rn_callers r)) = Concurrency cfg;
  ct_started : Count cfg = (Z.max (remaining (rn_counters r)) 0 + attempted (rn_counters r)
    + total in_flight r)%Z;
  ct_attempted : attempted (rn_counters r) =
    (succeeded (rn_counters r) + failed (rn_counters r) + total undecided r)%Z;
  ct_succeeded : succeeded (rn_counters r) =
    (Z.of_nat (length (latencies (rn_counters r))) + total unmerged r)%Z;
  ct_failed : Z.of_nat (length (firstErrors (rn_counters r))) =
    Z.min 5 (failed (rn_counters r) - total unrecorded r);
  ct_exited : total exited r = Z.max 0 (- remaining (rn_counters r)) }.

(** What changes when caller [i] moves. *)
Ltac caller_moves Hi c' :=
  pose proof (sum_insert in_flight _ _ _ c' Hi); pose proof (sum_insert undecided _ _ _ c' Hi);
  pose proof (sum_insert unmerged _ _ _ c' Hi); pose proof (sum_insert unrecorded _ _ _ c' Hi);
  pose proof (sum_insert exited _ _ _ c' Hi); pose proof (sum_insert steps_left _ _ _ c' Hi).

Ltac fields := cbn [rn_counters rn_callers remaining attempted succeeded failed firstErrors
  latencies cl_pc cl_local in_flight undecided unmerged unrecorded exited steps_left] in *.

Lemma counted_step cfg r r' :
  (Duration cfg ≤ 0)%Z → counted cfg r → step cfg r r' →
  counted cfg r' ∧ (measure r' + 1 = measure r)%Z.
Proof.
  intros Hd [Hl Hs Ha Hok Hf He] Hstep. unfold measure, total in *.
  destruct Hstep as [i late local k p r Hi Ht|i local coin q u a hd ans lat r Hi _ _ _
    |i local lat r Hi _|i local o l r Hi|i local o l r Hi|i local o l r Hi|i local r Hi].
  - caller_moves Hi (mkCaller p local). unfold take in Ht. rewrite decide_False in Ht by lia.
    injection Ht as <- <-. unfold set_pc.
    destruct (decide (remaining (rn_counters r) - 1 < 0)%Z); fields;
      (split; [split; unfold total; fields; rewrite ?length_insert; lia|lia]).
  - caller_moves Hi (mkCaller (Ran (runOne_result cfg (content cfg) ans) lat) local). fields.
    split; [split; unfold total; fields; rewrite ?length_insert; lia|lia].
  - caller_moves Hi (mkCaller (Ran (unknown_workload cfg) lat) local). unfold set_pc. fields.
    split; [split; unfold total; fields; rewrite ?length_insert; lia|lia].
  - caller_moves Hi (mkCaller (Attempted o l) local). unfold set_pc, count_attempt. fields.
    split; [split; unfold total; fields; rewrite ?length_insert; lia|lia].
  - caller_moves Hi (mkCaller (Counted o l) local). unfold set_pc, count_outcome.
    destruct o; fields; (split; [split; unfold total; fields; rewrite ?length_insert; lia|lia]).
  - caller_moves Hi (mkCaller Top (keep_latency o l local)).
    unfold set_pc, record_error, keep_latency, recordErr in *.
    destruct o; fields; rewrite ?length_app in *; cbn [length] in *.
    + split; [split; unfold total; fields; rewrite ?length_insert; lia|lia].
    + split; [split; unfold total; fields; rewrite ?length_insert; try lia|lia].
      case_decide; rewrite ?length_app; cbn [length]; lia.
  - caller_moves Hi (mkCaller Finished local). unfold set_pc, merge. fields.
    split; [split; unfold total; fields; rewrite ?length_insert, ?length_app; lia|lia].
Qed.

Lemma launched_counted cfg tally :
  (0 < Count cfg)%Z → (0 < Concurrency cfg)%Z → (Duration cfg ≤ 0)%Z →
  counted cfg (launched cfg tally) ∧
  measure (launched cfg tally) = (5 * Count cfg + 2 * Concurrency cfg)%Z.
Proof.
  intros Hn Hc Hd. unfold measure, launched, total. rewrite decide_True by done. fields.
  rewrite !sum_replicate. split; [split; unfold total; fields|];
    rewrite ?length_replicate, ?sum_replicate; cbn -[Z.max Z.min Z.mul Nat.mul]; lia.
Qed.

Lemma nsteps_counted cfg tally n r :
  (0 < Count cfg)%Z → (0 < Concurrency cfg)%Z → (Duration cfg ≤ 0)%Z →
  nsteps (step cfg) n (launched cfg tally) r →
  counted cfg r ∧ (Z.of_nat n + measure r = 5 * Count cfg + 2 * Concurrency cfg)%Z.
Proof.
  intros Hn Hc Hd Hsteps. destruct (launched_counted cfg tally Hn Hc Hd) as [H0 Hm].
  rewrite <-Hm. clear Hm. induction Hsteps as [r|n r1 r2 r3 Hstep _ IH]; [split; [done|lia]|].
  destruct (counted_step _ _ _ Hd H0 Hstep) as [H1 Hm]. destruct (IH H1) as [? ?]. split; [done|lia].
Qed.

(** A caller that has not finished can go on. *)
Lemma caller_steps cfg r i c :
  rn_accounts r ≠ [] → rn_callers r !! i = Some c → cl_pc c ≠ Finished → ∃ r', step cfg r r'.
Proof.
  intros Ha Hi Hc. destruct c as [[| |o l|o l|o l| |] local]; cbn in Hc; [| | | | | |done].
  - destruct (take cfg true (rn_counters r)) as [k p] eqn:E. eexists. by eapply s_take.
  - destruct (runOne_request cfg true (content cfg)) as [q|] eqn:Hq.
    + destruct (lookup_lt_is_Some_2 (rn_accounts r) (i mod length (rn_accounts r))) as [a Hla].
      { apply Nat.mod_upper_bound. by destruct (rn_accounts r). }
      eexists. by eapply (s_call cfg i local true q _ a None (Err ECanceled) 0).
    + eexists. eapply (s_unknown cfg i local 0); [done|].
      intros coin. unfold runOne_request in *. by repeat case_decide.
  - eexists. by eapply s_attempt.
  - eexists. by eapply s_outcome.
  - eexists. by eapply s_record.
  - eexists. by eapply s_merge.
Qed.

Lemma accounts_length cfg r r' : step cfg r r' → length (rn_accounts r') = length (rn_accounts r).
Proof. destruct 1; cbn [rn_accounts set_pc]; rewrite ?length_insert; done. Qed.

Lemma nsteps_accounts cfg n tally r :
  nsteps (step cfg) n (launched cfg tally) r → length (rn_accounts r) = Z.to_nat (Users cfg).
Proof.
  intros Hs. assert (length (rn_accounts (launched cfg tally)) = Z.to_nat (Users cfg)) as H0
    by apply length_replicate.
  rewrite <-H0. clear H0. induction Hs as [|n r1 r2 r3 Hstep _ IH]; [done|].
  by rewrite IH, (accounts_length _ _ _ Hstep).
Qed.

(** C30. A run with a fixed count ends, and its report adds up: however the
    callers are interleaved and whatever the service answers, no caller is
    ever stuck, every run makes exactly [5 * Count + 2 * Concurrency] steps
    until the last caller has finished, and then exactly [Count] operations
    were attempted, each of them succeeded or failed, every success has its
    latency sample, and the first five errors were kept. *)
Theorem run_terminates parsed cfg tally n r :
  parseConfig parsed = Ok cfg → (Duration cfg ≤ 0)%Z →
  nsteps (step cfg) n (launched cfg tally) r →
  (Z.of_nat n ≤ 5 * Count cfg + 2 * Concurrency cfg)%Z ∧
  (¬ joined r → ∃ r', step cfg r r') ∧
  (joined r → let k := rn_counters r in
     Z.of_nat n = (5 * Count cfg + 2 * Concurrency cfg)%Z ∧
     attempted k = Count cfg ∧ (succeeded k + failed k)%Z = Count cfg ∧
     Z.of_nat (length (latencies k)) = succeeded k ∧
     Z.of_nat (length (firstErrors k)) = Z.min 5 (failed k) ∧
     remaining k = (- Concurrency cfg)%Z).
Proof.
  intros [_ Hconc Hwork Husers _ _ _]%parse_wf Hd Hsteps.
  destruct (nsteps_counted cfg tally n r) as [[Hl Hs Ha Hok Hf He] Hm]; [lia|done|done|done|].
  split; [unfold measure, total in Hm; lia|]. split.
  - intros Hj. unfold joined in Hj.
    apply not_Forall_Exists in Hj; [|intros c; destruct (cl_pc c); first [by left|by right]].
    apply Exists_exists in Hj as (c & [i Hi]%list_elem_of_lookup & Hc).
    eapply caller_steps; [|exact Hi|exact Hc].
    apply nsteps_accounts in Hsteps. intros Hnil. rewrite Hnil in Hsteps. cbn in Hsteps. lia.
  - intros Hj k.
    assert (∀ f : caller → nat, (∀ l, f (mkCaller Finished l) = 0%nat) → total f r = 0%Z) as Hz.
    { intros f Hf0. unfold total. rewrite sum_zero; [done|]. eapply Forall_impl; [exact Hj|].
      intros [p l] Hp. cbn in Hp. by rewrite Hp. }
    assert (total exited r = Concurrency cfg) as Hex.
    { unfold total. rewrite <-Hl. f_equal. clear -Hj.
      induction Hj as [|[p l] cs Hp _ IH]; cbn in *; [done|]. rewrite Hp. cbn. lia. }
    rewrite (Hz in_flight) in Hs by done. rewrite (Hz undecided) in Ha by done.
    rewrite (Hz unmerged) in Hok by done. rewrite (Hz unrecorded) in Hf by done.
    unfold measure in Hm. rewrite (Hz steps_left) in Hm by done. unfold k. lia.
Qed.

(** ** The oracle *)

Lemma zeros_size n : (0 ≤ n)%Z → Z.of_nat (String.length (zeros n)) = n.
Proof.
  intros Hn. unfold zeros. rewrite <-(Z2Nat.id n) at 2 by done. f_equal.
  induction (Z.to_nat n) as [|m IH]; [done|]. rewrite Nat.iter_succ. cbn [String.length]. by rewrite IH.
Qed.

Definition acknowledged (answer : result string) : nat :=
  match answer with Ok _ => 1 | Err _ => 0 end.

(** A user's counter is the number of its appends that were answered with
    success. *)
Definition account_ok (a : account) : Prop :=
  successfulAppends a = Z.of_nat (sum_list_with acknowledged (ac_asked a)).

Lemma runOne_count_ok q answer a : account_ok a → account_ok (runOne_count q answer a).
Proof.
  unfold account_ok. intros Ha. destruct q; [|done]. cbn. rewrite sum_list_with_app.
  destruct answer; cbn; lia.
Qed.

Lemma accounts_ok cfg tally r :
  rtc (step cfg) (launched cfg tally) r →
  Forall account_ok (rn_accounts r) ∧ length (rn_accounts r) = Z.to_nat (Users cfg).
Proof.
  intros Hr.
  assert (Forall account_ok (rn_accounts (launched cfg tally)) ∧
    length (rn_accounts (launched cfg tally)) = Z.to_nat (Users cfg)) as H0
    by (split; [by apply Forall_replicate|apply length_replicate]).
  induction Hr as [|r1 r2 r3 Hstep _ IH]; [done|]. apply IH. clear IH. destruct H0 as [Hok Hl].
  split; [|by rewrite (accounts_length _ _ _ Hstep)].
  destruct Hstep as [| i local coin q u a hd ans lat r Hi Hq Hu Ha| | | | |]; try done.
  cbn [rn_accounts]. apply Forall_insert; [done|]. apply runOne_count_ok. by eapply Forall_lookup.
Qed.

(** The names of the users are distinct. *)
Lemma newUser_inj now now' i j : username (newUser now i) = username (newUser now' j) → i = j.
Proof.
  unfold newUser. cbn [username]. intros Heq. apply (append_inj_length "loadgen-" "loadgen-") in Heq as [_ Heq]; [|done].
  apply decimal_sep_inj in Heq as [_ Heq]; [|done|apply pretty_all_digits..].
  apply (inj pretty) in Heq. lia.
Qed.

Lemma setup_from_users now initUser storeFile n : ∀ i tally tally' users,
  setup_from now initUser storeFile i n tally = (tally', Ok users) →
  users = (λ j, newUser (now j) j) <$> seq i n.
Proof.
  induction n as [|n IH]; intros i tally tally' users; cbn; [by intros [= _ <-]|].
  destruct (rp_answer (initUser i)) as [?|?]; [|done].
  destruct (rp_answer (storeFile i)) as [?|?]; [|done].
  destruct (setup_from _ _ _ _ _ _) as [t [us|e]] eqn:E; cbn; [|done].
  intros [= _ <-]. by rewrite (IH _ _ _ _ E).
Qed.

(** The answer to a verification read: an error, or how often the file holds
    the bytes of each append request of the run, in the order of the requests;
    a service may lose, repeat or delay them. *)
Definition reading : Type := result (list nat).

Definition file (cfg : Config) (copies : list nat) : string :=
  Nat.iter (sum_list copies) (λ s, s +:+ content cfg) (content cfg).

Lemma file_length cfg copies :
  (0 < ContentSize cfg)%Z →
  Z.of_nat (String.length (file cfg copies)) = (ContentSize cfg * (1 + Z.of_nat (sum_list copies)))%Z.
Proof.
  intros Hs. unfold file. pose proof (zeros_size (ContentSize cfg) ltac:(lia)) as Hz.
  change (zeros (ContentSize cfg)) with (content cfg) in Hz.
  induction (sum_list copies) as [|n IH]; [change (Nat.iter 0 _ _) with (content cfg); lia|].
  rewrite Nat.iter_succ, length_app_s. lia.
Qed.

(** What went wrong with an append: it was answered with success and is not
    in the file, or the file holds it more often than its answer says. *)
Definition lost (x : result string * nat) : nat :=
  match x with (Ok _, O) => 1 | _ => 0 end.
Definition surplus (x : result string * nat) : nat := x.2 - acknowledged x.1.

Definition lost_in (a : account) (copies : list nat) : nat :=
  sum_list_with lost (zip (ac_asked a) copies).
Definition surplus_in (a : account) (copies : list nat) : nat :=
  sum_list_with surplus (zip (ac_asked a) copies).

Lemma copies_balance asked : ∀ copies, length copies = length asked →
  (sum_list copies + sum_list_with lost (zip asked copies) =
   sum_list_with acknowledged asked + sum_list_with surplus (zip asked copies))%nat.
Proof.
  induction asked as [|[s|e] asked IH]; intros [|n copies] Hl; try done; injection Hl as Hl;
    specialize (IH copies Hl); unfold surplus in *; destruct n; cbn in *; unfold id in *; lia.
Qed.

(** What [checkOracles] is given, and what it makes of one user. *)
Definition verification (cfg : Config) (x : user * account * reading) : user * Z * result string :=
  (x.1.1, successfulAppends x.1.2, copies ← x.2; Ok (file cfg copies)).

Definition flagged (cfg : Config) (x : user * account * reading) : option string :=
  match x.2 with
  | Ok copies =>
      if decide (lost_in x.1.2 copies = surplus_in x.1.2 copies) then None
      else Some (wrongLength cfg x.1.1 (successfulAppends x.1.2) (file cfg copies))
  | Err _ => None
  end.

Definition unverified (x : user * account * reading) : option string :=
  match x.2 with Ok _ => None | Err e => Some (notVerified x.1.1 e) end.

(** A reading accounts for every append request of its user. *)
Definition reads_all (x : user * account * reading) : Prop :=
  ∀ copies, x.2 = Ok copies → length copies = length (ac_asked x.1.2).

Lemma checkOracles_from_spec cfg l : ∀ seen,
  (0 < ContentSize cfg)%Z → Forall (λ x, account_ok x.1.2 ∧ reads_all x) l →
  NoDup ((λ x, username x.1.1) <$> l) → (∀ x, x ∈ l → username x.1.1 ∉ seen) →
  checkOracles_from cfg seen (verification cfg <$> l) = (omap (flagged cfg) l, omap unverified l).
Proof.
  intros seen Hs. revert seen. induction l as [|[[u a] rd] l IH]; intros seen Hok Hnd Hseen; [done|].
  cbn. rewrite decide_False by (apply (Hseen (u, a, rd)); by left).
  apply Forall_cons in Hok as [[Ha Hrd] Hok]. apply NoDup_cons in Hnd as [Hu Hnd].
  rewrite IH; [|done|done|].
  2:{ intros v Hv. apply not_elem_of_union. split; [|apply Hseen; by right].
      apply not_elem_of_singleton. intros Heq. apply Hu. cbn. rewrite <-Heq.
      apply (list_elem_of_fmap_2 (λ x : user * account * reading, username x.1.1)), Hv. }
  unfold flagged, unverified. destruct rd as [copies|e]; cbn; [|done].
  rewrite file_length by done. specialize (Hrd copies eq_refl). cbn in Hrd, Ha. unfold account_ok in Ha.
  pose proof (copies_balance _ _ Hrd) as Hb. unfold expected, lost_in, surplus_in. rewrite Ha.
  destruct (decide (sum_list_with lost (zip (ac_asked a) copies) =
    sum_list_with surplus (zip (ac_asked a) copies))) as [He|He].
  - by rewrite decide_True by nia.
  - by rewrite decide_False by nia.
Qed.

(** C32. What the oracle says. After a run of a workload that writes, whatever
    the service answered to the callers and whatever it did with the appends
    (it may have acknowledged one and lost it, applied one and lost the
    answer, applied one twice, or late), when each verification read fails or
    returns the initial content with the copies of each append that are there:
    [checkOracles] reports the users whose read failed as not verified, and as
    corrupted exactly those, of the others, for whom the number of
    acknowledged appends that are missing differs from the number of copies
    beyond the acknowledged ones. So a lost acknowledged append is caught
    unless a copy too many hides it, and an append that was applied while its
    answer was an error is reported as corruption. The counter of each user is
    the number of its appends answered with success. *)
Theorem oracle_flags_lost_answers parsed cfg now initUser storeFile tally users r readings :
  parseConfig parsed = Ok cfg → cfg_Workload cfg ≠ WorkloadReads →
  setup cfg now initUser storeFile = (tally, Ok users) →
  rtc (step cfg) (launched cfg tally) r → joined r →
  length readings = length users →
  let checked := zip (zip users (rn_accounts r)) readings in
  Forall reads_all checked →
  checkOracles cfg (verification cfg <$> checked) =
    (omap (flagged cfg) checked, omap unverified checked) ∧
  (fst <$> (fst <$> checked)) = users ∧
  Forall (λ a, successfulAppends a = Z.of_nat (sum_list_with acknowledged (ac_asked a)))
    (rn_accounts r).
Proof.
  intros Hwf%parse_wf Hw Hsetup%setup_from_users Hr _ Hlr checked Hrd.
  destruct (accounts_ok cfg tally r Hr) as [Hok Hl].
  assert (length users = Z.to_nat (Users cfg)) as Hu by (by rewrite Hsetup, length_fmap, length_seq).
  assert ((fst <$> (fst <$> checked)) = users) as Hfst.
  { unfold checked. rewrite !fst_zip; [done|lia|rewrite length_zip_with; lia]. }
  split; [|by split]. unfold checkOracles. rewrite decide_False by done.
  apply checkOracles_from_spec; [by apply cw_size| | |set_solver].
  - apply Forall_forall. intros [[u a] rd] Hx. split; [|by eapply Forall_forall in Hrd].
    apply elem_of_zip_l, elem_of_zip_r in Hx. by eapply Forall_forall in Hok.
  - rewrite (list_fmap_compose (λ x : user * account * reading, x.1.1) username).
    rewrite <-(list_fmap_compose fst fst) in Hfst. unfold compose in *.
    replace ((λ x : user * account * reading, x.1.1) <$> checked) with users by done.
    rewrite Hsetup, <-list_fmap_compose. apply NoDup_fmap_2; [|apply NoDup_seq].
    intros i j Hij. by apply newUser_inj in Hij.
Qed.

(** ** Percentiles *)

Lemma percentile_index_lt n p : (0 < n)%nat → (percentile_index n p < n)%nat.
Proof. intros Hn. unfold percentile_index. cbv zeta. repeat case_decide; lia. Qed.

Lemma percentile_in l p : l ≠ [] → percentile l p ∈ l.
Proof.
  intros Hl. unfold percentile. destruct l as [|x l]; [done|].
  destruct (lookup_lt_is_Some_2 (x :: l) (percentile_index (length (x :: l)) p)) as [y Hy].
  { apply percentile_index_lt. cbn. lia. }
  rewrite Hy. by eapply list_elem_of_lookup_2.
Qed.

(** Rounding never swaps the ranks, for runs of up to 1000 samples. *)
Lemma percentile_ranks n : (n ≤ 1000)%nat →
  (percentile_index n p50 ≤ percentile_index n p95 ≤ percentile_index n p99)%nat.
Proof.
  intros Hn.
  assert (forallb (λ n, (percentile_index n p50 <=? percentile_index n p95)%nat &&
    (percentile_index n p95 <=? percentile_index n p99)%nat) (seq 0 1001) = true) as Hall
    by (vm_compute; reflexivity).
  rewrite List.forallb_forall in Hall. specialize (Hall n).
  rewrite andb_true_iff, !Nat.leb_le in Hall. apply Hall, List.in_seq. lia.
Qed.

Lemma sorted_lookup {A} (R : relation A) l i j x y :
  StronglySorted R l → (i < j)%nat → l !! i = Some x → l !! j = Some y → R x y.
Proof.
  intros Hs. revert i j. induction Hs as [|z l _ IH Hz]; intros [|i] [|j] Hij Hi Hj; try lia; try done.
  - injection Hi as ->. eapply (Forall_lookup_1 _ _ _ _ Hz). exact Hj.
  - apply (IH i j); [lia|done|done].
Qed.

(** A report's percentiles are latencies that were measured, in order. *)
Theorem percentiles_ordered l :
  StronglySorted Z.le l → l ≠ [] → (length l ≤ 1000)%nat →
  percentile l p50 ∈ l ∧ percentile l p99 ∈ l ∧
  (percentile l p50 ≤ percentile l p95 ≤ percentile l p99)%Z.
Proof.
  intros Hs Hl Hn. split; [by apply percentile_in|]. split; [by apply percentile_in|].
  assert (∀ p q, (percentile_index (length l) p ≤ percentile_index (length l) q)%nat →
    (percentile l p ≤ percentile l q)%Z) as Hmono.
  { intros p q Hpq. unfold percentile. destruct l as [|x l]; [done|].
    destruct (lookup_lt_is_Some_2 (x :: l) (percentile_index (length (x :: l)) p)) as [y Hy];
      [apply percentile_index_lt; cbn; lia|].
    destruct (lookup_lt_is_Some_2 (x :: l) (percentile_index (length (x :: l)) q)) as [z Hz];
      [apply percentile_index_lt; cbn; lia|].
    rewrite Hy, Hz. cbn.
    destruct (decide (percentile_index (length (x :: l)) p = percentile_index (length (x :: l)) q))
      as [He|He]; [rewrite He in Hy; simplify_eq; lia|].
    eapply (sorted_lookup Z.le); [exact Hs| |exact Hy|exact Hz]. lia. }
  destruct (percentile_ranks _ Hn). auto.
Qed.
