(* ===== verification/Processes.v ===== *)
(** * Processes (src/internal/telemetry, the [run] functions of src/cmd)

    How the worker, the coordinator and the load generator come up and go
    down: the connections they open ([Open], [Close] of
    src/client/storage/mongostore and src/client/fencing/mongofence, [Dial] of
    src/client/coordination/grpccoord), the OpenTelemetry bootstrap, the
    deferred clean-ups and what happens on every early return. A process is a
    tree of calls to its libraries and its operating system; an automaton over
    those calls keeps account of what is held, and every run of every process
    is accepted by it, whatever the calls answer. *)

From S2P Require Import Prelude Json Libs LockManager Fencing SaferTypes Effects Client.
From S2P Require Import LocalEnv FenceStore Coordinator MongoStore RemoteGuard Worker Startup Loadgen.
Open Scope string_scope.

Module Sys.

(** ** Calls *)

(** What [client.UseStorage] and [client.UseCoordination] install; MongoDB
    clients, connections and exporters are numbered. *)
Inductive storage_ref := UserlibStorage | MongoStorage (client : N).
Inductive backend_ref := LocalBackend | RemoteBackend (conn : N).

#[export] Instance storage_ref_eq : EqDecision storage_ref.
Proof. solve_decision. Defined.
#[export] Instance backend_ref_eq : EqDecision backend_ref.
Proof. solve_decision. Defined.

Inductive syscall :=
  (* go.mongodb.org/mongo-driver; [None] is a context without a deadline *)
  | MongoConnect (uri : string) (timeout : Z)
  | MongoPing (client : N) (timeout : Z)
  | MongoDisconnect (client : N) (timeout : option Z)
  (* google.golang.org/grpc *)
  | GrpcDial (target : string) (timeout : Z)
  | GrpcHealth (conn : N) (timeout : Z)
  | GrpcClose (conn : N)
  | Serve
  | ServeUntilSignal
  | GracefulStop (limit : Z)
  | ForceStop
  | WatchSignals
  | SetServingStatus (service : string) (serving : bool)
  (* the client package's handles *)
  | SwapStorage (now : storage_ref)
  | RestoreStorage (now before : storage_ref)
  | SwapCoordination (now : backend_ref)
  | RestoreCoordination (now before : backend_ref)
  (* goroutines of the process *)
  | StartReadiness (interval : Z)
  | StopReadiness
  | StartCoordinator (lease sweep : Z) (fences : option N)
  | StopCoordinator (fences : option N)
  | RunWorkload (conn : N)
  (* the operating system *)
  | Listen (addr : string)
  | PrintLine (line : string)
  (* go.opentelemetry.io *)
  | SetPropagator
  | NewInstanceID
  | NewResource (attributes : list (string * string))
  | NewTraceExporter
  | NewMetricExporter
  | ExporterShutdown (exporter : N) (timeout : Z)
  | SetTracerProvider (exporter : N)
  | SetMeterProvider (exporter : N)
  | ProviderShutdown (exporter : N) (timeout : Z).

(** [WatchSignals] starts the coordinator's goroutine that waits for a signal
    and then stops the server gracefully; [Serve] without an error returns when
    that is done. [ServeUntilSignal] starts the worker's goroutine in
    [grpcServer.Serve] and answers [None] when a signal arrived first and the
    error of [Serve] otherwise; [GracefulStop] whether it finished in time,
    [ForceStop] is [grpcServer.Stop] and the wait for the graceful stop that
    follows; [Listen] answers the address it bound, [RunWorkload] whether the
    run failed, and its report. *)
Definition resp (c : syscall) : Type :=
  match c with
  | MongoConnect _ _ | GrpcDial _ _ | NewTraceExporter | NewMetricExporter => result N
  | MongoPing _ _ | MongoDisconnect _ _ | GrpcHealth _ _ | GrpcClose _ | Serve
  | NewResource _ | ExporterShutdown _ _ | ProviderShutdown _ _ => result unit
  | ServeUntilSignal => option error
  | GracefulStop _ => bool
  | SwapStorage _ => storage_ref
  | SwapCoordination _ => backend_ref
  | RunWorkload _ => result (bool * string)
  | Listen _ => result string
  | NewInstanceID => string
  | ForceStop | WatchSignals | SetServingStatus _ _ | RestoreStorage _ _ | RestoreCoordination _ _
  | StartReadiness _ | StopReadiness | StartCoordinator _ _ _ | StopCoordinator _ | PrintLine _
  | SetPropagator | SetTracerProvider _ | SetMeterProvider _ => unit
  end.

Inductive proc (A : Type) :=
  | PRet (a : A)
  | PCall (c : syscall) (k : resp c → proc A).
Arguments PRet {A} _.
Arguments PCall {A} _ _.

Fixpoint pbind {A B} (p : proc A) (f : A → proc B) : proc B :=
  match p with
  | PRet a => f a
  | PCall c k => PCall c (λ r, pbind (k r) f)
  end.

#[export] Instance proc_ret : MRet proc := λ A a, PRet a.
#[export] Instance proc_bind : MBind proc := λ A B f p, pbind p f.

Definition sys (c : syscall) : proc (resp c) := PCall c PRet.

(** [defer cleanup()]: it runs when [body] has returned, whatever it returned. *)
Definition deferring {A} (cleanup : proc unit) (body : proc A) : proc A :=
  x ← body; _ ← cleanup; mret x.

(** [if err != nil { return what(err) }] *)
Definition orFail {A B} (what : error → error) (p : proc (result A)) (k : A → proc (result B))
    : proc (result B) :=
  r ← p; match r with Ok a => k a | Err e => mret (Err (what e)) end.

(** [_ = p] *)
Definition ignoring {A} (p : proc A) : proc unit := _ ← p; mret ().

End Sys.
Import Sys.

(** ** internal/telemetry *)

Module Telemetry.

Definition shutdownTimeout : Z := 5 * second_ns.

Record Config := mkConfig { ServiceName : string; ServiceVersion : string }.

(** The providers to shut down, in this order; [noopShutdown] is [[]]. *)
Definition Shutdown : Type := list N.

Fixpoint firstNonEmpty (values : list string) : string :=
  match values with
  | [] => ""
  | v :: values => if decide (v ≠ "") then v else firstNonEmpty values
  end.

Definition buildResource (cfg : Config) : proc (result unit) :=
  instance ← sys NewInstanceID;
  sys (NewResource ([("service.name", ServiceName cfg); ("service.instance.id", instance)] ++
    (if decide (ServiceVersion cfg ≠ "") then [("service.version", ServiceVersion cfg)] else []))%list).

(** The exporter for an endpoint, if there is one. *)
Definition exporterFor (endpoint : string) (new : proc (result N)) : proc (result (option N)) :=
  if decide (endpoint ≠ "")
  then r ← new; mret (match r with Ok n => Ok (Some n) | Err e => Err e end)
  else mret (Ok None).

Definition install (set : N → syscall) (exporter : option N) (k : Shutdown → proc (Shutdown * option error))
    : proc (Shutdown * option error) :=
  match exporter with
  | None => k []
  | Some n => _ ← sys (set n); k [n]
  end.

Definition Setup (Getenv : string → string) (cfg : Config) : proc (Shutdown * option error) :=
  _ ← sys SetPropagator;
  let tracesEndpoint := firstNonEmpty [Getenv "OTEL_EXPORTER_OTLP_TRACES_ENDPOINT";
    Getenv "OTEL_EXPORTER_OTLP_ENDPOINT"] in
  let metricsEndpoint := firstNonEmpty [Getenv "OTEL_EXPORTER_OTLP_METRICS_ENDPOINT";
    Getenv "OTEL_EXPORTER_OTLP_ENDPOINT"] in
  if decide (tracesEndpoint = "" ∧ metricsEndpoint = "") then mret ([], None) else
  res ← buildResource cfg;
  match res with
  | Err e => mret ([], Some (EWrap "telemetry: building resource" e))
  | Ok _ =>
  traceExporter ← exporterFor tracesEndpoint (sys NewTraceExporter);
  match traceExporter with
  | Err e => mret ([], Some (EWrap "telemetry: creating trace exporter" e))
  | Ok traceExporter =>
  metricExporter ← exporterFor metricsEndpoint (sys NewMetricExporter);
  match metricExporter with
  | Err e =>
      _ ← match traceExporter with
          | Some n => ignoring (sys (ExporterShutdown n shutdownTimeout))
          | None => mret ()
          end;
      mret ([], Some (EWrap "telemetry: creating metric exporter" e))
  | Ok metricExporter =>
      install SetTracerProvider traceExporter (λ fns,
      install SetMeterProvider metricExporter (λ fns', mret ((fns ++ fns')%list, None)))
  end
  end
  end.

(** The function [Setup] returns: one context with its own deadline for every
    provider, and all errors ([errors.Join]). *)
Fixpoint runShutdown (fns : Shutdown) : proc (list error) :=
  match fns with
  | [] => mret []
  | n :: fns =>
      r ← sys (ProviderShutdown n shutdownTimeout);
      errs ← runShutdown fns;
      mret (match r with Err e => e :: errs | Ok _ => errs end)
  end.

(** [setupTelemetry] of the three commands: a failed set-up is no telemetry. *)
Definition setupTelemetry (Getenv : string → string) (cfg : Config) : proc Shutdown :=
  r ← Setup Getenv cfg;
  mret (match r.2 with Some _ => [] | None => r.1 end).

End Telemetry.
Import Telemetry.

(** ** Connections *)

Module Connections.

(** [mongostore.Open]: an unreachable server does not leak the pool. *)
Definition Open (cfg : MongoStore.Config) : proc (result N) :=
  let cfg := withDefaults cfg in
  match validate cfg with
  | Err e => mret (Err e)
  | Ok _ =>
  orFail (EWrap "mongostore: connect") (sys (MongoConnect (cfg_URI cfg) (cfg_Timeout cfg))) (λ client,
  ping ← sys (MongoPing client (cfg_Timeout cfg));
  match ping with
  | Err e =>
      _ ← sys (MongoDisconnect client None);
      mret (Err (EWrap "mongostore: ping" e))
  | Ok _ => mret (Ok client)
  end)
  end.

(** [Store.Close] on a context without a deadline. *)
Definition Close (cfg : MongoStore.Config) (client : N) : proc (result unit) :=
  orFail (EWrap "mongostore: disconnect")
    (sys (MongoDisconnect client (withTimeout false false (cfg_Timeout (withDefaults cfg)))))
    (λ _, mret (Ok ())).

(** [mongofence.Open] and [Store.Close]. *)
Definition defaultFenceTimeout : Z := 10 * second_ns.

Definition fenceTimeout (timeout : Z) : Z :=
  if decide (timeout ≤ 0)%Z then defaultFenceTimeout else timeout.

Definition OpenFences (uri database : string) (timeout : Z) : proc (result N) :=
  if decide (uri = "") then mret (Err (EMsg "mongofence: a MongoDB URI is required")) else
  if decide (database = "") then mret (Err (EMsg "mongofence: a database name is required")) else
  let timeout := fenceTimeout timeout in
  orFail (EWrap "mongofence: connect") (sys (MongoConnect uri timeout)) (λ client,
  ping ← sys (MongoPing client timeout);
  match ping with
  | Err e =>
      _ ← sys (MongoDisconnect client None);
      mret (Err (EWrap "mongofence: ping" e))
  | Ok _ => mret (Ok client)
  end).

Definition CloseFences (timeout : Z) (client : N) : proc unit :=
  ignoring (sys (MongoDisconnect client (Some (fenceTimeout timeout)))).

(** [grpccoord.Dial]: a coordinator that does not answer is not kept. *)
Definition DialCoordinator (cfg : Remote.Config) : proc (result N) :=
  if decide (Remote.Address cfg = "")
  then mret (Err (EMsg "grpccoord: SAFER_COORDINATOR_ADDR is required")) else
  let timeout := if decide (Remote.Timeout cfg ≤ 0)%Z then Remote.DefaultTimeout else Remote.Timeout cfg in
  orFail (EWrap ("grpccoord: dial " +:+ Remote.Address cfg))
    (sys (GrpcDial (Remote.Address cfg) timeout)) (λ conn,
  answer ← sys (GrpcHealth conn timeout);
  match Remote.Health answer with
  | Err e => _ ← sys (GrpcClose conn); mret (Err e)
  | Ok _ => mret (Ok conn)
  end).

(** [dialTarget] of cmd/loadgen: one address as it is, several through a
    resolver of their own. *)
Definition dialTimeout : Z := 30 * second_ns.

Definition dialTarget (addresses : list string) : proc (result N) :=
  match addresses with
  | [addr] => orFail (EWrap ("dialing " +:+ addr)) (sys (GrpcDial addr dialTimeout)) (λ c, mret (Ok c))
  | _ => orFail (EWrap ("dialing [" +:+ Json.concat_sep " " addresses +:+ "]"))
      (sys (GrpcDial "loadgen-static:///loadgen" dialTimeout)) (λ c, mret (Ok c))
  end.

End Connections.
Import Connections.

(** ** The commands *)

Module Commands.
Section commands.
Context (ParseDuration : string → result Z) (Getenv : string → string).

Definition flushTelemetry (shutdownTelemetry : Shutdown) : proc unit :=
  ignoring (runShutdown shutdownTelemetry).

(** [client.UseStorage] and [client.UseCoordination] with the deferred
    restore. *)
Definition withStorage {A} (now : storage_ref) (body : proc A) : proc A :=
  before ← sys (SwapStorage now);
  deferring (sys (RestoreStorage now before)) body.

Definition withCoordination {A} (now : backend_ref) (body : proc A) : proc A :=
  before ← sys (SwapCoordination now);
  deferring (sys (RestoreCoordination now before)) body.

(** [shutdown] of cmd/worker. *)
Definition shutdown (shutdownTimeout : Z) : proc unit :=
  _ ← sys (SetServingStatus "" false);
  stopped ← sys (GracefulStop shutdownTimeout);
  if (stopped : bool) then mret () else sys ForceStop.

Definition readinessInterval (interval : Z) : Z :=
  if decide (interval ≤ 0)%Z then Worker.DefaultReadinessInterval else interval.

(** [run] of cmd/worker. *)
Definition worker_run (cfg : Worker.Config) : proc (result unit) :=
  shutdownTelemetry ← setupTelemetry Getenv (mkConfig "safer-worker" "");
  deferring (flushTelemetry shutdownTelemetry) (
  orFail (EWrap "opening mongo") (Open (Worker.Mongo cfg)) (λ store,
  deferring (ignoring (Close (Worker.Mongo cfg) store)) (
  orFail (EWrap "dialing coordinator") (DialCoordinator (Worker.Coordinator cfg)) (λ backend,
  deferring (ignoring (sys (GrpcClose backend))) (
  withStorage (MongoStorage store) (
  withCoordination (RemoteBackend backend) (
  orFail (EWrap ("listen on " +:+ Worker.ListenAddr cfg)) (sys (Listen (Worker.ListenAddr cfg))) (λ addr,
  _ ← sys (SetServingStatus "liveness" true);
  _ ← sys (StartReadiness (readinessInterval (Worker.ReadinessInterval cfg)));
  deferring (sys StopReadiness) (
  _ ← sys (PrintLine ("listening " +:+ addr));
  served ← sys ServeUntilSignal;
  match served with
  | None => _ ← shutdown (Worker.ShutdownTimeout cfg); mret (Ok ())
  | Some e => mret (Err (EWrap "serve" e))
  end))))))))).

(** [openFenceStore] of cmd/coordinator; the second part of the result is the
    store with the clean-up it needs. *)
Definition openFences (cfg : CoordinatorMain.Config) : proc (result (option (N * Z))) :=
  match MongoStore.ConfigFromEnv ParseDuration Getenv with
  | Err e => mret (Err (EWrap "MongoDB configuration" e))
  | Ok None =>
      if CoordinatorMain.AllowUnfenced cfg then mret (Ok None)
      else mret (Err (EMsg ("SAFER_MONGO_URI is not set; a production coordinator refuses to start without a durable " +:+
        "fencing store (pass -allow-unfenced to override for local development or " +:+
        "lock-semantics-only testing -- this gives NO stale-writer protection)")))
  | Ok (Some mongoCfg) =>
      r ← OpenFences (cfg_URI mongoCfg) (cfg_Database mongoCfg) (cfg_Timeout mongoCfg);
      match r with
      | Ok store => mret (Ok (Some (store, cfg_Timeout mongoCfg)))
      | Err e =>
          if CoordinatorMain.AllowUnfenced cfg then mret (Ok None)
          else mret (Err (EWrap "opening the fence store" e))
      end
  end.

(** [run] of cmd/coordinator. *)
Definition coordinator_run (cfg : CoordinatorMain.Config) : proc (result unit) :=
  shutdownTelemetry ← setupTelemetry Getenv (mkConfig "safer-coordinator" "");
  deferring (flushTelemetry shutdownTelemetry) (
  orFail (λ e, e) (openFences cfg) (λ fences,
  deferring (match fences with Some (n, timeout) => CloseFences timeout n | None => mret () end) (
  orFail (EWrap ("listen on " +:+ CoordinatorMain.Address cfg))
    (sys (Listen (CoordinatorMain.Address cfg))) (λ addr,
  _ ← sys (StartCoordinator (CoordinatorMain.LeaseDuration cfg) (CoordinatorMain.SweepInterval cfg)
    (fst <$> fences));
  deferring (sys (StopCoordinator (fst <$> fences))) (
  _ ← sys (SetServingStatus "" true);
  _ ← sys (PrintLine ("listening " +:+ addr));
  _ ← sys WatchSignals;
  orFail (EWrap "serve") (sys Serve) (λ _, mret (Ok ()))))))).

(** [run] of cmd/loadgen; [parsed] is what [parseConfig] returned. *)
Definition loadgen_run (parsed : result Loadgen.Config) : proc (result bool) :=
  match parsed with
  | Err e => mret (Err e)
  | Ok cfg =>
  shutdownTelemetry ← setupTelemetry Getenv (mkConfig "safer-loadgen" "");
  deferring (flushTelemetry shutdownTelemetry) (
  orFail (λ e, e) (dialTarget (Loadgen.Addresses cfg)) (λ conn,
  deferring (ignoring (sys (GrpcClose conn))) (
  orFail (λ e, e) (sys (RunWorkload conn)) (λ report,
  _ ← sys (PrintLine report.2);
  mret (Ok report.1)))))
  end.

End commands.
End Commands.
