(* ===== verification/ProcessThms.v ===== *)
(** * What the processes hold

    An account of the resources a process holds, as an automaton over its
    calls, and the proofs that the commands keep it: they listen only when
    what they need is there, use and close only what is open, never close
    what something else still uses, and give everything back on every path. *)

From S2P Require Import Prelude Json Libs LockManager Fencing SaferTypes Effects Client.
From S2P Require Import LocalEnv FenceStore Coordinator MongoStore RemoteGuard Worker Startup Loadgen.
From S2P Require Import Processes.
Import Sys Telemetry Connections Commands.
Open Scope string_scope.

(** ** The account *)

(** [l] without its first [x]. *)
Fixpoint take_out {A} `{EqDecision A} (x : A) (l : list A) : option (list A) :=
  match l with
  | [] => None
  | y :: l => if decide (x = y) then Some l else (y ::.) <$> take_out x l
  end.

Lemma take_out_perm {A} `{EqDecision A} (x : A) l k :
  l ≡ₚ x :: k → ∃ k', take_out x l = Some k' ∧ k' ≡ₚ k.
Proof.
  revert k. induction l as [|y l IH]; intros k Hp; [by apply Permutation_nil_cons in Hp|]. cbn.
  destruct (decide (x = y)) as [->|Hne].
  { exists l. split; [done|]. by apply Permutation_cons_inv in Hp. }
  assert (x ∈ l) as (l1 & l2 & ->)%list_elem_of_split.
  { assert (x ∈ y :: l) as Hx by (rewrite Hp; by left). by apply elem_of_cons in Hx as [?|?]. }
  destruct (IH (l1 ++ l2)%list) as (k' & -> & Hk'); [by rewrite Permutation_middle|].
  cbn. exists (y :: k'). split; [done|]. rewrite Hk'.
  apply (Permutation_cons_inv (a := x)). rewrite <-Hp, <-Permutation_middle. by constructor.
Qed.

Inductive handle :=
  | HExporter (n : N)
  | HMongo (client : N)
  | HConn (conn : N)
  | HStorage (now before : storage_ref)
  | HCoordination (now before : backend_ref)
  | HReadiness
  | HServer (fences : option N).

#[export] Instance handle_eq_dec : EqDecision handle.
Proof. solve_decision. Defined.

(** [needs h h']: while [h] is held, [h'] is in use. *)
Definition needs (h h' : handle) : bool :=
  match h, h' with
  | HStorage (MongoStorage n) _, HMongo n' => bool_decide (n = n')
  | HCoordination (RemoteBackend n) _, HConn n' => bool_decide (n = n')
  | HServer (Some n), HMongo n' => bool_decide (n = n')
  | HReadiness, HMongo _ | HReadiness, HConn _ => true
  | _, _ => false
  end.

(** The listener and the RPC handlers of the process: there is no listener yet;
    it is bound; the server accepts calls and its handlers run; the listener is
    closed while handlers still run; it is closed and every handler has
    returned; it is closed and handlers may still run, because [Serve] failed
    or the server was stopped by force: [Stop] cancels the calls and closes
    their connections, it is not documented to wait for the handlers. *)
Inductive server := Down | Bound | Serving | Draining | Drained | Abandoned.

#[export] Instance server_eq_dec : EqDecision server.
Proof. solve_decision. Defined.

(** Whether there is an open listener, and whether handlers run that the process
    will wait for. *)
Definition open_listener (v : server) : bool := match v with Bound | Serving => true | _ => false end.
Definition busy (v : server) : bool := match v with Serving | Draining => true | _ => false end.

(** What the handlers of a server use. *)
Definition handlers_use (h : handle) : bool :=
  match h with HExporter _ | HReadiness => false | _ => true end.

(** What is held, which connections have answered, the exporters behind
    OpenTelemetry's global providers, the server, and whether a goroutine
    waits for signals. *)
Record account := mkAccount {
  held : list handle;
  sound : list handle;
  providers : list N;
  serving : server;
  watching : bool }.


Definition with_held (l : list handle) (st : account) : account :=
  mkAccount l (sound st) (providers st) (serving st) (watching st).
Definition hold (h : handle) (st : account) : account := with_held (h :: held st) st.
Definition trust (h : handle) (st : account) : account :=
  mkAccount (held st) (h :: sound st) (providers st) (serving st) (watching st).
Definition provide (ps : list N) (st : account) : account :=
  mkAccount (held st) (sound st) ps (serving st) (watching st).
Definition turn (v : server) (st : account) : account :=
  mkAccount (held st) (sound st) (providers st) v (watching st).
Definition watch (b : bool) (st : account) : account :=
  mkAccount (held st) (sound st) (providers st) (serving st) b.

(** No listener, no handlers to wait for, and a goroutine that waits for signals
    only where the server was given up. *)
Definition settled (st : account) : Prop :=
  open_listener (serving st) = false ∧ busy (serving st) = false ∧
  (watching st = true → serving st = Abandoned).


(** [h] is given back: it was held, nothing that is held needs it and no
    handler of a server that has not been stopped uses it. *)
Definition release (h : handle) (st : account) : option account :=
  rest ← take_out h (held st);
  if existsb (λ h', needs h' h) rest || (busy (serving st) && handlers_use h) then None
  else Some (with_held rest st).

Definition holding (h : handle) (st : account) : option account :=
  if decide (h ∈ held st) then Some st else None.


Section automaton.
Context (ready : account → bool).

(** One call; [None] is a violation. *)
Definition next (st : account) (c : syscall) : resp c → option account :=
  match c with
  | MongoConnect _ _ => λ r, Some (match r with Ok n => hold (HMongo n) st | Err _ => st end)
  | MongoPing n _ => λ r, st ← holding (HMongo n) st;
      Some (match r with Ok _ => trust (HMongo n) st | Err _ => st end)
  | MongoDisconnect n _ => λ _, release (HMongo n) st
  | GrpcDial _ _ => λ r, Some (match r with Ok n => hold (HConn n) st | Err _ => st end)
  | GrpcHealth n _ => λ r, st ← holding (HConn n) st;
      Some (match r with Ok _ => trust (HConn n) st | Err _ => st end)
  | GrpcClose n => λ _, release (HConn n) st
  | Listen _ => λ r, if ready st && bool_decide (serving st = Down) then Some (match r with
      | Ok _ => turn Bound st
      | Err _ => st
      end) else None
  | SetServingStatus _ _ => λ _, if open_listener (serving st) then Some st else None
  | WatchSignals => λ _, if open_listener (serving st) then Some (watch true st) else None
  | Serve => λ r, if decide (serving st = Bound ∧ watching st = true) then Some (match r with
      | Ok _ => watch false (turn Drained st)
      | Err _ => turn Abandoned st
      end) else None
  | ServeUntilSignal => λ r, if decide (serving st = Bound) then Some (match r with
      | None => turn Serving st
      | Some _ => turn Abandoned st
      end) else None
  | GracefulStop _ => λ r, if decide (serving st = Serving)
      then Some (turn (if r : bool then Drained else Draining) st) else None
  | ForceStop => λ _, if decide (serving st = Draining) then Some (turn Abandoned st) else None
  | SwapStorage now => λ before, Some (hold (HStorage now before) st)
  | RestoreStorage now before => λ _, release (HStorage now before) st
  | SwapCoordination now => λ before, Some (hold (HCoordination now before) st)
  | RestoreCoordination now before => λ _, release (HCoordination now before) st
  | StartReadiness _ => λ _, if open_listener (serving st) then Some (hold HReadiness st) else None
  | StopReadiness => λ _, release HReadiness st
  | StartCoordinator _ _ fences => λ _, if open_listener (serving st) then Some (hold (HServer fences) st) else None
  | StopCoordinator fences => λ _, release (HServer fences) st
  | RunWorkload n => λ _, holding (HConn n) st
  | PrintLine _ | SetPropagator | NewInstanceID | NewResource _ => λ _, Some st
  | NewTraceExporter | NewMetricExporter => λ r,
      Some (match r with Ok n => hold (HExporter n) st | Err _ => st end)
  | ExporterShutdown n _ => λ _, release (HExporter n) st
  | SetTracerProvider n | SetMeterProvider n => λ _,
      st ← holding (HExporter n) st; Some (provide (n :: providers st) st)
  | ProviderShutdown n _ => λ _,
      rest ← take_out n (providers st); release (HExporter n) (provide rest st)
  end.

(** ** Runs *)

(** An environment answers every call from its own state. *)
Fixpoint transcript {S A} (h : ∀ c, S → S * resp c) (p : proc A) (s : S)
    : list {c : syscall & resp c} * A :=
  match p with
  | PRet a => ([], a)
  | PCall c k => let '(s, r) := h c s in
      let '(tr, a) := transcript h (k r) s in (existT c r :: tr, a)
  end.

Fixpoint accept (st : account) (tr : list {c : syscall & resp c}) : option account :=
  match tr with
  | [] => Some st
  | existT c r :: tr => st' ← next st c r; accept st' tr
  end.

(** Whatever the calls answer, [p] keeps the account and ends as [Q] says. *)
Fixpoint keeps {A} (p : proc A) (st : account) (Q : account → A → Prop) : Prop :=
  match p with
  | PRet a => Q st a
  | PCall c k => ∀ r, match next st c r with Some st' => keeps (k r) st' Q | None => False end
  end.

Lemma keeps_mono {A} (p : proc A) st (Q Q' : account → A → Prop) :
  (∀ st a, Q st a → Q' st a) → keeps p st Q → keeps p st Q'.
Proof.
  intros HQ. revert st. induction p as [a|c k IH]; intros st; cbn; [by apply HQ|].
  intros Hp r. specialize (Hp r). case_match; [by apply IH|done].
Qed.

Lemma keeps_bind {A B} (p : proc A) (f : A → proc B) st Q :
  keeps p st (λ st' a, keeps (f a) st' Q) → keeps (p ≫= f) st Q.
Proof.
  unfold mbind, proc_bind. revert st. induction p as [a|c k IH]; intros st; cbn; [done|].
  intros Hp r. specialize (Hp r). case_match; [by apply IH|done].
Qed.

Lemma keeps_accept {S A} (h : ∀ c, S → S * resp c) (p : proc A) st Q s :
  keeps p st Q → ∃ st', accept st (transcript h p s).1 = Some st' ∧ Q st' (transcript h p s).2.
Proof.
  revert st s. induction p as [a|c k IH]; intros st s Hp; cbn in *; [eauto|].
  destruct (h c s) as [s' r]. specialize (Hp r).
  destruct (next st c r) as [st1|] eqn:E; [|done].
  destruct (IH r st1 s' Hp) as (st2 & Ha & HQ).
  destruct (transcript h (k r) s') as [tr a]. cbn in *. rewrite E. cbn. by exists st2.
Qed.

Lemma keeps_sys {B} c (f : resp c → proc B) st Q :
  (∀ r, match next st c r with Some st' => keeps (f r) st' Q | None => False end) →
  keeps (sys c ≫= f) st Q.
Proof. intros Hc. apply keeps_bind. exact Hc. Qed.



(** ** Taking and giving back *)

(** Nothing that is held needs anything, and no server runs. *)
Definition independent (st : account) : Prop :=
  settled st ∧ ∀ h h', h ∈ held st → needs h h' = false.


Lemma existsb_false {A} (f : A → bool) l : (∀ x, x ∈ l → f x = false) → existsb f l = false.
Proof.
  intros Hf. apply not_true_is_false. rewrite existsb_exists. intros (x & Hx & Ht).
  rewrite Hf in Ht; [done|]. by apply list_elem_of_In.
Qed.

(** The top of the account may go if nothing below it needs it. *)
Lemma release_top h l st :
  held st = h :: l → (∀ h', h' ∈ l → needs h' h = false) →
  busy (serving st) = false ∨ handlers_use h = false →
  release h st = Some (with_held l st).
Proof.
  intros Hst Hl Hb. unfold release. rewrite Hst. cbn [take_out].
  rewrite decide_True by done. cbn. rewrite existsb_false by done.
  destruct Hb as [-> | ->]; [done|]. by rewrite andb_false_r.
Qed.

Lemma keeps_release {A} h c (f : resp c → proc A) st st0 Q :
  (∀ r, next st c r = release h st) → held st = h :: held st0 →
  (∀ h', h' ∈ held st0 → needs h' h = false) →
  busy (serving st) = false ∨ handlers_use h = false →
  (∀ r, keeps (f r) (with_held (held st0) st) Q) →
  keeps (sys c ≫= f) st Q.
Proof. intros Hc Hh Hn Hb Hf. apply keeps_sys. intros r. rewrite Hc, (release_top h (held st0)) by done. apply Hf. Qed.


(** ** Telemetry *)

Lemma needs_exporter h n : needs h (HExporter n) = false.
Proof. by destruct h as [| | |[] ?|[] ?| |[]]. Qed.

(** After [Setup]: an error leaves no trace but the propagator; otherwise
    exactly the returned providers are installed and hold their exporters. *)
Definition set_up (st : account) (wanted : nat) (st' : account) (r : Shutdown * option error) : Prop :=
  sound st' = sound st ∧ serving st' = serving st ∧ watching st' = watching st ∧
  match r.2 with
  | Some _ => r.1 = [] ∧ st' = st
  | None => length r.1 = wanted ∧ held st' ≡ₚ ((HExporter <$> r.1) ++ held st)%list ∧
      providers st' ≡ₚ (r.1 ++ providers st)%list
  end.

(** The endpoints that are configured. *)
Definition endpoints (Getenv : string → string) : nat :=
  (if decide (firstNonEmpty [Getenv "OTEL_EXPORTER_OTLP_TRACES_ENDPOINT";
      Getenv "OTEL_EXPORTER_OTLP_ENDPOINT"] ≠ "") then 1 else 0) +
  (if decide (firstNonEmpty [Getenv "OTEL_EXPORTER_OTLP_METRICS_ENDPOINT";
      Getenv "OTEL_EXPORTER_OTLP_ENDPOINT"] ≠ "") then 1 else 0).

Lemma keeps_set n (set : N → syscall) (f : resp (set n) → proc (Shutdown * option error)) st Q :
  (∀ st r, next st (set n) r = (st ← holding (HExporter n) st; Some (provide (n :: providers st) st))) →
  HExporter n ∈ held st →
  (∀ r, keeps (f r) (provide (n :: providers st) st) Q) → keeps (sys (set n) ≫= f) st Q.
Proof.
  intros Hs Hin Hf. apply keeps_sys. intros r. rewrite Hs. unfold holding.
  rewrite decide_True by done. apply Hf.
Qed.

Lemma Setup_keeps Getenv cfg st : keeps (Setup Getenv cfg) st (set_up st (endpoints Getenv)).
Proof.
  unfold Setup, endpoints. apply keeps_sys. intros []. cbn [next].
  set (te := firstNonEmpty [Getenv "OTEL_EXPORTER_OTLP_TRACES_ENDPOINT"; _]).
  set (me := firstNonEmpty [Getenv "OTEL_EXPORTER_OTLP_METRICS_ENDPOINT"; _]).
  destruct (decide (te = "" ∧ me = "")) as [[Ht Hm]|Hsome].
  { rewrite Ht, Hm. done. }
  apply keeps_bind. unfold buildResource. apply keeps_sys. intros inst. cbn [next]. intros r. cbn [next].
  destruct r as [[]|e]; [|done]. cbn [keeps]. apply keeps_bind. unfold exporterFor.
  destruct (decide (te ≠ "")) as [Ht|Ht]; [apply keeps_sys; intros [t|e]; cbn [next keeps]; [|done]|cbn [keeps]];
    apply keeps_bind;
    (destruct (decide (me ≠ "")) as [Hm|Hm];
      [apply keeps_sys; intros [m|e]; cbn [next keeps]|cbn [keeps]]).
  - cbn [install]. apply keeps_set; [done|set_solver|]. intros []. apply keeps_set; [done|set_solver|].
    intros []. unfold set_up; cbn. split_and!; try done; apply Permutation_swap.
  - apply keeps_bind. unfold ignoring.
    eapply (keeps_release (HExporter t) _ _ _ st); [done|done|intros; apply needs_exporter|by right|].
    intros r. by destruct st.
  - cbn [install]. apply keeps_set; [done|set_solver|]. intros []. cbn. done.
  - cbn [install]. apply keeps_set; [done|set_solver|]. intros []. cbn. done.
  - done.
  - destruct Hsome. split; by apply dec_stable.
Qed.

Lemma runShutdown_keeps fns st l ps :
  held st ≡ₚ ((HExporter <$> fns) ++ l)%list → providers st ≡ₚ (fns ++ ps)%list →
  keeps (runShutdown fns) st (λ st' _, held st' ≡ₚ l ∧ providers st' ≡ₚ ps ∧
    serving st' = serving st ∧ watching st' = watching st).
Proof.
  revert st. induction fns as [|n fns IH]; intros st Hh Hp; [done|]. cbn [runShutdown].
  apply keeps_sys. intros r. cbn [next].
  destruct (take_out_perm n (providers st) (fns ++ ps)) as (ps' & -> & Hps'); [done|].
  cbn [mbind option_bind]. unfold release. cbn [held provide].
  destruct (take_out_perm (HExporter n) (held st) ((HExporter <$> fns) ++ l)) as (l' & -> & Hl'); [done|].
  cbn [mbind option_bind]. rewrite existsb_false by (intros; apply needs_exporter).
  cbn [handlers_use orb]. rewrite andb_false_r.
  apply keeps_bind. eapply keeps_mono; [|apply IH; done]. done.
Qed.

(** ** Connections *)

Lemma independent_hold h st :
  independent st → (∀ h', needs h h' = false) → independent (hold h st).
Proof. intros [Hv Hi] Hh. split; [done|]. intros h1 h2 [->|Hin]%elem_of_cons; [apply Hh|by apply Hi]. Qed.








(** ** The commands *)















End automaton.

(** ** What must be there before a process listens *)









(** ** Abrupt ends *)











(** C34. Telemetry is transactional and fails open: from any account, whatever
    the exporters answer, [Setup] with an error has installed no provider and
    holds no exporter; without one it has installed one provider per configured
    endpoint (none if there is none), and the shutdown it returned releases
    exactly those, each of them even if others fail. *)
Theorem telemetry_transactional Getenv cfg ready st {S} (h : ∀ c, S → S * resp c) (s s' : S) :
  ∃ st1, let '(tr, (fns, err)) := transcript h (Setup Getenv cfg) s in
    accept ready st tr = Some st1 ∧
    match err with
    | Some _ => fns = [] ∧ st1 = st
    | None => length fns = endpoints Getenv ∧
        held st1 ≡ₚ ((HExporter <$> fns) ++ held st)%list ∧
        providers st1 ≡ₚ (fns ++ providers st)%list
    end ∧
    ∃ st2, accept ready st1 (transcript h (runShutdown fns) s').1 = Some st2 ∧
      held st2 ≡ₚ held st ∧ providers st2 ≡ₚ providers st.
Proof.
  destruct (keeps_accept ready h _ _ _ s (Setup_keeps ready Getenv cfg st)) as (st1 & Ha & Hsu).
  destruct (transcript h (Setup Getenv cfg) s) as [tr [fns err]]. cbn [fst snd] in *.
  destruct Hsu as (_ & _ & _ & Hcase). cbn in Hcase. exists st1. split; [done|]. split; [done|].
  apply (keeps_accept ready h _ st1 (λ st2 _, held st2 ≡ₚ held st ∧ providers st2 ≡ₚ providers st) s').
  eapply keeps_mono; [|apply (runShutdown_keeps ready fns st1 (held st) (providers st))].
  - by intros st2 errs (Hh & Hp & _).
  - destruct err; [by destruct Hcase as [-> ->]|]. apply Hcase.
  - destruct err; [by destruct Hcase as [-> ->]|]. apply Hcase.
Qed.
