(* ===== verification/Barrier.v ===== *)
(** * The rendezvous of the cross-process harness

    The barrier of src/integration/crossprocess/harness.go and the worker's
    side of it, [waitAtBarrier] of src/cmd/saferworker/main.go: workers dial,
    announce themselves by a line and wait for the release line; the harness
    accepts, reads each announcement in a goroutine of its own, counts the
    connections that arrive over a buffered channel and releases all of them
    when it has as many as it expects. Processes and goroutines interleave
    freely; any deadline may pass and any worker may die at any moment. *)

From S2P Require Import Prelude Json.
Import Json.
Open Scope string_scope.
Open Scope list_scope.

Module Barrier.

Definition newline : char := chr 10.
Definition line (s : string) : string := s +:+ String newline "".

(** [bufio.Reader.ReadString('\n')]: [None] until the line is complete. *)
Fixpoint ReadString (s : string) : option (string * string) :=
  match s with
  | "" => None
  | String c r =>
      if decide (c = newline) then Some (String c "", r)
      else '(l, rest) ← ReadString r; Some (String c l, rest)
  end.

(** ** State *)

(** How far a worker is in [waitAtBarrier]; before it, in its own set-up. *)
Inductive phase := Setup | Dialled | Announced | Passed | Failed.

(** The harness's side of its connection: not there, waiting for [Accept], and
    what the goroutine of [accept] is at. *)
Inductive reader := Unconnected | Backlog | Reading | Sending | Arrived | Closed.

#[export] Instance phase_eq : EqDecision phase.
Proof. solve_decision. Defined.
#[export] Instance reader_eq : EqDecision reader.
Proof. solve_decision. Defined.

Record peer := mkPeer { pr_phase : phase; pr_up : string; pr_down : string; pr_reader : reader }.

Inductive releaser := Collecting (conns : list nat) | Releasing (conns : list nat) | Returned | Fatal.

#[export] Instance releaser_eq : EqDecision releaser.
Proof. solve_decision. Defined.

(** One worker per expected connection; [arrived] is the channel. *)
Record barrier := mkBarrier { peers : list peer; arrived : list nat; releasing : releaser }.

Definition expected (b : barrier) : nat := length (peers b).

Definition newBarrier (n : nat) : barrier :=
  mkBarrier (replicate n (mkPeer Setup "" "" Unconnected)) [] (Collecting []).

(** ** The worker: [waitAtBarrier] *)

Definition dial (p : peer) : option peer :=
  match pr_phase p with Setup => Some (mkPeer Dialled "" "" Backlog) | _ => None end.

Definition announce (name : string) (p : peer) : option peer :=
  match pr_phase p with
  | Dialled => Some (mkPeer Announced (pr_up p +:+ line name) (pr_down p) (pr_reader p))
  | _ => None
  end.

Definition receive (p : peer) : option peer :=
  match pr_phase p with
  | Announced =>
      '(release, rest) ← ReadString (pr_down p);
      Some (mkPeer (if decide (release = line "go") then Passed else Failed)
        (pr_up p) rest (pr_reader p))
  | _ => None
  end.

(** ** The harness: [accept] *)

Definition accept (p : peer) : option peer :=
  match pr_reader p with
  | Backlog => Some (mkPeer (pr_phase p) (pr_up p) (pr_down p) Reading)
  | _ => None
  end.

Definition read (p : peer) : option peer :=
  match pr_reader p with
  | Reading =>
      '(_, rest) ← ReadString (pr_up p);
      Some (mkPeer (pr_phase p) rest (pr_down p) Sending)
  | _ => None
  end.

(** [b.arrived <- conn]: blocks while the channel is full. *)
Definition send (i : nat) (b : barrier) : option barrier :=
  p ← peers b !! i;
  match pr_reader p with
  | Sending =>
      if decide (length (arrived b) < expected b)%nat
      then Some (mkBarrier (<[i := mkPeer (pr_phase p) (pr_up p) (pr_down p) Arrived]> (peers b))
        (arrived b ++ [i]) (releasing b))
      else None
  | _ => None
  end.

(** ** The harness: [releaseWhenAllArrived] *)

(** [fmt.Fprint(conn, "go\n")] *)
Definition go (p : peer) : peer :=
  mkPeer (pr_phase p) (pr_up p) (pr_down p +:+ line "go") (pr_reader p).

Definition release (b : barrier) : option barrier :=
  match releasing b with
  | Collecting conns =>
      if decide (length conns < expected b)%nat then
        match arrived b with
        | [] => None
        | i :: rest => Some (mkBarrier (peers b) rest (Collecting (conns ++ [i])))
        end
      else Some (mkBarrier (peers b) (arrived b) (Releasing conns))
  | Releasing (i :: conns) => Some (mkBarrier (alter go i (peers b)) (arrived b) (Releasing conns))
  | Releasing [] => Some (mkBarrier (peers b) (arrived b) Returned)
  | Returned | Fatal => None
  end.

(** ** Steps *)

Definition moves (name : string) : list (peer → option peer) :=
  [dial; announce name; receive; accept; read].

Inductive step (name : nat → string) (b : barrier) : barrier → Prop :=
  | st_peer f i p p' : f ∈ moves (name i) → peers b !! i = Some p → f p = Some p' →
      step name b (mkBarrier (<[i := p']> (peers b)) (arrived b) (releasing b))
  | st_send i b' : send i b = Some b' → step name b b'
  | st_release b' : release b = Some b' → step name b b'.

(** What goes wrong: a worker's dial or deadline fails or it is killed; the
    read of an announcement fails; [startupTimeout] passes before all are there. *)
Inductive fault (b : barrier) : barrier → Prop :=
  | ft_worker i p : peers b !! i = Some p →
      fault b (mkBarrier (<[i := mkPeer Failed (pr_up p) (pr_down p) (pr_reader p)]> (peers b))
        (arrived b) (releasing b))
  | ft_read i p : peers b !! i = Some p → pr_reader p = Reading →
      fault b (mkBarrier (<[i := mkPeer (pr_phase p) (pr_up p) (pr_down p) Closed]> (peers b))
        (arrived b) (releasing b))
  | ft_timeout conns : releasing b = Collecting conns → (length conns < expected b)%nat →
      fault b (mkBarrier (peers b) (arrived b) Fatal).

Definition any (name : nat → string) (b b' : barrier) : Prop := step name b b' ∨ fault b b'.

(** ** Lists of numbers *)

Lemma bounded_length (l : list nat) n : NoDup l → (∀ x, x ∈ l → (x < n)%nat) → (length l ≤ n)%nat.
Proof.
  intros Hnd Hb. rewrite <-(length_seq n 0). apply submseteq_length, NoDup_submseteq; [done|].
  intros x Hx. apply elem_of_seq. specialize (Hb x Hx). lia.
Qed.

Lemma bounded_all (l : list nat) n x :
  NoDup l → (∀ x, x ∈ l → (x < n)%nat) → (n ≤ length l)%nat → (x < n)%nat → x ∈ l.
Proof.
  intros Hnd Hb Hlen Hx. destruct (decide (x ∈ l)) as [|Hni]; [done|].
  assert (length (x :: l) ≤ n)%nat; [|cbn in *; lia].
  apply bounded_length; [by constructor|]. intros y [->|Hy]%elem_of_cons; eauto.
Qed.

(** ** The invariant *)

Definition collected (b : barrier) : list nat :=
  match releasing b with Collecting conns => conns | _ => [] end.

(** The releaser has begun to release. *)
Definition open (b : barrier) : Prop :=
  match releasing b with Releasing _ | Returned => True | _ => False end.

Record peer_ok (b : barrier) (p : peer) : Prop := {
  po_early : pr_phase p = Setup ∨ pr_phase p = Dialled →
    pr_up p = "" ∧ pr_reader p ≠ Sending ∧ pr_reader p ≠ Arrived;
  po_open : pr_phase p = Passed ∨ pr_down p ≠ "" → open b;
  po_arrived : open b → pr_reader p = Arrived }.

Record inv (b : barrier) : Prop := {
  in_peer : ∀ i p, peers b !! i = Some p → peer_ok b p;
  in_nodup : NoDup (arrived b ++ collected b);
  in_arrived : ∀ i, i ∈ arrived b ++ collected b → ∃ p, peers b !! i = Some p ∧ pr_reader p = Arrived }.

Lemma inv_bounded b i : inv b → i ∈ arrived b ++ collected b → (i < expected b)%nat.
Proof. intros Hi (p & Hp & _)%(in_arrived b Hi). by eapply lookup_lt_Some. Qed.

Lemma ReadString_empty s : ReadString s ≠ None → s ≠ "".
Proof. by destruct s. Qed.

(** Changing one peer and nothing else. *)
Lemma inv_peer b i p p' :
  inv b → peers b !! i = Some p → peer_ok b p' → (pr_reader p = Arrived → pr_reader p' = Arrived) →
  inv (mkBarrier (<[i := p']> (peers b)) (arrived b) (releasing b)).
Proof.
  intros [Hp Hnd Ha] Hi Hp' Hr. split; cbn; [|done|].
  - intros j q [(-> & <- & _)|[_ Hj]]%list_lookup_insert_Some; [destruct Hp'; by split|].
    destruct (Hp _ _ Hj). by split.
  - intros j Hj. destruct (Ha j Hj) as (q & Hq & Hqr). destruct (decide (i = j)) as [->|Hne].
    + rewrite Hi in Hq. injection Hq as ->. exists p'. split; [|by apply Hr].
      by eapply list_lookup_insert_eq, lookup_lt_Some.
    + exists q. by rewrite list_lookup_insert_ne.
Qed.

Lemma init_inv n : inv (newBarrier n).
Proof.
  split; cbn; [|constructor|by intros i ?%elem_of_nil].
  intros i p [-> _]%lookup_replicate. split; cbn; naive_solver.
Qed.

(** The five moves of a peer. *)
Ltac move_cases Hf Hfp :=
  unfold moves in Hf; rewrite !elem_of_cons in Hf; cbn in *;
  destruct Hf as [->|[->|[->|[->|[->|Hf%elem_of_nil]]]]]; [..|done];
  unfold dial, announce, receive, accept, read in Hfp; cbn in Hfp.

Lemma moves_ok name b f p p' :
  f ∈ moves name → f p = Some p' → peer_ok b p →
  peer_ok b p' ∧ (pr_reader p = Arrived → pr_reader p' = Arrived).
Proof.
  intros Hf Hfp [He Ho Ha]. destruct p as [ph up down rd].
  move_cases Hf Hfp.
  - destruct ph; simplify_eq. split; [split; cbn|]; naive_solver.
  - destruct ph; simplify_eq. split; [split; cbn|]; naive_solver.
  - destruct ph; simplify_eq. apply bind_Some in Hfp as ([rel rest] & Hd & Hfp). simplify_eq.
    assert (down ≠ "") by (apply ReadString_empty; by rewrite Hd).
    split; [|done]. split; cbn; [case_decide; naive_solver|naive_solver|naive_solver].
  - destruct rd; simplify_eq. split; [|done]. split; cbn; naive_solver.
  - destruct rd; simplify_eq. apply bind_Some in Hfp as ([rel rest] & Hd & Hfp). simplify_eq.
    assert (up ≠ "") by (apply ReadString_empty; by rewrite Hd).
    split; [|done]. split; cbn; naive_solver.
Qed.

Lemma send_inv i b b' : inv b → send i b = Some b' → inv b'.
Proof.
  intros [Hp Hnd Ha]. unfold send. intros (p & Hi & Hs)%bind_Some.
  destruct (pr_reader p) eqn:Hr; try done. case_decide; simplify_eq.
  assert (i ∉ arrived b ++ collected b) as Hni.
  { intros (q & Hq & Hqr)%Ha. congruence. }
  assert ((arrived b ++ [i]) ++ collected b ≡ₚ i :: arrived b ++ collected b) as Hperm
    by (rewrite <-app_assoc; symmetry; apply Permutation_middle).
  split; cbn.
  - intros j q [(-> & <- & _)|[_ Hj]]%list_lookup_insert_Some.
    + destruct (Hp _ _ Hi) as [He Ho Har]. split; cbn; [|done|done].
      intros Hph. destruct (He Hph) as (_ & Hns & _). done.
    + destruct (Hp _ _ Hj) as [He Ho Har]. by split.
  - change (NoDup ((arrived b ++ [i]) ++ collected b)). rewrite Hperm. by constructor.
  - intros j Hj. change (j ∈ (arrived b ++ [i]) ++ collected b) in Hj.
    rewrite Hperm in Hj. destruct (decide (i = j)) as [->|Hne].
    + eexists. split; [by eapply list_lookup_insert_eq, lookup_lt_Some|done].
    + apply elem_of_cons in Hj as [?|Hj]; [done|]. rewrite list_lookup_insert_ne by done. by apply Ha.
Qed.

(** When the harness has counted enough connections everyone is there. *)
Lemma all_arrived b conns :
  inv b → releasing b = Collecting conns → (expected b ≤ length conns)%nat →
  ∀ i p, peers b !! i = Some p → pr_reader p = Arrived.
Proof.
  intros Hi Hc Hlen i p Hp. assert (collected b = conns) as Hcol by (unfold collected; by rewrite Hc).
  assert (i ∈ conns) as Hin.
  { apply (bounded_all _ (expected b)); [| |done|by eapply lookup_lt_Some].
    - rewrite <-Hcol. pose proof (in_nodup b Hi) as Hnd. by apply NoDup_app in Hnd as (_ & _ & ?).
    - intros x Hx. apply inv_bounded; [done|]. rewrite Hcol. apply elem_of_app. by right. }
  destruct (in_arrived b Hi i) as (q & Hq & Hr); [rewrite Hcol; apply elem_of_app; by right|congruence].
Qed.

Lemma release_inv b b' : inv b → release b = Some b' → inv b'.
Proof.
  intros Hi. pose proof Hi as [Hp Hnd Ha]. unfold release.
  destruct (releasing b) as [conns|[|i conns]| |] eqn:Hrel; [|..|done|done].
  - unfold collected in *. rewrite Hrel in *. case_decide as Hlen.
    + destruct (arrived b) as [|i rest]; [done|]. intros ?; simplify_eq.
      assert ((rest ++ conns ++ [i])%list ≡ₚ (i :: rest) ++ conns) as Hperm.
      { rewrite app_assoc, <-Permutation_cons_append. done. }
      split; cbn.
      * intros j q Hj. destruct (Hp _ _ Hj) as [He Ho Har]. unfold open in *. rewrite Hrel in *. by split.
      * by rewrite Hperm.
      * intros j. rewrite Hperm. apply Ha.
    + intros ?; simplify_eq. split; cbn.
      * intros j q Hj. destruct (Hp _ _ Hj) as [He Ho Har]. split; [done|done|]. intros _.
        eapply all_arrived; [done|done|lia|done].
      * rewrite app_nil_r. by apply NoDup_app in Hnd as (? & _).
      * intros j. rewrite app_nil_r. intros Hj. apply Ha, elem_of_app. by left.
  - intros ?; simplify_eq. unfold collected in *. rewrite Hrel in *.
    split; [|done|done]. cbn. intros j q Hj. destruct (Hp _ _ Hj) as [He Ho Har].
    unfold open in *. rewrite Hrel in *. by split.
  - intros ?; simplify_eq. unfold collected in *. rewrite Hrel in *. split; cbn; [|done|].
    + intros j q Hj.
      assert (∃ q0, peers b !! j = Some q0 ∧ pr_phase q = pr_phase q0 ∧ pr_up q = pr_up q0 ∧
        pr_reader q = pr_reader q0) as (q0 & Hj0 & Hph & Hup & Hrd).
      { destruct (decide (i = j)) as [->|Hne]; [rewrite list_lookup_alter_eq in Hj
          |rewrite list_lookup_alter_ne in Hj by done; by exists q].
        apply fmap_Some in Hj as (q0 & Hq0 & ->). by exists q0. }
      destruct (Hp _ _ Hj0) as [He Ho Har]. unfold open in *. rewrite Hrel in *.
      split; [|done|]; rewrite ?Hph, ?Hup, ?Hrd; done.
    + intros j Hj. destruct (Ha j Hj) as (q & Hq & Hr). destruct (decide (i = j)) as [->|Hne].
      * exists (go q). by rewrite list_lookup_alter_eq, Hq.
      * exists q. by rewrite list_lookup_alter_ne.
Qed.

Lemma step_inv name b b' : inv b → step name b b' → inv b'.
Proof.
  intros Hi [f i p p' Hf Hp Hfp|i b1 Hs|b1 Hr]; [|by eapply send_inv|by eapply release_inv].
  destruct (moves_ok (name i) b f p p') as [Hok Hr]; [done|done|by eapply in_peer|].
  by eapply inv_peer.
Qed.

Lemma fault_inv b b' : inv b → fault b b' → inv b'.
Proof.
  intros Hi [i p Hp|i p Hp Hr|conns Hc Hlen].
  - eapply inv_peer; [done|done| |done]. destruct (in_peer b Hi _ _ Hp) as [He Ho Ha].
    split; cbn; [naive_solver|naive_solver|done].
  - eapply inv_peer; [done|done| |by rewrite Hr]. destruct (in_peer b Hi _ _ Hp) as [He Ho Ha].
    split; cbn; [naive_solver|done|]. intros Hop. specialize (Ha Hop). congruence.
  - destruct Hi as [Hp Hnd Ha]. unfold collected in *. rewrite Hc in *. split; cbn.
    + intros j q Hj. destruct (Hp _ _ Hj) as [He Ho Har]. unfold open in *. rewrite Hc in *. by split.
    + rewrite app_nil_r. by apply NoDup_app in Hnd as (? & _).
    + intros j. rewrite app_nil_r. intros Hj. apply Ha, elem_of_app. by left.
Qed.

Lemma reach_inv name n b : rtc (any name) (newBarrier n) b → inv b.
Proof.
  intros Hr. pose proof (init_inv n) as Hi. induction Hr as [|b1 b2 b3 [Hs|Hf] _ IH]; [done| |].
  - apply IH. by eapply step_inv.
  - apply IH. by eapply fault_inv.
Qed.

(** There is room in the channel for everyone who has still to arrive. *)
Lemma channel_room b i p :
  inv b → peers b !! i = Some p → pr_reader p = Sending → (length (arrived b) < expected b)%nat.
Proof.
  intros Hi Hp Hs. assert (length (i :: arrived b ++ collected b) ≤ expected b)%nat as Hlen.
  { apply bounded_length.
    - constructor; [|apply Hi]. intros (q & Hq & Hqr)%(in_arrived b Hi). congruence.
    - intros x [->|Hx]%elem_of_cons; [by eapply lookup_lt_Some|by apply inv_bounded]. }
  cbn in Hlen. rewrite length_app in Hlen. lia.
Qed.

(** C35. Nobody passes the barrier early: whatever fails, once one worker has
    been let through, every worker has arrived: the harness has read the
    announcement of each, so each has finished its set-up; and the goroutine
    that reports an arrival never blocks on the channel. *)
Theorem barrier_holds name n b :
  rtc (any name) (newBarrier n) b →
  ((∃ i p, peers b !! i = Some p ∧ pr_phase p = Passed) →
    ∀ j q, peers b !! j = Some q →
      pr_reader q = Arrived ∧ pr_phase q ≠ Setup ∧ pr_phase q ≠ Dialled) ∧
  (∀ i p, peers b !! i = Some p → pr_reader p = Sending → ∃ b', send i b = Some b').
Proof.
  intros Hr%reach_inv. split.
  - intros (i & p & Hp & Hph) j q Hq. pose proof (in_peer b Hr _ _ Hp) as [_ Ho _].
    pose proof (in_peer b Hr _ _ Hq) as [He _ Ha].
    assert (pr_reader q = Arrived) as Hqr by (apply Ha, Ho; by left). naive_solver.
  - intros i p Hp Hs. unfold send. rewrite Hp. cbn. rewrite Hs, decide_True; [eauto|].
    by eapply channel_room.
Qed.

(** ** Without faults the barrier opens *)

Lemma ReadString_line name : ReadString (line name) ≠ None.
Proof.
  unfold line. induction name as [|c name IH]; [done|]. change ((String c name) +:+ ?x) with (String c (name +:+ x)).
  cbn [ReadString]. case_decide; [done|]. by destruct (ReadString (name +:+ String newline "")) as [[]|].
Qed.

(** [i] has still to be released. *)
Definition pending (b : barrier) (i : nat) : bool :=
  match releasing b with
  | Collecting _ | Fatal => true
  | Releasing conns => bool_decide (i ∈ conns)
  | Returned => false
  end.

Record peer_clear (pend : bool) (p : peer) : Prop := {
  pc_phase : pr_phase p ≠ Failed;
  pc_reader : pr_reader p ≠ Closed;
  pc_setup : pr_phase p = Setup ↔ pr_reader p = Unconnected;
  pc_line : pr_phase p ≠ Setup → pr_phase p ≠ Dialled → pr_reader p ≠ Sending →
    pr_reader p ≠ Arrived → ReadString (pr_up p) ≠ None;
  pc_down : if pend then pr_down p = "" ∧ pr_phase p ≠ Passed
    else (pr_phase p = Announced ∧ pr_down p = line "go") ∨ (pr_phase p = Passed ∧ pr_down p = "") }.

Record clear (b : barrier) : Prop := {
  cl_inv : inv b;
  cl_peer : ∀ i p, peers b !! i = Some p → peer_clear (pending b i) p;
  cl_listed : ∀ i p, peers b !! i = Some p → pr_reader p = Arrived →
    i ∈ arrived b ++ collected b ∨ open b;
  cl_releasing : match releasing b with
    | Collecting conns => (length conns ≤ expected b)%nat
    | Releasing conns => NoDup conns
    | Returned => True
    | Fatal => False
    end }.

Lemma init_clear n : clear (newBarrier n).
Proof.
  split; [apply init_inv|..|cbn; lia]; intros i p [-> _]%lookup_replicate; [|done].
  split; cbn; naive_solver.
Qed.

Lemma moves_clear name b pend f p p' :
  f ∈ moves name → f p = Some p' → peer_ok b p → peer_clear pend p →
  peer_clear pend p' ∧ (pr_reader p' = Arrived → pr_reader p = Arrived).
Proof.
  intros Hf Hfp [He _ _] [Hph Hrd Hs Hl Hd]. destruct p as [ph up down rd].
  move_cases Hf Hfp.
  - destruct ph; simplify_eq. split; [|done].
    split; cbn; [done|done|done|done|]. by destruct pend; [|destruct Hd as [[? _]|[? _]]].
  - destruct ph; simplify_eq. split; [|done]. destruct (He (or_intror eq_refl)) as (-> & _ & _).
    split; cbn; [done|done|naive_solver|intros; apply ReadString_line|].
    by destruct pend; [destruct Hd|destruct Hd as [[? _]|[? _]]].
  - destruct ph; simplify_eq. apply bind_Some in Hfp as ([rel rest] & Hr & Hfp). simplify_eq.
    destruct pend; [by destruct Hd as [-> _]|]. destruct Hd as [[_ ->]|[? _]]; [|done].
    vm_compute in Hr. simplify_eq. split; [|done]. split; cbn; try naive_solver.
  - destruct rd; simplify_eq. split; [|done]. split; cbn; try naive_solver.
  - destruct rd; simplify_eq. apply bind_Some in Hfp as ([rel rest] & Hr & Hfp). simplify_eq.
    split; [|done]. split; cbn; try naive_solver.
Qed.

Lemma send_clear i b b' : clear b → send i b = Some b' → clear b'.
Proof.
  intros [Hi Hp Hls Hrel] Hs. pose proof (send_inv _ _ _ Hi Hs) as Hi'. revert Hs.
  unfold send. intros (p & Hpi & Hs)%bind_Some.
  destruct (pr_reader p) eqn:Hr; try done. case_decide; simplify_eq.
  split; [done| | |].
  - intros j q [(-> & <- & _)|[_ Hj]]%list_lookup_insert_Some; [|by apply Hp].
    destruct (Hp _ _ Hpi) as [H1 H2 H3 H4 H5]. split; cbn; try done. rewrite Hr in *. naive_solver.
  - intros j q [(-> & <- & _)|[_ Hj]]%list_lookup_insert_Some Hq; cbn in *.
    + left. set_solver.
    + destruct (Hls _ _ Hj Hq); [left; set_solver|by right].
  - cbn. unfold expected. cbn. by rewrite length_insert.
Qed.

Lemma release_clear b b' : clear b → release b = Some b' → clear b'.
Proof.
  intros [Hi Hp Hls Hrel] Hs. pose proof (release_inv _ _ Hi Hs) as Hi'. revert Hs.
  unfold release, pending, collected, open in *.
  destruct (releasing b) as [conns|[|i conns]| |] eqn:Er; [|..|done|done].
  - case_decide as Hlen.
    + destruct (arrived b) as [|i rest] eqn:Ea; [done|]. intros [= <-].
      split; [done| | |cbn; unfold expected; cbn; rewrite length_app; cbn; unfold expected in Hlen; lia].
      * cbn. apply Hp.
      * intros j q Hj Hq. destruct (Hls _ _ Hj Hq) as [Hin|[]]. left. cbn. set_solver.
    + intros [= <-]. pose proof (in_nodup b Hi) as Hnd. unfold collected in Hnd. rewrite Er in Hnd.
      assert (NoDup conns) as Hndc by (by apply NoDup_app in Hnd as (_ & _ & ?)).
      split; [done| |by right|done]. cbn. intros j q Hj.
      rewrite bool_decide_eq_true_2; [by apply (Hp j)|].
      apply (bounded_all _ (expected b)); [done| |lia|by eapply lookup_lt_Some].
      intros x Hx. apply inv_bounded; [done|]. unfold collected. rewrite Er. set_solver.
  - intros [= <-]. split; [done| |by right|done]. cbn. intros j q Hj. by apply (Hp j).
  - intros [= <-]. apply NoDup_cons in Hrel as [Hni Hnd]. split; [done| | |done].
    + cbn. intros j q Hj. destruct (decide (i = j)) as [->|Hne].
      * rewrite list_lookup_alter_eq in Hj. apply fmap_Some in Hj as (q0 & Hq0 & ->).
        rewrite bool_decide_eq_false_2 by done. specialize (Hp _ _ Hq0).
        rewrite bool_decide_eq_true_2 in Hp by set_solver.
        destruct Hp as [H1 H2 H3 H4 [H5 H6]]. pose proof (in_peer b Hi _ _ Hq0) as [He _ Ha].
        unfold open in Ha. rewrite Er in Ha. specialize (Ha I).
        split; cbn; try done. left. rewrite H5. split; [|done].
        destruct (pr_phase q0); naive_solver.
      * rewrite list_lookup_alter_ne in Hj by done.
        rewrite (bool_decide_ext (j ∈ conns) (j ∈ i :: conns)) by set_solver. by apply Hp.
    + by right.
Qed.

Lemma step_clear name b b' : clear b → step name b b' → clear b'.
Proof.
  intros Hc Hst. pose proof (step_inv _ _ _ (cl_inv b Hc) Hst) as Hi'.
  destruct Hst as [f i p p' Hf Hp Hfp|i b1 Hs|b1 Hr]; [|by eapply send_clear|by eapply release_clear].
  destruct Hc as [Hi Hpc Hls Hrel].
  destruct (moves_clear (name i) b (pending b i) f p p') as [Hok Hr];
    [done|done|by eapply in_peer|by apply Hpc|].
  split; [done| | |].
  - intros j q [(-> & <- & _)|[_ Hj]]%list_lookup_insert_Some; [done|by apply Hpc].
  - intros j q [(-> & <- & _)|[_ Hj]]%list_lookup_insert_Some Hq; [|by eapply Hls].
    eapply Hls; [done|by apply Hr].
  - cbn. unfold expected. cbn. by rewrite length_insert.
Qed.

(** ** Counting *)

Definition phase_left (p : phase) : nat :=
  match p with Setup => 3 | Dialled => 2 | Announced => 1 | Passed | Failed => 0 end.
Definition reader_left (r : reader) : nat :=
  match r with Unconnected | Backlog => 3 | Reading => 2 | Sending => 1 | Arrived | Closed => 0 end.
Definition releaser_left (n : nat) (r : releaser) : nat :=
  match r with
  | Collecting conns => (n - length conns) + n + 2
  | Releasing conns => length conns + 1
  | Returned | Fatal => 0
  end.

Definition peer_left (p : peer) : nat := phase_left (pr_phase p) + reader_left (pr_reader p).

(** The steps that are left. *)
Definition left_over (b : barrier) : nat :=
  sum_list_with peer_left (peers b) + releaser_left (expected b) (releasing b).

Lemma sum_same {A} (f : A → nat) l l' : f <$> l = f <$> l' → sum_list_with f l = sum_list_with f l'.
Proof. revert l'. induction l as [|x l IH]; intros [|y l']; cbn; intros [=]; [done|]. f_equal; auto. Qed.

Lemma moves_left name f p p' pend :
  f ∈ moves name → f p = Some p' → peer_clear pend p → peer_left p = S (peer_left p').
Proof.
  intros Hf Hfp [Hph Hrd Hs Hl Hd]. destruct p as [ph up down rd].
  unfold peer_left. cbn. move_cases Hf Hfp.
  - destruct ph; simplify_eq. rewrite (proj1 Hs eq_refl). done.
  - destruct ph; simplify_eq. done.
  - destruct ph; simplify_eq. apply bind_Some in Hfp as ([rel rest] & Hr & Hfp). simplify_eq. cbn.
    by case_decide.
  - destruct rd; simplify_eq. cbn. lia.
  - destruct rd; simplify_eq. apply bind_Some in Hfp as ([rel rest] & Hr & Hfp). simplify_eq. cbn. lia.
Qed.

Lemma step_left name b b' : clear b → step name b b' → left_over b = S (left_over b').
Proof.
  intros [Hi Hpc Hls Hrel] [f i p p' Hf Hp Hfp|i b1 Hs|b1 Hr]; unfold left_over.
  - unfold expected. cbn. rewrite length_insert.
    pose proof (sum_insert peer_left _ _ _ p' Hp). specialize (Hpc _ _ Hp).
    pose proof (moves_left _ _ _ _ _ Hf Hfp Hpc). lia.
  - apply bind_Some in Hs as (p & Hp & Hs). destruct (pr_reader p) eqn:Hr; try done.
    case_decide; simplify_eq. unfold expected. cbn. rewrite length_insert.
    set (p' := mkPeer _ _ _ _). pose proof (sum_insert peer_left _ _ _ p' Hp).
    assert (peer_left p = S (peer_left p')); [|lia].
    unfold peer_left, p'. rewrite Hr. cbn. lia.
  - unfold release in Hr. destruct (releasing b) as [conns|[|i conns]| |] eqn:Er; try done.
    + case_decide as Hlen; [destruct (arrived b); [done|]|]; simplify_eq; unfold expected in *; cbn in *;
        rewrite ?length_app; cbn; lia.
    + simplify_eq. unfold expected. cbn. lia.
    + injection Hr as <-. unfold expected. cbn [peers releasing releaser_left length].
      rewrite (sum_same _ (alter go i (peers b)) (peers b)); [lia|].
      apply list_eq. intros j. rewrite !list_lookup_fmap. destruct (decide (i = j)) as [->|Hne].
      * rewrite list_lookup_alter_eq. by destruct (peers b !! j).
      * by rewrite list_lookup_alter_ne.
Qed.

(** A barrier that is not done can go on. *)
Lemma peer_step name b i p f p' :
  peers b !! i = Some p → f ∈ moves (name i) → f p = Some p' → ∃ b', step name b b'.
Proof. intros Hp Hf Hfp. eexists. by eapply st_peer. Qed.

Lemma reader_moves name b i p :
  clear b → peers b !! i = Some p → pr_phase p ≠ Setup → pr_phase p ≠ Dialled →
  pr_reader p ≠ Arrived → ∃ b', step name b b'.
Proof.
  intros Hc Hp Hs Hd Hn. pose proof (cl_peer b Hc _ _ Hp) as [_ Hrd Hsu Hl _].
  destruct (pr_reader p) eqn:Er; [naive_solver| | | |done|done].
  - eapply (peer_step name b i p accept); [done|set_solver|]. unfold accept. by rewrite Er.
  - destruct (ReadString (pr_up p)) as [[l rest]|] eqn:Eu; [|by destruct Hl].
    eapply (peer_step name b i p read); [done|set_solver|]. unfold read. by rewrite Er, Eu.
  - eexists. eapply (st_send _ _ i). unfold send. rewrite Hp. cbn. rewrite Er, decide_True; [done|].
    eapply channel_room; [apply Hc|done|done].
Qed.

Lemma peer_moves name b i p :
  clear b → peers b !! i = Some p → pr_phase p ≠ Passed ∨ pr_reader p ≠ Arrived →
  (∃ b', step name b b') ∨ (pr_phase p = Announced ∧ pr_reader p = Arrived ∧ pr_down p = "").
Proof.
  intros Hc Hp Hn. pose proof (cl_peer b Hc _ _ Hp) as [Hph _ _ _ Hd].
  destruct (pr_phase p) eqn:Ep; [| | | |done].
  - left. eapply (peer_step name b i p dial); [done|set_solver|]. unfold dial. by rewrite Ep.
  - left. eapply (peer_step name b i p (announce (name i))); [done|set_solver|].
    unfold announce. by rewrite Ep.
  - destruct (decide (pr_reader p = Arrived)) as [Er|Er];
      [|left; eapply reader_moves; [done|done|by rewrite Ep..|done]].
    destruct (pending b i); [right; naive_solver|]. left. destruct Hd as [[_ Hd]|[? _]]; [|done].
    eapply (peer_step name b i p receive); [done|set_solver|]. unfold receive. rewrite Ep, Hd. reflexivity.
  - left. eapply reader_moves; [done|done|by rewrite Ep..|naive_solver].
Qed.

(** Everyone has arrived: the harness can go on until it has released them. *)
Lemma releaser_moves name b :
  clear b → (∀ i p, peers b !! i = Some p → pr_reader p = Arrived) → releasing b ≠ Returned →
  ∃ b', step name b b'.
Proof.
  intros Hc Hall Hr. destruct (release b) as [b'|] eqn:E; [exists b'; by apply st_release|].
  exfalso. pose proof (cl_releasing b Hc) as Hrel. revert E. unfold release.
  destruct (releasing b) as [conns|[|i conns]| |] eqn:Er; [|done..].
  case_decide as Hlen; [|done]. destruct (arrived b) as [|i rest] eqn:Ea; [|done]. intros _.
  assert (expected b ≤ length conns)%nat; [|lia].
  rewrite <-(length_seq (expected b) 0). apply submseteq_length, NoDup_submseteq; [apply NoDup_seq|].
  intros i [_ Hi]%elem_of_seq. destruct (lookup_lt_is_Some_2 (peers b) i Hi) as [p Hp].
  pose proof (cl_listed b Hc i p Hp (Hall _ _ Hp)) as Hl. unfold collected, open in Hl.
  rewrite Ea, Er in Hl. by destruct Hl.
Qed.

Definition all_through (b : barrier) : Prop :=
  releasing b = Returned ∧ ∀ i p, peers b !! i = Some p → pr_phase p = Passed ∧ pr_reader p = Arrived.

Lemma progress name b : clear b → all_through b ∨ ∃ b', step name b b'.
Proof.
  intros Hc.
  destruct (decide (Exists (λ p, pr_reader p ≠ Arrived) (peers b))) as [Hex|Hall].
  - apply Exists_exists in Hex as (p & (i & Hp)%list_elem_of_lookup & Hn). right.
    destruct (peer_moves name b i p) as [?|(_ & ? & _)]; auto. done.
  - assert (∀ i p, peers b !! i = Some p → pr_reader p = Arrived) as Harr.
    { intros i p Hp. apply dec_stable. intros Hn. apply Hall, Exists_exists. exists p.
      split; [by eapply list_elem_of_lookup_2|done]. }
    destruct (decide (releasing b = Returned)) as [Hr|Hr]; [|right; by apply releaser_moves].
    destruct (decide (Exists (λ p, pr_phase p ≠ Passed) (peers b))) as [Hex|Hpass].
    + apply Exists_exists in Hex as (p & (i & Hp)%list_elem_of_lookup & Hn). right.
      destruct (peer_moves name b i p) as [?|(Ha & _ & Hd)]; auto.
      pose proof (pc_down _ _ (cl_peer b Hc _ _ Hp)) as Hdown. unfold pending in Hdown.
      rewrite Hr, Hd in Hdown. by destruct Hdown as [[_ ?]|[? _]].
    + left. split; [done|]. intros i p Hp. split; [|by eapply Harr]. apply dec_stable. intros Hn.
      apply Hpass, Exists_exists. exists p. split; [by eapply list_elem_of_lookup_2|done].
Qed.

Lemma through_left b : all_through b → left_over b = 0%nat.
Proof.
  intros [Hr Hp]. unfold left_over. rewrite Hr. cbn. rewrite Nat.add_0_r.
  apply sum_zero, Forall_forall. intros p (i & Hi)%list_elem_of_lookup. unfold peer_left.
  by destruct (Hp _ _ Hi) as [-> ->].
Qed.

Lemma init_left n : left_over (newBarrier n) = (8 * n + 2)%nat.
Proof.
  unfold left_over, newBarrier, expected. cbn [peers releasing releaser_left length].
  rewrite length_replicate, sum_replicate. cbn. lia.
Qed.

Lemma nsteps_left name k b b' : nsteps (step name) k b b' → clear b → clear b' ∧ (left_over b = k + left_over b')%nat.
Proof.
  induction 1 as [b|k b1 b2 b3 Hs _ IH]; intros Hc; [done|].
  destruct (IH (step_clear _ _ _ Hc Hs)) as [Hc' Hl]. split; [done|].
  rewrite (step_left _ _ _ Hc Hs), Hl. lia.
Qed.

(** C36. The barrier opens: as long as nothing fails, every run of [n] workers
    and the harness takes at most [8 * n + 2] steps and is never stuck before
    that; after [8 * n + 2] steps, and not earlier, the harness has returned
    and every worker is through. *)
Theorem barrier_opens name n k b :
  nsteps (step name) k (newBarrier n) b →
  (k ≤ 8 * n + 2)%nat ∧ (k = (8 * n + 2)%nat ↔ all_through b) ∧
  (all_through b ∨ ∃ b', step name b b').
Proof.
  intros Hk. destruct (nsteps_left _ _ _ _ Hk (init_clear n)) as [Hc Hl]. rewrite init_left in Hl.
  split; [lia|]. split; [|by apply progress]. split.
  - intros ->. destruct (progress name b Hc) as [?|[b' Hs]]; [done|].
    pose proof (step_left _ _ _ Hc Hs). lia.
  - intros Ht%through_left. lia.
Qed.

End Barrier.
