(* ===== verification/SaferWorker.v ===== *)
(** * The cross-process test worker and the harness that runs it

    src/cmd/saferworker: one process that performs one operation of the client
    package and reports it as one JSON line; and the part of
    src/integration/crossprocess/harness.go that builds its command line and
    environment, runs it, finds and decodes that line and puts the results of
    several workers in order. The rendezvous before the operation is Barrier.v. *)

From Stdlib Require Import Ascii.
From S2P Require Import Prelude Json Libs LockManager Fencing SaferTypes Effects Client Sharing.
From S2P Require Import LocalEnv FenceStore Coordinator MongoStore RemoteGuard Loadgen Barrier.
Import LM Json.
Open Scope string_scope.

(** ** The result line *)

(** [result] of the worker and [WorkerResult] of the harness; [string] holds
    the bytes, the clock is [time.Now().UnixNano()]. *)
Record WorkerResult := mkResult {
  wr_Worker : string;
  wr_Op : string;
  wr_OK : bool;
  wr_Error : string;
  wr_Content : string;
  wr_Version : N;
  wr_ChunkCount : N;
  wr_StartedAt : Z;
  wr_EndedAt : Z }.

Definition zero_WorkerResult : WorkerResult := mkResult "" "" false "" "" 0 0 0 0.

Definition set_OK (ok : bool) (msg : string) (r : WorkerResult) : WorkerResult :=
  mkResult (wr_Worker r) (wr_Op r) ok msg (wr_Content r) (wr_Version r) (wr_ChunkCount r)
    (wr_StartedAt r) (wr_EndedAt r).
Definition set_Content (content : string) (r : WorkerResult) : WorkerResult :=
  mkResult (wr_Worker r) (wr_Op r) (wr_OK r) (wr_Error r) content (wr_Version r) (wr_ChunkCount r)
    (wr_StartedAt r) (wr_EndedAt r).
Definition set_Metadata (version chunkCount : N) (r : WorkerResult) : WorkerResult :=
  mkResult (wr_Worker r) (wr_Op r) (wr_OK r) (wr_Error r) (wr_Content r) version chunkCount
    (wr_StartedAt r) (wr_EndedAt r).
Definition set_StartedAt (t : Z) (r : WorkerResult) : WorkerResult :=
  mkResult (wr_Worker r) (wr_Op r) (wr_OK r) (wr_Error r) (wr_Content r) (wr_Version r)
    (wr_ChunkCount r) t (wr_EndedAt r).
Definition set_EndedAt (t : Z) (r : WorkerResult) : WorkerResult :=
  mkResult (wr_Worker r) (wr_Op r) (wr_OK r) (wr_Error r) (wr_Content r) (wr_Version r)
    (wr_ChunkCount r) (wr_StartedAt r) t.

(** [int64] in [encoding/json]. *)
Definition enc_int (z : Z) : json := JNum (pretty z).
Definition dec_int64 (j : json) (dst : Z) : option Z :=
  match j with JNull => Some dst | JNum l => Atoi l | _ => None end.

(** [json:"error,omitempty"] *)
Definition enc_WorkerResult (r : WorkerResult) : json := JObj (
  [("worker", enc_string (wr_Worker r)); ("op", enc_string (wr_Op r)); ("ok", enc_bool (wr_OK r))] ++
  (if decide (wr_Error r = "") then [] else [("error", enc_string (wr_Error r))]) ++
  [("content", enc_string (wr_Content r)); ("version", enc_uint (wr_Version r));
   ("chunk_count", enc_uint (wr_ChunkCount r)); ("started_at_unix_nano", enc_int (wr_StartedAt r));
   ("ended_at_unix_nano", enc_int (wr_EndedAt r))])%list.

Definition dec_WorkerResult : json → WorkerResult → option WorkerResult := dec_struct [
  ("worker", λ j r, v ← dec_string j (wr_Worker r);
    Some (mkResult v (wr_Op r) (wr_OK r) (wr_Error r) (wr_Content r) (wr_Version r)
      (wr_ChunkCount r) (wr_StartedAt r) (wr_EndedAt r)));
  ("op", λ j r, v ← dec_string j (wr_Op r);
    Some (mkResult (wr_Worker r) v (wr_OK r) (wr_Error r) (wr_Content r) (wr_Version r)
      (wr_ChunkCount r) (wr_StartedAt r) (wr_EndedAt r)));
  ("ok", λ j r, v ← dec_bool j (wr_OK r); Some (set_OK v (wr_Error r) r));
  ("error", λ j r, v ← dec_string j (wr_Error r); Some (set_OK (wr_OK r) v r));
  ("content", λ j r, v ← dec_string j (wr_Content r); Some (set_Content v r));
  ("version", λ j r, v ← dec_uint64 j (wr_Version r); Some (set_Metadata v (wr_ChunkCount r) r));
  ("chunk_count", λ j r, v ← dec_uint64 j (wr_ChunkCount r); Some (set_Metadata (wr_Version r) v r));
  ("started_at_unix_nano", λ j r, v ← dec_int64 j (wr_StartedAt r); Some (set_StartedAt v r));
  ("ended_at_unix_nano", λ j r, v ← dec_int64 j (wr_EndedAt r); Some (set_EndedAt v r))].

Definition Overlapped (a b : WorkerResult) : bool :=
  bool_decide (wr_StartedAt a < wr_EndedAt b)%Z && bool_decide (wr_StartedAt b < wr_EndedAt a)%Z.

(** [strings.ReplaceAll(s, "\r\n", "\n")] *)
Fixpoint replace_crlf (s : string) : string :=
  match s with
  | "" => ""
  | String c r =>
      match r with
      | String c2 r2 =>
          if decide (code c = 13%N ∧ code c2 = 10%N) then String c2 (replace_crlf r2)
          else String c (replace_crlf r)
      | "" => String c ""
      end
  end.

(** [strings.Split(s, "\n")] *)
Fixpoint split_lines (s : string) : list string :=
  match s with
  | "" => [""]
  | String c r =>
      if decide (c = Barrier.newline) then "" :: split_lines r
      else match split_lines r with
        | [] => [String c ""]
        | a :: l => String c a :: l
        end
  end.

(** The lines from the last to the first. *)
Fixpoint first_nonempty (lines : list string) : string :=
  match lines with
  | [] => ""
  | l :: lines => if decide (Loadgen.TrimSpace l ≠ "") then Loadgen.TrimSpace l else first_nonempty lines
  end.

Definition lastNonEmptyLine (s : string) : string :=
  first_nonempty (rev (split_lines (replace_crlf s))).

(** ** Flags *)

Record flags := mkFlags {
  fl_name : string;
  fl_op : string;
  fl_user : string;
  fl_password : string;
  fl_file : string;
  fl_content : string;
  fl_barrier : string;
  fl_db : string;
  fl_pauseAt : string;
  fl_pauseSignal : string;
  fl_stopRenewals : bool;
  fl_disableFencing : bool }.

Definition default_flags : flags := mkFlags "worker" "" "" "" "" "" "" "" "" "" false false.

Definition set_string (name value : string) (fl : flags) : option flags :=
  let '(mkFlags n o u p f c b d pa ps sr df) := fl in
  if decide (name = "name") then Some (mkFlags value o u p f c b d pa ps sr df) else
  if decide (name = "op") then Some (mkFlags n value u p f c b d pa ps sr df) else
  if decide (name = "user") then Some (mkFlags n o value p f c b d pa ps sr df) else
  if decide (name = "password") then Some (mkFlags n o u value f c b d pa ps sr df) else
  if decide (name = "file") then Some (mkFlags n o u p value c b d pa ps sr df) else
  if decide (name = "content") then Some (mkFlags n o u p f value b d pa ps sr df) else
  if decide (name = "barrier") then Some (mkFlags n o u p f c value d pa ps sr df) else
  if decide (name = "db") then Some (mkFlags n o u p f c b value pa ps sr df) else
  if decide (name = "pause-at") then Some (mkFlags n o u p f c b d value ps sr df) else
  if decide (name = "pause-signal") then Some (mkFlags n o u p f c b d pa value sr df) else None.

Definition set_bool (name : string) (value : bool) (fl : flags) : option flags :=
  let '(mkFlags n o u p f c b d pa ps sr df) := fl in
  if decide (name = "stop-renewals-on-pause") then Some (mkFlags n o u p f c b d pa ps value df) else
  if decide (name = "disable-fencing") then Some (mkFlags n o u p f c b d pa ps sr value) else None.

(** [strconv.ParseBool] *)
Definition ParseBool (s : string) : option bool :=
  if decide (s ∈ ["1"; "t"; "T"; "TRUE"; "true"; "True"]) then Some true
  else if decide (s ∈ ["0"; "f"; "F"; "FALSE"; "false"; "False"]) then Some false else None.

(** The name and, after an [=] that is not its first byte, the value. *)
Fixpoint cut_equals (s : string) : string * option string :=
  match s with
  | "" => ("", None)
  | String c r =>
      if decide (c = "="%char) then ("", Some r)
      else let '(n, v) := cut_equals r in (String c n, v)
  end.

(** [FlagSet.parseOne] on the first argument: the end of the flags, a flag
    with its inline value, or an error. *)
Inductive argument := EndOfFlags | Flag (name : string) (value : option string) | BadFlag.

Definition flag_name (s : string) : argument :=
  match s with
  | "" | String "-"%char _ | String "="%char _ => BadFlag
  | String c r => let '(n, v) := cut_equals r in Flag (String c n) v
  end.

Definition argument_of (s : string) : argument :=
  match s with
  | String "-"%char "" => EndOfFlags
  | String "-"%char (String "-"%char "") => EndOfFlags
  | String "-"%char (String "-"%char r) => flag_name r
  | String "-"%char r => flag_name r
  | _ => EndOfFlags
  end.

Definition is_bool (name : string) : bool :=
  bool_decide (name ∈ ["stop-renewals-on-pause"; "disable-fencing"]).

(** [flag.Parse] sets the flags, or ends the process with a status:
    [-h] and [-help] with 0, an error with 2. *)
Inductive parsed := Parsed (fl : flags) | Exits (status : nat).

Fixpoint parse_flags (args : list string) (fl : flags) : parsed :=
  match args with
  | [] => Parsed fl
  | s :: rest =>
      match argument_of s with
      | EndOfFlags => Parsed fl
      | BadFlag => Exits 2
      | Flag name value =>
          if is_bool name then
            match (v ← match value with Some v => ParseBool v | None => Some true end; set_bool name v fl) with
            | Some fl => parse_flags rest fl
            | None => Exits 2
            end
          else match set_string name "" fl with
          | None => Exits (if decide (name ∈ ["help"; "h"]) then 0 else 2)
          | Some _ =>
              match value, rest with
              | Some v, _ => match set_string name v fl with Some fl => parse_flags rest fl | None => Exits 2 end
              | None, v :: rest => match set_string name v fl with Some fl => parse_flags rest fl | None => Exits 2 end
              | None, [] => Exits 2
              end
          end
      end
  end.

(** ** The pause hook *)

Fixpoint HasPrefix (s prefix : string) : bool :=
  match prefix, s with
  | "", _ => true
  | String a prefix, String b s => bool_decide (a = b) && HasPrefix s prefix
  | String _ _, "" => false
  end.

(** [strings.Contains] *)
Fixpoint Contains (s sub : string) : bool :=
  HasPrefix s sub || match s with "" => false | String _ r => Contains r sub end.

(** The hook [installPauseHook] sets, with its [sync.Once]. *)
Record pause_hook := mkHook {
  hk_tag : string; hk_signalAddress : string; hk_stopRenewals : bool; hk_done : bool }.

Inductive hook_action := SuspendHeartbeats | AnnounceAndWait (address fired : string).

Definition installPauseHook (tag signalAddress : string) (stopRenewals : bool) : pause_hook :=
  mkHook tag signalAddress stopRenewals false.

(** The hook is called at [fired]. *)
Definition fire (hk : pause_hook) (fired : string) : pause_hook * list hook_action :=
  if negb (Contains fired (hk_tag hk)) then (hk, []) else
  if hk_done hk then (hk, []) else
  (mkHook (hk_tag hk) (hk_signalAddress hk) (hk_stopRenewals hk) true,
   (if hk_stopRenewals hk then [SuspendHeartbeats] else []) ++
   (if decide (hk_signalAddress hk = "") then [] else [AnnounceAndWait (hk_signalAddress hk) fired]))%list.

(** [announceAndWait] on an open connection: the line it sends, and what it
    makes of the line it gets back. *)
Definition announcement (fired : string) : string := Barrier.line ("paused " +:+ fired).

Definition released (release : string) : result unit :=
  if decide (Loadgen.TrimSpace release ≠ "resume")
  then Err (EMsg ("unexpected resume message " +:+ strconv_Quote release)) else Ok ().

(** [PausedWorker.Resume] writes this line. *)
Definition resume_line : string := Barrier.line "resume".

(** ** The worker *)

(** What [run] leaves in the result it was given, and the error it returns. *)
Abbreviation run_outcome := (WorkerResult * option error)%type (only parsing).

Section saferworker.
Context `{UuidLib} `{Userlib} `{!UuidNew}.

(** What a worker process asks of its libraries and of the world. *)
Inductive call : Type → Type :=
  | OpenStore (cfg : MongoStore.Config) : call (result N)
  | CloseStore (client : N) : call unit
  | UseStorage (client : N) : call unit
  | DialBackend (cfg : Remote.Config) : call (result N)
  | CloseBackend (conn : N) : call unit
  | UseCoordination (conn : N) : call unit
  | Client {A} (p : M A) : call (result A)
  | WaitAtBarrier (address name : string) : call (result unit)
  | Now : call Z
  | DisableFenceValidation : call unit
  | InstallPauseHook (tag signalAddress : string) (stopRenewals : bool) : call unit.

Definition X (S A : Type) : Type := S → S * A.
#[export] Instance X_ret S : MRet (X S) := λ A a s, (s, a).
#[export] Instance X_bind S : MBind (X S) := λ A B f m s, let '(s, a) := m s in f a s.

Context (ParseDuration : string → result Z).
Context {S : Type} (h : ∀ A, call A → S → S * A).

Definition ask {A} (c : call A) : X S A := h A c.

Definition deferred {A} (cleanup : X S unit) (body : X S A) : X S A :=
  x ← body; _ ← cleanup; mret x.

Definition or_return {A} (res : WorkerResult) (what : error → error) (r : result A)
    (k : A → X S run_outcome) : X S run_outcome :=
  match r with Ok a => k a | Err e => mret (res, Some (what e)) end.

(** The operation between the two clock readings. *)
Definition perform (res : WorkerResult) (op filename content : string) (user : User) : X S run_outcome :=
  let snapshot res :=
    m ← ask (Client (ReadFileMetadata user filename));
    or_return res (EWrap "ReadFileMetadata") m (λ m, mret (set_Metadata m.1 m.2 res, None)) in
  if decide (op = "append") then
    r ← ask (Client (AppendToFile user filename (Some content)));
    or_return res (EWrap "AppendToFile") r (λ _, snapshot res)
  else if decide (op = "store") then
    r ← ask (Client (StoreFile user filename (Some content)));
    or_return res (EWrap "StoreFile") r (λ _, snapshot res)
  else if decide (op = "load") then
    r ← ask (Client (LoadFile user filename));
    or_return res (EWrap "LoadFile") r (λ loaded, snapshot (set_Content (bytes_of loaded) res))
  else if decide (op = "metadata") then snapshot res
  else mret (res, Some (EMsg ("unknown op " +:+ strconv_Quote op))).

Definition timed (res : WorkerResult) (body : WorkerResult → X S run_outcome) : X S run_outcome :=
  started ← ask Now;
  r ← body (set_StartedAt started res);
  ended ← ask Now;
  mret (set_EndedAt ended r.1, r.2).

Definition set_Database (database : string) (c : MongoStore.Config) : MongoStore.Config :=
  if decide (database ≠ "")
  then MongoStore.mkConfig (cfg_URI c) database (cfg_Timeout c) (cfg_TransactionTimeout c) else c.

Definition configured {A} (res : WorkerResult) (what name : string) (r : result (option A))
    (k : A → X S run_outcome) : X S run_outcome :=
  or_return res (EWrap what) r (λ c,
  match c with None => mret (res, Some (EMsg (name +:+ " is not set"))) | Some c => k c end).

Definition run_worker (Getenv : string → string) (res : WorkerResult)
    (op username password filename content barrier database : string) : X S run_outcome :=
  configured res "mongo configuration" "SAFER_MONGO_URI"
    (MongoStore.ConfigFromEnv ParseDuration Getenv) (λ mongoCfg,
  store ← ask (OpenStore (set_Database database mongoCfg));
  or_return res (EWrap "opening mongo") store (λ store,
  deferred (ask (CloseStore store)) (
  _ ← ask (UseStorage store);
  configured res "coordinator configuration" "SAFER_COORDINATOR_ADDR"
    (Remote.ConfigFromEnv ParseDuration Getenv) (λ coordCfg,
  backend ← ask (DialBackend coordCfg);
  or_return res (EWrap "dialing coordinator") backend (λ backend,
  deferred (ask (CloseBackend backend)) (
  _ ← ask (UseCoordination backend);
  user ← ask (Client (GetUser username password));
  or_return res (EWrap "GetUser") user (λ user,
  arrived ← (if decide (barrier ≠ "") then ask (WaitAtBarrier barrier (wr_Worker res)) else mret (Ok ()));
  or_return res (EWrap "barrier") arrived (λ _,
  timed res (λ res, perform res op filename content user))))))))).

(** The result [main] reports. *)
Definition report (r : run_outcome) : WorkerResult :=
  match r.2 with
  | Some e => set_OK false (error_Error e) r.1
  | None => set_OK true (wr_Error r.1) r.1
  end.

(** [main] up to the return of [run]. *)
Definition run_flags (Getenv : string → string) (fl : flags) : X S run_outcome :=
  _ ← (if fl_disableFencing fl then ask DisableFenceValidation else mret ());
  _ ← (if decide (fl_pauseAt fl ≠ "")
       then ask (InstallPauseHook (fl_pauseAt fl) (fl_pauseSignal fl) (fl_stopRenewals fl)) else mret ());
  run_worker Getenv (mkResult (fl_name fl) (fl_op fl) false "" "" 0 0 0 0) (fl_op fl) (fl_user fl)
    (fl_password fl) (fl_file fl) (fl_content fl) (fl_barrier fl) (fl_db fl).

(** Exit status and standard output. *)
Definition saferworker (Getenv : string → string) (args : list string) : X S (nat * string) :=
  match parse_flags args default_flags with
  | Exits status => mret (status, "")
  | Parsed fl =>
      r ← run_flags Getenv fl;
      match Marshal (enc_WorkerResult (report r)) with
      | Err _ => mret (2%nat, "")
      | Ok encoded => mret (0%nat, Barrier.line encoded)
      end
  end.

(** ** The harness *)

Record WorkerSpec := mkSpec {
  ws_Name : string;
  ws_Op : string;
  ws_User : string;
  ws_Password : string;
  ws_File : string;
  ws_Content : string;
  ws_PauseAt : string;
  ws_StopRenewalsOnPause : bool;
  ws_DisableFencing : bool }.

Record Cluster := mkCluster { MongoURI : string; Database : string; CoordAddress : string }.

(** [workerCommand]: the arguments, and the environment; of two settings of a
    variable the later one counts. *)
Definition worker_args (c : Cluster) (spec : WorkerSpec) (barrierAddress pauseAddress : string)
    : list string :=
  (["-name"; ws_Name spec; "-op"; ws_Op spec; "-user"; ws_User spec; "-password"; ws_Password spec;
    "-file"; ws_File spec; "-content"; ws_Content spec; "-barrier"; barrierAddress; "-db"; Database c] ++
   (if decide (ws_PauseAt spec ≠ "")
    then ["-pause-at"; ws_PauseAt spec; "-pause-signal"; pauseAddress] else []) ++
   (if ws_StopRenewalsOnPause spec then ["-stop-renewals-on-pause"] else []) ++
   (if ws_DisableFencing spec then ["-disable-fencing"] else []))%list.

Definition worker_env (c : Cluster) (Getenv : string → string) (k : string) : string :=
  if decide (k = "SAFER_COORDINATOR_ADDR") then CoordAddress c
  else if decide (k = "SAFER_MONGO_DB") then Database c
  else if decide (k = "SAFER_MONGO_URI") then MongoURI c
  else Getenv k.

(** What the harness makes of the standard output; [stderr] is for messages
    only, and the text of a JSON error is left out. *)
Definition decode_output (stdout stderr : string) : result WorkerResult :=
  let line := lastNonEmptyLine stdout in
  if decide (line = "")
  then Err (EMsg ("worker produced no result line" +:+ Barrier.line "" +:+ Barrier.line "stderr:" +:+ stderr))
  else of_option ("decoding " +:+ strconv_Quote line) (Unmarshal dec_WorkerResult zero_WorkerResult line).

Definition runWorker (c : Cluster) (Getenv : string → string) (stderr : string) (spec : WorkerSpec)
    (barrierAddress : string) : X S (result WorkerResult) :=
  '(status, stdout) ← saferworker (worker_env c Getenv) (worker_args c spec barrierAddress "");
  mret (if decide (status ≠ 0%nat)
    then Err (EMsg ("running worker: exit status " +:+ pretty (N.of_nat status) +:+
      Barrier.line "" +:+ Barrier.line "stdout:" +:+ stdout +:+ Barrier.line "" +:+ Barrier.line "stderr:" +:+ stderr))
    else decode_output stdout stderr).

End saferworker.

(** The loop of [RunConcurrently]: the outcomes come in any order; the first
    error ends the test. *)
Fixpoint collect (outcomes : list (nat * result WorkerResult)) (results : list WorkerResult)
    : result (list WorkerResult) :=
  match outcomes with
  | [] => Ok results
  | (i, Ok r) :: outcomes => collect outcomes (<[i := r]> results)
  | (_, Err e) :: _ => Err e
  end.

Definition RunConcurrently_results (n : nat) (outcomes : list (nat * result WorkerResult))
    : result (list WorkerResult) :=
  collect outcomes (replicate n zero_WorkerResult).
