(* ===== verification/SaferWorkerThms.v ===== *)
(** * From the worker's operation to the harness's result

    The command line the harness builds parses into what it meant, and the line
    a worker prints is found and decodes to the result it reports. *)

From Stdlib Require Import Ascii.
From S2P Require Import Prelude Json JsonThms Libs LockManager Fencing SaferTypes Effects Client Sharing.
From S2P Require Import LocalEnv FileModel FileThms FenceStore Coordinator MongoStore RemoteGuard Loadgen.
From S2P Require Import Barrier SaferWorker.
Import LM Json JsonThms.
Open Scope string_scope.

(** ** One line *)

(** No control characters. *)
Fixpoint printable (s : string) : bool :=
  match s with "" => true | String c r => (32 <=? code c)%N && printable r end.

Lemma printable_app a b : printable (a +:+ b) = printable a && printable b.
Proof. induction a as [|c a IH]; [done|].
  change (String c a +:+ b) with (String c (a +:+ b)). cbn [printable]. by rewrite IH, andb_assoc. Qed.

Lemma quote_ascii_printable c : printable (quote_ascii c) = true.
Proof. by destruct c as [[] [] [] [] [] [] [] []]. Qed.

Lemma hex_digit_printable n : (n < 16)%N → (32 <=? code (hex_digit n))%N = true.
Proof.
  intros Hn. unfold hex_digit. apply N.leb_le. destruct (N.ltb_spec n 10); rewrite code_chr; lia.
Qed.

(** The later bytes of a rune. *)
Lemma utf8_tail_high s :
  match utf8_width s, s with
  | 2%nat, String _ (String c2 _) => printable (String c2 "")
  | 3%nat, String _ (String c2 (String c3 _)) => printable (String c2 (String c3 ""))
  | 4%nat, String _ (String c2 (String c3 (String c4 _))) =>
      printable (String c2 (String c3 (String c4 "")))
  | _, _ => true
  end = true.
Proof.
  destruct s as [|c [|c2 [|c3 [|c4 r]]]]; try done; unfold utf8_width, in_range, printable;
    repeat case_match; try done;
    repeat match goal with H : context [(_ || _)%bool = true] |- _ => rewrite !orb_true_iff in H
      | H : (_ && _)%bool = true |- _ => apply andb_true_iff in H as [??] end;
    rewrite ?andb_true_r, ?andb_true_iff, ?N.leb_le in *;
    repeat match goal with |- _ ∧ _ => split end; lia || naive_solver lia.
Qed.

Lemma quote_body_printable n : ∀ s, (String.length s ≤ n)%nat → printable (quote_body s) = true.
Proof.
  induction n as [|n IH]; intros [|c r] Hlen; cbn in Hlen; try lia; try done.
  pose proof (utf8_tail_high (String c r)) as Ht. cbn [quote_body].
  destruct (N.ltb_spec (code c) 128) as [|Hc].
  { by rewrite printable_app, quote_ascii_printable, IH by lia. }
  assert ((32 <=? code c)%N = true) as Hc' by (apply N.leb_le; lia).
  destruct (utf8_width (String c r)) as [|[|[|[|[|]]]]]; try (by rewrite printable_app, IH by lia);
    destruct r as [|c2 r]; try done.
  - cbn in *. rewrite andb_true_r in Ht. rewrite Hc', Ht, IH by lia. done.
  - destruct r as [|c3 r]; [by rewrite printable_app, IH by (cbn in *; lia)|].
    destruct (is_line_sep _).
    + rewrite printable_app. cbn [printable String.append andb] in *.
      rewrite hex_digit_printable, IH; [done|cbn in Hlen; lia|by apply N.mod_lt].
    + cbn in *. rewrite andb_true_r, andb_true_iff in Ht. destruct Ht as [Ht2 Ht3].
      rewrite Hc', Ht2, Ht3, IH by lia. done.
  - destruct r as [|c3 [|c4 r]]; [by rewrite printable_app, IH by (cbn in *; lia)..|].
    cbn in *. rewrite andb_true_r, !andb_true_iff in Ht. destruct Ht as (Ht2 & Ht3 & Ht4).
    rewrite Hc', Ht2, Ht3, Ht4, IH by lia. done.
Qed.

Lemma quote_printable s : printable (quote s) = true.
Proof. unfold quote. cbn. rewrite printable_app, (quote_body_printable (String.length s)) by done. done. Qed.

Lemma digits_printable s : all_digits s = true → printable s = true.
Proof.
  induction s as [|c s IH]; [done|]. cbn. intros [Hc Hs]%andb_true_iff. rewrite (IH Hs), andb_true_r.
  unfold is_digit, in_range in Hc. rewrite andb_true_iff, !N.leb_le in Hc. apply N.leb_le. lia.
Qed.

Lemma concat_printable l : Forall (λ s, printable s = true) l → printable (concat_sep "," l) = true.
Proof.
  induction 1 as [|s l Hs Hl IH]; [done|]. destruct l as [|s' l]; [done|].
  rewrite concat_sep_cons, !printable_app, Hs, IH. done.
Qed.

Lemma print_printable v : wf v → printable (print v) = true.
Proof.
  induction v as [|[]|l|s|vs IH|kvs IH] using json_ind_strong; intros Hwf; cbn [print]; try done.
  - destruct Hwf as [n ->]. apply digits_printable, pretty_all_digits.
  - apply quote_printable.
  - rewrite !printable_app, concat_printable; [done|]. apply Forall_map.
    cbn in Hwf. rewrite foldr_and_Forall in Hwf. eapply Forall_impl; [apply Forall_and; split; [exact IH|exact Hwf]|].
    naive_solver.
  - rewrite !printable_app, concat_printable; [done|]. apply Forall_map.
    cbn in Hwf. rewrite (foldr_and_Forall (λ kv, valid_utf8 kv.1 = true ∧ wf kv.2)) in Hwf.
    eapply Forall_impl; [apply Forall_and; split; [exact IH|exact Hwf]|].
    intros kv [Hkv [_ Hw]]. rewrite !printable_app, quote_printable, Hkv by done. done.
Qed.

Lemma replace_crlf_line s : printable s = true → replace_crlf (Barrier.line s) = Barrier.line s.
Proof.
  unfold Barrier.line. induction s as [|c s IH]; [done|]. cbn [printable]. intros [Hc Hs]%andb_true_iff.
  apply N.leb_le in Hc. change (String c s +:+ ?x) with (String c (s +:+ x)). specialize (IH Hs).
  destruct (s +:+ String Barrier.newline "") as [|c2 r]; [done|]. cbn [replace_crlf].
  rewrite decide_False by lia. f_equal. exact IH.
Qed.

Lemma split_lines_line s : printable s = true → split_lines (Barrier.line s) = [s; ""].
Proof.
  unfold Barrier.line. induction s as [|c s IH]; [done|]. cbn [printable]. intros [Hc Hs]%andb_true_iff.
  apply N.leb_le in Hc. change (String c s +:+ ?x) with (String c (s +:+ x)). cbn [split_lines].
  rewrite decide_False, (IH Hs); [done|]. intros ->. by vm_compute in Hc.
Qed.

Lemma rev_string_app a b : Loadgen.rev_string (a +:+ b) = Loadgen.rev_string b +:+ Loadgen.rev_string a.
Proof.
  unfold Loadgen.rev_string. assert (∀ x y, String.list_ascii_of_string (x +:+ y) =
    (String.list_ascii_of_string x ++ String.list_ascii_of_string y)%list) as Happ.
  { intros x y. induction x as [|c x IH]; [done|]. change (String c x +:+ y) with (String c (x +:+ y)).
    cbn. by rewrite IH. }
  rewrite Happ, rev_app_distr. generalize (rev (String.list_ascii_of_string b)). clear Happ.
  intros l. induction l as [|c l IH]; [done|]. cbn. rewrite IH. done.
Qed.

Lemma rev_string_involutive s : Loadgen.rev_string (Loadgen.rev_string s) = s.
Proof.
  unfold Loadgen.rev_string.
  by rewrite String.list_ascii_of_string_of_list_ascii, rev_involutive, String.string_of_list_ascii_of_string.
Qed.

Lemma trim_left_none n ps s : Loadgen.first_strip ps s = None → Loadgen.trim_left n ps s = s.
Proof. destruct n; [done|]. cbn. by intros ->. Qed.

(** An object has no space around it. *)
Lemma TrimSpace_braces s : Loadgen.TrimSpace ("{" +:+ s +:+ "}") = "{" +:+ s +:+ "}".
Proof.
  unfold Loadgen.TrimSpace. rewrite (trim_left_none _ Loadgen.spaces) by done.
  rewrite trim_left_none; [apply rev_string_involutive|]. rewrite !rev_string_app. done.
Qed.

Lemma lastNonEmptyLine_object kvs :
  wf (JObj kvs) → lastNonEmptyLine (Barrier.line (print (JObj kvs))) = print (JObj kvs).
Proof.
  intros Hwf. pose proof (print_printable _ Hwf) as Hp. unfold lastNonEmptyLine.
  rewrite replace_crlf_line, split_lines_line by done. cbn [rev app first_nonempty].
  rewrite decide_False by (intros Hn; by apply Hn). cbn [print].
  rewrite !TrimSpace_braces, decide_True by done. done.
Qed.

(** ** The result *)

Definition int64_max : Z := 9223372036854775807.

Lemma int_codec zero z : (0 ≤ z ≤ int64_max)%Z → codec_ok 0 enc_int dec_int64 zero z.
Proof.
  intros Hz. assert (pretty z = pretty (Z.to_N z)) as Hp by (by destruct z as [|p|p]; [| |lia]).
  split; [exists (Z.to_N z); exact Hp|done|]. cbn [dec_int64 enc_int]. rewrite Hp.
  pose proof (ParseUint_pretty 9223372036854775807 (Z.to_N z)) as Hparse.
  destruct (pretty_head (Z.to_N z)) as (c & d & Hcd & Hc). rewrite Hcd in *.
  assert (Atoi (String c d) = Z.of_N <$> ParseUint 9223372036854775807 (String c d)) as ->.
  { destruct c as [[] [] [] [] [] [] [] []]; done. }
  rewrite Hparse by (unfold int64_max in Hz; lia). cbn. f_equal. lia.
Qed.

(** What survives the way to the harness: text that is UTF-8, a clock past 1970. *)
Record reportable (r : WorkerResult) : Prop := {
  rp_Worker : valid_utf8 (wr_Worker r) = true;
  rp_Op : valid_utf8 (wr_Op r) = true;
  rp_Error : valid_utf8 (wr_Error r) = true;
  rp_Content : valid_utf8 (wr_Content r) = true;
  rp_Version : (wr_Version r ≤ max_uint64)%N;
  rp_ChunkCount : (wr_ChunkCount r ≤ max_uint64)%N;
  rp_StartedAt : (0 ≤ wr_StartedAt r ≤ int64_max)%Z;
  rp_EndedAt : (0 ≤ wr_EndedAt r ≤ int64_max)%Z }.

Lemma result_codec r :
  reportable r → codec_ok 1 enc_WorkerResult dec_WorkerResult zero_WorkerResult r.
Proof.
  intros [Hw Ho He Hc Hv Hk Hs Hd]. destruct r as [w op ok e content v k started ended]. cbn in *.
  pose proof (uint_codec 0 v Hv) as [Wv _ Dv]. pose proof (uint_codec 0 k Hk) as [Wk _ Dk].
  pose proof (int_codec 0 started Hs) as [Ws _ Ds]. pose proof (int_codec 0 ended Hd) as [Wd _ Dd].
  assert (enc_WorkerResult (mkResult w op ok e content v k started ended) = JObj (
    [("worker", enc_string w); ("op", enc_string op); ("ok", enc_bool ok)] ++
    (if decide (e = "") then [] else [("error", enc_string e)]) ++
    [("content", enc_string content); ("version", enc_uint v); ("chunk_count", enc_uint k);
     ("started_at_unix_nano", enc_int started); ("ended_at_unix_nano", enc_int ended)])%list) as Henc by done.
  split; rewrite Henc; clear Henc; destruct (decide (e = "")) as [->|Hne]; cbn [app].
  1,2: cbn [wf foldr fst snd]; split_and!; first [done|assumption].
  1,2: cbn [height foldr snd enc_string enc_bool enc_uint enc_int]; lia.
  all: unfold dec_WorkerResult, dec_struct.
  all: repeat lazymatch goal with |- dec_fields _ (_ :: _) _ = _ =>
    eapply dec_fields_step; [reflexivity|
      cbn -[dec_uint64 dec_int64 enc_uint enc_int]; rewrite ?Dv, ?Dk, ?Ds, ?Dd; reflexivity|];
    cbn -[dec_fields enc_uint enc_int enc_string dec_string] end.
  all: reflexivity.
Qed.

(** ** The command line *)

(** What the harness means by a specification. *)
Definition spec_flags (c : Cluster) (spec : WorkerSpec) (barrierAddress pauseAddress : string) : flags :=
  mkFlags (ws_Name spec) (ws_Op spec) (ws_User spec) (ws_Password spec) (ws_File spec) (ws_Content spec)
    barrierAddress (Database c) (ws_PauseAt spec)
    (if decide (ws_PauseAt spec ≠ "") then pauseAddress else "")
    (ws_StopRenewalsOnPause spec) (ws_DisableFencing spec).

(** Values are never mistaken for flags, whatever they are. *)
Lemma parse_worker_args c spec barrierAddress pauseAddress :
  parse_flags (worker_args c spec barrierAddress pauseAddress) default_flags =
    Parsed (spec_flags c spec barrierAddress pauseAddress).
Proof.
  destruct spec as [n o u p f x pauseAt [] []]; unfold worker_args, spec_flags; cbn [ws_Name ws_Op ws_User
    ws_Password ws_File ws_Content ws_PauseAt ws_StopRenewalsOnPause ws_DisableFencing app];
    (destruct (decide (pauseAt ≠ "")) as [Hp|Hp]; [|apply dec_stable in Hp as ->]); vm_compute; reflexivity.
Qed.

(** ** The report *)

Section reports.
Context `{UuidLib} `{Userlib} `{!UuidNew}.
Context (ParseDuration : string → result Z).

Section any_environment.
Context {S : Type} (h : ∀ A, call A → S → S * A).

(** Whatever it is answered, [m] reports under the name and operation of [res]. *)
Definition names_kept (res : WorkerResult) (m : X S run_outcome) : Prop :=
  ∀ s, wr_Worker (m s).2.1 = wr_Worker res ∧ wr_Op (m s).2.1 = wr_Op res.

Lemma kept_ret res res' e :
  wr_Worker res' = wr_Worker res → wr_Op res' = wr_Op res → names_kept res (mret (res', e)).
Proof. by intros ? ? s. Qed.

Lemma kept_bind {A} res (m : X S A) (k : A → X S run_outcome) :
  (∀ a, names_kept res (k a)) → names_kept res (m ≫= k).
Proof. intros Hk s. unfold mbind, X_bind. destruct (m s) as [s' a]. apply Hk. Qed.

Lemma kept_or_return {A} res what (r : result A) k :
  (∀ a, names_kept res (k a)) → names_kept res (or_return res what r k).
Proof. intros Hk. destruct r; [apply Hk|by apply kept_ret]. Qed.

Lemma kept_configured {A} res what name (r : result (option A)) k :
  (∀ a, names_kept res (k a)) → names_kept res (configured res what name r k).
Proof. intros Hk. apply kept_or_return. intros [a|]; [apply Hk|by apply kept_ret]. Qed.

Lemma kept_deferred res cleanup (body : X S run_outcome) :
  names_kept res body → names_kept res (deferred cleanup body).
Proof.
  intros Hb s. unfold deferred, mbind, X_bind. specialize (Hb s). destruct (body s) as [s1 r].
  by destruct (cleanup s1).
Qed.

Lemma kept_perform res op f x user : names_kept res (perform h res op f x user).
Proof.
  assert (∀ res', wr_Worker res' = wr_Worker res → wr_Op res' = wr_Op res →
    names_kept res (m ← ask h (Client (ReadFileMetadata user f));
      or_return res' (EWrap "ReadFileMetadata") m (λ m, mret (set_Metadata m.1 m.2 res', None)))) as Hsnap.
  { intros res' Hw Ho. apply kept_bind. intros [m|e]; by apply kept_ret. }
  unfold perform. repeat case_decide;
    [apply kept_bind; intros r; apply kept_or_return; intros a; by apply Hsnap..|by apply Hsnap|by apply kept_ret].
Qed.

Lemma kept_timed res body :
  (∀ t, names_kept res (body (set_StartedAt t res))) → names_kept res (timed h res body).
Proof.
  intros Hb s. unfold timed, mbind, X_bind. destruct (ask h Now s) as [s1 t]. specialize (Hb t s1).
  destruct (body (set_StartedAt t res) s1) as [s2 r]. by destruct (ask h Now s2).
Qed.

Lemma kept_run Getenv res op u p f x b db :
  names_kept res (run_worker ParseDuration h Getenv res op u p f x b db).
Proof.
  apply kept_configured. intros cfg. apply kept_bind. intros store. apply kept_or_return. intros n.
  apply kept_deferred, kept_bind. intros _. apply kept_configured. intros cfg'. apply kept_bind.
  intros backend. apply kept_or_return. intros m. apply kept_deferred, kept_bind. intros _.
  apply kept_bind. intros user. apply kept_or_return. intros usr. apply kept_bind. intros arrived.
  apply kept_or_return. intros _. apply kept_timed. intros t. apply (kept_perform (set_StartedAt t res)).
Qed.

Lemma kept_run_flags Getenv fl :
  names_kept (mkResult (fl_name fl) (fl_op fl) false "" "" 0 0 0 0) (run_flags ParseDuration h Getenv fl).
Proof. apply kept_bind. intros _. apply kept_bind. intros _. apply kept_run. Qed.

(** The line is found and decoded. *)
Lemma runWorker_report c Getenv stderr spec barrierAddress s s' r :
  run_flags ParseDuration h (worker_env c Getenv) (spec_flags c spec barrierAddress "") s = (s', r) →
  reportable (report r) →
  runWorker ParseDuration h c Getenv stderr spec barrierAddress s = (s', Ok (report r)).
Proof.
  intros Hrun Hrep.
  unfold runWorker, saferworker. rewrite parse_worker_args. unfold mbind at 1, X_bind at 1.
  unfold mbind at 1, X_bind at 1. rewrite Hrun. cbn [Marshal mret X_ret].
  cbv beta iota zeta delta [X_ret mret]. rewrite decide_False by naive_solver.
  pose proof (result_codec _ Hrep) as Hcodec. unfold decode_output.
  assert (lastNonEmptyLine (Barrier.line (print (enc_WorkerResult (report r)))) =
    print (enc_WorkerResult (report r))) as -> by (apply lastNonEmptyLine_object, Hcodec).
  rewrite decide_False by (unfold enc_WorkerResult; cbn [print]; by intros ?).
  by erewrite (Unmarshal_print 1) by (done || vm_compute; done).
Qed.

(** C37. The report reaches the harness: whatever the worker's libraries, the
    coordinator and the database answer, on every path, success or error, the
    harness that starts a worker from a specification gets back, from the
    command line over flag parsing, the printed line, the search for the last
    line and the JSON decoder, exactly the result the worker reports: under the
    name and operation of the specification, marked OK precisely when [run]
    returned no error, with that error's text otherwise. The result must be
    reportable: name, operation, error text and loaded content are valid UTF-8,
    which encoding/json would otherwise replace, and the clock is past 1970. *)
Theorem report_reaches_harness c Getenv stderr spec barrierAddress s s' r :
  run_flags ParseDuration h (worker_env c Getenv) (spec_flags c spec barrierAddress "") s = (s', r) →
  reportable (report r) →
  runWorker ParseDuration h c Getenv stderr spec barrierAddress s = (s', Ok (report r)) ∧
  wr_Worker (report r) = ws_Name spec ∧ wr_Op (report r) = ws_Op spec ∧
  (wr_OK (report r) = true ↔ r.2 = None) ∧ ∀ e, r.2 = Some e → wr_Error (report r) = error_Error e.
Proof.
  intros Hrun Hrep. split.
  - by apply runWorker_report.
  - assert (wr_Worker r.1 = ws_Name spec ∧ wr_Op r.1 = ws_Op spec) as [Hw Ho].
    { pose proof (kept_run_flags (worker_env c Getenv) (spec_flags c spec barrierAddress "") s) as Hk.
      by rewrite Hrun in Hk. }
    destruct r as [res [e|]]; cbn in *; (split; [done|]; split; [done|]); split; naive_solver.
Qed.

End any_environment.

End reports.

(** ** The order of the results *)

Lemma collect_lookup outcomes base i :
  NoDup outcomes.*1 → (∀ j r, (j, r) ∈ outcomes → ∃ x, r = Ok x) →
  ∃ results, collect outcomes base = Ok results ∧ length results = length base ∧
    (∀ x, (i < length base)%nat → (i, Ok x) ∈ outcomes → results !! i = Some x) ∧
    (i ∉ outcomes.*1 → results !! i = base !! i).
Proof.
  revert base. induction outcomes as [|[j r] outcomes IH]; intros base Hnd Hok; [exists base; set_solver|].
  apply NoDup_cons in Hnd as [Hj Hnd]. destruct (Hok j r) as [x ->]; [by left|]. cbn [collect].
  destruct (IH (<[j := x]> base) Hnd) as (results & Hc & Hlen & Hin & Hout); [set_solver|].
  rewrite length_insert in *. exists results. split_and!; [done|done| |].
  - intros y Hi [Hy|Hy]%elem_of_cons; [|by apply Hin]. simplify_eq. rewrite Hout by done.
    by apply list_lookup_insert_eq.
  - intros Hni. rewrite Hout by set_solver. apply list_lookup_insert_ne. set_solver.
Qed.

(** Whatever the order in which the workers finish, their results come in the
    order of the specifications. *)
Lemma results_in_order results outcomes :
  outcomes ≡ₚ imap (λ i r, (i, Ok r)) results →
  RunConcurrently_results (length results) outcomes = Ok results.
Proof.
  intros Hp. assert ((imap (λ i r, (i, @Ok WorkerResult r)) results).*1 = seq 0 (length results)) as Hfst.
  { rewrite fmap_imap. apply list_eq. intros i. rewrite list_lookup_imap. cbn.
    destruct (decide (i < length results)%nat) as [Hi|Hi].
    - rewrite lookup_seq_lt by done. destruct (lookup_lt_is_Some_2 results i Hi) as [r ->]. done.
    - rewrite lookup_seq_ge, (lookup_ge_None_2 results) by lia. done. }
  assert (NoDup outcomes.*1) as Hnd by (rewrite Hp, Hfst; apply NoDup_seq).
  assert (∀ j r, (j, r) ∈ outcomes → ∃ x, r = Ok x) as Hok.
  { intros j r. rewrite Hp. intros (i & x & Heq & _)%elem_of_lookup_imap_1. naive_solver. }
  destruct (collect_lookup outcomes (replicate (length results) zero_WorkerResult) 0 Hnd Hok)
    as (out & Hc & Hlen & _). rewrite length_replicate in Hlen.
  unfold RunConcurrently_results. rewrite Hc. f_equal. apply list_eq_same_length with (length results); [done..|].
  intros i x y Hi Hx Hy.
  destruct (collect_lookup outcomes (replicate (length results) zero_WorkerResult) i Hnd Hok)
    as (out' & Hc' & _ & Hin & _). rewrite Hc in Hc'. injection Hc' as <-.
  specialize (Hin y). rewrite length_replicate in Hin.
  assert (out !! i = Some y) as Hy'; [|congruence]. apply Hin; [done|]. rewrite Hp.
  eapply elem_of_lookup_imap. by exists i, y.
Qed.

(** ** Pausing *)

Fixpoint fires (hk : pause_hook) (tags : list string) : list hook_action :=
  match tags with [] => [] | t :: tags => let '(hk', acts) := fire hk t in (acts ++ fires hk' tags)%list end.

Lemma fires_done hk tags : hk_done hk = true → fires hk tags = [].
Proof.
  intros Hd. induction tags as [|t tags IH]; [done|]. cbn. unfold fire. rewrite Hd.
  by destruct (Contains t (hk_tag hk)).
Qed.

(** The hook pauses at the first point whose tag contains the one asked for,
    and never again; the harness's resume line is the one it waits for. *)
Lemma pauses_once tag address stop before fired after :
  Forall (λ t, Contains t tag = false) before → Contains fired tag = true → address ≠ "" →
  fires (installPauseHook tag address stop) (before ++ fired :: after) =
    ((if stop then [SuspendHeartbeats] else []) ++ [AnnounceAndWait address fired])%list ∧
  released resume_line = Ok ().
Proof.
  intros Hb Hf Ha. split; [|reflexivity]. induction Hb as [|t before Ht Hb IH].
  - cbn. unfold fire. cbn. rewrite Hf. cbn. rewrite decide_False by done.
    rewrite fires_done by done. by rewrite app_nil_r.
  - cbn. unfold fire at 1. cbn. by rewrite Ht.
Qed.
