(* ===== verification/SaferWorkerRemote.v ===== *)
(** * A worker process over the deployment

    The environment of a saferworker process: its configuration leads it to the
    MongoDB database and the coordinator of the test cluster, [UseStorage] and
    [UseCoordination] put the client package on them, and the calls of the
    client then run in the distributed deployment of RemoteEnv. A worker does
    to the file what it was asked to, and the harness reads that back. *)

From S2P Require Import Prelude Json JsonThms Libs LockManager LockManagerInv LockManagerSeq Fencing SaferTypes.
From S2P Require Import Effects Client Sharing Protocol LocalEnv FileModel FileThms FenceStore Coordinator.
From S2P Require Import MongoStore MongoThms RemoteGuard RemoteEnv RemoteRefines Loadgen Barrier.
From S2P Require Import SaferWorker SaferWorkerThms.
Import LM LMSeq Json JsonThms.
Open Scope string_scope.

Section deployed.
Context `{UuidLib} `{Userlib} `{!UuidNew} `{!X509}.
Context {Db Session : Type} `{Statements Db} `{Statements Session} `{Transactions Db Session}.
Context `{!FenceStore Db}.

(** ** The environment *)

(** A worker process: the in-memory backends the client package starts with,
    the deployment, whether the client package is on its database and on its
    coordinator, whether a failure injection was asked for, and the clock. *)
Record process := mkProcess {
  pc_world : World;
  pc_deployment : RemoteEnv.Cluster (Db := Db);
  pc_storage : bool;
  pc_coordination : bool;
  pc_injected : bool;
  pc_clock : Z }.

Definition set_pc_storage (b : bool) (st : process) : process :=
  mkProcess (pc_world st) (pc_deployment st) b (pc_coordination st) (pc_injected st) (pc_clock st).
Definition set_pc_coordination (b : bool) (st : process) : process :=
  mkProcess (pc_world st) (pc_deployment st) (pc_storage st) b (pc_injected st) (pc_clock st).
Definition set_pc_deployment (d : RemoteEnv.Cluster (Db := Db)) (st : process) : process :=
  mkProcess (pc_world st) d (pc_storage st) (pc_coordination st) (pc_injected st) (pc_clock st).
Definition set_pc_world (w : World) (st : process) : process :=
  mkProcess w (pc_deployment st) (pc_storage st) (pc_coordination st) (pc_injected st) (pc_clock st).
Definition inject (st : process) : process :=
  mkProcess (pc_world st) (pc_deployment st) (pc_storage st) (pc_coordination st) true (pc_clock st).
Definition tick (st : process) : process :=
  mkProcess (pc_world st) (pc_deployment st) (pc_storage st) (pc_coordination st) (pc_injected st)
    (pc_clock st + 1).

(** The handles of the store and of the connection. *)
Definition the_store : N := 1.
Definition the_backend : N := 2.

Definition unanswered : error := EMsg "outside this environment".

(** The cluster [c] of the harness is up: what a process opens and dials is its
    database and its coordinator or nothing. A call of the client package runs
    on the backends that are in use; with one of the two replaced, and under an
    injected failure, it is not modelled and reported as an error of its own,
    and so is one after the connections were closed. *)
Definition deployed (c : SaferWorker.Cluster) (A : Type) (q : call A) (st : process) : process * A :=
  match q in call A return process * A with
  | OpenStore cfg => (st,
      if decide (cfg_URI cfg = MongoURI c ∧ cfg_Database cfg = Database c)
      then Ok the_store else Err unanswered)
  | CloseStore client => (set_pc_storage false st, ())
  | UseStorage client => (set_pc_storage (bool_decide (client = the_store)) st, ())
  | DialBackend cfg => (st,
      if decide (Remote.Address cfg = CoordAddress c) then Ok the_backend else Err unanswered)
  | CloseBackend conn => (set_pc_coordination false st, ())
  | UseCoordination conn => (set_pc_coordination (bool_decide (conn = the_backend)) st, ())
  | Client p =>
      if pc_injected st then (st, Err unanswered)
      else match pc_storage st, pc_coordination st with
      | true, true =>
          let '(d, r) := run (remote (Session := Session)) p (pc_deployment st) in (set_pc_deployment d st, r)
      | false, false => let '(w, r) := run local p (pc_world st) in (set_pc_world w st, r)
      | _, _ => (st, Err unanswered)
      end
  | WaitAtBarrier _ _ => (st, Ok ())
  | Now => (tick st, pc_clock st)
  | DisableFenceValidation | InstallPauseHook _ _ _ => (inject st, ())
  end.

(** ** Its client *)

Context `{!MongoLaws Db Session} `{!Up (Session := Session)} `{!UuidLaws} `{!X509Laws} `{!UserlibLaws}.
Context (ParseDuration : string → result Z).

(** A process that has installed both backends. *)
Definition online (w0 : World) (d : RemoteEnv.Cluster (Db := Db)) (t : Z) : process := mkProcess w0 d true true false t.

(** An operation of the client is the local one. *)
Lemma client_runs {A} c m (p : M A) k w d w0 t :
  mirrors (S k) w d → safe Fencing.Background p Start (Protocol.finished m) →
  ∃ x d', deployed c _ (Client p) (online w0 d t) = (online w0 d' t, (run local p (set_granted x w)).2) ∧
    mirrors k (run local p (set_granted x w)).1 d'.
Proof.
  intros Hm Hs. destruct (run_remote (Session := Session) Fencing.Background m p k w d) as (x & d' & E & Hm'); [done..|].
  exists x, d'. split; [|done]. cbn. by rewrite E.
Qed.

Lemma metadata_reads w u f content version :
  quiet w → has_file (store w) u f content version →
  ∃ w' chunks, run local (ReadFileMetadata u f) w = (w', Ok (version, chunks)) ∧ store w' = store w ∧
    (version ≤ max_uint64)%N ∧ (chunks ≤ max_uint64)%N.
Proof.
  intros Hq (nu & ne & ab & md & cs & Hr & Hf & _ & -> & ->). unfold ReadFileMetadata.
  operation w (Ok (md_Version md, md_ChunkCount md)) (λ s (_ : nat), s = store w).
  - intros w1 txn Hw1 (Hs1 & _ & _).
    destruct (run_locked w1 txn u f nu ne Fencing.Background SharedLock SharedLock)
      as (w2 & L & Hw2 & (Hs2 & _ & _) & Hc2 & Hrun);
      [done|done|rewrite Hs1; by eapply resolves_names|by left|by left|].
    exists w2, L. split_and!; [|done|by rewrite Hs2|done]. rewrite Hrun.
    assert (store w2 = store w) as Hs by (by rewrite Hs2).
    erewrite run_step by (eapply validate_run; [done|apply Hf|apply Hf|done]).
    erewrite run_step by (by eapply loadMetadata_run). done.
  - exists w', (md_ChunkCount md). destruct Hf. split_and!; try done; lia.
Qed.

(** What the operation of a specification makes of a file. *)
Definition intended (spec : WorkerSpec) (content : string) (version : N) : string * N :=
  if decide (ws_Op spec = "append") then (content +:+ ws_Content spec, (version + 1)%N)
  else if decide (ws_Op spec = "store") then (ws_Content spec, (version + 1)%N)
  else (content, version).

(** The file in the deployment: its documents are those of a world with it. *)
Definition has_there (k : nat) (d : RemoteEnv.Cluster (Db := Db)) (u : User) (f content : string) (version : N) : Prop :=
  ∃ w, mirrors k w d ∧ has_file (store w) u f content version.

Definition snapshots c (u : User) (f : string) (res : WorkerResult) : X process (WorkerResult * option error) :=
  m ← ask (deployed c) (Client (ReadFileMetadata u f));
  or_return res (EWrap "ReadFileMetadata") m (λ m, mret (set_Metadata m.1 m.2 res, None)).

Lemma snapshot_reports c k d w0 t u f content version res :
  has_there (S k) d u f content version →
  ∃ d' chunks, snapshots c u f res (online w0 d t) =
      (online w0 d' t, (set_Metadata version chunks res, None)) ∧
    has_there k d' u f content version ∧ (version ≤ max_uint64)%N ∧ (chunks ≤ max_uint64)%N.
Proof.
  intros (w & Hm & Hf).
  destruct (client_runs c false (ReadFileMetadata u f) k w d w0 t Hm) as (x & d' & E & Hm');
    [by apply ReadFileMetadata_safe|].
  assert (quiet (set_granted x w)) as Hq by (destruct (mirrors_quiet _ _ _ Hm); by split).
  destruct (metadata_reads (set_granted x w) u f content version Hq Hf) as (w' & chunks & Hrun & Hs & Hb1 & Hb2).
  rewrite Hrun in E, Hm'. exists d', chunks. unfold snapshots, mbind, X_bind, ask. rewrite E.
  split; [done|]. split; [|done]. exists w'. split; [exact Hm'|]. by rewrite Hs.
Qed.

(** The operation by itself. *)
Lemma operation_runs c d w0 t u w spec content version :
  mirrors 2 w d → fresh w 1 → (version < max_uint64)%N →
  has_file (store w) u (ws_File spec) content version →
  (ws_Content spec ≠ "" → ∃ d', deployed c _ (Client (AppendToFile u (ws_File spec) (Some (ws_Content spec))))
      (online w0 d t) = (online w0 d' t, Ok ()) ∧
    has_there 1 d' u (ws_File spec) (content +:+ ws_Content spec) (version + 1)) ∧
  (∃ d', deployed c _ (Client (StoreFile u (ws_File spec) (Some (ws_Content spec))))
      (online w0 d t) = (online w0 d' t, Ok ()) ∧
    has_there 1 d' u (ws_File spec) (ws_Content spec) (version + 1)) ∧
  ∃ d', deployed c _ (Client (LoadFile u (ws_File spec))) (online w0 d t) =
      (online w0 d' t, Ok (Some content)) ∧
    has_there 1 d' u (ws_File spec) content version.
Proof.
  intros Hm Hfr Hv Hf. set (f := ws_File spec) in *. set (y := ws_Content spec).
  pose proof (mirrors_quiet _ _ _ Hm) as Hq.
  assert (∀ x, quiet (set_granted x w)) as Hqx by (intros x; destruct Hq; by split).
  split; [|split].
  - intros Hne. destruct (client_runs c (bool_decide (slen (Some y) ≠ 0%nat)) (AppendToFile u f (Some y)) 1 w d w0 t Hm) as (x & d' & E & Hm');
      [by apply Append_safe|].
    destruct (append_appends (set_granted x w) u f Fencing.Background (Some y) content version)
      as (w' & Hrun & Hf' & _); [done|done|by eapply (fresh_same w)| |done|done|].
    { cbn. by destruct y. }
    unfold AppendToFile in E, Hm'. rewrite Hrun in E, Hm'. exists d'. split; [exact E|by exists w'].
  - destruct (client_runs c true (StoreFile u f (Some y)) 1 w d w0 t Hm) as (x & d' & E & Hm');
      [by apply StoreFile_safe|].
    destruct (store_overwrites (set_granted x w) u f Fencing.Background (Some y) content version)
      as (w' & Hrun & Hf' & _); [done|done|by eapply (fresh_same w)|done|done|].
    unfold StoreFile in E, Hm'. rewrite Hrun in E, Hm'. exists d'. split; [exact E|by exists w'].
  - destruct (client_runs c false (LoadFile u f) 1 w d w0 t Hm) as (x & d' & E & Hm'); [by apply Load_safe|].
    destruct (load_reads (set_granted x w) u f Fencing.Background content version)
      as (w' & Hrun & Hs & _); [done..|].
    unfold LoadFile in E, Hm'. rewrite Hrun in E, Hm'. exists d'. split; [exact E|].
    exists w'. split; [exact Hm'|]. by rewrite Hs.
Qed.

(** The operation, then the snapshot. *)
Lemma perform_reports c w d w0 t u spec content version res :
  mirrors 2 w d → fresh w 1 → (version < max_uint64)%N →
  ws_Op spec ∈ ["append"; "store"; "load"; "metadata"] →
  (ws_Op spec = "append" → ws_Content spec ≠ "") →
  has_file (store w) u (ws_File spec) content version →
  ∃ d' chunks, let '(content', version') := intended spec content version in
    SaferWorker.perform (deployed c) res (ws_Op spec) (ws_File spec) (ws_Content spec) u (online w0 d t) =
      (online w0 d' t, (set_Metadata version' chunks
        (if decide (ws_Op spec = "load") then set_Content content res else res), None)) ∧
    has_there 0 d' u (ws_File spec) content' version' ∧
    (version' ≤ max_uint64)%N ∧ (chunks ≤ max_uint64)%N.
Proof.
  intros Hm Hfr Hv Hop Hne Hf. set (f := ws_File spec) in *. set (y := ws_Content spec) in *.
  destruct (operation_runs c d w0 t u w spec content version Hm Hfr Hv Hf) as (Happ & Hsto & Hloa).
  fold f y in Happ, Hsto, Hloa.
  rewrite !elem_of_cons, elem_of_nil in Hop. unfold intended, SaferWorker.perform. fold (snapshots c u f).
  destruct Hop as [Hop|[Hop|[Hop|[Hop|[]]]]]; rewrite Hop; rewrite ?Hop in Hne;
    repeat first [rewrite decide_True by done|rewrite decide_False by done].
  - destruct (Happ (Hne eq_refl)) as (d1 & E & Hh).
    destruct (snapshot_reports c 0 d1 w0 t u f _ _ res Hh) as (d' & chunks & Hs & Hrest).
    exists d', chunks. split; [|exact Hrest]. rewrite <-Hs. unfold mbind, X_bind, ask. by rewrite E.
  - destruct Hsto as (d1 & E & Hh).
    destruct (snapshot_reports c 0 d1 w0 t u f _ _ res Hh) as (d' & chunks & Hs & Hrest).
    exists d', chunks. split; [|exact Hrest]. rewrite <-Hs. unfold mbind, X_bind, ask. by rewrite E.
  - destruct Hloa as (d1 & E & Hh).
    destruct (snapshot_reports c 0 d1 w0 t u f _ _ (set_Content content res) Hh) as (d' & chunks & Hs & Hrest).
    exists d', chunks. split; [|exact Hrest]. rewrite <-Hs. unfold mbind, X_bind, ask. by rewrite E.
  - destruct (snapshot_reports c 0 d w0 t u f content version res) as (d' & chunks & Hs & Hrest);
      [exists w; split; [by apply mirrors_pred|done]|]. by exists d', chunks.
Qed.

(** ** The whole process *)

(** Without settings of its own the worker connects as the cluster says. *)
Definition plain_env (Getenv : string → string) : Prop :=
  ∀ k, k ∈ ["SAFER_MONGO_TIMEOUT"; "SAFER_MONGO_TXN_TIMEOUT"; "SAFER_COORDINATOR_TIMEOUT"] → Getenv k = "".

(** A specification without failure injection. *)
Definition faultless (spec : WorkerSpec) : Prop := ws_PauseAt spec = "" ∧ ws_DisableFencing spec = false.

Lemma worker_configured c Getenv :
  MongoURI c ≠ "" → Database c ≠ "" → CoordAddress c ≠ "" → plain_env Getenv →
  (∃ cfg, MongoStore.ConfigFromEnv ParseDuration (worker_env c Getenv) = Ok (Some cfg) ∧
     cfg_URI (set_Database (Database c) cfg) = MongoURI c ∧
     cfg_Database (set_Database (Database c) cfg) = Database c) ∧
  ∃ cfg, Remote.ConfigFromEnv ParseDuration (worker_env c Getenv) = Ok (Some cfg) ∧
    Remote.Address cfg = CoordAddress c.
Proof.
  intros Hm Hdb Hc Hp. split.
  - unfold MongoStore.ConfigFromEnv, envTimeout, envTransactionTimeout, worker_env.
    repeat first [rewrite decide_True by done|rewrite decide_False by done].
    rewrite !Hp by set_solver. cbn. eexists. split; [done|]. unfold set_Database.
    by rewrite decide_True.
  - unfold Remote.ConfigFromEnv, worker_env.
    repeat first [rewrite decide_True by done|rewrite decide_False by done].
    rewrite Hp by set_solver. cbn. by eexists.
Qed.

Lemma timed_deployed c res body w0 d t d' t' r :
  body (set_StartedAt t res) (online w0 d (t + 1)) = (online w0 d' t', r) →
  timed (deployed c) res body (online w0 d t) = (online w0 d' (t' + 1), (set_EndedAt t' r.1, r.2)).
Proof.
  intros Hb. unfold timed, mbind, X_bind, ask.
  change (deployed c Z Now (online w0 d t)) with (online w0 d (t + 1), t). cbv beta iota. by rewrite Hb.
Qed.

Lemma login_runs c k w d w0 t username password u :
  mirrors k w d → (run local (GetUser username password) w).2 = Ok u →
  ∃ d', deployed c _ (Client (GetUser username password)) (online w0 d t) = (online w0 d' t, Ok u) ∧
    mirrors k (run local (GetUser username password) w).1 d'.
Proof.
  intros Hm Hu. unfold GetUser.
  destruct (run_unlocked (Session := Session) (GetUserContext Fencing.Background username password) [] k w d Hm)
    as (d' & E & Hm'); [apply GetUser_unlocked|by intros name ?%elem_of_nil|].
  exists d'. split; [|done]. cbn -[GetUserContext]. rewrite E. by rewrite <-Hu.
Qed.

Lemma run_flags_deployed c Getenv spec barrierAddress w0 d t u d1 d2 res' :
  MongoURI c ≠ "" → Database c ≠ "" → CoordAddress c ≠ "" → plain_env Getenv → faultless spec →
  deployed c _ (Client (GetUser (ws_User spec) (ws_Password spec))) (online w0 d t) = (online w0 d1 t, Ok u) →
  SaferWorker.perform (deployed c) (mkResult (ws_Name spec) (ws_Op spec) false "" "" 0 0 t 0) (ws_Op spec)
    (ws_File spec) (ws_Content spec) u (online w0 d1 (t + 1)) = (online w0 d2 (t + 1), (res', None)) →
  run_flags ParseDuration (deployed c) (worker_env c Getenv) (spec_flags c spec barrierAddress "")
    (mkProcess w0 d false false false t) =
    (mkProcess w0 d2 false false false (t + 2), (set_EndedAt (t + 1) res', None)).
Proof.
  intros Hm Hdb Hc Hp [Hpa Hdf] Hauth Hperf.
  destruct (worker_configured c Getenv Hm Hdb Hc Hp) as [(mc & Hmc & Hu & Hd) (cc & Hcc & Ha)].
  unfold run_flags, mbind, X_bind. cbn [spec_flags fl_disableFencing fl_pauseAt].
  rewrite Hdf, Hpa. rewrite decide_False by naive_solver. cbv beta iota zeta delta [mret X_ret].
  unfold run_worker, configured. rewrite Hmc. cbn [or_return].
  unfold mbind, X_bind, ask. cbn [spec_flags fl_db]. cbn [deployed]. rewrite decide_True by done.
  cbn [or_return]. unfold deferred, mbind, X_bind. rewrite Hcc. cbn [or_return deployed].
  rewrite decide_True by done. cbn [or_return fl_user fl_password spec_flags].
  match goal with |- context [set_pc_coordination (bool_decide (the_backend = the_backend)) ?st] =>
    replace (set_pc_coordination (bool_decide (the_backend = the_backend)) st) with (online w0 d t)
      by (vm_compute; reflexivity) end.
  cbn [deployed] in Hauth. rewrite Hauth. cbn [or_return fl_barrier].
  assert (∀ P (dc : Decision P) addr name (st : process),
    (if dc then ask (deployed c) (WaitAtBarrier addr name) else mret (Ok ())) st = (st, Ok ())) as Hb
    by (by intros P []).
  unfold ask in Hb. rewrite Hb. cbn [or_return].
  erewrite timed_deployed by exact Hperf. cbv beta iota zeta delta [mret X_ret deployed]. cbn [fst snd].
  unfold online, set_pc_storage, set_pc_coordination. cbn.
  by replace (t + 2)%Z with (t + 1 + 1)%Z by lia.
Qed.

(** C38. A worker process does what it was asked to and says so. Take a test
    cluster that is up ([Up]) and otherwise idle, whose MongoDB holds the
    account and the file of the user, and a specification without failure
    injection of one of the four operations, an append being of at least one
    byte and, for a load, the file being valid UTF-8 (JSON mangles other
    bytes); then the process configures itself, opens MongoDB, dials the
    coordinator, puts the client package on both, logs in and performs the
    operation through them. MongoDB is left with the file at the content and
    version the operation means (an append or an overwrite at the next
    version, a load or a snapshot without a change) and nobody with a lock,
    both connections are closed again, and the harness reads back an OK result
    with exactly that version, the content for a load, and the two clock
    readings around the operation. *)
Theorem saferworker_reports c Getenv stderr spec barrierAddress w0 w d t u content version :
  mirrors 2 w d → fresh w 1 → (version < max_uint64)%N →
  ws_Op spec ∈ ["append"; "store"; "load"; "metadata"] →
  (ws_Op spec = "append" → ws_Content spec ≠ "") →
  (ws_Op spec = "load" → valid_utf8 content = true) →
  valid_utf8 (ws_Name spec) = true → faultless spec → (0 ≤ t < int64_max)%Z →
  MongoURI c ≠ "" → Database c ≠ "" → CoordAddress c ≠ "" → plain_env Getenv →
  run local (GetUser (ws_User spec) (ws_Password spec)) w = (w, Ok u) →
  has_file (store w) u (ws_File spec) content version →
  ∃ d' st' chunks, let '(content', version') := intended spec content version in
    runWorker ParseDuration (deployed c) c Getenv stderr spec barrierAddress
        (mkProcess w0 d false false false t) =
      (mkProcess w0 d' false false false (t + 2),
       Ok (mkResult (ws_Name spec) (ws_Op spec) true "" (if decide (ws_Op spec = "load") then content else "")
         version' chunks t (t + 1)%Z)) ∧
    rests_on d' st' ∧ has_file st' u (ws_File spec) content' version'.
Proof.
  intros Hmi Hfr Hv Hop Hne Hld Hname Hfl Ht Hm Hdb Hc Hp Hauth Hf.
  destruct (login_runs c 2 w d w0 t (ws_User spec) (ws_Password spec) u Hmi) as (d1 & Hlog & Hm1);
    [by rewrite Hauth|]. rewrite Hauth in Hm1. cbn [fst] in Hm1.
  destruct (perform_reports c w d1 w0 (t + 1) u spec content version
    (mkResult (ws_Name spec) (ws_Op spec) false "" "" 0 0 t 0)) as (d2 & chunks & Hperf); [done..|].
  destruct (intended spec content version) as [content' version'].
  destruct Hperf as (Hperf & (w' & Hm' & Hf') & Hb1 & Hb2). exists d2, (store w'), chunks.
  split; [|split; [by eapply mirrors_rests|done]].
  pose proof (run_flags_deployed c Getenv spec barrierAddress w0 d t u d1 d2 _ Hm Hdb Hc Hp Hfl Hlog Hperf) as Hrun.
  assert (valid_utf8 (ws_Op spec) = true) as Hopv.
  { rewrite !elem_of_cons, elem_of_nil in Hop. by destruct Hop as [->|[->|[->|[->|[]]]]]. }
  erewrite runWorker_report; [|exact Hrun|].
  - do 2 f_equal. unfold report. by case_decide.
  - case_decide; split; cbn; try done; auto; lia.
Qed.

End deployed.
