(* ===== verification/CrossRuns.v ===== *)
(** * Concrete runs across processes

    Two workers at the barrier, and a worker of Bob's that appends to his file:
    the theorems of files Barrier and SaferWorkerThms applied to runs in which
    their hypotheses hold. *)

From S2P Require Import Prelude Json JsonThms Libs LockManager LockManagerInv LockManagerSeq.
From S2P Require Import Fencing SaferTypes Effects Client Sharing LocalEnv FileModel FileThms CreateThms.
From S2P Require Import FenceStore Coordinator MongoStore MongoThms MongoRuns RemoteGuard RemoteEnv.
From S2P Require Import RemoteRefines RemoteRuns Worker ClientRuns Barrier SaferWorker SaferWorkerThms.
From S2P Require Import SaferWorkerRemote.
Import Json JsonThms LM LMSeq Toy MapMongo.
Open Scope string_scope.

(** ** Two workers at the barrier *)

Module BarrierRuns.
Import Barrier.

Definition name (i : nat) : string := if decide (i = 0%nat) then "a" else "b".
Definition through : peer := mkPeer Passed "" "" Arrived.
Definition done2 : barrier := mkBarrier [through; through] [] Returned.
(** The second worker has passed, the first is still to be released. *)
Definition half : barrier :=
  mkBarrier [mkPeer Announced "" "" Arrived; through] [] (Releasing [0%nat]).

Ltac peer f i := eapply nsteps_l; [eapply (st_peer _ _ f i); [set_solver|reflexivity|reflexivity]|].
Ltac sends i := eapply nsteps_l; [eapply (st_send _ _ i); reflexivity|].
Ltac releases := eapply nsteps_l; [eapply st_release; reflexivity|].

Lemma half_open : nsteps (step name) 15 (newBarrier 2) half.
Proof.
  peer dial 1%nat. peer (announce "b") 1%nat. peer accept 1%nat. peer read 1%nat. sends 1%nat. releases.
  peer dial 0%nat. peer accept 0%nat. peer (announce "a") 0%nat. peer read 0%nat. sends 0%nat. releases.
  releases. releases. peer receive 1%nat. apply nsteps_O.
Qed.

Lemma barrier_holds_witness :
  (∀ j q, peers half !! j = Some q → pr_reader q = Arrived ∧ pr_phase q ≠ Setup ∧ pr_phase q ≠ Dialled) ∧
  ∀ i p, peers half !! i = Some p → pr_reader p = Sending → ∃ b', send i half = Some b'.
Proof.
  destruct (barrier_holds name 2 half) as [H1 H2].
  - apply rtc_nsteps. exists 15%nat. eapply (nsteps_congruence id (any name)); [|exact half_open].
    intros x y Hxy. by left.
  - split; [|exact H2]. apply H1. exists 1%nat, through. by split.
Defined.

Lemma barrier_opens_witness :
  nsteps (step name) 18 (newBarrier 2) done2 ∧ all_through done2 ∧ (18 ≤ 8 * 2 + 2)%nat.
Proof.
  assert (nsteps (step name) 18 (newBarrier 2) done2) as Hr.
  { apply (nsteps_trans 15 3 _ half); [exact half_open|]. releases. peer receive 0%nat. releases.
    apply nsteps_O. }
  destruct (barrier_opens name 2 18 done2 Hr) as (Hle & [Hall _] & _).
  split; [exact Hr|]. split; [by apply Hall|exact Hle].
Defined.

End BarrierRuns.

(** ** Bob's worker *)

Module WorkerRun.

Definition joined : World := (run local (InitUser "bob" "pw") world_empty).1.
Definition bob : User :=
  match (run local (InitUser "bob" "pw") world_empty).2 with Ok u => u | Err _ => alice end.
Definition bob_notes : UUID :=
  match getNameSpaceEntryUUID "bob" "notes" with Ok u => u | Err _ => uuid_Nil end.
Definition shelf : World := (run local (StoreFileContext bob ctx0 "notes" (Some "hi")) joined).1.

Lemma joined_draws i : (i < 14)%nat → drawn_uuid joined i ≠ uuid_Nil ∧ drawn_uuid joined i ≠ bob_notes ∧
  Datastore (store joined) !! drawn_uuid joined i = None.
Proof. intros Hi. do 14 (destruct i as [|i]; [split_and!; by vm_compute|]). lia. Qed.

Lemma shelf_file : quiet shelf ∧ has_file (store shelf) bob "notes" "hi" 1.
Proof.
  destruct (store_creates joined bob "notes" ctx0 (Some "hi") bob_notes "DS")
    as (w' & Hr & (ne & ab & md & cs & Hc) & _ & Hs).
  - split; [apply alone_new|done].
  - reflexivity.
  - split; [by vm_compute|by exists 6%N|by vm_compute].
  - vm_compute. reflexivity.
  - vm_compute. discriminate.
  - reflexivity.
  - split; [apply (bool_decide_unpack _); by vm_compute|intros i Hi; by apply joined_draws..].
  - intros i Hi. by apply joined_draws.
  - unfold shelf. rewrite Hr. split; [by apply Hs|exact (created_has_file _ _ _ _ _ _ _ _ _ Hc)].
Qed.

Lemma shelf_fresh : fresh shelf 1.
Proof.
  split.
  - apply (bool_decide_unpack _). by vm_compute.
  - intros i Hi. assert (i = 0%nat) as -> by lia. by vm_compute.
  - intros i Hi. assert (i = 0%nat) as -> by lia. by vm_compute.
Qed.

Lemma bob_logs_in : run local (GetUser "bob" "pw") shelf = (shelf, Ok bob).
Proof.
  rewrite (surjective_pairing (run local (GetUser "bob" "pw") shelf)). unfold GetUser.
  rewrite Worker.getUser_world. f_equal.
Qed.

Definition no_durations (raw : string) : result Z := Err (EMsg raw).
Definition cluster : SaferWorker.Cluster := SaferWorker.mkCluster "mongodb://db" "safer_xp_1" "127.0.0.1:7000".
Definition appends : WorkerSpec := mkSpec "w1" "append" "bob" "pw" "notes" " there" "" false false.
Definition stranger : WorkerSpec := mkSpec "w2" "load" "eve" "pw" "notes" "" "" false true.

Lemma shelf_mirrored : mirrors 2 shelf (cluster_of shelf).
Proof.
  assert (txnIDCounter shelf = 1%N) as Hc by (by vm_compute).
  apply cluster_mirrors; [apply shelf_file|rewrite Hc|]; unfold max_uint64, max_int64; lia.
Qed.

(** Bob's process, whose own in-memory backends are empty, appends to the file
    in the deployment. *)
Definition started : process := mkProcess world_empty (cluster_of shelf) false false false 1000.

Lemma saferworker_reports_witness : ∃ d' st' chunks,
  runWorker no_durations (deployed (Session := Session) cluster) cluster (λ _, "") "" appends
      "127.0.0.1:7001" started =
    (mkProcess world_empty d' false false false 1002,
     Ok (mkResult "w1" "append" true "" "" 2 chunks 1000 1001)) ∧
  rests_on d' st' ∧ has_file st' bob "notes" "hi there" 2.
Proof.
  destruct shelf_file as [Hq Hf].
  apply (saferworker_reports (Session := Session) no_durations cluster (λ _, "") "" appends "127.0.0.1:7001"
    world_empty shelf (cluster_of shelf) 1000 bob "hi" 1);
    [exact shelf_mirrored|exact shelf_fresh|reflexivity|set_solver|discriminate|discriminate
    |reflexivity|by split|by vm_compute|discriminate|discriminate|discriminate|by intros k
    |exact bob_logs_in|exact Hf].
Defined.

(** An environment in which Eve has no account; the harness learns why. *)
Definition no_account (A : Type) (c : call A) (_ : unit) : unit * A :=
  ((), match c in call A return A with
  | OpenStore _ | DialBackend _ => Ok 0%N
  | CloseStore _ | CloseBackend _ | UseStorage _ | UseCoordination _ | DisableFenceValidation
  | InstallPauseHook _ _ _ => ()
  | Client _ => Err (EMsg "user account does not exits")
  | WaitAtBarrier _ _ => Ok ()
  | Now => 0%Z
  end).

Lemma report_reaches_harness_witness :
  runWorker no_durations no_account cluster (λ _, "") "" stranger "" () =
    ((), Ok (mkResult "w2" "load" false "GetUser: user account does not exits" "" 0 0 0 0)).
Proof.
  destruct (report_reaches_harness no_durations no_account cluster (λ _, "") "" stranger "" () ()
    (mkResult "w2" "load" false "" "" 0 0 0 0, Some (EWrap "GetUser" (EMsg "user account does not exits"))))
    as (Hr & _).
  - vm_compute. reflexivity.
  - split; by vm_compute.
  - exact Hr.
Defined.

End WorkerRun.
