(* ===== verification/ToolRuns.v ===== *)
(** * Concrete runs of the worker service and of the load generator

    The theorems of files Worker and LoadgenThms applied to requests,
    configurations and runs in which their hypotheses hold. *)

From S2P Require Import Prelude Json JsonThms Libs LockManager LockManagerInv LockManagerSeq.
From S2P Require Import Fencing SaferTypes Effects Client LocalEnv FileModel FileThms.
From S2P Require Import Worker Loadgen LoadgenThms ClientRuns.
Import Json JsonThms LM LMSeq Toy.
Open Scope string_scope.

(** ** The worker *)

Module WorkerRuns.
Import Worker.

(** Two requests and one slot. *)
Definition load_alice : rpc := RpcLoadFile "alice" "pw" "notes".

(** The handler after it waited for its slot. *)
Definition waited (e : option error) : wprog (result slice) :=
  match serveRpc None load_alice with WAcquire k => k e | p => p end.

Definition one_inside : service :=
  mkService (mkLimiter 1 1) (<[0%nat := waited None]>
    (<[1%nat := serveRpc None load_alice]> (<[0%nat := serveRpc None load_alice]> ∅))).

Lemma one_inside_reached : rtc service_step (started 1) one_inside.
Proof.
  eapply rtc_l; [by apply (st_arrive 0 None load_alice)|].
  eapply rtc_l; [by apply (st_arrive 1 None load_alice)|].
  eapply rtc_l; [|apply rtc_refl]. apply st_work.
  by apply (wk_acquire 0 waited (mkLimiter 1 1)).
Qed.

Lemma admission_bounded_witness :
  (size (filter (λ x, deriving x.2) (sv_handlers one_inside)) ≤ 1)%nat ∧
  (∀ i k, sv_handlers one_inside !! i = Some (WRelease k) →
     is_Some (release_slot (sv_limiter one_inside))) ∧
  ((∃ i p, sv_handlers one_inside !! i = Some p ∧ ¬ returned p) → ∃ s', work one_inside s') ∧
  ((∀ i p, sv_handlers one_inside !! i = Some p → returned p) →
     lim_sem (sv_limiter one_inside) = 0%nat).
Proof. apply (admission_bounded 1 one_inside). apply one_inside_reached. Defined.

(** Nobody has signed up. *)
Lemma unauthenticated_no_effect_witness : ∃ cs r,
  wrun local ctx0 None (serveRpc None load_alice) world_empty = (world_empty, cs, r) ∧
  world_empty = world_empty ∧ ∃ e, r = Err e ∧ is_status e.
Proof.
  eexists _, _. split; [reflexivity|].
  apply (unauthenticated_no_effect world_empty ctx0 None None load_alice world_empty
    (wrun local ctx0 None (serveRpc None load_alice) world_empty).1.2).
  - by left.
  - exists alice. by eexists.
  - right. intros u. by vm_compute.
  - reflexivity.
Defined.

End WorkerRuns.

(** ** The load generator *)

Module LoadgenRuns.
Import Loadgen.

Definition demo_flags : flags := mkFlags " host:1, " 1 1 0 "same-file-writes" 7 2.
Definition demo : Config := mkConfig ["host:1"] 1 1 0 "same-file-writes" 1 2.

Lemma demo_parsed : parseConfig (Ok demo_flags) = Ok demo.
Proof. vm_compute. reflexivity. Qed.

Definition answered : nat → reply := λ _, mkReply (Some "w-1") (Ok "").

Lemma demo_setup : setup demo (λ _, 5%N) answered answered = ({[ "w-1" := 2%Z ]}, Ok [newUser 5 0]).
Proof. vm_compute. reflexivity. Qed.

Lemma parseConfig_wf_witness :
  config_wf demo ∧ is_Some (callerUser [newUser 5 0] 3) ∧
  is_Some (runOne_request demo true (zeros (ContentSize demo))).
Proof. apply (parseConfig_wf (Ok demo_flags)); [apply demo_parsed|reflexivity]. Defined.

(** One caller makes its one append, is given [answer], and finishes. *)
Definition done_run (tally : gmap string Z) (k : counters) (answer : result string) : run :=
  mkRun k [mkCaller Finished []] tally [runOne_count (AppendRpc (content demo)) answer (mkAccount 0 [])].

Definition failure : error := EDeadlineExceeded.

Lemma demo_run tally :
  nsteps (step demo) 7 (launched demo tally)
    (done_run tally (mkCounters (-1) 1 0 1 [error_Error failure] []) (Err failure)).
Proof.
  eapply nsteps_l; [eapply (s_take demo 0 false); reflexivity|].
  eapply nsteps_l; [eapply (s_call demo 0 _ true _ 0 _ None (Err failure) 9); reflexivity|].
  eapply nsteps_l; [eapply (s_attempt demo 0); reflexivity|].
  eapply nsteps_l; [eapply (s_outcome demo 0); reflexivity|].
  eapply nsteps_l; [eapply (s_record demo 0); reflexivity|].
  eapply nsteps_l; [eapply (s_take demo 0 false); reflexivity|].
  eapply nsteps_l; [eapply (s_merge demo 0); reflexivity|]. apply nsteps_O.
Qed.

Lemma run_terminates_witness : ∃ n r,
  (Z.of_nat n ≤ 5 * Count demo + 2 * Concurrency demo)%Z ∧
  (¬ joined r → ∃ r', step demo r r') ∧
  (joined r → let k := rn_counters r in
     Z.of_nat n = (5 * Count demo + 2 * Concurrency demo)%Z ∧
     attempted k = Count demo ∧ (succeeded k + failed k)%Z = Count demo ∧
     Z.of_nat (length (latencies k)) = succeeded k ∧
     Z.of_nat (length (firstErrors k)) = Z.min 5 (failed k) ∧
     remaining k = (- Concurrency demo)%Z).
Proof.
  exists 7%nat. eexists.
  apply (run_terminates (Ok demo_flags) demo ∅ 7); [apply demo_parsed|done|apply demo_run].
Defined.

(** The append was applied while its answer was an error. *)
Definition lost_run : run :=
  done_run {[ "w-1" := 2%Z ]} (mkCounters (-1) 1 0 1 [error_Error failure] []) (Err failure).

Lemma oracle_flags_lost_answers_witness :
  checkOracles demo (verification demo <$> zip (zip [newUser 5 0] (rn_accounts lost_run)) [Ok [1%nat]]) =
    ([wrongLength demo (newUser 5 0) 0 (zeros 4)], []) ∧
  (fst <$> (fst <$> zip (zip [newUser 5 0] (rn_accounts lost_run)) [Ok [1%nat]])) = [newUser 5 0] ∧
  Forall (λ a, successfulAppends a = Z.of_nat (sum_list_with acknowledged (ac_asked a)))
    (rn_accounts lost_run).
Proof.
  apply (oracle_flags_lost_answers (Ok demo_flags) demo (λ _, 5%N) answered answered
    {[ "w-1" := 2%Z ]} [newUser 5 0] lost_run [Ok [1%nat]]).
  - apply demo_parsed.
  - discriminate.
  - apply demo_setup.
  - apply rtc_nsteps_2 with 7%nat, demo_run.
  - repeat constructor.
  - reflexivity.
  - repeat constructor. by intros copies [= <-].
Defined.

(** An acknowledged append that is missing is reported; together with one
    whose answer was lost it is not. *)
Example lost_append_caught :
  flagged demo (newUser 5 0, mkAccount 1 [Ok ""], Ok [0%nat]) =
    Some (wrongLength demo (newUser 5 0) 1 (zeros 2)) ∧
  flagged demo (newUser 5 0, mkAccount 1 [Ok ""; Err failure], Ok [0%nat; 1%nat]) = None.
Proof. split; vm_compute; reflexivity. Qed.

End LoadgenRuns.
